(* ===== verification/_CoqProject ===== *)
-Q . S2P
Prelude.v
Crc16.v
Protocol.v
Router.v
Blocks.v
Fips180.v
Sha256.v
Hmac.v
Ota.v
Sha512.v
Fe25519.v
X25519.v
Ed25519.v
MeshPacket.v
PacketId.v
Transport.v
ChaCha20.v
Poly1305.v
Gf256.v
Ctr.v
Aes.v
AesMin.v
Keyed.v
Onion.v
Wire.v
PbMessage.v
Base64.v
Channel.v
Encryption.v
MeshSerial.v
MeshHandler.v
MeshNode.v
SlotMap.v
Nvs.v
Identity.v
Contact.v
Kiss.v
RNode.v
Session.v
SessionChain.v
SessionStore.v
Rng.v
Power.v
Battery.v
Text.v
Core.v
