(* ===== verification/Prelude.v ===== *)
(** * LunarCore: a verification development of lunarcore/lunar

    LORA_FW is a collection of LoRa firmware. Its own core logic is LunarCore
    (src/lunarcore/lunar, C translated by hand from the Rust program in
    src/lunarcore/src): a bridge node that speaks MeshCore, Meshtastic and RNode /
    Reticulum over one radio. The rest of the repository is board bring-up code around
    vendor libraries, third-party programs and unfinished ports. This library models the
    modules of LunarCore that decide, frame, route, authenticate and remember; the
    sources are named below relative to src/lunarcore/lunar.

    ** Parts and how they interact

    Bytes from the host (BLE, WiFi, USB) reach protocol_router.c, which detects the
    protocol of each transport and decides who controls the radio; MeshCore frames are
    cut out by the parser of protocol.c, KISS frames and RNode commands by rnode.c,
    Meshtastic frames by the handler of meshtastic/mod.c, which answers the phone and makes
    radio packets of protocol buffers (meshtastic/protobuf.c) encrypted under a channel
    (meshtastic/channel.c, encryption.c). Radio packets are built and parsed by
    meshtastic/packet.c (or transport.c for the native wire format),
    with identifiers from packet_id.c, and pass a duplicate cache and a hop limit. Peers
    are known by the addresses and the lookup table of transport.c and by the contacts of
    contact.c; session.c keeps a ratchet per peer, onion.c wraps a payload for several
    hops. The crypto directory supplies hashing, key derivation, ciphers, authenticated
    encryption, key agreement and signatures; identity.c keeps the node's keys, rng.c its
    random numbers, ota.c its firmware. main.c joins the modules: it hands each byte of the
    serial port to the detector and then to the parser of the protocol, carries out the
    frames on the radio and passes received packets back to the host.

    - [Prelude] (this file): C integers as [Z] with their wrap-around, bit operators,
      byte strings as little- and big-endian integers, slices, the fixed-capacity vectors
      of vec_helpers.c, constant_time_eq of crypto/mod.c, searches in slot tables; the
      tactics and hint databases of the library.
    - [Crc16], [Protocol]: protocol.c. [frame_encode] and the byte-at-a-time parser
      [frame_parser_feed] as a function from parser and byte to parser and optional frame.
    - [Router]: protocol_router.h, protocol_router.c. [ProtocolDetector] with
      [protocol_detector_feed], and [ProtocolRouter], three transports and the claim on
      the radio; [router_step] composes every operation.
    - [Blocks]: the buffering shared by sha256_update and poly1305_update and the padding
      the two SHA-2 functions share, over any block function: streaming equals folding over
      the blocks of the whole input.
    - [Fips180]: SHA-256 and SHA-512 after the text of FIPS 180-4, with nothing of the C:
      constants from the roots of the primes, padding in bits, parsing, schedule, rounds.
    - [Sha256], [Hmac]: crypto/sha256.c, hmac.c, hkdf.c. [Digest] is the interface the
      clients use; [sha256_digest] discharges it.
    - [Sha512], [Fe25519], [X25519], [Ed25519]: crypto/x25519.c, ed25519.c. The field in ten
      limbs of [int64_t], which both files contain; the ladder; the Edwards curve, its
      encodings, scalars and signatures.
    - [Ota]: ota.c. The update manager, with the update calls of the platform as a class.
    - [ChaCha20], [Poly1305]: crypto/chacha20.c, poly1305.c, with the AEAD.
    - [Gf256], [Ctr], [Aes], [AesMin]: crypto/aes.c. Multiplication in GF(256) and the
      S-box as inverse and affine map; counter mode over any block function; the two
      implementations of the file.
    - [Keyed]: what sessions and onion packets share: [kdf], the class [BlockCipher] with
      the two AES-256 implementations as instances.
    - [MeshPacket]: meshtastic/packet.h, packet.c. Header layout, ring-buffer duplicate
      cache, routing decision, statistics and the retransmission table.
    - [PacketId]: packet_id.c. The device state is a record of the atomics, the RTC
      registers and the two hardware inputs (random numbers and clock, as streams).
    - [Transport]: transport.c. Addresses, wire packets, signal quality, lookup table.
    - [Onion]: onion.h, onion.c. Routes, the layers of a packet, wrapping and unwrapping,
      with X25519 as an argument.
    - [Wire], [PbMessage]: meshtastic/protobuf.c, first codec. The wire format as a state
      and error monad over the cursor; Data, Position and User with their decoders.
    - [Base64], [Channel], [Encryption]: meshtastic/base64.c, channel.h, channel.c,
      encryption.h, encryption.c. Channels with their keys and the set of eight; contexts,
      integrity codes, the public-key scheme and the key store. The key derivations are the
      class [MeshKdf], X25519 the class [KeyAgreement].
    - [MeshSerial], [MeshHandler]: meshtastic/mod.h, mod.c. The serial frame parser and the
      response queue; the handler, from ToRadio messages to radio packets and back, over
      the class [MeshModules] of the functions mod.c calls, with the laws
      [MeshModulesLaws], in which a radio packet may lose bytes at its head. [MeshNode]
      instantiates both with channel.c, packet.c and protobuf.c, where one byte is lost.
    - [SlotMap], [Nvs]: tables of optional entries as finite maps; the key-value storage
      of the platform as an interface.
    - [Identity]: identity.c. Keys derived from a seed, their sealed record in flash, the
      manager and the functions over the global one.
    - [Contact]: contact.h, contact.c. The signed introduction, the contact's storage
      form, the 64-slot store and its persistence.
    - [Kiss], [RNode]: rnode.c. KISS framing and its parser; the command handler with the
      radio configuration, the lock and the statistics.
    - [Session], [SessionChain], [SessionStore]: session.c. The operations; chains of
      messages between two peers; the table of sessions and its storage.
    - [Rng], [Power], [Battery], [Text]: rng.c, power.c with power.h, battery.c with
      led_controller.c, the number formats of main.c and uart_helpers.c. What the hardware
      registers and the platform answer are arguments.
    - [Core]: main.c. [lunar_core_process_serial_byte] and the handlers of frames and
      received packets over the modules above; main.c declares its own types beside theirs,
      and its names are read as theirs.

    ** How the code is rendered

    A struct is a Record, an enum an Inductive, a function that writes through pointers
    returns the new struct (paired with its result), an error code or NULL is an option or
    a sum. uint8_t ... uint64_t are [Z], reduced with [u8] ... [u64] where the C stores a
    result; [fits w x] states the range; size_t is 32 bits. An array with a length is a
    list; no modelled operation but the copies of [Wire] reads past the length, so what
    lies behind it is not represented, and there a read past the input is a result of its
    own. Loops over fixed arrays are structural recursion or [find_first]. Calls of one
    module to a hash, a signature, a key agreement or a storage service are arguments,
    under the classes [Digest], [BlockCipher], [Contact.Signature], [MeshKdf],
    [KeyAgreement] and [MeshModules] or the hypothesis [Nvs.reads_back]. The theorems of
    [Contact], [Ota], [Onion], [Session] and [Encryption] hold for any signature scheme and
    key agreement with the laws they name; the x25519.c and ed25519.c of the repository do
    not have them all, as [X25519] and [Ed25519] show.

    ** What the theorems show

    - Framing: every stream of encoded frames, with any noise between them that holds no
      0xAA byte, is parsed back exactly; whatever the parser emits ends the bytes received
      so far, with a correct CRC; a frame with one byte changed is not accepted; the data
      buffer is never overrun. A stream of KISS frames is parsed back; the RNode handler
      keeps its settings in range and a lock freezes them.
    - Routing: a transport that holds priority keeps it until it is released, and got it
      by a byte of its own while its detector was locked; the radio's protocol is sticky;
      detection answers only to the announcement bytes; locks have hysteresis.
    - Cryptography: SHA-256 and SHA-512 compute the digest of [Fips180] for any split of
      the input, HMAC and HKDF their RFCs (HKDF up to lengths where the block count wraps
      in 32 bits, [hkdf_refines_rfc5869]), ChaCha20 is a seekable stream cipher, the 26-bit limb
      arithmetic of Poly1305 computes the RFC 8439 tag without overflow (unless the
      accumulator modulo 2^130 - 5 is below 5, where [poly1305_wrong_tag] shows a wrong
      tag), open inverts seal and accepts only the right tag. AES encryption is FIPS 197
      ([aes_refines_fips197]) and decryption inverts it ([aes_decrypts]); the second key
      expansion is not the standard one ([second_aes_schedule]); counter mode is a key
      stream.
    - Curve25519: the ladder on limbs is the Montgomery ladder on integers, with the wrong
      coefficient and without the last byte of the point ([x25519_montgomery],
      [last_byte_of_point], [doubling_coefficient]); the group operations on limbs are the
      affine law of the Edwards curve ([edwards_group_law]); what the functions of keys and
      signatures compute and accept is given in full ([ed25519_api], [decompression]).
    - Firmware update: only firmware whose header is signed and whose hash matches is
      booted, whatever the sequence of calls; an update in pieces of any size completes.
    - Mesh packets: build then parse, hop limits end forwarding, the cache is a bounded
      queue and drops repetitions, retransmissions are bounded, identifiers drawn in one
      session are distinct across any sequence of deep sleeps.
    - Addresses and contacts: the lookup table and the contact store refine finite maps,
      encodings round-trip, the signature covers the hello as long as it fits its buffer.
    - Sessions: messages of a chain are delivered in any order within the window of
      skipped keys, each key once; a forged message burns the key of the genuine one; the
      two roles of a handshake derive different chains; the table and its storage.
    - The board: the identity survives restarts ([identity_survives_reboot]); random words
      lose nothing of their sources and the health test can never pass
      ([rng_never_healthy]); wake-up pins are a map of eight; the battery's percentage is
      monotone; numbers printed are read back.
    - The core: a MeshCore host reads one answer per request, in order and with its number
      ([host_dialogue]); the first frame of a host is lost ([first_frame_lost]); a protocol
      once found is kept; the radio listens again after every frame; a received packet
      reaches the host.
    - Onion packets: delivery along the route, every node seeing its next hop only;
      reuse of the key stream between packets; the hint that no tag covers.
    - Protocol buffers: the varint routines of the repository agree, messages that fit
      are decoded to themselves, those that do not fit are cut without notice; decoding
      ends on inputs without long varints and hangs on a packet of seven bytes.

    - Base64 is RFC 4648 in both alphabets. Channels decrypt what they encrypt, and no two
      packets of different id or sender share a counter block; encryption.c agrees with
      channel.c; a packet encrypted for a node is read by that node only with its key.
    - The Meshtastic handler: a stream of serial frames is parsed back; a packet the
      phone sends reaches the other node with the right sender, destination and id, and its
      sealed payload without the first byte, which packet.c loses ([toradio_delivery], with
      the repository's own channel.c, packet.c and protobuf.c); a configuration request is answered in
      full ([config_download]); packet ids do not repeat; every state reachable by any calls
      is well-formed.

    Where the code falls short of its intent the theorem states what it does: the payload
    that loses its first byte ([packet_build_parse]), reused 64-bit identifiers
    ([packet_ids_64_reused]), stale lookup entries ([unregister_leaves_stale_entry]), the
    fields dropped from long contacts ([contact_hello_roundtrip], [signature_covers_hello]),
    frames lost by the serial parser ([serial_frames_lost]), packets of 128 bytes and more
    refused from the phone ([long_packets_refused]), the sessions, onion packets and protocol
    buffers named above.

    ** Bounds and fuel

    Fuel is the input length in [process_blocks], [ctr_loop] and the key-stream loops of
    [ChaCha20]: each iteration consumes at least one byte, so the length suffices, and the
    refinement theorems (stated without fuel) would fail if it did not. [gf_mul] runs 8
    rounds, one per bit, [write_varint_loop] 10, one per seven bits, [skip_loop] at most
    the 100 skipped messages session.c allows. The field loop of the decoders ([fields])
    takes its fuel as an argument: [decoders_end] gives what is enough, and
    [hostile_packet_hangs] an input for which nothing is. The
    scan of a ToRadio packet ([scan]) has one unit per byte. Everything else recurses on
    lists of the arrays' sizes (32 cache entries, 8 pending acknowledgements, 64
    addresses, 64 contacts, 3 transports).

    ** Not modelled

    Drivers, display, command line, start-up and the endless loop (I/O). The second codec of
    protobuf.c (NodeInfo, telemetry, MeshPacket, ToRadio, FromRadio): mod.c does not call
    it. The identity functions of main.c and its encrypt_for_tx, whose onion branch is a
    comment. meshtastic_lite, a second implementation nothing of LunarCore calls. Memory
    allocation succeeds. Floating point other than the battery's: airtime and telemetry.
    The atomics of packet_id.c and rng.c are sequential here: a second thread is not
    represented. *)
From stdpp Require Export prelude.
From Stdlib Require Export ZArith Lia ZifyNat.
#[global] Open Scope Z_scope.

(** * Machine integers *)

(** An unsigned C integer is a [Z]; arithmetic wraps to the width where the
    code stores the result ([uint8_t], [uint16_t], [uint32_t], [uint64_t]). *)
Definition u8 (x : Z) : Z := x mod 0x100.
Definition u16 (x : Z) : Z := x mod 0x10000.
Definition u32 (x : Z) : Z := x mod 0x100000000.
Definition u64 (x : Z) : Z := x mod 0x10000000000000000.

(** [int8_t], [int16_t] and [int32_t] conversions (two's complement). *)
Definition i8 (x : Z) : Z := (x + 0x80) mod 0x100 - 0x80.
Definition i16 (x : Z) : Z := (x + 0x8000) mod 0x10000 - 0x8000.
Definition i32 (x : Z) : Z := (x + 0x80000000) mod 0x100000000 - 0x80000000.

Lemma i32_small x : -0x80000000 <= x < 0x80000000 -> i32 x = x.
Proof. intros. unfold i32. rewrite Z.mod_small by lia. lia. Qed.

(** [fits w x]: [x] is a value of a [w]-bit unsigned integer. *)
Definition fits (w x : Z) : Prop := 0 <= x < 2 ^ w.
Abbreviation byte_ok := (fits 8).
Abbreviation bytes_ok := (Forall (fits 8)).

#[global] Instance fits_dec w x : Decision (fits w x).
Proof. unfold fits. apply _. Defined.

(** The bit operators of C, in a scope of their own. *)
Declare Scope cint_scope.
Delimit Scope cint_scope with cint.
Infix ".&" := Z.land (at level 40, left associativity) : cint_scope.
Infix ".^" := Z.lxor (at level 45, left associativity) : cint_scope.
Infix ".|" := Z.lor (at level 50, left associativity) : cint_scope.
Infix ".<<" := Z.shiftl (at level 36, left associativity) : cint_scope.
Infix ".>>" := Z.shiftr (at level 36, left associativity) : cint_scope.
#[global] Open Scope cint_scope.

(** [a[i]] on an array whose contents are a list; every use in the
    development is in range. *)
Definition arr (l : list Z) (i : nat) : Z := default 0 (l !! i).
Notation "l .[ i ]" := (arr l i) (at level 1, left associativity, format "l .[ i ]") : cint_scope.

(** [memcpy(out, l + off, n)]. *)
Definition slice (l : list Z) (off n : nat) : list Z := take n (drop off l).

(** * Tactics and hint databases *)

Create HintDb word discriminated.
Create HintDb bytes discriminated.
Create Rewrite HintDb bytes_len.

(** Linear arithmetic over the wrap-around functions. *)
Ltac unfold_words := unfold u8, u16, u32, u64, i8, i16, fits in *.
Ltac words_lia := unfold_words; Z.to_euclidean_division_equations; lia.
Ltac div_lia := zify; Z.to_euclidean_division_equations; lia.


(** [Forall (fits 8)] of a list built from literals, appends and hypotheses. *)
Ltac solve_bytes :=
  repeat first
    [ assumption
    | apply Forall_nil_2
    | apply Forall_cons_2; [solve [auto with word | words_lia]|]
    | apply Forall_app_2 ];
  auto with word.

(** * Ranges and bits *)

Lemma fits_u8 x : fits 8 (u8 x).    Proof. words_lia. Qed.
Lemma fits_u16 x : fits 16 (u16 x). Proof. words_lia. Qed.
Lemma fits_u32 x : fits 32 (u32 x). Proof. words_lia. Qed.
Lemma fits_u64 x : fits 64 (u64 x). Proof. unfold fits, u64. apply Z.mod_pos_bound. lia. Qed.
#[export] Hint Resolve fits_u8 fits_u16 fits_u32 fits_u64 : word.

Lemma u8_small x : fits 8 x -> u8 x = x.    Proof. apply Z.mod_small. Qed.
Lemma u16_small x : fits 16 x -> u16 x = x. Proof. apply Z.mod_small. Qed.
Lemma u32_small x : fits 32 x -> u32 x = x. Proof. apply Z.mod_small. Qed.
Lemma u64_small x : fits 64 x -> u64 x = x. Proof. apply Z.mod_small. Qed.

Lemma fits_mono w w' x : fits w x -> 0 <= w <= w' -> fits w' x.
Proof.
  unfold fits. intros Hx Hw. pose proof (Z.pow_le_mono_r 2 w w'). lia.
Qed.

Lemma fits_bits w x :
  0 <= w -> fits w x <-> 0 <= x /\ forall i, w <= i -> Z.testbit x i = false.
Proof.
  intros Hw. unfold fits. split.
  - intros Hx. split; [lia|]. intros i Hi.
    rewrite <- (Z.mod_small x (2 ^ w)) by done.
    by apply Z.mod_pow2_bits_high.
  - intros [H0 Hb]. split; [done|].
    assert (x mod 2 ^ w = x) as <-; [|by apply Z.mod_pos_bound; lia].
    apply Z.bits_inj'. intros i Hi. destruct (decide (i < w)).
    + by apply Z.mod_pow2_bits_low.
    + rewrite Z.mod_pow2_bits_high by lia. symmetry. apply Hb. lia.
Qed.

Lemma fits_testbit w x i : fits w x -> 0 <= w <= i -> Z.testbit x i = false.
Proof. intros Hx ?. apply (fits_bits w) in Hx; [|lia]. apply Hx. lia. Qed.

Lemma fits_land w x y : 0 <= w -> fits w x -> 0 <= y -> fits w (x .& y).
Proof.
  intros Hw Hx Hy. apply fits_bits; [done|]. split.
  - apply Z.land_nonneg. lia.
  - intros i Hi. rewrite Z.land_spec, (fits_testbit w x) by (done || lia). done.
Qed.
Lemma fits_lor w x y : 0 <= w -> fits w x -> fits w y -> fits w (x .| y).
Proof.
  intros Hw Hx Hy. apply fits_bits; [done|]. split.
  - apply Z.lor_nonneg. unfold fits in *. lia.
  - intros i Hi. by rewrite Z.lor_spec, (fits_testbit w x), (fits_testbit w y) by (done || lia).
Qed.
Lemma fits_lxor w x y : 0 <= w -> fits w x -> fits w y -> fits w (x .^ y).
Proof.
  intros Hw Hx Hy. apply fits_bits; [done|]. split.
  - apply Z.lxor_nonneg. unfold fits in *. lia.
  - intros i Hi. by rewrite Z.lxor_spec, (fits_testbit w x), (fits_testbit w y) by (done || lia).
Qed.
#[export] Hint Resolve fits_land fits_lor fits_lxor : word.

Lemma fits_shiftr w k x : 0 <= k <= w -> fits w x -> fits (w - k) (x .>> k).
Proof.
  intros Hk Hx. rewrite Z.shiftr_div_pow2 by lia. unfold fits in *.
  assert (2 ^ w = 2 ^ k * 2 ^ (w - k)) as Hp.
  { rewrite <- Z.pow_add_r by lia. f_equal. lia. }
  split; [apply Z.div_pos; lia | apply Z.div_lt_upper_bound; lia].
Qed.

Lemma land_ff x : x .& 0xFF = u8 x.
Proof. change 0xFF with (Z.ones 8). by rewrite Z.land_ones. Qed.

Lemma shiftr_8 x : x .>> 8 = x / 256.
Proof. by rewrite Z.shiftr_div_pow2. Qed.

Lemma testbit_u16 x i : Z.testbit (u16 x) i = (i <? 16) && Z.testbit x i.
Proof.
  unfold u16. change 0x10000 with (2 ^ 16). destruct (Z.ltb_spec i 16).
  - destruct (decide (0 <= i)).
    + by rewrite Z.mod_pow2_bits_low.
    + by rewrite !Z.testbit_neg_r by lia.
  - by rewrite Z.mod_pow2_bits_high.
Qed.

(** Disjoint bit fields: [|] is [+]. *)
Lemma lor_shiftl_add w a b : 0 <= w -> fits w a -> a .| (b .<< w) = a + 2 ^ w * b.
Proof.
  intros Hw Ha. rewrite Z.mul_comm, <- Z.shiftl_mul_pow2 by done.
  assert (a .& (b .<< w) = 0) as H0.
  { apply Z.bits_inj'. intros i Hi. rewrite Z.land_spec, Z.bits_0.
    destruct (decide (i < w)).
    - by rewrite Z.shiftl_spec_low, andb_false_r by done.
    - by rewrite (fits_testbit w a) by (done || lia). }
  by rewrite Z.add_nocarry_lxor, Z.lxor_lor by done.
Qed.

(** * Byte strings as integers *)

(** Little-endian value of a byte string, and its inverse on [n] bytes. *)
Fixpoint le_val (l : list Z) : Z :=
  match l with
  | [] => 0
  | b :: l => b + 256 * le_val l
  end.

Fixpoint le_bytes (n : nat) (v : Z) : list Z :=
  match n with
  | O => []
  | S n => u8 v :: le_bytes n (v / 256)
  end.

Definition be_val (l : list Z) : Z := le_val (reverse l).
Definition be_bytes (n : nat) (v : Z) : list Z := reverse (le_bytes n v).

Lemma length_le_bytes n v : length (le_bytes n v) = n.
Proof. revert v. induction n as [|n IH]; intros v; simpl; by rewrite ?IH. Qed.

Lemma le_bytes_ok n v : bytes_ok (le_bytes n v).
Proof. revert v. induction n; intros v; simpl; constructor; auto with word. Qed.

Lemma pow8_S n : 2 ^ (8 * Z.of_nat (S n)) = 256 * 2 ^ (8 * Z.of_nat n).
Proof. rewrite <- (Z.pow_add_r 2 8) by lia. f_equal. lia. Qed.

Lemma le_val_bound l : bytes_ok l -> fits (8 * Z.of_nat (length l)) (le_val l).
Proof.
  induction 1 as [|b l Hb _ IH]; [done|].
  simpl length. simpl le_val. unfold fits in *. rewrite pow8_S. lia.
Qed.

Lemma le_val_le_bytes n v : le_val (le_bytes n v) = v mod 2 ^ (8 * Z.of_nat n).
Proof.
  revert v. induction n as [|n IH]; intros v; [by rewrite Z.mod_1_r|].
  simpl le_bytes. simpl le_val. rewrite IH, pow8_S, Z.rem_mul_r by lia. done.
Qed.

Lemma le_bytes_le_val l : bytes_ok l -> le_bytes (length l) (le_val l) = l.
Proof.
  induction 1 as [|b l Hb _ IH]; [done|]. simpl.
  assert (u8 (b + 256 * le_val l) = b) as -> by words_lia.
  assert ((b + 256 * le_val l) / 256 = le_val l) as -> by words_lia.
  by rewrite IH.
Qed.

Lemma le_val_fits n v : fits (8 * Z.of_nat n) v -> le_val (le_bytes n v) = v.
Proof. intros Hv. rewrite le_val_le_bytes. by apply Z.mod_small. Qed.

Lemma le_val_inj l1 l2 :
  bytes_ok l1 -> bytes_ok l2 -> length l1 = length l2 -> le_val l1 = le_val l2 -> l1 = l2.
Proof.
  intros H1 H2 Hl Hv. rewrite <- (le_bytes_le_val l1), <- (le_bytes_le_val l2) by done.
  by rewrite Hl, Hv.
Qed.

Lemma le_val_app a b : le_val (a ++ b) = le_val a + 2 ^ (8 * Z.of_nat (length a)) * le_val b.
Proof.
  induction a as [|x a IH]; [simpl; lia|]. cbn [app le_val length]. rewrite IH, pow8_S. ring.
Qed.

Lemma le_bytes_inj n v w :
  fits (8 * Z.of_nat n) v -> fits (8 * Z.of_nat n) w -> le_bytes n v = le_bytes n w -> v = w.
Proof. intros Hv Hw H. rewrite <- (le_val_fits n v), <- (le_val_fits n w) by done. by rewrite H. Qed.

Lemma length_be_bytes n v : length (be_bytes n v) = n.
Proof. unfold be_bytes. by rewrite length_reverse, length_le_bytes. Qed.
Lemma be_bytes_ok n v : bytes_ok (be_bytes n v).
Proof. unfold be_bytes. apply Forall_reverse, le_bytes_ok. Qed.
Lemma be_val_fits n v : fits (8 * Z.of_nat n) v -> be_val (be_bytes n v) = v.
Proof. intros. unfold be_val, be_bytes. rewrite reverse_involutive. by apply le_val_fits. Qed.

Lemma be_bytes_mod n v : be_bytes n (v mod 2 ^ (8 * Z.of_nat n)) = be_bytes n v.
Proof.
  unfold be_bytes. f_equal. apply le_val_inj; try apply le_bytes_ok; [by rewrite !length_le_bytes|].
  rewrite !le_val_le_bytes, Z.mod_mod; [done|]. apply Z.pow_nonzero; lia.
Qed.

#[export] Hint Resolve le_bytes_ok be_bytes_ok : word.
#[export] Hint Rewrite length_le_bytes length_be_bytes : bytes_len.

(** The shapes in which the sources read an integer off a buffer. *)
Lemma be_val_app a b : be_val (a ++ b) = be_val a * 2 ^ (8 * Z.of_nat (length b)) + be_val b.
Proof. unfold be_val. rewrite reverse_app, le_val_app, length_reverse. lia. Qed.

Lemma le16_eq b0 b1 :
  byte_ok b0 -> byte_ok b1 -> b0 .| (b1 .<< 8) = le_val [b0; b1].
Proof. intros. rewrite lor_shiftl_add by done. simpl. lia. Qed.

Lemma fits_le2 b0 b1 : byte_ok b0 -> byte_ok b1 -> fits 16 (le_val [b0; b1]).
Proof. intros. apply (le_val_bound [b0; b1]). solve_bytes. Qed.

Lemma le32_eq b0 b1 b2 b3 :
  byte_ok b0 -> byte_ok b1 -> byte_ok b2 -> byte_ok b3 ->
  b0 .| (b1 .<< 8) .| (b2 .<< 16) .| (b3 .<< 24) = le_val [b0; b1; b2; b3].
Proof.
  intros. rewrite (lor_shiftl_add 8) by done.
  rewrite (lor_shiftl_add 16) by (done || words_lia).
  rewrite (lor_shiftl_add 24) by (done || words_lia). simpl. lia.
Qed.

Lemma le64_eq b0 b1 b2 b3 b4 b5 b6 b7 :
  bytes_ok [b0; b1; b2; b3; b4; b5; b6; b7] ->
  b0 .| (b1 .<< 8) .| (b2 .<< 16) .| (b3 .<< 24) .| (b4 .<< 32) .| (b5 .<< 40) .| (b6 .<< 48)
  .| (b7 .<< 56) = le_val [b0; b1; b2; b3; b4; b5; b6; b7].
Proof.
  rewrite !Forall_cons. intros (?&?&?&?&?&?&?&?&_).
  rewrite (lor_shiftl_add 8), (lor_shiftl_add 16), (lor_shiftl_add 24), (lor_shiftl_add 32),
    (lor_shiftl_add 40), (lor_shiftl_add 48), (lor_shiftl_add 56) by (done || (unfold fits in *; lia)).
  cbn [le_val]. lia.
Qed.

Lemma be32_eq b0 b1 b2 b3 :
  byte_ok b0 -> byte_ok b1 -> byte_ok b2 -> byte_ok b3 ->
  (b0 .<< 24) .| (b1 .<< 16) .| (b2 .<< 8) .| b3 = be_val [b0; b1; b2; b3].
Proof.
  intros. transitivity (b3 .| (b2 .<< 8) .| (b1 .<< 16) .| (b0 .<< 24)).
  - apply Z.bits_inj'. intros i Hi. rewrite !Z.lor_spec.
    destruct (Z.testbit (b0 .<< 24) i), (Z.testbit (b1 .<< 16) i), (Z.testbit (b2 .<< 8) i),
      (Z.testbit b3 i); done.
  - by apply le32_eq.
Qed.

(** The shapes in which they write one. *)
Lemma u8_shiftr_le v : u8 (v .>> 8) = u8 (v / 256).
Proof. by rewrite shiftr_8. Qed.

Lemma wr16_eq v : [u8 v; u8 (v .>> 8)] = le_bytes 2 v.
Proof. simpl. by rewrite shiftr_8. Qed.

Lemma shiftr_div k m v : 0 <= k -> 2 ^ k = m -> v .>> k = v / m.
Proof. intros ? <-. by apply Z.shiftr_div_pow2. Qed.

Ltac norm_le_bytes :=
  cbn [le_bytes]; rewrite ?land_ff;
  rewrite ?(shiftr_div 8 (2^8)), ?(shiftr_div 16 (2^16)), ?(shiftr_div 24 (2^24)),
    ?(shiftr_div 32 (2^32)), ?(shiftr_div 40 (2^40)), ?(shiftr_div 48 (2^48)),
    ?(shiftr_div 56 (2^56)) by lia;
  rewrite ?Z.div_div by lia.

Lemma u8_u8 x : u8 (u8 x) = u8 x.
Proof. apply Z.mod_mod. lia. Qed.

Lemma wr32_eq v :
  [u8 (v .& 0xFF); u8 ((v .>> 8) .& 0xFF); u8 ((v .>> 16) .& 0xFF); u8 ((v .>> 24) .& 0xFF)]
  = le_bytes 4 v.
Proof. norm_le_bytes. by rewrite !u8_u8. Qed.

Lemma wr64_eq v :
  [u8 (v .& 0xFF); u8 ((v .>> 8) .& 0xFF); u8 ((v .>> 16) .& 0xFF); u8 ((v .>> 24) .& 0xFF);
   u8 ((v .>> 32) .& 0xFF); u8 ((v .>> 40) .& 0xFF); u8 ((v .>> 48) .& 0xFF);
   u8 ((v .>> 56) .& 0xFF)]
  = le_bytes 8 v.
Proof. norm_le_bytes. by rewrite !u8_u8. Qed.

Lemma be32_wr_eq v :
  [u8 (v .>> 24); u8 (v .>> 16); u8 (v .>> 8); u8 v] = be_bytes 4 v.
Proof. unfold be_bytes. norm_le_bytes. done. Qed.

(** [x ^ (x >> k)] and the multiplication by an odd number, the steps of the mixing functions, lose
    nothing. *)
Lemma xorshift_inj k x y :
  0 < k -> 0 <= x -> 0 <= y -> x .^ (x .>> k) = y .^ (y .>> k) -> x = y.
Proof.
  intros Hk Hx Hy He. apply Z.lxor_eq_0_iff. set (z := x .^ y).
  assert (0 <= z) as Hz by (apply Z.lxor_nonneg; lia).
  assert (z = z .>> k) as Hs.
  { unfold z. rewrite Z.shiftr_lxor. apply Z.lxor_eq_0_iff.
    rewrite <- (Z.lxor_nilpotent (x .^ (x .>> k))). rewrite He at 2.
    rewrite !Z.lxor_assoc. f_equal. rewrite <- !Z.lxor_assoc, (Z.lxor_comm y). done. }
  rewrite Z.shiftr_div_pow2 in Hs by lia.
  pose proof (Z.pow_gt_1 2 k). destruct (decide (z = 0)) as [->|]; [done|].
  pose proof (Z.div_lt z (2 ^ k)). lia.
Qed.

Lemma mul_odd_inj c c' x y :
  (c * c') mod 2 ^ 32 = 1 -> fits 32 x -> fits 32 y -> u32 (x * c) = u32 (y * c) -> x = y.
Proof.
  intros Hc Hx Hy He.
  assert (forall z, fits 32 z -> u32 (u32 (z * c) * c') = z) as Hinv.
  { intros z Hz. unfold u32. rewrite Z.mul_mod_idemp_l, <- Z.mul_assoc by lia.
    rewrite <- Z.mul_mod_idemp_r by lia. change 0x100000000 with (2 ^ 32).
    rewrite Hc, Z.mul_1_r. by apply Z.mod_small. }
  rewrite <- (Hinv x), <- (Hinv y) by done. by rewrite He.
Qed.

(** * Finite checks *)

Fixpoint zseq (start : Z) (n : nat) : list Z :=
  match n with
  | O => []
  | S n => start :: zseq (start + 1) n
  end.
Definition range (n : nat) : list Z := zseq 0 n.

Lemma elem_of_zseq n s x : s <= x < s + Z.of_nat n -> List.In x (zseq s n).
Proof.
  revert s. induction n as [|n IH]; intros s Hx; simpl; [lia|].
  destruct (decide (s = x)); [by left|right]. apply IH. lia.
Qed.

(** A boolean property checked on [0 .. n-1] by computation holds there. *)
Lemma range_check n (P : Z -> bool) :
  forallb P (range n) = true -> forall x, 0 <= x < Z.of_nat n -> P x = true.
Proof.
  intros HP x Hx. rewrite List.forallb_forall in HP. apply HP.
  apply elem_of_zseq. lia.
Qed.

Lemma range_check2 n m (P : Z -> Z -> bool) :
  forallb (fun x => forallb (P x) (range m)) (range n) = true ->
  forall x y, 0 <= x < Z.of_nat n -> 0 <= y < Z.of_nat m -> P x y = true.
Proof.
  intros HP x y Hx Hy. apply (range_check m); [|done].
  by apply (range_check n (fun x => forallb (P x) (range m))).
Qed.

(** * Slices and fixed-capacity vectors *)

Lemma length_slice l off n : (off + n <= length l)%nat -> length (slice l off n) = n.
Proof. intros. unfold slice. rewrite length_take, length_drop. lia. Qed.

Lemma slice_ok l off n : bytes_ok l -> bytes_ok (slice l off n).
Proof. intros. unfold slice. by apply Forall_take, Forall_drop. Qed.

Lemma slice_app_l l1 l2 off n :
  (off + n <= length l1)%nat -> slice (l1 ++ l2) off n = slice l1 off n.
Proof.
  intros. unfold slice. rewrite drop_app_le by lia. rewrite take_app_le; [done|].
  rewrite length_drop. lia.
Qed.

Lemma slice_app_r l1 l2 off n :
  (length l1 <= off)%nat -> slice (l1 ++ l2) off n = slice l2 (off - length l1) n.
Proof. intros. unfold slice. by rewrite drop_app_ge. Qed.

Lemma slice_cut pre x post l off n :
  l = pre ++ x ++ post -> length pre = off -> length x = n -> slice l off n = x.
Proof.
  intros -> <- <-. rewrite slice_app_r, Nat.sub_diag by done. unfold slice.
  by rewrite drop_0, take_app_length.
Qed.

Lemma arr_cut pre b post l i : l = pre ++ b :: post -> length pre = i -> l.[i] = b.
Proof. intros -> <-. unfold arr. by rewrite list_lookup_middle. Qed.

Lemma arr_byte l i : bytes_ok l -> byte_ok l.[i].
Proof.
  intros Hl. unfold arr. destruct (l !! i) as [x|] eqn:E; [|by cbn; unfold fits].
  exact (Forall_lookup_1 _ _ _ _ Hl E).
Qed.

Lemma slice_all l n : n = length l -> slice l 0 n = l.
Proof. intros ->. unfold slice. rewrite drop_0. by apply take_ge. Qed.

Lemma last_cons_default (x d : Z) l : List.last (x :: l) d = List.last l x.
Proof.
  revert x d. induction l as [|y l IH]; intros x d; [done|]. transitivity (List.last (y :: l) d); [done|].
  by rewrite !IH.
Qed.

#[export] Hint Resolve slice_ok : word.

(** The [data]/[len] structs ([Vec], [HeaplessVec*], [Vec128] ...): the list is
    [data[0 .. len)]. No operation reads past [len]. *)
Definition vec_push (cap : nat) (v : list Z) (b : Z) : option (list Z) :=
  if (cap <=? length v)%nat then None else Some (v ++ [b]).

Definition vec_extend (cap : nat) (v d : list Z) : option (list Z) :=
  if (cap <? length v + length d)%nat then None else Some (v ++ d).

Lemma vec_extend_Some cap v d :
  (length v + length d <= cap)%nat -> vec_extend cap v d = Some (v ++ d).
Proof. unfold vec_extend. intros. case_match eqn:E; [apply Nat.ltb_lt in E; lia|done]. Qed.

Lemma vec_extend_None cap v d :
  (cap < length v + length d)%nat -> vec_extend cap v d = None.
Proof. unfold vec_extend. intros. case_match eqn:E; [done|apply Nat.ltb_ge in E; lia]. Qed.

Lemma vec_extend_inv cap v d v' :
  vec_extend cap v d = Some v' -> v' = v ++ d /\ (length v' <= cap)%nat.
Proof.
  unfold vec_extend. case_match eqn:E; [done|]. intros. simplify_eq.
  apply Nat.ltb_ge in E. rewrite length_app. split; [done|lia].
Qed.

Lemma vec_push_Some cap v b : (length v < cap)%nat -> vec_push cap v b = Some (v ++ [b]).
Proof. unfold vec_push. intros. case_match eqn:E; [apply Nat.leb_le in E; lia|done]. Qed.

(** * XOR of byte strings *)

Definition xor_bytes (d k : list Z) : list Z := zip_with Z.lxor d k.

Lemma length_xor_bytes d k : length (xor_bytes d k) = (length d `min` length k)%nat.
Proof. apply length_zip_with. Qed.

Lemma xor_bytes_ok d k : bytes_ok d -> bytes_ok k -> bytes_ok (xor_bytes d k).
Proof.
  intros Hd. revert k. induction Hd as [|x d Hx _ IH]; intros k Hk; [constructor|].
  destruct Hk; simpl; constructor; auto with word. by apply fits_lxor.
Qed.

Lemma xor_bytes_involutive d k :
  (length d <= length k)%nat -> xor_bytes (xor_bytes d k) k = d.
Proof.
  revert k. induction d as [|x d IH]; intros [|y k] Hl; simpl in *; try done; [lia|].
  rewrite Z.lxor_assoc, Z.lxor_nilpotent, Z.lxor_0_r. f_equal. apply IH. lia.
Qed.

(** ** Constant-time comparison

    [constant_time_eq] of crypto/mod.c, session.c, onion.c and packet.c: the
    accumulated difference of two buffers of the same length. *)
Definition ct_diff (a b : list Z) : Z :=
  foldl (fun r xy => r .| (xy.1 .^ xy.2)) 0 (zip a b).

Definition constant_time_eq (a b : list Z) : bool :=
  if (length a =? length b)%nat then ct_diff a b =? 0 else false.

Lemma ct_diff_acc l r :
  foldl (fun r xy => r .| (xy.1 .^ xy.2)) r l = 0 <-> r = 0 /\ Forall (fun xy => xy.1 = xy.2 :> Z) l.
Proof.
  revert r. induction l as [|[x y] l IH]; intros r; simpl.
  - rewrite Forall_nil. tauto.
  - rewrite IH, Forall_cons, Z.lor_eq_0_iff, Z.lxor_eq_0_iff. simpl. tauto.
Qed.

Lemma constant_time_eq_spec a b : constant_time_eq a b = true <-> a = b.
Proof.
  unfold constant_time_eq, ct_diff. case_match eqn:E.
  - apply Nat.eqb_eq in E. rewrite Z.eqb_eq, ct_diff_acc. split; [|intros ->].
    + intros [_ H]. revert b E H. induction a as [|x a IH]; intros [|y b] E H; try done.
      inversion H; simplify_eq/=. f_equal. eauto.
    + split; [done|]. clear E. induction b; simpl; by constructor.
  - apply Nat.eqb_neq in E. split; [done|]. intros ->. done.
Qed.

(** * Slot tables

    The fixed arrays of entries with an [occupied] flag: [find_first] is the
    loop [for (i = 0; i < N; i++) if (P(entries[i])) ...]. *)
Fixpoint find_first {A} (P : A -> bool) (l : list A) : option (nat * A) :=
  match l with
  | [] => None
  | x :: l => if P x then Some (O, x) else prod_map S id <$> find_first P l
  end.

Lemma find_first_inv {A} (P : A -> bool) l i x :
  find_first P l = Some (i, x) ->
  l !! i = Some x /\ P x = true /\ (forall j y, (j < i)%nat -> l !! j = Some y -> P y = false).
Proof.
  revert i. induction l as [|a l IH]; intros i; simpl; [done|].
  destruct (P a) eqn:Ha; [intros [= <- <-]; repeat split; try done; intros; lia|].
  destruct (find_first P l) as [[k z]|]; simpl; [|done].
  intros [= <- <-]. destruct (IH k eq_refl) as (? & ? & Hf). repeat split; try done.
  intros [|j] y Hj Hy; simpl in *; [congruence|]. eapply Hf; [|done]. lia.
Qed.

Lemma find_first_intro {A} (P : A -> bool) l i x :
  l !! i = Some x -> P x = true ->
  (forall j y, (j < i)%nat -> l !! j = Some y -> P y = false) ->
  find_first P l = Some (i, x).
Proof.
  revert i. induction l as [|a l IH]; intros [|i] Hl Hx Hf; simpl in *; try done.
  - injection Hl as ->. by rewrite Hx.
  - rewrite (Hf O a) by (done || lia). rewrite (IH i); try done.
    intros j y Hj Hy. apply (Hf (S j)); [lia|done].
Qed.

Lemma find_first_None {A} (P : A -> bool) l :
  find_first P l = None <-> (forall x, x ∈ l -> P x = false).
Proof.
  induction l as [|a l IH]; simpl.
  - split; [intros _ x Hx; by apply not_elem_of_nil in Hx|done].
  - destruct (P a) eqn:Ha.
    + split; [done|]. intros Hf. rewrite Hf in Ha by left. done.
    + rewrite fmap_None, IH. split.
      * intros Hf x [->|]%elem_of_cons; auto.
      * intros Hf x Hx. apply Hf. by right.
Qed.
