(* ===== verification/Crc16.v ===== *)
(** * CRC-16 of the host serial protocol: the table, [crc16] and its algebra
    (lunarcore/lunar/protocol.c) *)
From S2P Require Import Prelude.

(** ** CRC-16 *)

Definition CRC16_TABLE : list Z :=
  [0x0000; 0x1021; 0x2042; 0x3063; 0x4084; 0x50A5; 0x60C6; 0x70E7;
   0x8108; 0x9129; 0xA14A; 0xB16B; 0xC18C; 0xD1AD; 0xE1CE; 0xF1EF;
   0x1231; 0x0210; 0x3273; 0x2252; 0x52B5; 0x4294; 0x72F7; 0x62D6;
   0x9339; 0x8318; 0xB37B; 0xA35A; 0xD3BD; 0xC39C; 0xF3FF; 0xE3DE;
   0x2462; 0x3443; 0x0420; 0x1401; 0x64E6; 0x74C7; 0x44A4; 0x5485;
   0xA56A; 0xB54B; 0x8528; 0x9509; 0xE5EE; 0xF5CF; 0xC5AC; 0xD58D;
   0x3653; 0x2672; 0x1611; 0x0630; 0x76D7; 0x66F6; 0x5695; 0x46B4;
   0xB75B; 0xA77A; 0x9719; 0x8738; 0xF7DF; 0xE7FE; 0xD79D; 0xC7BC;
   0x48C4; 0x58E5; 0x6886; 0x78A7; 0x0840; 0x1861; 0x2802; 0x3823;
   0xC9CC; 0xD9ED; 0xE98E; 0xF9AF; 0x8948; 0x9969; 0xA90A; 0xB92B;
   0x5AF5; 0x4AD4; 0x7AB7; 0x6A96; 0x1A71; 0x0A50; 0x3A33; 0x2A12;
   0xDBFD; 0xCBDC; 0xFBBF; 0xEB9E; 0x9B79; 0x8B58; 0xBB3B; 0xAB1A;
   0x6CA6; 0x7C87; 0x4CE4; 0x5CC5; 0x2C22; 0x3C03; 0x0C60; 0x1C41;
   0xEDAE; 0xFD8F; 0xCDEC; 0xDDCD; 0xAD2A; 0xBD0B; 0x8D68; 0x9D49;
   0x7E97; 0x6EB6; 0x5ED5; 0x4EF4; 0x3E13; 0x2E32; 0x1E51; 0x0E70;
   0xFF9F; 0xEFBE; 0xDFDD; 0xCFFC; 0xBF1B; 0xAF3A; 0x9F59; 0x8F78;
   0x9188; 0x81A9; 0xB1CA; 0xA1EB; 0xD10C; 0xC12D; 0xF14E; 0xE16F;
   0x1080; 0x00A1; 0x30C2; 0x20E3; 0x5004; 0x4025; 0x7046; 0x6067;
   0x83B9; 0x9398; 0xA3FB; 0xB3DA; 0xC33D; 0xD31C; 0xE37F; 0xF35E;
   0x02B1; 0x1290; 0x22F3; 0x32D2; 0x4235; 0x5214; 0x6277; 0x7256;
   0xB5EA; 0xA5CB; 0x95A8; 0x8589; 0xF56E; 0xE54F; 0xD52C; 0xC50D;
   0x34E2; 0x24C3; 0x14A0; 0x0481; 0x7466; 0x6447; 0x5424; 0x4405;
   0xA7DB; 0xB7FA; 0x8799; 0x97B8; 0xE75F; 0xF77E; 0xC71D; 0xD73C;
   0x26D3; 0x36F2; 0x0691; 0x16B0; 0x6657; 0x7676; 0x4615; 0x5634;
   0xD94C; 0xC96D; 0xF90E; 0xE92F; 0x99C8; 0x89E9; 0xB98A; 0xA9AB;
   0x5844; 0x4865; 0x7806; 0x6827; 0x18C0; 0x08E1; 0x3882; 0x28A3;
   0xCB7D; 0xDB5C; 0xEB3F; 0xFB1E; 0x8BF9; 0x9BD8; 0xABBB; 0xBB9A;
   0x4A75; 0x5A54; 0x6A37; 0x7A16; 0x0AF1; 0x1AD0; 0x2AB3; 0x3A92;
   0xFD2E; 0xED0F; 0xDD6C; 0xCD4D; 0xBDAA; 0xAD8B; 0x9DE8; 0x8DC9;
   0x7C26; 0x6C07; 0x5C64; 0x4C45; 0x3CA2; 0x2C83; 0x1CE0; 0x0CC1;
   0xEF1F; 0xFF3E; 0xCF5D; 0xDF7C; 0xAF9B; 0xBFBA; 0x8FD9; 0x9FF8;
   0x6E17; 0x7E36; 0x4E55; 0x5E74; 0x2E93; 0x3EB2; 0x0ED1; 0x1EF0].

Definition crc16_step (crc b : Z) : Z :=
  let index := Z.to_nat (((crc .>> 8) .^ b) .& 0xFF) in
  u16 ((crc .<< 8) .^ CRC16_TABLE.[index]).

Definition crc16 (data : list Z) : Z := foldl crc16_step 0xFFFF data.

(** ** The CRC

    [crc16] is the bitwise CRC-16 with polynomial 0x1021 and initial value
    0xFFFF; the table only unrolls eight shifts. *)

Definition crc_bit (c : Z) : Z :=
  if Z.testbit c 15 then u16 ((c .<< 1) .^ 0x1021) else u16 (c .<< 1).

Definition crc16_ref_step (crc b : Z) : Z := Nat.iter 8 crc_bit (crc .^ (b .<< 8)).
Definition crc16_ref (data : list Z) : Z := foldl crc16_ref_step 0xFFFF data.

(** One table step on the 16-bit register with the byte already mixed in. *)
Definition crc_table_step (x : Z) : Z := u16 ((x .<< 8) .^ CRC16_TABLE.[Z.to_nat (x .>> 8)]).

Lemma testbit_u8 x i : Z.testbit (u8 x) i = (i <? 8) && Z.testbit x i.
Proof.
  change (u8 x) with (x mod 2 ^ 8). destruct (Z.ltb_spec i 8).
  - destruct (decide (0 <= i)); [by rewrite Z.mod_pow2_bits_low by lia|by rewrite !Z.testbit_neg_r by lia].
  - by rewrite Z.mod_pow2_bits_high by lia.
Qed.

(** The register is a vector of bits over GF(2): shifting in a bit is linear. *)
Lemma crc_bit_lxor x y : crc_bit (x .^ y) = crc_bit x .^ crc_bit y.
Proof.
  apply Z.bits_inj'. intros i Hi. unfold crc_bit. rewrite !Z.lxor_spec.
  destruct (Z.testbit x 15), (Z.testbit y 15); cbn [xorb]; rewrite !testbit_u16, ?Z.lxor_spec, ?Z.shiftl_lxor, ?Z.lxor_spec;
    destruct (i <? 16), (Z.testbit (x .<< 1) i), (Z.testbit (y .<< 1) i), (Z.testbit 0x1021 i); done.
Qed.

Lemma crc_bits_lxor n x y : Nat.iter n crc_bit (x .^ y) = Nat.iter n crc_bit x .^ Nat.iter n crc_bit y.
Proof. induction n as [|n IH]; [done|]. simpl. by rewrite IH, crc_bit_lxor. Qed.

(** Eight shifts move the low byte up and replace the high byte by its table entry. *)
Lemma crc_bits_byte b :
  byte_ok b -> Nat.iter 8 crc_bit b = b .<< 8 /\ Nat.iter 8 crc_bit (b .<< 8) = CRC16_TABLE.[Z.to_nat b].
Proof.
  intros Hb. pose proof (range_check 256 (fun b => (Nat.iter 8 crc_bit b =? b .<< 8)
    && (Nat.iter 8 crc_bit (b .<< 8) =? CRC16_TABLE.[Z.to_nat b])) ltac:(by vm_compute) b ltac:(unfold fits in Hb; lia)) as H.
  by apply andb_true_iff in H as [->%Z.eqb_eq ->%Z.eqb_eq].
Qed.

Lemma crc_table_step_bits x : fits 16 x -> crc_table_step x = Nat.iter 8 crc_bit x.
Proof.
  intros Hx. assert (x = ((x .>> 8) .<< 8) .^ u8 x) as E.
  { apply Z.bits_inj'. intros i Hi. rewrite Z.lxor_spec, Z.shiftl_spec, testbit_u8 by done.
    destruct (Z.ltb_spec i 8); [by rewrite (Z.testbit_neg_r (x .>> 8)) by lia|].
    rewrite Z.shiftr_spec, xorb_false_r by lia. f_equal. lia. }
  assert (byte_ok (x .>> 8)) as Hh by (apply (fits_shiftr 16 8); [lia|done]).
  destruct (crc_bits_byte _ Hh) as [_ E1]. destruct (crc_bits_byte (u8 x) (fits_u8 x)) as [E2 _].
  rewrite E at 2. rewrite crc_bits_lxor, E1, E2. unfold crc_table_step.
  assert (fits 16 CRC16_TABLE.[Z.to_nat (x .>> 8)]) as Ht.
  { rewrite <- E1. change (Nat.iter 8 crc_bit ((x .>> 8) .<< 8)) with (crc_bit (Nat.iter 7 crc_bit ((x .>> 8) .<< 8))).
    unfold crc_bit at 1. case_match; auto with word. }
  revert Ht. generalize CRC16_TABLE.[Z.to_nat (x .>> 8)]. intros t Ht.
  rewrite Z.lxor_comm. apply Z.bits_inj'. intros i Hi. rewrite testbit_u16, !Z.lxor_spec, !Z.shiftl_spec, testbit_u8 by done.
  destruct (Z.ltb_spec i 16); cbn [andb].
  - by rewrite (proj2 (Z.ltb_lt _ _)) by lia.
  - rewrite (proj2 (Z.ltb_ge _ _)) by lia. by rewrite (fits_testbit 16 t i) by (done || lia).
Qed.

Definition crc_unbit (y : Z) : Z :=
  if Z.testbit y 0 then ((y .^ 0x1021) .>> 1) .| 0x8000 else y .>> 1.

Lemma crc_unbit_bit x : fits 16 x -> crc_unbit (crc_bit x) = x.
Proof.
  intros Hx. assert (Z.testbit (crc_bit x) 0 = Z.testbit x 15) as E0.
  { unfold crc_bit. destruct (Z.testbit x 15); rewrite testbit_u16, ?Z.lxor_spec, Z.shiftl_spec_low by lia; done. }
  apply Z.bits_inj'. intros i Hi. unfold crc_unbit. rewrite E0. unfold crc_bit.
  destruct (Z.testbit x 15) eqn:E15.
  - rewrite Z.lor_spec, Z.shiftr_spec, Z.lxor_spec, testbit_u16, Z.lxor_spec, Z.shiftl_spec by lia.
    replace (i + 1 - 1) with i by lia. destruct (Z.ltb_spec (i + 1) 16).
    + cbn [andb]. rewrite xorb_assoc, xorb_nilpotent, xorb_false_r.
      change 0x8000 with (2 ^ 15). rewrite Z.pow2_bits_eqb by lia. destruct (Z.eqb_spec 15 i); [lia|]. apply orb_false_r.
    + cbn [andb]. rewrite (fits_testbit 16 0x1021 (i + 1)) by done.
      change 0x8000 with (2 ^ 15). rewrite Z.pow2_bits_eqb by lia. destruct (Z.eqb_spec 15 i) as [<-|]; [done|].
      by rewrite (fits_testbit 16 x i) by (done || lia).
  - rewrite Z.shiftr_spec, testbit_u16, Z.shiftl_spec by lia. replace (i + 1 - 1) with i by lia.
    destruct (Z.ltb_spec (i + 1) 16); [done|]. destruct (decide (i = 15)) as [->|]; [done|].
    by rewrite (fits_testbit 16 x i) by (done || lia).
Qed.

Lemma fits_crc_bit x : fits 16 (crc_bit x).
Proof. unfold crc_bit. case_match; auto with word. Qed.

Lemma crc_bits_inj n x y :
  fits 16 x -> fits 16 y -> Nat.iter n crc_bit x = Nat.iter n crc_bit y -> x = y.
Proof.
  intros Hx Hy. induction n as [|n IH]; [done|]. simpl. intros H. apply IH.
  assert (forall z, fits 16 z -> fits 16 (Nat.iter n crc_bit z)) as Hf.
  { intros z ?. destruct n; simpl; auto using fits_crc_bit. }
  rewrite <- (crc_unbit_bit (Nat.iter n crc_bit x)), <- (crc_unbit_bit (Nat.iter n crc_bit y))
    by auto.
  by rewrite H.
Qed.

Lemma fits_crc16_step crc b : fits 16 (crc16_step crc b).
Proof. unfold crc16_step. auto with word. Qed.

Lemma fits_mix crc b : fits 16 crc -> byte_ok b -> fits 16 (crc .^ (b .<< 8)).
Proof.
  intros. apply fits_lxor; [done..|]. rewrite Z.shiftl_mul_pow2 by done. words_lia.
Qed.

Lemma crc16_step_table crc b :
  fits 16 crc -> byte_ok b -> crc16_step crc b = crc_table_step (crc .^ (b .<< 8)).
Proof.
  intros Hc Hb. unfold crc16_step, crc_table_step.
  assert ((crc .^ (b .<< 8)) .>> 8 = ((crc .>> 8) .^ b) .& 0xFF) as ->.
  { rewrite Z.shiftr_lxor, Z.shiftr_shiftl_l, Z.shiftl_0_r, land_ff by done.
    symmetry. apply u8_small. apply fits_lxor; [done| |done].
    apply (fits_shiftr 16 8); [lia|done]. }
  apply Z.bits_inj'. intros i Hi. rewrite !testbit_u16, !Z.lxor_spec.
  destruct (Z.ltb_spec i 16) as [Hlt|]; [simpl|done]. f_equal.
  rewrite Z.shiftl_lxor, Z.lxor_spec, Z.shiftl_shiftl by done.
  rewrite (Z.shiftl_spec_low b) by lia. by rewrite xorb_false_r.
Qed.

Lemma crc16_step_ref crc b :
  fits 16 crc -> byte_ok b -> crc16_step crc b = crc16_ref_step crc b.
Proof.
  intros. rewrite crc16_step_table, crc_table_step_bits by auto using fits_mix. done.
Qed.

Lemma fits_crc_fold data c : fits 16 c -> fits 16 (foldl crc16_step c data).
Proof. revert c. induction data; simpl; auto using fits_crc16_step. Qed.
Lemma fits_crc16 data : fits 16 (crc16 data).
Proof. apply fits_crc_fold. done. Qed.
#[export] Hint Resolve fits_crc16_step fits_crc16 fits_crc_fold : word.

Lemma crc_fold_ref data c :
  fits 16 c -> bytes_ok data -> foldl crc16_step c data = foldl crc16_ref_step c data.
Proof.
  intros Hc Hd. revert c Hc. induction Hd as [|b data Hb _ IH]; intros c Hc; [done|]. simpl.
  rewrite IH, crc16_step_ref by auto with word. done.
Qed.

(** The step is injective in the register and in the byte. *)
Lemma crc16_step_inj c1 c2 b1 b2 :
  fits 16 c1 -> fits 16 c2 -> byte_ok b1 -> byte_ok b2 ->
  crc16_step c1 b1 = crc16_step c2 b2 -> c1 .^ (b1 .<< 8) = c2 .^ (b2 .<< 8).
Proof.
  intros. rewrite !crc16_step_ref in * by done. unfold crc16_ref_step in *.
  eapply (crc_bits_inj 8); auto using fits_mix.
Qed.

Lemma lxor_cancel_l a b c : a .^ b = a .^ c -> b = c.
Proof.
  intros H. apply (f_equal (Z.lxor a)) in H.
  by rewrite <- !Z.lxor_assoc, Z.lxor_nilpotent, !Z.lxor_0_l in H.
Qed.

Lemma crc_fold_inj data c1 c2 :
  fits 16 c1 -> fits 16 c2 -> bytes_ok data ->
  foldl crc16_step c1 data = foldl crc16_step c2 data -> c1 = c2.
Proof.
  intros H1 H2 Hd. revert c1 c2 H1 H2.
  induction Hd as [|b data Hb _ IH]; intros c1 c2 H1 H2 H; [done|]. simpl in H.
  apply IH, crc16_step_inj in H; auto with word.
  rewrite (Z.lxor_comm c1), (Z.lxor_comm c2) in H. by apply lxor_cancel_l in H.
Qed.

Lemma crc16_change pre b b' post :
  bytes_ok pre -> byte_ok b -> byte_ok b' -> bytes_ok post -> b <> b' ->
  crc16 (pre ++ b :: post) <> crc16 (pre ++ b' :: post).
Proof.
  intros Hpre Hb Hb' Hpost Hne H. unfold crc16 in H. rewrite !foldl_app in H. simpl in H.
  apply crc_fold_inj, crc16_step_inj, lxor_cancel_l in H; auto with word.
  apply Hne. rewrite !Z.shiftl_mul_pow2 in H by done. lia.
Qed.
