(* ===== verification/Protocol.v ===== *)
(** * The host serial protocol: lunarcore/lunar/protocol.c

    Frames [AA 55 | len lo | len hi | command | sequence | data | crc lo |
    crc hi | 0D] between the modem and its host: the CRC, [frame_encode], the
    byte-at-a-time parser [frame_parser_feed], the frame builders and
    [parse_config]. *)
From S2P Require Import Prelude Crc16.

(** ** Data *)

Definition SYNC : list Z := [0xAA; 0x55].
Definition END_BYTE : Z := 0x0D.
Definition MAX_DATA_SIZE : Z := 255.

Inductive Command :=
  | COMMAND_PING | COMMAND_PONG | COMMAND_CONFIGURE | COMMAND_CONFIG_ACK
  | COMMAND_TRANSMIT | COMMAND_TX_DONE | COMMAND_TX_ERROR | COMMAND_RECEIVE
  | COMMAND_GET_STATS | COMMAND_STATS_RESPONSE | COMMAND_CAD | COMMAND_CAD_RESULT
  | COMMAND_RESET | COMMAND_VERSION | COMMAND_VERSION_RESPONSE | COMMAND_ERROR.

#[global] Instance Command_eq_dec : EqDecision Command.
Proof. solve_decision. Defined.

(** The enumerator's value, [(uint8_t)frame->command]. *)
Definition command_byte (c : Command) : Z :=
  match c with
  | COMMAND_PING => 0x01 | COMMAND_PONG => 0x02
  | COMMAND_CONFIGURE => 0x10 | COMMAND_CONFIG_ACK => 0x11
  | COMMAND_TRANSMIT => 0x20 | COMMAND_TX_DONE => 0x21 | COMMAND_TX_ERROR => 0x22
  | COMMAND_RECEIVE => 0x30
  | COMMAND_GET_STATS => 0x40 | COMMAND_STATS_RESPONSE => 0x41
  | COMMAND_CAD => 0x50 | COMMAND_CAD_RESULT => 0x51
  | COMMAND_RESET => 0xF0 | COMMAND_VERSION => 0xF1 | COMMAND_VERSION_RESPONSE => 0xF2
  | COMMAND_ERROR => 0xFF
  end.

Definition command_from_byte (b : Z) : option Command :=
  match b with
  | 0x01 => Some COMMAND_PING
  | 0x02 => Some COMMAND_PONG
  | 0x10 => Some COMMAND_CONFIGURE
  | 0x11 => Some COMMAND_CONFIG_ACK
  | 0x20 => Some COMMAND_TRANSMIT
  | 0x21 => Some COMMAND_TX_DONE
  | 0x22 => Some COMMAND_TX_ERROR
  | 0x30 => Some COMMAND_RECEIVE
  | 0x40 => Some COMMAND_GET_STATS
  | 0x41 => Some COMMAND_STATS_RESPONSE
  | 0x50 => Some COMMAND_CAD
  | 0x51 => Some COMMAND_CAD_RESULT
  | 0xF0 => Some COMMAND_RESET
  | 0xF1 => Some COMMAND_VERSION
  | 0xF2 => Some COMMAND_VERSION_RESPONSE
  | 0xFF => Some COMMAND_ERROR
  | _ => None
  end.

Record Frame := mkFrame {
  frame_command : Command;
  frame_sequence : Z;      (* uint8_t *)
  frame_data : list Z      (* DataVec, at most MAX_DATA_SIZE bytes *)
}.

Definition frame_new (command : Command) (sequence : Z) : Frame :=
  mkFrame command sequence [].

Definition frame_with_data (command : Command) (sequence : Z) (data : list Z) : option Frame :=
  if MAX_DATA_SIZE <? Z.of_nat (length data) then None
  else Some (mkFrame command sequence data).

(** ** Encoding *)

Definition frame_encode (frame : Frame) : list Z :=
  let len := u16 (Z.of_nat (length (frame_data frame))) in
  let body := command_byte (frame_command frame) :: frame_sequence frame :: frame_data frame in
  let crc := crc16 body in
  SYNC ++ [u8 len; u8 (len .>> 8)] ++ body ++ [u8 crc; u8 (crc .>> 8)] ++ [END_BYTE].

(** ** The parser *)

Inductive ParserState :=
  | PARSER_STATE_WAIT_SYNC1 | PARSER_STATE_WAIT_SYNC2
  | PARSER_STATE_WAIT_LEN_LOW | PARSER_STATE_WAIT_LEN_HIGH
  | PARSER_STATE_WAIT_COMMAND | PARSER_STATE_WAIT_SEQUENCE
  | PARSER_STATE_WAIT_DATA
  | PARSER_STATE_WAIT_CRC_LOW | PARSER_STATE_WAIT_CRC_HIGH
  | PARSER_STATE_WAIT_END.

Record FrameParser := mkParser {
  p_state : ParserState;
  p_data_len : Z;         (* uint16_t *)
  p_data_idx : Z;         (* uint16_t *)
  p_command : Z;          (* uint8_t *)
  p_sequence : Z;         (* uint8_t *)
  p_data : list Z;        (* DataVec *)
  p_crc_low : Z           (* uint8_t *)
}.

Definition frame_parser_new : FrameParser :=
  mkParser PARSER_STATE_WAIT_SYNC1 0 0 0 0 [] 0.

Definition frame_parser_reset (p : FrameParser) : FrameParser :=
  mkParser PARSER_STATE_WAIT_SYNC1 0 0 (p_command p) (p_sequence p) [] (p_crc_low p).

Definition set_state (s : ParserState) (p : FrameParser) : FrameParser :=
  mkParser s (p_data_len p) (p_data_idx p) (p_command p) (p_sequence p) (p_data p) (p_crc_low p).

(** One byte in; the frame handed out, if this byte completed one. *)
Definition frame_parser_feed (p : FrameParser) (byte : Z) : FrameParser * option Frame :=
  match p_state p with
  | PARSER_STATE_WAIT_SYNC1 =>
      if byte =? SYNC.[0] then (set_state PARSER_STATE_WAIT_SYNC2 p, None) else (p, None)
  | PARSER_STATE_WAIT_SYNC2 =>
      if byte =? SYNC.[1] then (set_state PARSER_STATE_WAIT_LEN_LOW p, None)
      else if byte =? SYNC.[0] then (p, None)
      else (frame_parser_reset p, None)
  | PARSER_STATE_WAIT_LEN_LOW =>
      (mkParser PARSER_STATE_WAIT_LEN_HIGH (u16 byte) (p_data_idx p) (p_command p)
         (p_sequence p) (p_data p) (p_crc_low p), None)
  | PARSER_STATE_WAIT_LEN_HIGH =>
      let data_len := u16 (p_data_len p .| (byte .<< 8)) in
      let p' := mkParser (p_state p) data_len (p_data_idx p) (p_command p)
                  (p_sequence p) (p_data p) (p_crc_low p) in
      if MAX_DATA_SIZE <? data_len then (frame_parser_reset p', None)
      else (set_state PARSER_STATE_WAIT_COMMAND p', None)
  | PARSER_STATE_WAIT_COMMAND =>
      (mkParser PARSER_STATE_WAIT_SEQUENCE (p_data_len p) (p_data_idx p) byte
         (p_sequence p) (p_data p) (p_crc_low p), None)
  | PARSER_STATE_WAIT_SEQUENCE =>
      let s := if p_data_len p =? 0 then PARSER_STATE_WAIT_CRC_LOW else PARSER_STATE_WAIT_DATA in
      (mkParser s (p_data_len p) 0 (p_command p) byte [] (p_crc_low p), None)
  | PARSER_STATE_WAIT_DATA =>
      let idx := u16 (p_data_idx p + 1) in
      let s := if p_data_len p <=? idx then PARSER_STATE_WAIT_CRC_LOW else p_state p in
      (mkParser s (p_data_len p) idx (p_command p) (p_sequence p)
         (p_data p ++ [byte]) (p_crc_low p), None)
  | PARSER_STATE_WAIT_CRC_LOW =>
      (mkParser PARSER_STATE_WAIT_CRC_HIGH (p_data_len p) (p_data_idx p) (p_command p)
         (p_sequence p) (p_data p) byte, None)
  | PARSER_STATE_WAIT_CRC_HIGH =>
      let received_crc := p_crc_low p .| (byte .<< 8) in
      let calculated_crc := crc16 (p_command p :: p_sequence p :: p_data p) in
      if received_crc =? calculated_crc then (set_state PARSER_STATE_WAIT_END p, None)
      else (frame_parser_reset p, None)
  | PARSER_STATE_WAIT_END =>
      if byte =? END_BYTE then
        match command_from_byte (p_command p) with
        | Some cmd => (frame_parser_reset p, Some (mkFrame cmd (p_sequence p) (p_data p)))
        | None => (frame_parser_reset p, None)
        end
      else (frame_parser_reset p, None)
  end.

(** The receive loop: feed every byte, collect the frames handed out. *)
Fixpoint feed_all (p : FrameParser) (bytes : list Z) : FrameParser * list Frame :=
  match bytes with
  | [] => (p, [])
  | b :: bytes =>
      let '(p, out) := frame_parser_feed p b in
      let '(p, fs) := feed_all p bytes in
      (p, option_list out ++ fs)
  end.

(** ** Builders *)

Definition build_pong (sequence : Z) : Frame := frame_new COMMAND_PONG sequence.
Definition build_config_ack (sequence : Z) : Frame := frame_new COMMAND_CONFIG_ACK sequence.
Definition build_tx_done (sequence : Z) : Frame := frame_new COMMAND_TX_DONE sequence.

Definition build_tx_error (sequence error_code : Z) : option Frame :=
  frame_with_data COMMAND_TX_ERROR sequence [error_code].

(** [rssi] is an [int16_t], [snr] an [int8_t]. *)
Definition build_receive (rssi snr : Z) (data : list Z) : option Frame :=
  if MAX_DATA_SIZE - 4 <? Z.of_nat (length data) then None
  else Some (mkFrame COMMAND_RECEIVE 0
               ([u8 rssi; u8 (rssi .>> 8); u8 snr; 0] ++ data)).

Definition build_cad_result (sequence : Z) (detected : bool) : option Frame :=
  frame_with_data COMMAND_CAD_RESULT sequence [if detected then 1 else 0].

(** [version] and [message]: the bytes of the C string before its NUL. *)
Definition build_version_response (sequence : Z) (version : list Z) : option Frame :=
  frame_with_data COMMAND_VERSION_RESPONSE sequence version.

Definition build_error (sequence : Z) (message : list Z) : option Frame :=
  frame_with_data COMMAND_ERROR sequence message.

Definition build_stats_response
    (sequence tx_packets rx_packets tx_errors rx_errors : Z) : option Frame :=
  let le v := [u8 (v .& 0xFF); u8 ((v .>> 8) .& 0xFF);
               u8 ((v .>> 16) .& 0xFF); u8 ((v .>> 24) .& 0xFF)] in
  frame_with_data COMMAND_STATS_RESPONSE sequence
    (le tx_packets ++ le rx_packets ++ le tx_errors ++ le rx_errors).

Record RadioConfig := mkRadioConfig {
  rc_frequency : Z;
  rc_spreading_factor : Z;
  rc_bandwidth : Z;
  rc_coding_rate : Z;
  rc_tx_power : Z;
  rc_sync_word : Z;
  rc_preamble_length : Z;
  rc_crc_enabled : bool;
  rc_implicit_header : bool;
  rc_ldro : bool
}.

Definition parse_config (data : list Z) : option RadioConfig :=
  if (length data <? 14)%nat then None else
  let frequency := data.[0] .| (data.[1] .<< 8) .| (data.[2] .<< 16) .| (data.[3] .<< 24) in
  let bandwidth_raw := data.[5] .| (data.[6] .<< 8) in
  let bandwidth := u8 (bandwidth_raw / 125) in
  let flags := data.[12] in
  Some {| rc_frequency := frequency;
          rc_spreading_factor := data.[4];
          rc_bandwidth := if bandwidth <? 2 then bandwidth else 2;
          rc_coding_rate := data.[7];
          rc_tx_power := i8 data.[8];
          rc_sync_word := data.[9];
          rc_preamble_length := data.[10] .| (data.[11] .<< 8);
          rc_crc_enabled := negb ((flags .& 0x01) =? 0);
          rc_implicit_header := negb ((flags .& 0x02) =? 0);
          rc_ldro := negb ((flags .& 0x04) =? 0) |}.

(** ** Round trip through the parser *)

Definition frame_ok (f : Frame) : Prop :=
  (length (frame_data f) <= 255)%nat /\ byte_ok (frame_sequence f) /\ bytes_ok (frame_data f).

#[global] Instance frame_ok_dec f : Decision (frame_ok f).
Proof. unfold frame_ok. apply _. Defined.

Lemma command_from_byte_byte c : command_from_byte (command_byte c) = Some c.
Proof. by destruct c. Qed.

Lemma command_from_byte_inv b c : command_from_byte b = Some c -> b = command_byte c.
Proof.
  unfold command_from_byte. intros H.
  repeat case_match; simplify_eq; reflexivity.
Qed.

Lemma command_byte_ok c : byte_ok (command_byte c).
Proof. by destruct c. Qed.
#[export] Hint Resolve command_byte_ok : word.

Lemma feed_all_app p l1 l2 :
  feed_all p (l1 ++ l2) =
  let '(p1, o1) := feed_all p l1 in let '(p2, o2) := feed_all p1 l2 in (p2, o1 ++ o2).
Proof.
  revert p. induction l1 as [|b l1 IH]; intros p; simpl.
  - by destruct (feed_all p l2).
  - destruct (frame_parser_feed p b) as [p' o]. rewrite IH.
    destruct (feed_all p' l1) as [p1 o1]. destruct (feed_all p1 l2). by rewrite assoc_L by apply _.
Qed.

Lemma feed_all_comp p p1 p2 l1 l2 o1 o2 :
  feed_all p l1 = (p1, o1) -> feed_all p1 l2 = (p2, o2) ->
  feed_all p (l1 ++ l2) = (p2, o1 ++ o2).
Proof. intros H1 H2. by rewrite feed_all_app, H1, H2. Qed.

Lemma feed_noise p noise :
  p_state p = PARSER_STATE_WAIT_SYNC1 -> Forall (fun b => b <> 0xAA) noise ->
  feed_all p noise = (p, []).
Proof.
  intros Hp. induction 1 as [|b noise Hb _ IH]; [done|]. simpl.
  unfold frame_parser_feed. rewrite Hp. change (SYNC.[0]) with 0xAA.
  destruct (Z.eqb_spec b 0xAA); [done|]. by rewrite IH.
Qed.

Lemma feed_data ds p :
  p_state p = PARSER_STATE_WAIT_DATA -> ds <> [] ->
  p_data_idx p = Z.of_nat (length (p_data p)) ->
  p_data_len p = Z.of_nat (length (p_data p) + length ds) -> p_data_len p <= 255 ->
  feed_all p ds =
    (mkParser PARSER_STATE_WAIT_CRC_LOW (p_data_len p) (p_data_len p) (p_command p)
       (p_sequence p) (p_data p ++ ds) (p_crc_low p), []).
Proof.
  revert p. induction ds as [|d ds IH]; intros p Hp Hne Hidx Hlen Hmax; [done|].
  simpl. unfold frame_parser_feed. rewrite Hp. simpl in Hlen.
  assert (u16 (p_data_idx p + 1) = p_data_idx p + 1) as -> by (apply u16_small; words_lia).
  destruct (decide (ds = [])) as [->|Hds].
  - simpl in *. assert (p_data_idx p + 1 = p_data_len p) as -> by lia.
    by rewrite Z.leb_refl.
  - destruct (Z.leb_spec (p_data_len p) (p_data_idx p + 1)) as [Hle|_].
    { exfalso. destruct ds; [done|]. simpl in Hlen. lia. }
    rewrite IH; simpl; rewrite ?length_app; simpl; try done; try lia.
    by rewrite <- app_assoc.
Qed.

Lemma frame_encode_unfold f :
  frame_ok f ->
  frame_encode f =
    SYNC ++ [Z.of_nat (length (frame_data f)); 0] ++
    [command_byte (frame_command f); frame_sequence f] ++ frame_data f ++
    le_bytes 2 (crc16 (command_byte (frame_command f) :: frame_sequence f :: frame_data f)) ++
    [END_BYTE].
Proof.
  intros (Hlen & _ & _). unfold frame_encode.
  rewrite u16_small by words_lia. rewrite <- wr16_eq, u8_small by words_lia.
  rewrite (shiftr_8 (Z.of_nat _)).
  assert (Z.of_nat (length (frame_data f)) / 256 = 0) as -> by words_lia.
  reflexivity.
Qed.

(** The header up to the sequence byte. *)
Lemma feed_header p len cmd seq :
  p_state p = PARSER_STATE_WAIT_SYNC1 -> 0 <= len <= 255 ->
  feed_all p (SYNC ++ [len; 0] ++ [cmd; seq]) =
    (mkParser (if len =? 0 then PARSER_STATE_WAIT_CRC_LOW else PARSER_STATE_WAIT_DATA)
       len 0 cmd seq [] (p_crc_low p), []).
Proof.
  destruct p as [st dl di c s d cl]. simpl p_state. simpl p_crc_low. intros -> Hlen.
  assert (u16 (u16 len .| (0 .<< 8)) = len) as Hl.
  { by rewrite Z.shiftl_0_l, Z.lor_0_r, !u16_small by words_lia. }
  cbn -[u16 Z.lor Z.shiftl Z.ltb MAX_DATA_SIZE]. rewrite Hl.
  destruct (Z.ltb_spec MAX_DATA_SIZE len); [unfold MAX_DATA_SIZE in *; lia|]. done.
Qed.

(** The trailer after the data. *)
Lemma feed_trailer p crc :
  p_state p = PARSER_STATE_WAIT_CRC_LOW -> fits 16 crc ->
  feed_all p (le_bytes 2 crc ++ [END_BYTE]) =
    (if crc =? crc16 (p_command p :: p_sequence p :: p_data p)
     then (mkParser PARSER_STATE_WAIT_SYNC1 0 0 (p_command p) (p_sequence p) [] (u8 crc),
           match command_from_byte (p_command p) with
           | Some c => [mkFrame c (p_sequence p) (p_data p)] | None => [] end)
     else (mkParser PARSER_STATE_WAIT_SYNC1 0 0 (p_command p) (p_sequence p) [] (u8 crc), [])).
Proof.
  destruct p as [st dl di c s d cl]. simpl p_state. intros -> Hcrc.
  assert (u8 crc .| (u8 (crc / 256) .<< 8) = crc) as Hl.
  { rewrite le16_eq by auto with word. apply (le_val_fits 2), Hcrc. }
  cbn -[u8 Z.lor Z.shiftl Z.div crc16 command_from_byte]. rewrite Hl.
  destruct (crc =? _); cbn -[command_from_byte]; [|done].
  by destruct (command_from_byte c).
Qed.

Lemma feed_body p data :
  p_state p = (if Z.of_nat (length data) =? 0 then PARSER_STATE_WAIT_CRC_LOW
               else PARSER_STATE_WAIT_DATA) ->
  p_data_len p = Z.of_nat (length data) -> p_data_idx p = 0 -> p_data p = [] ->
  (length data <= 255)%nat ->
  exists p', feed_all p data = (p', []) /\ p_state p' = PARSER_STATE_WAIT_CRC_LOW /\
    p_command p' = p_command p /\ p_sequence p' = p_sequence p /\ p_data p' = data.
Proof.
  intros Hst Hlen Hidx Hd Hmax. destruct (decide (data = [])) as [->|Hne].
  - exists p. simpl in *. by rewrite Hst, Hd.
  - destruct (Z.eqb_spec (Z.of_nat (length data)) 0) as [H0|_].
    { destruct data; [done|]. simpl in H0. lia. }
    eexists. rewrite (feed_data data p) by (done || rewrite ?Hd; simpl; lia).
    by rewrite Hd.
Qed.

(** A whole frame with command byte [cmd], whose CRC field holds [crc]. *)
Definition wire (cmd s : Z) (d : list Z) (crc : Z) : list Z :=
  SYNC ++ [Z.of_nat (length d); 0] ++ [cmd; s] ++ d ++ le_bytes 2 crc ++ [END_BYTE].

Lemma feed_wire p cmd s d crc :
  p_state p = PARSER_STATE_WAIT_SYNC1 -> (length d <= 255)%nat -> fits 16 crc ->
  exists p', p_state p' = PARSER_STATE_WAIT_SYNC1 /\
    feed_all p (wire cmd s d crc) =
    (p', if crc =? crc16 (cmd :: s :: d)
         then (fun c => mkFrame c s d) <$> option_list (command_from_byte cmd) else []).
Proof.
  intros Hp Hlen Hcrc.
  pose proof (feed_header p (Z.of_nat (length d)) cmd s Hp ltac:(lia)) as Hhead.
  change (wire cmd s d crc) with
    ((SYNC ++ [Z.of_nat (length d); 0] ++ [cmd; s]) ++ d ++ le_bytes 2 crc ++ [END_BYTE]).
  edestruct (feed_body (mkParser
    (if Z.of_nat (length d) =? 0 then PARSER_STATE_WAIT_CRC_LOW else PARSER_STATE_WAIT_DATA)
    (Z.of_nat (length d)) 0 cmd s [] (p_crc_low p)) d)
    as (p' & Hbody & Hst & Hc & Hs & Hd); [done..|].
  cbn [p_command p_sequence] in Hc, Hs.
  pose proof (feed_trailer p' crc Hst Hcrc) as Htrail. rewrite Hc, Hs, Hd in Htrail.
  destruct (crc =? crc16 (cmd :: s :: d)); eexists; (split; [|
    eapply (feed_all_comp p _ _ _ _ []); [exact Hhead|];
    eapply (feed_all_comp _ p' _ _ _ []); [exact Hbody|];
    rewrite Htrail; by destruct (command_from_byte cmd)]); done.
Qed.

Lemma frame_encode_wire f :
  frame_ok f ->
  frame_encode f = wire (command_byte (frame_command f)) (frame_sequence f) (frame_data f)
    (crc16 (command_byte (frame_command f) :: frame_sequence f :: frame_data f)).
Proof. apply frame_encode_unfold. Qed.

(** [stream segs]: frames with line noise between them. *)
Definition stream (segs : list (list Z * Frame)) : list Z :=
  concat ((fun s => s.1 ++ frame_encode s.2) <$> segs).

Definition seg_ok (s : list Z * Frame) : Prop :=
  Forall (fun b => b <> 0xAA) s.1 /\ frame_ok s.2.

Lemma feed_encode p f :
  p_state p = PARSER_STATE_WAIT_SYNC1 -> frame_ok f ->
  exists p', p_state p' = PARSER_STATE_WAIT_SYNC1 /\ feed_all p (frame_encode f) = (p', [f]).
Proof.
  intros Hp Hf. rewrite frame_encode_wire by done.
  edestruct (feed_wire p) as (p' & Hp' & Hfeed); [done|apply Hf|apply fits_crc16|].
  exists p'. rewrite Hfeed, Z.eqb_refl, command_from_byte_byte. by destruct f.
Qed.

(** From any parser that waits for a sync byte. *)
Lemma feed_stream p0 segs : p_state p0 = PARSER_STATE_WAIT_SYNC1 -> Forall seg_ok segs ->
  exists p, p_state p = PARSER_STATE_WAIT_SYNC1 /\ feed_all p0 (stream segs) = (p, segs.*2).
Proof.
  intros Hp0 Hsegs. revert p0 Hp0. induction Hsegs as [|[noise f] segs [Hn Hf] _ IH]; intros p0 Hp0; [by exists p0|].
  destruct (feed_encode p0 f) as (p1 & Hp1 & Hf1); [done..|].
  destruct (IH p1 Hp1) as (p2 & Hp2 & Hfeed). exists p2. split; [done|].
  change (stream ((noise, f) :: segs)) with ((noise ++ frame_encode f) ++ stream segs).
  apply (feed_all_comp p0 p1 p2 _ _ [f]); [|done].
  apply (feed_all_comp p0 p0 p1 _ _ []); [|done]. by apply feed_noise.
Qed.

(** C1. Framing round trip: a stream of encoded frames, with any noise that
    holds no 0xAA byte before each one, makes the parser hand out exactly
    those frames in order, and leaves it waiting for the next sync byte. *)
Theorem parse_stream segs :
  Forall seg_ok segs ->
  exists p, p_state p = PARSER_STATE_WAIT_SYNC1 /\
    feed_all frame_parser_new (stream segs) = (p, segs.*2).
Proof. by apply feed_stream. Qed.

Definition sample_frame : Frame := mkFrame COMMAND_TRANSMIT 7 [1; 0xAA; 0x55; 0x0D].

Lemma parse_stream_witness :
  (feed_all frame_parser_new (stream [([0; 1], sample_frame); ([], build_pong 8)])).2
    = [sample_frame; build_pong 8] /\
  exists p, p_state p = PARSER_STATE_WAIT_SYNC1 /\
    feed_all frame_parser_new (stream [([0; 1], sample_frame); ([], build_pong 8)])
    = (p, [sample_frame; build_pong 8]).
Proof.
  split; [vm_compute; reflexivity|].
  apply (parse_stream [([0; 1], sample_frame); ([], build_pong 8)]).
  repeat constructor; vm_compute; discriminate.
Defined.

(** ** Soundness of the parser

    The history invariant: in each state the bytes fed so far end with the
    part of a frame that the state says has been read. *)

Definition ends_with (h s : list Z) : Prop := exists k, h = k ++ s.

Lemma ends_with_snoc h s b : ends_with h s -> ends_with (h ++ [b]) (s ++ [b]).
Proof. intros [k ->]. exists k. by rewrite app_assoc. Qed.
Lemma ends_with_last h b : ends_with (h ++ [b]) [b].
Proof. by exists h. Qed.

(** The wire bytes of a partial frame with the parser's fields. *)
Definition head_bytes (dl : Z) : list Z := SYNC ++ le_bytes 2 dl.
Definition read_so_far (p : FrameParser) : list Z :=
  head_bytes (p_data_len p) ++ [p_command p; p_sequence p] ++ p_data p.
Definition frame_crc (p : FrameParser) : Z := crc16 (p_command p :: p_sequence p :: p_data p).

Definition state_inv (p : FrameParser) (h : list Z) : Prop :=
  match p_state p with
  | PARSER_STATE_WAIT_SYNC1 => True
  | PARSER_STATE_WAIT_SYNC2 => ends_with h [0xAA]
  | PARSER_STATE_WAIT_LEN_LOW => ends_with h SYNC
  | PARSER_STATE_WAIT_LEN_HIGH => byte_ok (p_data_len p) /\ ends_with h (SYNC ++ [p_data_len p])
  | PARSER_STATE_WAIT_COMMAND =>
      0 <= p_data_len p <= 255 /\ ends_with h (head_bytes (p_data_len p))
  | PARSER_STATE_WAIT_SEQUENCE =>
      0 <= p_data_len p <= 255 /\ ends_with h (head_bytes (p_data_len p) ++ [p_command p])
  | PARSER_STATE_WAIT_DATA =>
      p_data_idx p = Z.of_nat (length (p_data p)) /\ p_data_idx p < p_data_len p <= 255 /\
      ends_with h (read_so_far p)
  | PARSER_STATE_WAIT_CRC_LOW =>
      p_data_len p = Z.of_nat (length (p_data p)) /\ ends_with h (read_so_far p)
  | PARSER_STATE_WAIT_CRC_HIGH =>
      byte_ok (p_crc_low p) /\ p_data_len p = Z.of_nat (length (p_data p)) /\
      ends_with h (read_so_far p ++ [p_crc_low p])
  | PARSER_STATE_WAIT_END =>
      p_data_len p = Z.of_nat (length (p_data p)) /\
      ends_with h (read_so_far p ++ le_bytes 2 (frame_crc p))
  end.

Definition parser_inv (p : FrameParser) (h : list Z) : Prop :=
  state_inv p h /\ (length (p_data p) <= 255)%nat /\ bytes_ok (p_data p) /\ byte_ok (p_sequence p).

Lemma crc_bytes_eq lo hi crc :
  byte_ok lo -> byte_ok hi -> lo .| (hi .<< 8) = crc -> le_bytes 2 crc = [lo; hi].
Proof.
  intros Hlo Hhi <-. rewrite le16_eq by done. apply (le_bytes_le_val [lo; hi]). solve_bytes.
Qed.

Lemma ends_with_eq h s s' : ends_with h s -> s = s' -> ends_with h s'.
Proof. by intros ? <-. Qed.

Lemma reset_inv p h : byte_ok (p_sequence p) -> parser_inv (frame_parser_reset p) h.
Proof. intros. split; [done|]. split; [simpl; lia|]. split; [constructor|done]. Qed.

Lemma byte_range b : byte_ok b -> 0 <= b <= 255.
Proof. words_lia. Qed.

Lemma len_bytes lo hi dl :
  byte_ok lo -> byte_ok hi -> u16 (lo .| (hi .<< 8)) = dl -> le_bytes 2 dl = [lo; hi].
Proof.
  intros Hlo Hhi <-. apply crc_bytes_eq; [done..|]. symmetry. apply u16_small.
  rewrite le16_eq by done. by apply fits_le2.
Qed.

Ltac parser_step :=
  unfold parser_inv, state_inv;
  cbn [p_state p_data_len p_data_idx p_command p_sequence p_data p_crc_low fst];
  repeat match goal with |- _ /\ _ => split end;
  auto with word; try (simpl; lia); try (eapply ends_with_eq; [apply ends_with_snoc; eassumption|]).

(** Every byte keeps the invariant. *)
Lemma feed_inv p h b :
  parser_inv p h -> byte_ok b -> parser_inv (frame_parser_feed p b).1 (h ++ [b]).
Proof.
  destruct p as [st dl di c s d cl]. unfold parser_inv at 1, state_inv.
  cbn [p_state p_data_len p_data_idx p_command p_sequence p_data p_crc_low].
  intros (Hst & Hlen & Hd & Hs) Hb. unfold frame_parser_feed, set_state.
  cbn [p_state p_data_len p_data_idx p_command p_sequence p_data p_crc_low].
  destruct st.
  - case_match eqn:E; parser_step. apply Z.eqb_eq in E as ->. apply ends_with_last.
  - case_match eqn:E; [|case_match eqn:E'].
    + apply Z.eqb_eq in E as ->. parser_step. done.
    + apply Z.eqb_eq in E' as ->. clear Hst. parser_step. apply ends_with_last.
    + by apply reset_inv.
  - rewrite u16_small by words_lia. parser_step. done.
  - destruct Hst as [Hdl Hh]. destruct (Z.ltb_spec MAX_DATA_SIZE (u16 (dl .| (b .<< 8)))) as [|Hmax].
    { by apply reset_inv. }
    pose proof (fits_u16 (dl .| (b .<< 8))).
    parser_step; unfold MAX_DATA_SIZE in Hmax; [words_lia..|].
    unfold head_bytes. rewrite (len_bytes dl b) by done. done.
  - destruct Hst. parser_step. done.
  - destruct Hst as [Hdl Hh].
    destruct (Z.eqb_spec dl 0) as [->|]; parser_step; unfold read_so_far; simpl;
      rewrite <- ?app_assoc; try done; solve_bytes.
  - destruct Hst as (Hidx & Hdl & Hh). rewrite u16_small by words_lia.
    destruct (Z.leb_spec dl (di + 1)); parser_step; rewrite ?length_app; simpl; try lia;
      try solve_bytes; unfold read_so_far; simpl; rewrite <- ?app_assoc; done.
  - destruct Hst. parser_step. done.
  - destruct Hst as (Hcl & Hdl & Hh). case_match eqn:E; [|by apply reset_inv].
    apply Z.eqb_eq in E. parser_step.
    unfold frame_crc. simpl p_command. simpl p_sequence. simpl p_data.
    rewrite (crc_bytes_eq cl b) by done. by rewrite <- app_assoc.
  - destruct Hst as (Hdl & Hh).
    case_match; [case_match|]; by apply reset_inv.
Qed.

Lemma le_bytes_2_small n : 0 <= n < 256 -> le_bytes 2 n = [n; 0].
Proof.
  intros. cbn [le_bytes]. assert (n / 256 = 0) as -> by words_lia. by rewrite u8_small by words_lia.
Qed.

(** A frame handed out is the decoding of the last bytes fed. *)
Lemma feed_sound p h b p' f :
  parser_inv p h -> byte_ok b -> frame_parser_feed p b = (p', Some f) ->
  frame_ok f /\ ends_with (h ++ [b]) (frame_encode f).
Proof.
  destruct p as [st dl di c s d cl]. unfold parser_inv, state_inv, frame_parser_feed.
  cbn [p_state p_data_len p_data_idx p_command p_sequence p_data p_crc_low].
  intros (Hst & Hlen & Hd & Hs) Hb. destruct st; intros Hout; repeat case_match; simplify_eq.
  destruct Hst as (Hdl & Hh). rewrite Z.eqb_eq in *. subst b.
  match goal with H : command_from_byte _ = _ |- _ => apply command_from_byte_inv in H as -> end.
  split; [done|]. rewrite frame_encode_unfold by done.
  eapply ends_with_eq; [by apply ends_with_snoc|].
  unfold read_so_far, head_bytes, frame_crc. simpl p_command. simpl p_sequence. simpl p_data.
  simpl p_data_len. rewrite Hdl. rewrite <- !app_assoc. do 2 f_equal.
  cbn [frame_data]. apply le_bytes_2_small. lia.
Qed.

Lemma feed_all_snoc p bs b :
  (feed_all p (bs ++ [b])).1 = (frame_parser_feed (feed_all p bs).1 b).1.
Proof.
  rewrite feed_all_app. destruct (feed_all p bs) as [p1 o1]. simpl.
  by destruct (frame_parser_feed p1 b).
Qed.

Lemma reachable_inv bs : bytes_ok bs -> parser_inv (feed_all frame_parser_new bs).1 bs.
Proof.
  induction bs as [|b bs IH] using rev_ind; intros Hbs.
  - split; [done|]. split; [simpl; lia|]. split; [constructor|done].
  - apply Forall_app in Hbs as [Hbs Hb]. rewrite feed_all_snoc.
    apply feed_inv; [auto|]. by inversion Hb.
Qed.

(** C4. Soundness of the parser: whatever bytes were fed since power-up, when
    byte [b] makes the parser hand out frame [f], the bytes received end with
    exactly the encoding of [f] (sync, length, CRC and end marker included). *)
Theorem parser_sound bs b f :
  bytes_ok (bs ++ [b]) ->
  (frame_parser_feed (feed_all frame_parser_new bs).1 b).2 = Some f ->
  frame_ok f /\ ends_with (bs ++ [b]) (frame_encode f).
Proof.
  intros Hbs Hfeed. apply Forall_app in Hbs as [Hbs Hb].
  eapply feed_sound; [by apply reachable_inv|by inversion Hb|].
  rewrite <- Hfeed. apply surjective_pairing.
Qed.

Lemma parser_sound_witness :
  let bs := [1; 2] ++ removelast (frame_encode sample_frame) in
  (frame_parser_feed (feed_all frame_parser_new bs).1 END_BYTE).2 = Some sample_frame /\
  (frame_ok sample_frame /\ ends_with (bs ++ [END_BYTE]) (frame_encode sample_frame)).
Proof.
  split; [vm_compute; reflexivity|].
  apply parser_sound; [apply (bool_decide_unpack _); vm_compute; exact I|].
  vm_compute. reflexivity.
Defined.

(** C24. Memory safety of the parser: over any byte sequence the data buffer never holds
    more than MAX_DATA_SIZE bytes; an announced length that the parser goes on with is at most
    MAX_DATA_SIZE; whenever the parser is about to store a data byte its index is the number
    of bytes stored and below the announced length, so there is room for it; and it leaves the
    data for the CRC exactly when the announced number of bytes is stored. *)
Theorem parser_buffer_bounds bs :
  bytes_ok bs ->
  let p := (feed_all frame_parser_new bs).1 in
  let stored := Z.of_nat (length (p_data p)) in
  stored <= MAX_DATA_SIZE /\
  match p_state p with
  | PARSER_STATE_WAIT_SYNC1 | PARSER_STATE_WAIT_SYNC2
  | PARSER_STATE_WAIT_LEN_LOW | PARSER_STATE_WAIT_LEN_HIGH => True
  | PARSER_STATE_WAIT_COMMAND | PARSER_STATE_WAIT_SEQUENCE => 0 <= p_data_len p <= MAX_DATA_SIZE
  | PARSER_STATE_WAIT_DATA =>
      stored = p_data_idx p /\ p_data_idx p < p_data_len p <= MAX_DATA_SIZE
      /\ stored < MAX_DATA_SIZE
  | PARSER_STATE_WAIT_CRC_LOW | PARSER_STATE_WAIT_CRC_HIGH | PARSER_STATE_WAIT_END =>
      stored = p_data_len p
  end.
Proof.
  intros Hbs. cbn zeta. destruct (reachable_inv bs Hbs) as (Hst & Hlen & _).
  unfold MAX_DATA_SIZE. split; [lia|]. unfold state_inv in Hst. destruct (p_state _); lia.
Qed.

Lemma parser_buffer_bounds_witness :
  let bs := firstn 8 (frame_encode sample_frame) in
  let p := (feed_all frame_parser_new bs).1 in
  Z.of_nat (length (p_data p)) = p_data_idx p /\ p_data_idx p < p_data_len p <= MAX_DATA_SIZE
  /\ Z.of_nat (length (p_data p)) < MAX_DATA_SIZE.
Proof.
  assert (bytes_ok (firstn 8 (frame_encode sample_frame))) as Hb
    by (apply (bool_decide_unpack _); vm_compute; exact I).
  exact (proj2 (parser_buffer_bounds (firstn 8 (frame_encode sample_frame)) Hb)).
Defined.

(** ** Error detection *)

Definition corrupt (i : nat) (b : Z) (l : list Z) : list Z := <[i := b]> l.

Lemma corrupt_split i b b0 l :
  l !! i = Some b0 -> exists pre post, l = pre ++ b0 :: post /\ corrupt i b l = pre ++ b :: post.
Proof.
  intros Hi. exists (take i l), (drop (S i) l). split.
  - by rewrite take_drop_middle.
  - unfold corrupt. rewrite insert_take_drop; [done|]. by apply lookup_lt_Some in Hi.
Qed.

(** C40. Error detection: when one byte of a frame's command, sequence or data
    is changed in transit, the parser hands out nothing for it and is back
    waiting for the next sync byte. *)
Theorem parser_rejects_corruption f i b b0 :
  frame_ok f -> byte_ok b ->
  (command_byte (frame_command f) :: frame_sequence f :: frame_data f) !! i = Some b0 -> b <> b0 ->
  exists p, p_state p = PARSER_STATE_WAIT_SYNC1 /\
    feed_all frame_parser_new (corrupt (4 + i) b (frame_encode f)) = (p, []).
Proof.
  intros Hf Hb Hi Hne. rewrite frame_encode_wire by done.
  set (body := command_byte (frame_command f) :: frame_sequence f :: frame_data f) in *.
  assert (bytes_ok body) as Hbody.
  { destruct Hf as (_ & ? & ?). unfold body. solve_bytes. }
  assert (i < length body)%nat as Hlt by by eapply lookup_lt_Some.
  assert (exists cmd s d, corrupt i b body = cmd :: s :: d /\ length d = length (frame_data f))
    as (cmd & s & d & Hc & Hlen).
  { unfold corrupt, body in *. destruct i as [|[|i]]; simpl; do 3 eexists; split; try done.
    apply length_insert. }
  assert (corrupt (4 + i) b (wire (command_byte (frame_command f)) (frame_sequence f)
    (frame_data f) (crc16 body)) = wire cmd s d (crc16 body)) as ->.
  { unfold wire, corrupt. rewrite Hlen. simpl. do 4 f_equal.
    change (?x :: ?y :: ?l ++ ?r) with ((x :: y :: l) ++ r).
    rewrite insert_app_l by done. f_equal. exact Hc. }
  destruct (feed_wire frame_parser_new cmd s d (crc16 body)) as (p & Hp & ->);
    [done|destruct Hf; lia|auto with word|].
  exists p. split; [done|]. rewrite <- Hc.
  destruct (corrupt_split i b b0 body Hi) as (pre & post & Hpre & ->).
  rewrite Hpre in Hbody |- *. apply Forall_app in Hbody as [? Hpost]. inversion Hpost; subst.
  destruct (Z.eqb_spec (crc16 (pre ++ b0 :: post)) (crc16 (pre ++ b :: post))) as [E|_]; [|done].
  exfalso. by apply (crc16_change pre b b0 post).
Qed.

Lemma parser_rejects_corruption_witness :
  exists p, p_state p = PARSER_STATE_WAIT_SYNC1 /\
    feed_all frame_parser_new (corrupt (4 + 3) 0xAB (frame_encode sample_frame)) = (p, []).
Proof.
  apply (parser_rejects_corruption sample_frame 3 0xAB 0xAA);
    [apply (bool_decide_unpack _); vm_compute; exact I|done|reflexivity|discriminate].
Defined.

(** ** Builders and configuration *)

(** What a host reads back from a RECEIVE frame's data. *)
Definition receive_fields (d : list Z) : Z * Z * list Z :=
  (i16 (le_val [d.[0]; d.[1]]), i8 d.[2], drop 4 d).

Lemma i16_u16 x : -0x8000 <= x < 0x8000 -> i16 (u16 x) = x.
Proof. intros. words_lia. Qed.
Lemma i8_u8 x : -0x80 <= x < 0x80 -> i8 (u8 x) = x.
Proof. intros. words_lia. Qed.

(** [build_receive] refuses a payload of more than 251 bytes; otherwise its
    frame is well formed, so it survives the wire, and the host reads back the
    signed RSSI and SNR and the payload unchanged. *)
Theorem build_receive_roundtrip rssi snr data :
  -0x8000 <= rssi < 0x8000 -> -0x80 <= snr < 0x80 -> bytes_ok data ->
  match build_receive rssi snr data with
  | None => (251 < length data)%nat
  | Some f => (length data <= 251)%nat /\ frame_ok f /\
      receive_fields (frame_data f) = (rssi, snr, data)
  end.
Proof.
  intros Hr Hs Hd. unfold build_receive, MAX_DATA_SIZE.
  destruct (Z.ltb_spec (255 - 4) (Z.of_nat (length data))) as [|Hle]; [lia|].
  split; [lia|]. split.
  - split; simpl; [lia|]. split; [done|]. solve_bytes.
  - unfold receive_fields. cbn [frame_data].
    change ([u8 rssi; u8 (rssi .>> 8); u8 snr; 0] ++ data).[0] with (u8 rssi).
    change ([u8 rssi; u8 (rssi .>> 8); u8 snr; 0] ++ data).[1] with (u8 (rssi .>> 8)).
    change ([u8 rssi; u8 (rssi .>> 8); u8 snr; 0] ++ data).[2] with (u8 snr).
    rewrite i8_u8, wr16_eq, le_val_le_bytes by done.
    change (rssi mod 2 ^ (8 * Z.of_nat 2)) with (u16 rssi). by rewrite i16_u16.
Qed.

Lemma build_receive_roundtrip_witness :
  build_receive (-87) (-5) [1; 2; 3] =
    Some (mkFrame COMMAND_RECEIVE 0 [0xA9; 0xFF; 0xFB; 0; 1; 2; 3]) /\
  match build_receive (-87) (-5) [1; 2; 3] with
  | None => (251 < length [1; 2; 3])%nat
  | Some f => (length [1; 2; 3] <= 251)%nat /\ frame_ok f /\
      receive_fields (frame_data f) = (-87, -5, [1; 2; 3])
  end.
Proof.
  split; [reflexivity|].
  apply (build_receive_roundtrip (-87) (-5) [1; 2; 3]); [lia..|].
  apply (bool_decide_unpack _); vm_compute; exact I.
Defined.

(** [parse_config] fails exactly on fewer than 14 bytes; otherwise every
    field is in the range of its C type and the bandwidth index is at most 2. *)
Theorem parse_config_ranges data :
  bytes_ok data ->
  match parse_config data with
  | None => (length data < 14)%nat
  | Some c =>
      (14 <= length data)%nat /\
      fits 32 (rc_frequency c) /\ byte_ok (rc_spreading_factor c) /\
      0 <= rc_bandwidth c <= 2 /\ byte_ok (rc_coding_rate c) /\
      -0x80 <= rc_tx_power c < 0x80 /\ byte_ok (rc_sync_word c) /\
      fits 16 (rc_preamble_length c)
  end.
Proof.
  intros Hd. unfold parse_config.
  destruct (length data <? 14)%nat eqn:Hl; [by apply Nat.ltb_lt in Hl|].
  apply Nat.ltb_ge in Hl.
  assert (forall i, byte_ok (data.[i])) as Hb.
  { intros i. unfold arr. destruct (data !! i) as [x|] eqn:E; [|done].
    by eapply Forall_lookup_1. }
  cbn [rc_frequency rc_spreading_factor rc_bandwidth rc_coding_rate rc_tx_power rc_sync_word
       rc_preamble_length].
  rewrite le32_eq, !le16_eq by done.
  split; [done|]. split; [apply (le_val_bound [_; _; _; _]); solve_bytes; apply Hb|].
  split; [done|]. split; [|split; [done|split; [|split; [done|by apply fits_le2]]]].
  - match goal with |- context [u8 ?x] =>
      pose proof (fits_u8 x); destruct (Z.ltb_spec (u8 x) 2) end; unfold fits in *; lia.
  - words_lia.
Qed.

Lemma parse_config_ranges_witness :
  let data := le_bytes 4 868000000 ++ [7; 125; 0; 5; 22; 0x12; 8; 0; 1; 0] in
  exists c, parse_config data = Some c /\ rc_bandwidth c = 1 /\
  match parse_config data with
  | None => (length data < 14)%nat
  | Some c =>
      (14 <= length data)%nat /\
      fits 32 (rc_frequency c) /\ byte_ok (rc_spreading_factor c) /\
      0 <= rc_bandwidth c <= 2 /\ byte_ok (rc_coding_rate c) /\
      -0x80 <= rc_tx_power c < 0x80 /\ byte_ok (rc_sync_word c) /\
      fits 16 (rc_preamble_length c)
  end.
Proof.
  eexists. split; [reflexivity|]. split; [reflexivity|].
  apply parse_config_ranges. apply (bool_decide_unpack _); vm_compute; exact I.
Defined.
