(* ===== verification/Router.v ===== *)
(** * Protocol detection and routing: lunarcore/lunar/protocol_router.{h,c}

    [ProtocolDetector] recognises the protocol spoken on a byte stream and
    locks on it after confirmed frames; [ProtocolRouter] owns one detector per
    transport and arbitrates which transport controls the radio. *)
From S2P Require Import Prelude.

(** ** Data *)

Inductive Protocol :=
  | PROTOCOL_UNKNOWN | PROTOCOL_MESHCORE | PROTOCOL_MESHTASTIC
  | PROTOCOL_RNODE | PROTOCOL_ATCOMMAND.
#[global] Instance Protocol_eq_dec : EqDecision Protocol.
Proof. solve_decision. Defined.

Definition MESHCORE_SYNC1 : Z := 0xAA.
Definition MESHCORE_SYNC2 : Z := 0x55.
Definition MESHTASTIC_SYNC1 : Z := 0x94.
Definition MESHTASTIC_SYNC2 : Z := 0xC3.
Definition KISS_FEND : Z := 0xC0.
Definition CHAR_A : Z := 65.
Definition CHAR_T : Z := 84.

Inductive DetectState :=
  | DETECT_STATE_IDLE | DETECT_STATE_MESHCORE1 | DETECT_STATE_MESHTASTIC1 | DETECT_STATE_AT1.
#[global] Instance DetectState_eq_dec : EqDecision DetectState.
Proof. solve_decision. Defined.

Definition SYNC_TIMEOUT_BYTES : Z := 256.

Record ProtocolDetector := mkDetector {
  d_state : DetectState;
  d_detected : Protocol;
  d_bytes_seen : Z;       (* uint16_t *)
  d_lock_threshold : Z;   (* uint8_t *)
  d_lock_count : Z;       (* uint8_t *)
  d_state_bytes : Z;      (* uint16_t *)
  d_last_detect_ms : Z    (* uint32_t *)
}.

Definition protocol_detector_new : ProtocolDetector :=
  mkDetector DETECT_STATE_IDLE PROTOCOL_UNKNOWN 0 3 0 0 0.

Definition protocol_detector_reset (d : ProtocolDetector) : ProtocolDetector :=
  mkDetector DETECT_STATE_IDLE PROTOCOL_UNKNOWN 0 (d_lock_threshold d) 0 0 (d_last_detect_ms d).

Definition protocol_detector_soft_reset (d : ProtocolDetector) : ProtocolDetector :=
  mkDetector DETECT_STATE_IDLE (d_detected d) (d_bytes_seen d) (d_lock_threshold d)
    (d_lock_count d) 0 (d_last_detect_ms d).

Definition protocol_detector_force_protocol (d : ProtocolDetector) (protocol : Protocol)
    : ProtocolDetector :=
  mkDetector DETECT_STATE_IDLE protocol (d_bytes_seen d) (d_lock_threshold d)
    (d_lock_count d) (d_state_bytes d) (d_last_detect_ms d).

Definition protocol_detector_protocol (d : ProtocolDetector) : Protocol := d_detected d.

Definition protocol_detector_is_locked (d : ProtocolDetector) : bool :=
  d_lock_threshold d <=? d_lock_count d.

Definition set_lock (d : ProtocolDetector) (detected : Protocol) (count : Z) : ProtocolDetector :=
  mkDetector (d_state d) detected (d_bytes_seen d) (d_lock_threshold d) count
    (d_state_bytes d) (d_last_detect_ms d).

Definition protocol_detector_confirm_frame (d : ProtocolDetector) : ProtocolDetector :=
  if d_lock_count d <? 255 then set_lock d (d_detected d) (u8 (d_lock_count d + 1)) else d.

Definition protocol_detector_error_frame (d : ProtocolDetector) : ProtocolDetector :=
  let d1 :=
    if 0 <? d_lock_count d then
      let new_count := u8 (d_lock_count d - 2) in
      if d_lock_count d <? new_count then set_lock d (d_detected d) 0
      else set_lock d (d_detected d) new_count
    else d in
  if (d_lock_count d1 =? 0) && negb (bool_decide (d_detected d1 = PROTOCOL_UNKNOWN))
  then set_lock d1 PROTOCOL_UNKNOWN (d_lock_count d1)
  else d1.

Definition protocol_detector_check_timeout (d : ProtocolDetector) : ProtocolDetector :=
  if negb (bool_decide (d_state d = DETECT_STATE_IDLE)) && (SYNC_TIMEOUT_BYTES <? d_state_bytes d)
  then mkDetector DETECT_STATE_IDLE (d_detected d) (d_bytes_seen d) (d_lock_threshold d)
         (d_lock_count d) 0 (d_last_detect_ms d)
  else d.

Definition set_sync (d : ProtocolDetector) (s : DetectState) (p : Protocol) : ProtocolDetector :=
  mkDetector s p (d_bytes_seen d) (d_lock_threshold d) (d_lock_count d) (d_state_bytes d)
    (d_last_detect_ms d).

Definition set_state_bytes (d : ProtocolDetector) (n : Z) : ProtocolDetector :=
  mkDetector (d_state d) (d_detected d) (d_bytes_seen d) (d_lock_threshold d) (d_lock_count d) n
    (d_last_detect_ms d).

(** The [switch] of [protocol_detector_feed]: the state left and the protocol
    returned from inside the switch, if any. *)
Definition feed_switch (d : ProtocolDetector) (byte : Z) : ProtocolDetector * option Protocol :=
  match d_state d with
  | DETECT_STATE_IDLE =>
      if byte =? MESHCORE_SYNC1 then (set_sync d DETECT_STATE_MESHCORE1 (d_detected d), None)
      else if byte =? MESHTASTIC_SYNC1
        then (set_sync d DETECT_STATE_MESHTASTIC1 (d_detected d), None)
      else if byte =? KISS_FEND then
        if bool_decide (d_detected d = PROTOCOL_UNKNOWN) || bool_decide (d_detected d = PROTOCOL_RNODE)
        then (set_sync d (d_state d) PROTOCOL_RNODE, Some PROTOCOL_RNODE)
        else (d, None)
      else if byte =? CHAR_A then (set_sync d DETECT_STATE_AT1 (d_detected d), None)
      else (d, None)
  | DETECT_STATE_MESHCORE1 =>
      if byte =? MESHCORE_SYNC2
      then (set_sync d DETECT_STATE_IDLE PROTOCOL_MESHCORE, Some PROTOCOL_MESHCORE)
      else if byte =? MESHCORE_SYNC1 then (d, None)
      else (set_sync d DETECT_STATE_IDLE (d_detected d), None)
  | DETECT_STATE_MESHTASTIC1 =>
      if byte =? MESHTASTIC_SYNC2
      then (set_sync d DETECT_STATE_IDLE PROTOCOL_MESHTASTIC, Some PROTOCOL_MESHTASTIC)
      else (set_sync d DETECT_STATE_IDLE (d_detected d), None)
  | DETECT_STATE_AT1 =>
      if byte =? CHAR_T
      then (set_sync d DETECT_STATE_IDLE PROTOCOL_ATCOMMAND, Some PROTOCOL_ATCOMMAND)
      else (set_sync d DETECT_STATE_IDLE (d_detected d), None)
  end.

Definition protocol_detector_feed (d : ProtocolDetector) (byte : Z)
    : ProtocolDetector * option Protocol :=
  let d1 := mkDetector (d_state d) (d_detected d) (u16 (d_bytes_seen d + 1)) (d_lock_threshold d)
              (d_lock_count d) (u16 (d_state_bytes d + 1)) (d_last_detect_ms d) in
  let d2 := protocol_detector_check_timeout d1 in
  if protocol_detector_is_locked d2 then (d2, Some (d_detected d2))
  else
    let prev_state := d_state d2 in
    match feed_switch d2 byte with
    | (d3, Some p) => (d3, Some p)
    | (d3, None) =>
        if bool_decide (d_state d3 = prev_state) then (d3, None)
        else (set_state_bytes d3 0, None)
    end.

Definition MAX_TRANSPORTS : nat := 3.

Inductive TransportType :=
  | TRANSPORT_TYPE_USB_SERIAL | TRANSPORT_TYPE_BLE | TRANSPORT_TYPE_WIFI.
#[global] Instance TransportType_eq_dec : EqDecision TransportType.
Proof. solve_decision. Defined.

Record TransportState := mkTransportState {
  ts_transport : TransportType;
  ts_detector : ProtocolDetector;
  ts_active : bool
}.

Definition transport_state_new (t : TransportType) : TransportState :=
  mkTransportState t protocol_detector_new false.

Record ProtocolRouter := mkRouter {
  r_transports : list TransportState;     (* transports[MAX_TRANSPORTS] *)
  r_lora_protocol : Protocol;
  r_lora_shared : bool;
  r_priority_transport : option TransportType
}.

Definition protocol_router_new : ProtocolRouter :=
  mkRouter [transport_state_new TRANSPORT_TYPE_USB_SERIAL;
            transport_state_new TRANSPORT_TYPE_BLE;
            transport_state_new TRANSPORT_TYPE_WIFI]
    PROTOCOL_UNKNOWN true None.

(** The [switch (transport)] that picks the slot. *)
Definition transport_idx (t : TransportType) : nat :=
  match t with
  | TRANSPORT_TYPE_USB_SERIAL => 0
  | TRANSPORT_TYPE_BLE => 1
  | TRANSPORT_TYPE_WIFI => 2
  end.

Definition protocol_router_transport (r : ProtocolRouter) (t : TransportType) : TransportState :=
  default (transport_state_new t) (r_transports r !! transport_idx t).

(** A write through the pointer [protocol_router_transport] returns. *)
Definition set_transport (r : ProtocolRouter) (t : TransportType) (s : TransportState)
    : ProtocolRouter :=
  mkRouter (<[transport_idx t := s]> (r_transports r)) (r_lora_protocol r) (r_lora_shared r)
    (r_priority_transport r).

Definition protocol_router_set_lora_protocol (r : ProtocolRouter) (p : Protocol) : ProtocolRouter :=
  mkRouter (r_transports r) p (r_lora_shared r) (r_priority_transport r).

Definition protocol_router_release_lora_control (r : ProtocolRouter) (t : TransportType)
    : ProtocolRouter :=
  let prio := if bool_decide (r_priority_transport r = Some t) then None
              else r_priority_transport r in
  let r1 := mkRouter (r_transports r) (r_lora_protocol r) (r_lora_shared r) prio in
  let s := protocol_router_transport r1 t in
  set_transport r1 t
    (mkTransportState (ts_transport s) (protocol_detector_reset (ts_detector s)) false).

Definition protocol_router_can_claim_lora (r : ProtocolRouter) (t : TransportType) (p : Protocol)
    : bool :=
  match r_priority_transport r with
  | None => true
  | Some h => bool_decide (h = t) || bool_decide (r_lora_protocol r = p)
  end.

Definition protocol_router_route_incoming (r : ProtocolRouter) (t : TransportType) (byte : Z)
    : ProtocolRouter * Protocol :=
  let s := protocol_router_transport r t in
  let '(det, result) := protocol_detector_feed (ts_detector s) byte in
  let r1 := set_transport r t (mkTransportState (ts_transport s) det true) in
  match result with
  | Some protocol =>
      let can_claim :=
        match r_priority_transport r1 with
        | None => true
        | Some h => bool_decide (h = t) || bool_decide (r_lora_protocol r1 = protocol)
        end in
      if can_claim then
        let lora :=
          if bool_decide (r_lora_protocol r1 = PROTOCOL_UNKNOWN)
             || bool_decide (r_lora_protocol r1 = protocol)
          then protocol else r_lora_protocol r1 in
        let prio :=
          match r_priority_transport r1 with
          | None => if protocol_detector_is_locked det then Some t else None
          | Some h => Some h
          end in
        (mkRouter (r_transports r1) lora (r_lora_shared r1) prio, protocol)
      else (r1, protocol)
  | None => (r1, protocol_detector_protocol det)
  end.

Definition protocol_router_resolve_conflict (r : ProtocolRouter) (t : TransportType) (p : Protocol)
    : bool :=
  if bool_decide (p = PROTOCOL_ATCOMMAND) then true
  else match r_priority_transport r with
  | None => true
  | Some h =>
      if bool_decide (h = t) then true
      else if negb (bool_decide (r_lora_protocol r = p))
              && negb (bool_decide (r_lora_protocol r = PROTOCOL_UNKNOWN))
      then false else true
  end.

(** [protocol_router_status]: one row per transport. *)
Definition protocol_router_status (r : ProtocolRouter) : list (TransportType * Protocol * bool) :=
  (fun t => let s := protocol_router_transport r t in
            (t, protocol_detector_protocol (ts_detector s), ts_active s))
  <$> [TRANSPORT_TYPE_USB_SERIAL; TRANSPORT_TYPE_BLE; TRANSPORT_TYPE_WIFI].

(** The const twin of [protocol_router_transport] and the getters. *)
Definition protocol_router_transport_ref (r : ProtocolRouter) (t : TransportType) : TransportState :=
  default (transport_state_new t) (r_transports r !! transport_idx t).
Definition protocol_router_lora_protocol (r : ProtocolRouter) : Protocol := r_lora_protocol r.
Definition protocol_router_is_lora_shared (r : ProtocolRouter) : bool := r_lora_shared r.
Definition protocol_router_priority_transport (r : ProtocolRouter) : option TransportType :=
  r_priority_transport r.

(** ** Packets handed between the protocols: [VecU8_237] is its contents *)

Record UnifiedPacket := mkUnifiedPacket {
  up_source_protocol : Protocol;
  up_dest_protocol : Protocol;
  up_payload : list Z;
  up_source_addr : list Z;
  up_dest_addr : list Z;
  up_hops : Z;
  up_rssi : Z;
  up_snr : Z
}.

Definition vec_u8_237_new : list Z := [].

Definition unified_packet_new : UnifiedPacket :=
  mkUnifiedPacket PROTOCOL_UNKNOWN PROTOCOL_UNKNOWN vec_u8_237_new
    (replicate 32 0) (replicate 32 0) 0 0 0.

(** ** Guessing the protocol of a radio packet *)

Definition lora_packet_detect_protocol (data : list Z) : Protocol :=
  let data_len := length data in
  if (data_len <? 4)%nat then PROTOCOL_UNKNOWN
  else if (20 <=? data_len)%nat &&
          (let channel_hash := data.[3] in
           (12 <=? data_len)%nat &&
           (let hop_limit := data.[11] .& 0x07 in
            (1 <=? hop_limit) && (hop_limit <=? 7) && negb (channel_hash =? 0)))
  then PROTOCOL_MESHTASTIC
  else if (9 <=? data_len)%nat &&
          (let flags := data.[8] in
           let msg_type := flags .& 0x0F in
           let hop := (flags .>> 4) .& 0x0F in
           (msg_type <=? 15) && (hop <=? 7))
  then PROTOCOL_MESHCORE
  else if (18 <=? data_len)%nat &&
          (let context := data.[16] in
           let header_type := (context .>> 6) .& 0x03 in
           let propagation_type := (context .>> 4) .& 0x03 in
           (header_type <=? 3) && (propagation_type <=? 3) &&
           (let zeros := length (filter (fun b => b = 0) (take 16 data)) in (zeros <? 8)%nat))
  then PROTOCOL_RNODE
  else PROTOCOL_UNKNOWN.

(** ** Lock hysteresis *)

Lemma confirm_frame_count d :
  fits 8 (d_lock_count d) ->
  protocol_detector_confirm_frame d = set_lock d (d_detected d) (Z.min 255 (d_lock_count d + 1)).
Proof.
  intros Hc. unfold protocol_detector_confirm_frame.
  destruct (Z.ltb_spec (d_lock_count d) 255).
  - f_equal. rewrite u8_small by words_lia. lia.
  - destruct d. unfold set_lock. simpl in *. f_equal. words_lia.
Qed.

Lemma error_frame_count d :
  fits 8 (d_lock_count d) ->
  protocol_detector_error_frame d =
  set_lock d (if d_lock_count d <=? 2 then PROTOCOL_UNKNOWN else d_detected d)
    (Z.max 0 (d_lock_count d - 2)).
Proof.
  intros Hc. unfold protocol_detector_error_frame.
  assert ((if 0 <? d_lock_count d then
             if d_lock_count d <? u8 (d_lock_count d - 2)
             then set_lock d (d_detected d) 0
             else set_lock d (d_detected d) (u8 (d_lock_count d - 2))
           else d) = set_lock d (d_detected d) (Z.max 0 (d_lock_count d - 2))) as ->.
  { destruct (Z.ltb_spec 0 (d_lock_count d)).
    - destruct (Z.ltb_spec (d_lock_count d) (u8 (d_lock_count d - 2)));
        f_equal; words_lia.
    - destruct d. unfold set_lock. simpl in *. f_equal. words_lia. }
  simpl. destruct (Z.eqb_spec (Z.max 0 (d_lock_count d - 2)) 0), (Z.leb_spec (d_lock_count d) 2);
    try lia; [|done].
  simpl. case_bool_decide as E; simpl; [by rewrite E|done].
Qed.

Definition confirm_frames (n : nat) (d : ProtocolDetector) := Nat.iter n protocol_detector_confirm_frame d.
Definition error_frames (n : nat) (d : ProtocolDetector) := Nat.iter n protocol_detector_error_frame d.

Lemma confirm_frames_eq n d :
  fits 8 (d_lock_count d) ->
  confirm_frames n d = set_lock d (d_detected d) (Z.min 255 (d_lock_count d + Z.of_nat n)).
Proof.
  intros Hc. induction n as [|n IH].
  - destruct d. unfold set_lock. simpl in *. f_equal. words_lia.
  - simpl. fold (confirm_frames n d). rewrite IH, confirm_frame_count by (simpl; words_lia).
    unfold set_lock. simpl. f_equal. words_lia.
Qed.

Lemma error_frames_count n d :
  fits 8 (d_lock_count d) ->
  d_lock_count (error_frames n d) = Z.max 0 (d_lock_count d - 2 * Z.of_nat n).
Proof.
  intros Hc. induction n as [|n IH]; [simpl; words_lia|].
  simpl. fold (error_frames n d). rewrite error_frame_count by (rewrite IH; words_lia).
  simpl. rewrite IH. lia.
Qed.

Lemma error_frames_threshold n d : d_lock_threshold (error_frames n d) = d_lock_threshold d.
Proof.
  induction n as [|n IH]; [done|]. simpl. fold (error_frames n d). rewrite <- IH.
  unfold protocol_detector_error_frame. by repeat case_match.
Qed.

(** Lock hysteresis: a fresh detector forced or synchronised to a protocol
    locks after exactly three confirmed frames; with [c >= 3] confirmed frames
    it stays locked through [n] bad frames exactly while [c' - 2n >= 3], where
    [c'] is [c] saturated at 255 (the uint8_t arithmetic never wraps). *)
Theorem lock_hysteresis c n p :
  let d := protocol_detector_force_protocol protocol_detector_new p in
  protocol_detector_is_locked (error_frames n (confirm_frames c d)) =
  (3 <=? Z.min 255 (Z.of_nat c) - 2 * Z.of_nat n).
Proof.
  intros d. rewrite confirm_frames_eq by done. set (d1 := set_lock _ _ _).
  unfold protocol_detector_is_locked. rewrite error_frames_threshold.
  rewrite error_frames_count by (unfold d1; simpl; words_lia). simpl.
  destruct (Z.leb_spec 3 (Z.min 255 (Z.of_nat c) - 2 * Z.of_nat n));
    [apply Z.leb_le|apply Z.leb_gt]; lia.
Qed.

(** ** Feeding a detector *)

Fixpoint feed_bytes (d : ProtocolDetector) (bs : list Z) : ProtocolDetector * list (option Protocol) :=
  match bs with
  | [] => (d, [])
  | b :: bs =>
      let '(d, o) := protocol_detector_feed d b in
      let '(d, os) := feed_bytes d bs in
      (d, o :: os)
  end.

Lemma check_timeout_same d :
  d_detected (protocol_detector_check_timeout d) = d_detected d /\
  d_lock_count (protocol_detector_check_timeout d) = d_lock_count d /\
  d_lock_threshold (protocol_detector_check_timeout d) = d_lock_threshold d.
Proof. unfold protocol_detector_check_timeout. by case_match. Qed.

(** A locked detector is deaf: over any byte string it reports the locked
    protocol for every byte and remains locked on it. *)
Theorem locked_detector_is_stable d bs :
  protocol_detector_is_locked d = true ->
  exists d', feed_bytes d bs = (d', replicate (length bs) (Some (d_detected d))) /\
    protocol_detector_is_locked d' = true /\ d_detected d' = d_detected d.
Proof.
  revert d. induction bs as [|b bs IH]; intros d Hd; [by exists d|]. simpl.
  unfold protocol_detector_feed. set (d1 := mkDetector _ _ _ _ _ _ _).
  destruct (check_timeout_same d1) as (E1 & E2 & E3).
  assert (protocol_detector_is_locked (protocol_detector_check_timeout d1) = true) as Hl.
  { unfold protocol_detector_is_locked in *. by rewrite E2, E3. }
  rewrite Hl. destruct (IH _ Hl) as (d' & -> & ? & ?). exists d'. by rewrite E1 in *.
Qed.

Definition locked_meshcore : ProtocolDetector :=
  confirm_frames 3 (protocol_detector_force_protocol protocol_detector_new PROTOCOL_MESHCORE).

Lemma locked_detector_is_stable_witness :
  protocol_detector_is_locked locked_meshcore = true /\
  exists d', feed_bytes locked_meshcore [0x94; 0xC3; 0xC0] = (d', replicate 3 (Some PROTOCOL_MESHCORE)) /\
    protocol_detector_is_locked d' = true /\ d_detected d' = PROTOCOL_MESHCORE.
Proof.
  split; [reflexivity|].
  apply (locked_detector_is_stable locked_meshcore [0x94; 0xC3; 0xC0]). reflexivity.
Defined.

(** ** What an unlocked detector reports *)

(** Over a run of bytes the sync state remembers the last byte received. *)
Definition sync_inv (d : ProtocolDetector) (h : list Z) : Prop :=
  match d_state d with
  | DETECT_STATE_IDLE => True
  | DETECT_STATE_MESHCORE1 => last h = Some MESHCORE_SYNC1
  | DETECT_STATE_MESHTASTIC1 => last h = Some MESHTASTIC_SYNC1
  | DETECT_STATE_AT1 => last h = Some CHAR_A
  end.

Lemma feed_switch_inv d h b :
  sync_inv d h -> sync_inv (feed_switch d b).1 (h ++ [b]).
Proof.
  destruct d as [st det bs lt lc sb ld]. unfold sync_inv, feed_switch. simpl. intros Hd.
  destruct st; simpl.
  - destruct (Z.eqb_spec b MESHCORE_SYNC1) as [->|_]; simpl; [apply last_snoc|].
    destruct (Z.eqb_spec b MESHTASTIC_SYNC1) as [->|_]; simpl; [apply last_snoc|].
    destruct (b =? KISS_FEND); [by destruct (bool_decide _ || bool_decide _)|].
    destruct (Z.eqb_spec b CHAR_A) as [->|_]; simpl; [apply last_snoc|done].
  - destruct (b =? MESHCORE_SYNC2); simpl; [done|].
    destruct (Z.eqb_spec b MESHCORE_SYNC1) as [->|_]; simpl; [apply last_snoc|done].
  - by destruct (b =? MESHTASTIC_SYNC2).
  - by destruct (b =? CHAR_T).
Qed.

(** The bytes that announce a protocol: two sync bytes, one for RNode. *)
Definition announces (p : Protocol) (h : list Z) : Prop :=
  match p with
  | PROTOCOL_UNKNOWN => False
  | PROTOCOL_MESHCORE => exists k, h = k ++ [MESHCORE_SYNC1; MESHCORE_SYNC2]
  | PROTOCOL_MESHTASTIC => exists k, h = k ++ [MESHTASTIC_SYNC1; MESHTASTIC_SYNC2]
  | PROTOCOL_RNODE => exists k, h = k ++ [KISS_FEND]
  | PROTOCOL_ATCOMMAND => exists k, h = k ++ [CHAR_A; CHAR_T]
  end.

Lemma announce_pair (h : list Z) x y : last h = Some x -> exists k, h ++ [y] = k ++ [x; y].
Proof. intros [k ->]%last_Some. exists k. by rewrite <- app_assoc. Qed.

Lemma feed_switch_announces d h b p :
  sync_inv d h -> (feed_switch d b).2 = Some p -> announces p (h ++ [b]).
Proof.
  destruct d as [st det bs lt lc sb ld]. unfold sync_inv, feed_switch. simpl. intros Hd.
  destruct st; simpl.
  - destruct (b =? MESHCORE_SYNC1); [done|]. destruct (b =? MESHTASTIC_SYNC1); [done|].
    destruct (Z.eqb_spec b KISS_FEND) as [->|_]; [|by destruct (b =? CHAR_A)].
    destruct (bool_decide _ || bool_decide _); [|done]. intros [= <-]. by exists h.
  - destruct (Z.eqb_spec b MESHCORE_SYNC2) as [->|_]; [|by destruct (b =? MESHCORE_SYNC1)].
    intros [= <-]. by apply announce_pair.
  - destruct (Z.eqb_spec b MESHTASTIC_SYNC2) as [->|_]; [|done].
    intros [= <-]. by apply announce_pair.
  - destruct (Z.eqb_spec b CHAR_T) as [->|_]; [|done].
    intros [= <-]. by apply announce_pair.
Qed.

(** [feed] is [feed_switch] on a state that still satisfies the invariant. *)
Lemma feed_unlocked d b h :
  sync_inv d h -> protocol_detector_is_locked d = false ->
  exists d2, sync_inv d2 h /\ (protocol_detector_feed d b).2 = (feed_switch d2 b).2 /\
    (d_state (protocol_detector_feed d b).1 = d_state (feed_switch d2 b).1).
Proof.
  intros Hd Hl. unfold protocol_detector_feed. set (d1 := mkDetector _ _ _ _ _ _ _).
  exists (protocol_detector_check_timeout d1). split.
  { unfold protocol_detector_check_timeout. destruct (_ && _); done. }
  destruct (check_timeout_same d1) as (_ & E2 & E3).
  assert (protocol_detector_is_locked (protocol_detector_check_timeout d1) = false) as ->.
  { unfold protocol_detector_is_locked in *. by rewrite E2, E3. }
  destruct (feed_switch _ b) as [d3 [p|]]; [done|]. by case_bool_decide.
Qed.

Lemma sync_inv_state d d' h : d_state d = d_state d' -> sync_inv d h -> sync_inv d' h.
Proof. unfold sync_inv. by intros ->. Qed.

Lemma sync_inv_idle d h : d_state d = DETECT_STATE_IDLE -> sync_inv d h.
Proof. unfold sync_inv. by intros ->. Qed.

Lemma feed_lock d b :
  d_lock_count (protocol_detector_feed d b).1 = d_lock_count d /\
  d_lock_threshold (protocol_detector_feed d b).1 = d_lock_threshold d.
Proof.
  unfold protocol_detector_feed. set (d1 := mkDetector _ _ _ _ _ _ _).
  destruct (check_timeout_same d1) as (_ & E2 & E3).
  destruct (protocol_detector_is_locked _); [done|].
  destruct (feed_switch _ b) as [d3 o] eqn:Hs.
  assert (d_lock_count d3 = d_lock_count d /\ d_lock_threshold d3 = d_lock_threshold d) as [? ?].
  { unfold feed_switch in Hs. repeat case_match; simplify_eq/=; done. }
  destruct o; [done|]. by case_bool_decide.
Qed.

Lemma feed_bytes_snoc d h b :
  (feed_bytes d (h ++ [b])).1 = (protocol_detector_feed (feed_bytes d h).1 b).1.
Proof.
  revert d. induction h as [|x h IH]; intros d; simpl.
  - by destruct (protocol_detector_feed d b).
  - destruct (protocol_detector_feed d x) as [d' o]. specialize (IH d').
    destruct (feed_bytes d' (h ++ [b])). by destruct (feed_bytes d' h).
Qed.

Lemma feed_bytes_inv d h :
  d_state d = DETECT_STATE_IDLE -> protocol_detector_is_locked d = false ->
  sync_inv (feed_bytes d h).1 h /\ protocol_detector_is_locked (feed_bytes d h).1 = false.
Proof.
  intros Hi Hl. induction h as [|b h [IH1 IH2]] using rev_ind; [by split; [apply sync_inv_idle|]|].
  rewrite feed_bytes_snoc. split.
  - destruct (feed_unlocked _ b h IH1 IH2) as (d2 & H2 & _ & Hst).
    eapply sync_inv_state; [symmetry; exact Hst|]. by apply feed_switch_inv.
  - unfold protocol_detector_is_locked in *. by destruct (feed_lock (feed_bytes d h).1 b) as [-> ->].
Qed.

(** Soundness of detection: an idle, unlocked detector fed any bytes
    reports a protocol at byte [b] only when the bytes received end with that
    protocol's announcement: AA 55, 94 C3, "AT", or C0 for RNode. *)
Theorem detection_sound d h b p :
  d_state d = DETECT_STATE_IDLE -> protocol_detector_is_locked d = false ->
  (protocol_detector_feed (feed_bytes d h).1 b).2 = Some p -> announces p (h ++ [b]).
Proof.
  intros Hi Hl Hp. destruct (feed_bytes_inv d h Hi Hl) as [H1 H2].
  destruct (feed_unlocked _ b h H1 H2) as (d2 & Hd2 & Hout & _).
  rewrite Hout in Hp. by apply (feed_switch_announces d2).
Qed.

Lemma detection_sound_witness :
  let d := (feed_bytes protocol_detector_new [1; 0x41]).1 in
  (protocol_detector_feed d 0x54).2 = Some PROTOCOL_ATCOMMAND /\
  announces PROTOCOL_ATCOMMAND ([1; 0x41] ++ [0x54]).
Proof.
  split; [reflexivity|].
  apply (detection_sound protocol_detector_new [1; 0x41] 0x54); reflexivity.
Defined.

(** ** The sync timeout *)

Definition is_sync1 (d : ProtocolDetector) (n : Z) : Prop :=
  d_state d = DETECT_STATE_MESHCORE1 /\ d_state_bytes d = n /\
  d_lock_count d = 0 /\ d_lock_threshold d = 3.

Lemma feed_sync1_stay d n :
  is_sync1 d n -> 0 <= n <= 255 ->
  is_sync1 (protocol_detector_feed d MESHCORE_SYNC1).1 (n + 1) /\
  (protocol_detector_feed d MESHCORE_SYNC2).2 = Some PROTOCOL_MESHCORE.
Proof.
  destruct d as [st det bs lt lc sb ld]. intros (Hst & Hsb & Hlc & Hlt) Hn. simpl in *. subst.
  unfold protocol_detector_feed. cbn [d_state d_detected d_bytes_seen d_lock_threshold
    d_lock_count d_state_bytes d_last_detect_ms].
  rewrite (u16_small (n + 1)) by words_lia.
  unfold protocol_detector_check_timeout. cbn [d_state d_state_bytes].
  destruct (Z.ltb_spec SYNC_TIMEOUT_BYTES (n + 1)); [unfold SYNC_TIMEOUT_BYTES in *; lia|].
  by rewrite andb_false_r.
Qed.

Lemma feed_sync1_timeout d :
  is_sync1 d 256 ->
  is_sync1 (protocol_detector_feed d MESHCORE_SYNC1).1 0 /\
  (protocol_detector_feed d MESHCORE_SYNC2).2 = None.
Proof.
  destruct d as [st det bs lt lc sb ld]. intros (Hst & Hsb & Hlc & Hlt). simpl in *. by subst.
Qed.

Lemma feed_run n :
  is_sync1 (feed_bytes protocol_detector_new (replicate (S n) MESHCORE_SYNC1)).1
    (Z.of_nat n mod 257).
Proof.
  induction n as [|n IH]; [done|].
  rewrite replicate_S_end, feed_bytes_snoc.
  destruct (decide (Z.of_nat n mod 257 = 256)) as [E|E].
  - rewrite E in IH. destruct (feed_sync1_timeout _ IH) as [H _].
    assert (Z.of_nat (S n) mod 257 = 0) as -> by (Z.to_euclidean_division_equations; lia). done.
  - pose proof (Z.mod_pos_bound (Z.of_nat n) 257).
    destruct (feed_sync1_stay _ _ IH ltac:(lia)) as [H' _].
    assert (Z.of_nat (S n) mod 257 = Z.of_nat n mod 257 + 1) as ->; [|done].
    Z.to_euclidean_division_equations; lia.
Qed.

(** The sync timeout, exactly: a fresh detector that receives [n >= 1] bytes
    AA and then 55 recognises MeshCore, except when [n] is a multiple of 257,
    where SYNC_TIMEOUT_BYTES drops the sync state on the very byte 55. *)
Theorem sync_run_detection n :
  (protocol_detector_feed
     (feed_bytes protocol_detector_new (replicate (S n) MESHCORE_SYNC1)).1 MESHCORE_SYNC2).2
  = if Z.of_nat (S n) mod 257 =? 0 then None else Some PROTOCOL_MESHCORE.
Proof.
  pose proof (feed_run n) as H. destruct (Z.eqb_spec (Z.of_nat (S n) mod 257) 0) as [E|E].
  - assert (Z.of_nat n mod 257 = 256) as E' by (Z.to_euclidean_division_equations; lia).
    rewrite E' in H. by destruct (feed_sync1_timeout _ H).
  - pose proof (Z.mod_pos_bound (Z.of_nat n) 257).
    apply (feed_sync1_stay _ _ H). split; [lia|].
    Z.to_euclidean_division_equations; lia.
Qed.

(** ** Arbitration of the radio *)

Inductive router_event :=
  | Re_byte (t : TransportType) (b : Z)        (* protocol_router_route_incoming *)
  | Re_release (t : TransportType)             (* protocol_router_release_lora_control *)
  | Re_confirm (t : TransportType)             (* confirm_frame through the transport pointer *)
  | Re_error (t : TransportType).              (* error_frame through the transport pointer *)

Definition on_detector (f : ProtocolDetector -> ProtocolDetector) (r : ProtocolRouter)
    (t : TransportType) : ProtocolRouter :=
  let s := protocol_router_transport r t in
  set_transport r t (mkTransportState (ts_transport s) (f (ts_detector s)) (ts_active s)).

Definition router_step (r : ProtocolRouter) (e : router_event) : ProtocolRouter :=
  match e with
  | Re_byte t b => (protocol_router_route_incoming r t b).1
  | Re_release t => protocol_router_release_lora_control r t
  | Re_confirm t => on_detector protocol_detector_confirm_frame r t
  | Re_error t => on_detector protocol_detector_error_frame r t
  end.

Definition router_run (r : ProtocolRouter) (es : list router_event) : ProtocolRouter :=
  foldl router_step r es.

(** The router is well formed: three slots, each of its own transport. *)
Definition router_wf (r : ProtocolRouter) : Prop :=
  ts_transport <$> r_transports r =
    [TRANSPORT_TYPE_USB_SERIAL; TRANSPORT_TYPE_BLE; TRANSPORT_TYPE_WIFI].

Lemma router_wf_slot r t : router_wf r -> exists s, r_transports r !! transport_idx t = Some s.
Proof.
  intros Hwf. destruct (r_transports r !! transport_idx t) as [s|] eqn:E; [by exists s|].
  apply lookup_ge_None in E. apply (f_equal length) in Hwf. rewrite length_fmap in Hwf.
  destruct t; simpl in *; lia.
Qed.

Lemma set_transport_wf r t s :
  router_wf r -> ts_transport s = ts_transport (protocol_router_transport r t) ->
  router_wf (set_transport r t s).
Proof.
  intros Hwf Hs. unfold router_wf, set_transport in *. cbn [r_transports].
  rewrite list_fmap_insert. destruct (router_wf_slot r t Hwf) as [s0 Hs0].
  unfold protocol_router_transport in Hs. rewrite Hs0 in Hs. simpl in Hs.
  rewrite list_insert_id; [done|]. by rewrite list_lookup_fmap, Hs0, Hs.
Qed.

Lemma route_incoming_eq r t b :
  exists lora prio d,
    (protocol_router_route_incoming r t b).1 =
      mkRouter (r_transports (set_transport r t
        (mkTransportState (ts_transport (protocol_router_transport r t)) d true)))
        lora (r_lora_shared r) prio /\
    (lora = r_lora_protocol r \/ r_lora_protocol r = PROTOCOL_UNKNOWN /\
       protocol_router_can_claim_lora r t lora = true) /\
    (prio = r_priority_transport r \/
       r_priority_transport r = None /\ prio = Some t /\ protocol_detector_is_locked d = true) /\
    d = (protocol_detector_feed (ts_detector (protocol_router_transport r t)) b).1.
Proof.
  unfold protocol_router_route_incoming, protocol_router_can_claim_lora.
  destruct (protocol_detector_feed _ b) as [d o].
  cbn [set_transport r_transports r_lora_protocol r_lora_shared r_priority_transport].
  destruct o as [p|]; [|by exists (r_lora_protocol r), (r_priority_transport r), d; auto].
  destruct (match r_priority_transport r with None => true | Some h => _ end) eqn:Hc;
    [|by exists (r_lora_protocol r), (r_priority_transport r), d; auto].
  do 3 eexists. split; [reflexivity|]. split; [|split; [|reflexivity]].
  - destruct (decide (r_lora_protocol r = PROTOCOL_UNKNOWN)) as [E|E].
    + right. split; [done|]. rewrite (bool_decide_true _ E). exact Hc.
    + left. rewrite (bool_decide_false _ E). by case_bool_decide.
  - destruct (r_priority_transport r) as [h|]; [by left|].
    destruct (protocol_detector_is_locked d); auto.
Qed.

Lemma router_step_wf r e : router_wf r -> router_wf (router_step r e).
Proof.
  intros Hwf. destruct e as [t b|t|t|t]; simpl.
  - destruct (route_incoming_eq r t b) as (lora & prio & d & -> & _).
    pose proof (set_transport_wf r t
      (mkTransportState (ts_transport (protocol_router_transport r t)) d true) Hwf eq_refl). done.
  - unfold protocol_router_release_lora_control. apply set_transport_wf; done.
  - by apply set_transport_wf.
  - by apply set_transport_wf.
Qed.

Lemma router_run_wf es r : router_wf r -> router_wf (router_run r es).
Proof. revert r. induction es; simpl; auto using router_step_wf. Qed.

(** C13. Priority is exclusive: whatever traffic, confirmations and errors arrive
    on any transport, a transport that holds priority keeps it until it is
    itself released; the slots keep their transports throughout. *)
Theorem priority_exclusive h es :
  Re_release h ∉ es ->
  forall r, router_wf r -> r_priority_transport r = Some h ->
  r_priority_transport (router_run r es) = Some h /\ router_wf (router_run r es).
Proof.
  induction es as [|e es IH]; intros Hes r Hwf Hr; [done|].
  apply not_elem_of_cons in Hes as [He Hes]. simpl. apply IH; [done|by apply router_step_wf|].
  destruct e as [t b|t|t|t]; simpl; [|clear IH|done..].
  - destruct (route_incoming_eq r t b) as (lora & prio & d & -> & _ & [->|[Hn _]] & _); simpl; [done|].
    congruence.
  - unfold protocol_router_release_lora_control. simpl. rewrite Hr.
    case_bool_decide; [congruence|done].
Qed.

Definition busy_router : ProtocolRouter :=
  router_run protocol_router_new
    [Re_byte TRANSPORT_TYPE_BLE 0xAA; Re_byte TRANSPORT_TYPE_BLE 0x55;
     Re_confirm TRANSPORT_TYPE_BLE; Re_confirm TRANSPORT_TYPE_BLE; Re_confirm TRANSPORT_TYPE_BLE;
     Re_byte TRANSPORT_TYPE_BLE 0x01].

Lemma priority_exclusive_witness :
  r_priority_transport (router_run busy_router
    [Re_byte TRANSPORT_TYPE_WIFI 0xC0; Re_release TRANSPORT_TYPE_WIFI; Re_error TRANSPORT_TYPE_BLE])
    = Some TRANSPORT_TYPE_BLE /\
  router_wf (router_run busy_router
    [Re_byte TRANSPORT_TYPE_WIFI 0xC0; Re_release TRANSPORT_TYPE_WIFI; Re_error TRANSPORT_TYPE_BLE]).
Proof.
  apply (priority_exclusive TRANSPORT_TYPE_BLE); [|reflexivity..].
  by repeat (apply not_elem_of_cons; split); [..|apply not_elem_of_nil].
Defined.

(** Priority is earned: from power-up, a transport obtains priority only by
    a byte of its own while its detector is locked, and only when no transport
    held it. *)
Theorem priority_earned r e t :
  r_priority_transport r <> Some t -> r_priority_transport (router_step r e) = Some t ->
  router_wf r ->
  r_priority_transport r = None /\
  (exists b, e = Re_byte t b) /\
  protocol_detector_is_locked (ts_detector (protocol_router_transport (router_step r e) t)) = true.
Proof.
  intros Hno Hyes Hwf. destruct e as [t' b|t'|t'|t']; simpl in *; try congruence.
  - destruct (route_incoming_eq r t' b) as (lora & prio & d & E & _ & Hp & _).
    rewrite E in Hyes |- *. simpl in Hyes. destruct Hp as [->|(Hn & -> & Hl)]; [done|].
    injection Hyes as ->. split; [done|]. split; [by exists b|].
    unfold protocol_router_transport. simpl. destruct (router_wf_slot r t Hwf) as [s Hs].
    rewrite list_lookup_insert_eq by by eapply lookup_lt_Some. done.
  - exfalso. unfold protocol_router_release_lora_control in Hyes. simpl in Hyes.
    case_bool_decide; congruence.
Qed.

Lemma priority_earned_witness :
  let r := router_run protocol_router_new
    [Re_byte TRANSPORT_TYPE_BLE 0xAA; Re_byte TRANSPORT_TYPE_BLE 0x55;
     Re_confirm TRANSPORT_TYPE_BLE; Re_confirm TRANSPORT_TYPE_BLE; Re_confirm TRANSPORT_TYPE_BLE] in
  r_priority_transport r = None /\
  (exists b, Re_byte TRANSPORT_TYPE_BLE 1 = Re_byte TRANSPORT_TYPE_BLE b) /\
  protocol_detector_is_locked
    (ts_detector (protocol_router_transport (router_step r (Re_byte TRANSPORT_TYPE_BLE 1)) TRANSPORT_TYPE_BLE))
  = true.
Proof.
  apply priority_earned; [by vm_compute|reflexivity|reflexivity].
Defined.

(** The radio's protocol is claimed once: after the first claim no traffic,
    error or release on any transport changes it (only
    [protocol_router_set_lora_protocol] does). In particular releasing every
    transport does not free it. *)
Theorem lora_protocol_sticky r es :
  r_lora_protocol r <> PROTOCOL_UNKNOWN ->
  r_lora_protocol (router_run r es) = r_lora_protocol r.
Proof.
  revert r. induction es as [|e es IH]; intros r Hr; [done|]. simpl.
  assert (r_lora_protocol (router_step r e) = r_lora_protocol r) as E.
  { destruct e as [t b|t|t|t]; try done. simpl.
    by destruct (route_incoming_eq r t b) as (lora & prio & d & -> & [->|[? _]] & _). }
  rewrite IH; by rewrite E.
Qed.

Lemma lora_protocol_sticky_witness :
  r_lora_protocol (router_run busy_router
    [Re_release TRANSPORT_TYPE_BLE; Re_byte TRANSPORT_TYPE_WIFI 0xC0; Re_byte TRANSPORT_TYPE_WIFI 0xC0])
  = PROTOCOL_MESHCORE.
Proof.
  apply (lora_protocol_sticky busy_router). discriminate.
Defined.

(** ** Packet classification *)

(** [lora_packet_detect_protocol] without its vacuous tests. *)
Definition detect_spec (data : list Z) : Protocol :=
  if decide ((20 <= length data)%nat /\ data.[3] <> 0 /\ data.[11] mod 8 <> 0)
  then PROTOCOL_MESHTASTIC
  else if decide ((9 <= length data)%nat /\ data.[8] < 0x80) then PROTOCOL_MESHCORE
  else if decide (18 <= length data /\ length (filter (fun b : Z => b = 0%Z) (take 16 data)) < 8)%nat
  then PROTOCOL_RNODE
  else PROTOCOL_UNKNOWN.

Lemma nibble_checks x :
  0 <= x < 256 ->
  ((((x .& 0x0F) <=? 15) && (((x .>> 4) .& 0x0F) <=? 7)) = (x <? 0x80)) /\
  (((((x .>> 6) .& 0x03) <=? 3) && (((x .>> 4) .& 0x03) <=? 3)) = true).
Proof.
  intros Hx.
  assert (eqb (((x .& 0x0F) <=? 15) && (((x .>> 4) .& 0x0F) <=? 7)) (x <? 0x80) &&
    ((((x .>> 6) .& 0x03) <=? 3) && (((x .>> 4) .& 0x03) <=? 3)) = true) as H.
  { revert x Hx. apply (range_check 256
      (fun x => eqb (((x .& 0x0F) <=? 15) && (((x .>> 4) .& 0x0F) <=? 7)) (x <? 0x80) &&
    ((((x .>> 6) .& 0x03) <=? 3) && (((x .>> 4) .& 0x03) <=? 3)))). vm_compute. done. }
  apply andb_true_iff in H as [H1 H2]. split; [by apply eqb_prop|done].
Qed.

Lemma hop_check x :
  0 <= x < 256 -> ((1 <=? x .& 0x07) && (x .& 0x07 <=? 7)) = negb (x mod 8 =? 0).
Proof.
  intros Hx. apply eqb_prop. revert x Hx.
  apply (range_check 256 (fun x => eqb ((1 <=? x .& 0x07) && (x .& 0x07 <=? 7)) (negb (x mod 8 =? 0)))).
  by vm_compute.
Qed.

(** Packet classification, exactly: the header-type and message-type tests
    of [lora_packet_detect_protocol] never fail, so a packet of 9 or more bytes
    is MeshCore whenever byte 8 is below 0x80 and it is not Meshtastic, and
    RNode is reachable only with the top bit of byte 8 set. *)
Theorem detect_protocol_exact data :
  bytes_ok data -> lora_packet_detect_protocol data = detect_spec data.
Proof.
  intros Hd. unfold lora_packet_detect_protocol, detect_spec.
  assert (forall i, 0 <= data.[i] < 256) as Hb.
  { intros i. unfold arr. destruct (data !! i) as [x|] eqn:E; [|simpl; lia].
    eapply Forall_lookup_1 in E; [|exact Hd]. exact E. }
  destruct (nibble_checks (data.[8]) (Hb 8%nat)) as [-> _].
  destruct (nibble_checks (data.[16]) (Hb 16%nat)) as [_ ->]. cbv zeta.
  rewrite (hop_check (data.[11])) by auto.
  set (n := length data). set (z := length (filter _ _)).
  destruct (Nat.ltb_spec n 4).
  { repeat (rewrite decide_False by lia). done. }
  destruct (Nat.leb_spec 20 n), (Nat.leb_spec 12 n), (Nat.leb_spec 9 n), (Nat.leb_spec 18 n); try lia;
    simpl; destruct (Z.eqb_spec (data.[3]) 0), (Z.eqb_spec (data.[11] mod 8) 0),
      (Z.ltb_spec (data.[8]) 128), (Nat.ltb_spec z 8); simpl;
    repeat first [rewrite decide_True by lia | rewrite decide_False by lia]; done.
Qed.

Lemma detect_protocol_exact_witness :
  let data := replicate 20 0x81 in
  lora_packet_detect_protocol data = PROTOCOL_MESHTASTIC /\
  lora_packet_detect_protocol data = detect_spec data.
Proof.
  split; [reflexivity|]. apply detect_protocol_exact.
  apply (bool_decide_unpack _). vm_compute. exact I.
Defined.
