(* ===== verification/Blocks.v ===== *)
(** * Block buffering

    The hashes and MACs of the crypto directory share one loop: a partial block
    is buffered, whole blocks are absorbed into a state one after the other. This
    file has the loop for any block function and the fact the clients use: feeding
    in pieces is feeding the concatenation. *)
From S2P Require Import Prelude.

Section blocks.
Context {S : Type} (bs : nat) (f : S -> list Z -> S) (Hbs : (0 < bs)%nat).

(** [while (offset + bs <= len) ...]; [fuel] bounds the number of blocks, the
    bytes left over are returned. *)
Fixpoint process_blocks (fuel : nat) (state : S) (data : list Z) : S * list Z :=
  match fuel with
  | O => (state, data)
  | Datatypes.S fuel =>
      if (bs <=? length data)%nat
      then process_blocks fuel (f state (take bs data)) (drop bs data)
      else (state, data)
  end.

(** The [update] functions: complete the buffered block if there are enough
    bytes, absorb whole blocks, buffer the rest. *)
Definition buffered_update (state : S) (buffer data : list Z) : S * list Z :=
  let needed := (bs - length buffer)%nat in
  if (0 <? length buffer)%nat then
    if (needed <=? length data)%nat
    then process_blocks (length data) (f state (buffer ++ take needed data)) (drop needed data)
    else (state, buffer ++ data)
  else process_blocks (length data) state data.

(** ** Specification *)

(** Absorb the first [n] blocks of [d]. *)
Fixpoint compress (n : nat) (state : S) (d : list Z) : S :=
  match n with
  | O => state
  | Datatypes.S n => compress n (f state (take bs d)) (drop bs d)
  end.

(** Absorb the whole blocks of [d]; what is left is the remainder. *)
Definition absorb (state : S) (d : list Z) : S * list Z :=
  (compress (length d / bs) state d, drop (bs * (length d / bs)) d).

Lemma absorb_inv state d state' rest :
  absorb state d = (state', rest) ->
  compress (length d / bs) state d = state' /\ drop (bs * (length d / bs)) d = rest.
Proof. unfold absorb. by intros [= <- <-]. Qed.

Lemma compress_app_l n state a b :
  (bs * n <= length a)%nat -> compress n state (a ++ b) = compress n state a.
Proof.
  revert state a. induction n as [|n IH]; intros state a Hn; simpl; [done|].
  rewrite take_app_le, drop_app_le by lia. apply IH. rewrite length_drop. lia.
Qed.

Lemma compress_add n m state d :
  compress (n + m) state d = compress m (compress n state d) (drop (bs * n) d).
Proof.
  revert state d. induction n as [|n IH]; intros state d; simpl.
  - by rewrite Nat.mul_0_r, drop_0.
  - rewrite IH, drop_drop. do 2 f_equal. lia.
Qed.

(** What the division leaves: used for every bound below. *)
Lemma blocks_bound n : (bs * (n / bs) <= n < bs * (n / bs) + bs)%nat.
Proof.
  pose proof (Nat.div_mod_eq n bs). pose proof (Nat.mod_upper_bound n bs). lia.
Qed.

Lemma blocks_unique n q r : (r < bs)%nat -> (bs * q + r)%nat = n -> (n / bs = q)%nat.
Proof. intros Hr <-. symmetry. by apply (Nat.div_unique _ _ q r). Qed.

Lemma process_blocks_absorb fuel state d :
  (length d / bs <= fuel)%nat -> process_blocks fuel state d = absorb state d.
Proof.
  unfold absorb. revert state d. induction fuel as [|fuel IH]; intros state d Hf.
  - assert (length d / bs = 0)%nat as -> by lia. by rewrite Nat.mul_0_r.
  - cbn [process_blocks]. pose proof (blocks_bound (length d)) as Hd.
    destruct (Nat.leb_spec bs (length d)) as [Hl|Hl].
    + destruct (length d / bs)%nat as [|q] eqn:Eq; [lia|].
      assert (length (drop bs d) / bs = q)%nat as Hq.
      { apply (blocks_unique _ q (length d - bs - bs * q)); [lia|]. rewrite length_drop. lia. }
      rewrite IH by lia. rewrite Hq. cbn [compress]. rewrite drop_drop. do 2 f_equal. lia.
    + rewrite (blocks_unique (length d) 0 (length d)) by lia. by rewrite Nat.mul_0_r.
Qed.

Lemma absorb_short state d : (length d < bs)%nat -> absorb state d = (state, d).
Proof. intros. unfold absorb. by rewrite Nat.div_small, Nat.mul_0_r. Qed.

(** Absorbing in two steps. *)
Lemma absorb_app state a b :
  absorb state (a ++ b)
  = let '(state', rest) := absorb state a in absorb state' (rest ++ b).
Proof.
  unfold absorb. pose proof (blocks_bound (length a)) as Ha.
  set (n := (length a / bs)%nat) in *. set (k := length (drop (bs * n) a ++ b)).
  pose proof (blocks_bound k) as Hk.
  assert (length (a ++ b) / bs = n + k / bs)%nat as ->.
  { apply (blocks_unique _ _ (k - bs * (k / bs))); [lia|].
    unfold k in *. rewrite !length_app, length_drop in *. lia. }
  rewrite compress_add, compress_app_l, drop_app_le by lia. f_equal.
  rewrite <- drop_app_le, drop_drop by lia. f_equal. lia.
Qed.

Lemma absorb_one state d : length d = bs -> absorb state d = (f state d, []).
Proof.
  intros Hd. unfold absorb. rewrite (blocks_unique (length d) 1 0) by lia. simpl.
  by rewrite take_ge, drop_ge by lia.
Qed.

Lemma length_absorb_rest state d : (length (absorb state d).2 = length d mod bs)%nat.
Proof.
  unfold absorb. cbn [snd]. rewrite length_drop. pose proof (Nat.div_mod_eq (length d) bs). lia.
Qed.

(** An [update] is an absorption of the buffered and the new bytes. *)
Lemma buffered_update_absorb state buffer data :
  (length buffer < bs)%nat ->
  buffered_update state buffer data = absorb state (buffer ++ data).
Proof.
  intros Hb. assert (forall l m : list Z, (length l <= length m -> length l / bs <= length m)%nat) as Hdiv.
  { intros l m Hlm. pose proof (blocks_bound (length l)). nia. }
  unfold buffered_update. destruct (Nat.ltb_spec 0 (length buffer)) as [H0|H0].
  - destruct (Nat.leb_spec (bs - length buffer) (length data)) as [Hn|Hn].
    + assert (buffer ++ data = (buffer ++ take (bs - length buffer) data)
              ++ drop (bs - length buffer) data) as -> by (by rewrite <- app_assoc, take_drop).
      rewrite absorb_app, absorb_one by (rewrite length_app, length_take; lia).
      apply process_blocks_absorb, Hdiv. cbn [app]. rewrite length_drop. lia.
    + rewrite absorb_short; [done|]. rewrite length_app. lia.
  - destruct buffer; [|simpl in H0; lia]. by apply process_blocks_absorb, Hdiv.
Qed.

(** ** Merkle-Damgård padding

    The [finalize] functions of the hashes: the byte 0x80, zeros, and a length field [tail]
    of [ll] bytes, in one block or two. *)
Definition md_finish (ll : nat) (state : S) (buffer tail : list Z) : S * list Z :=
  let buffer := buffer ++ [0x80] in
  let '(state, buffer) :=
    if (bs - ll <? length buffer)%nat
    then (f state (buffer ++ replicate (bs - length buffer) 0), [])
    else (state, buffer) in
  (f state (buffer ++ replicate (bs - ll - length buffer) 0 ++ tail), buffer).

(** The zeros fill up to [bs - ll] modulo [bs]. *)
Definition md_pad (ll : nat) (msg tail : list Z) : list Z :=
  msg ++ [0x80] ++ replicate ((2 * bs - ll - (length msg + 1) mod bs) mod bs) 0 ++ tail.

Lemma md_zeros ll n (r := (n mod bs)%nat) : (0 < ll < bs)%nat ->
  ((2 * bs - ll - (n + 1) mod bs) mod bs
   = if bs - ll <? r + 1 then 2 * bs - ll - 1 - r else bs - ll - 1 - r)%nat.
Proof.
  intros Hll. pose proof (Nat.div_mod_eq n bs) as Hn. fold r in Hn.
  assert (r < bs)%nat as Hr by (apply Nat.mod_upper_bound; lia).
  assert ((n + 1) mod bs = if decide (r + 1 = bs) then 0 else r + 1)%nat as ->.
  { symmetry. case_decide.
    - apply (Nat.mod_unique _ _ (n / bs + 1)); lia.
    - apply (Nat.mod_unique _ _ (n / bs)); lia. }
  symmetry. case_decide; destruct (Nat.ltb_spec (bs - ll) (r + 1)).
  - apply (Nat.mod_unique _ _ 1); lia.
  - lia.
  - apply (Nat.mod_unique _ _ 0); lia.
  - apply (Nat.mod_unique _ _ 1); lia.
Qed.

Lemma compress_absorb msg tail n init state rest :
  absorb init msg = (state, rest) ->
  compress (length msg / bs + n) init (msg ++ tail) = compress n state (rest ++ tail).
Proof.
  unfold absorb. intros [= <- <-]. pose proof (blocks_bound (length msg)).
  rewrite compress_add, compress_app_l, drop_app_le by lia. done.
Qed.

Lemma md_finish_spec ll init msg tail state buffer :
  (0 < ll < bs)%nat -> length tail = ll -> absorb init msg = (state, buffer) ->
  (md_finish ll state buffer tail).1
  = compress (length (md_pad ll msg tail) / bs) init (md_pad ll msg tail).
Proof.
  intros Hll Ht Habs. pose proof (length_absorb_rest init msg) as Hb. rewrite Habs in Hb. cbn [snd] in Hb.
  unfold md_finish, md_pad. rewrite (md_zeros ll (length msg)) by done. rewrite length_app. cbn [length].
  pose proof (Nat.div_mod_eq (length msg) bs) as Hdm. set (r := (length msg mod bs)%nat) in *.
  assert (r < bs)%nat as Hr by (apply Nat.mod_upper_bound; lia). rewrite Hb.
  destruct (Nat.ltb_spec (bs - ll) (r + 1)) as [Hlt|Hle]; cbn [fst].
  - rewrite (blocks_unique (length _) (length msg / bs + 2) 0)
      by (rewrite ?length_app, ?length_replicate, ?Ht; cbn [length]; lia).
    rewrite (compress_absorb _ _ _ _ _ _ Habs). cbn [compress].
    replace (2 * bs - ll - 1 - r)%nat with (bs - (r + 1) + (bs - ll))%nat by lia.
    rewrite replicate_add. set (block := (buffer ++ [128%Z]) ++ replicate (bs - (r + 1)) 0%Z).
    assert (length block = bs) as Hblk.
    { unfold block. rewrite !length_app, length_replicate, Hb. cbn [length]. lia. }
    replace (buffer ++ [128] ++ (replicate (bs - (r + 1)) 0 ++ replicate (bs - ll) 0) ++ tail)
      with (block ++ replicate (bs - ll) 0 ++ tail) by (unfold block; by rewrite <- !app_assoc).
    rewrite take_app_length', drop_app_length' by done.
    rewrite take_ge by (rewrite length_app, length_replicate, Ht; lia).
    by rewrite Nat.sub_0_r.
  - rewrite (blocks_unique (length _) (length msg / bs + 1) 0)
      by (rewrite ?length_app, ?length_replicate, ?Ht; cbn [length]; lia).
    rewrite (compress_absorb _ _ _ _ _ _ Habs). cbn [compress].
    rewrite take_ge by (rewrite !length_app, length_replicate, Ht, Hb; cbn [length]; lia).
    rewrite length_app, Hb, <- !app_assoc. cbn [length].
    by replace (bs - ll - (r + 1))%nat with (bs - ll - 1 - r)%nat by lia.
Qed.
End blocks.

(** Two block functions related on blocks stay related. *)
Lemma compress_rel {S T} (bs : nat) (f : S -> list Z -> S) (g : T -> list Z -> T)
    (R : S -> T -> Prop) :
  (forall s t b, R s t -> length b = bs -> bytes_ok b -> R (f s b) (g t b)) ->
  forall n s t d, R s t -> (bs * n <= length d)%nat -> bytes_ok d ->
  R (compress bs f n s d) (compress bs g n t d).
Proof.
  intros Hstep n. induction n as [|n IH]; intros s t d HR Hl Hd; [done|]. cbn [compress].
  apply IH.
  - apply Hstep; [done|rewrite length_take; lia|by apply Forall_take].
  - rewrite length_drop. lia.
  - by apply Forall_drop.
Qed.
