(* ===== verification/Fips180.v ===== *)
(** * FIPS 180-4: SHA-256 and SHA-512 as the standard defines them

    The two hash functions of the repository are proved against this file. Nothing in it is
    taken from the code: the constants are computed from the prime numbers, the operations on
    words are arithmetic, and the message is padded by its length in bits. The second half
    shows that a block function of the usual C shape, for any word size, computes the
    standard's; Sha256.v and Sha512.v apply it to theirs. *)
From S2P Require Import Prelude Blocks.

(** ** Constants (4.2.2, 4.2.3, 5.3.3, 5.3.5) *)

(** The integer part of the [k]-th root of [n], for [n] below [2 ^ (k * bits)]. *)
Fixpoint iroot (k : Z) (bits : nat) (n : Z) : Z :=
  match bits with
  | O => 0
  | S bits =>
      let r := 2 * iroot k bits (n / 2 ^ k) in
      if (r + 1) ^ k <=? n then r + 1 else r
  end.

Definition is_prime (p : Z) : bool :=
  (2 <=? p) && forallb (fun d => negb (p mod d =? 0)) (zseq 2 (Z.to_nat (p - 2))).

(** The first [n] primes (there are 80 below 410). *)
Definition primes (n : nat) : list Z := take n (filter is_prime (zseq 0 410)).

(** ** The functions, for words of [w] bits *)

Section sha2.
Context (w : Z) (rounds : nat) (S0 S1 s0 s1 : Z * Z * Z).

Definition word_bytes : nat := Z.to_nat (w / 8).

(** The first [w] bits of the fractional part of the [k]-th root of [p]. *)
Definition root_constant (k p : Z) : Z :=
  iroot k (Z.to_nat w + 5) (p * 2 ^ (k * w)) mod 2 ^ w.

Definition sha2_K : list Z := root_constant 3 <$> primes rounds.
Definition sha2_H0 : list Z := root_constant 2 <$> primes 8.

(** Addition modulo 2^w, rotation and shift (2.2.2, 3.2). *)
Definition add (x y : Z) : Z := (x + y) mod 2 ^ w.
Definition ROTR (n x : Z) : Z := x / 2 ^ n + (x mod 2 ^ n) * 2 ^ (w - n).
Definition SHR (n x : Z) : Z := x / 2 ^ n.
Definition complement (x : Z) : Z := 2 ^ w - 1 - x.

(** The six logical functions (4.1.2, 4.1.3). *)
Definition Ch (x y z : Z) : Z := (x .& y) .^ (complement x .& z).
Definition Maj (x y z : Z) : Z := (x .& y) .^ (x .& z) .^ (y .& z).
Definition big_sigma (r : Z * Z * Z) (x : Z) : Z :=
  let '(a, b, c) := r in ROTR a x .^ ROTR b x .^ ROTR c x.
Definition small_sigma (r : Z * Z * Z) (x : Z) : Z :=
  let '(a, b, c) := r in ROTR a x .^ ROTR b x .^ SHR c x.

(** Padding (5.1): a bit 1, the smallest number of bits 0 that leaves [2 * w] bits of the
    last block, and the length in bits. *)
Definition sha2_pad (msg : list Z) : list Z :=
  let l := 8 * Z.of_nat (length msg) in
  let k := (14 * w - (l + 1)) mod (16 * w) in
  msg ++ [0x80] ++ replicate (Z.to_nat (k / 8)) 0 ++ be_bytes (2 * word_bytes) l.

(** Word [t] of block [i] of the padded message (5.2). *)
Definition message_word (padded : list Z) (i t : nat) : Z :=
  be_val (slice padded (16 * word_bytes * i + word_bytes * t) word_bytes).

(** The message schedule (6.2.2, 6.4.2, step 1). *)
Definition next_W (M : nat -> Z) (W : list Z) (t : nat) : list Z :=
  W ++ [if (t <? 16)%nat then M t
        else add (add (add (small_sigma s1 (W.[t - 2])) (W.[t - 7])) (small_sigma s0 (W.[t - 15])))
                 (W.[t - 16])].

Definition schedule (M : nat -> Z) : list Z := foldl (next_W M) [] (seq 0 rounds).

(** Step 3, for round [t]. *)
Definition sha2_round (W : list Z) (v : Z * Z * Z * Z * Z * Z * Z * Z) (t : nat)
    : Z * Z * Z * Z * Z * Z * Z * Z :=
  let '(a, b, c, d, e, f, g, h) := v in
  let T1 := add (add (add (add h (big_sigma S1 e)) (Ch e f g)) (sha2_K.[t])) (W.[t]) in
  let T2 := add (big_sigma S0 a) (Maj a b c) in
  (add T1 T2, a, b, c, add d T1, e, f, g).

(** Steps 2 to 4: the intermediate hash value after a block. *)
Definition sha2_block (M : nat -> Z) (H : list Z) : list Z :=
  let '(a, b, c, d, e, f, g, h) :=
    foldl (sha2_round (schedule M)) (H.[0], H.[1], H.[2], H.[3], H.[4], H.[5], H.[6], H.[7])
      (seq 0 rounds) in
  zip_with add [a; b; c; d; e; f; g; h] H.

Definition sha2 (msg : list Z) : list Z :=
  let padded := sha2_pad msg in
  let blocks := (length padded / (16 * word_bytes))%nat in
  concat (be_bytes word_bytes <$>
    foldl (fun H i => sha2_block (message_word padded i) H) sha2_H0 (seq 0 blocks)).
End sha2.

Definition fips_sha256 : list Z -> list Z :=
  sha2 32 64 (2, 13, 22) (6, 11, 25) (7, 18, 3) (17, 19, 10).
Definition fips_sha512 : list Z -> list Z :=
  sha2 64 80 (28, 34, 39) (14, 18, 41) (1, 8, 7) (19, 61, 6).

(** ** Roots *)

Lemma iroot_spec k bits n (r := iroot k bits n) :
  0 < k -> 0 <= n < 2 ^ (k * Z.of_nat bits) -> 0 <= r /\ r ^ k <= n < (r + 1) ^ k.
Proof.
  intros Hk. subst r. revert n. induction bits as [|bits IH]; intros n Hn; cbn [iroot].
  - rewrite Z.mul_0_r in Hn. assert (n = 0) as -> by lia. change (0 + 1) with 1. rewrite Z.pow_0_l, Z.pow_1_l by lia. lia.
  - pose proof (Z.pow_pos_nonneg 2 k ltac:(lia) ltac:(lia)) as H2.
    pose proof (Z.div_mod n (2 ^ k) ltac:(lia)) as Hdm.
    pose proof (Z.mod_pos_bound n (2 ^ k) ltac:(lia)) as Hmod.
    assert (0 <= n / 2 ^ k < 2 ^ (k * Z.of_nat bits)) as Hq.
    { split; [apply Z.div_pos; lia|]. apply Z.div_lt_upper_bound; [lia|].
      rewrite <- Z.pow_add_r by lia. replace (k + k * Z.of_nat bits) with (k * Z.of_nat (S bits)) by lia. lia. }
    destruct (IH _ Hq) as (H0 & Hlo & Hhi). set (q := iroot k bits (n / 2 ^ k)) in *.
    assert ((2 * q) ^ k <= n) as Hlo2 by (rewrite Z.pow_mul_l; nia).
    assert (n < (2 * q + 2) ^ k) as Hhi2.
    { replace (2 * q + 2) with (2 * (q + 1)) by lia. rewrite Z.pow_mul_l. nia. }
    destruct (Z.leb_spec ((2 * q + 1) ^ k) n); [|lia].
    replace (2 * q + 1 + 1) with (2 * q + 2) by lia. lia.
Qed.

Lemma iroot_unique k bits n r :
  0 < k -> 0 <= n < 2 ^ (k * Z.of_nat bits) -> 0 <= r -> r ^ k <= n < (r + 1) ^ k -> iroot k bits n = r.
Proof.
  intros Hk Hn Hr [Hlo Hhi]. destruct (iroot_spec k bits n Hk Hn) as (H0 & Hlo' & Hhi').
  set (s := iroot k bits n) in *. destruct (Z.lt_trichotomy s r) as [Hlt|[?|Hlt]]; [|done|].
  - pose proof (Z.pow_le_mono_l (s + 1) r k ltac:(lia)). lia.
  - pose proof (Z.pow_le_mono_l (r + 1) s k ltac:(lia)). lia.
Qed.

(** [c] is the constant of [p]: with the integer part of its root it is the root of
    [p * 2 ^ (k * w)], which the two powers decide. *)
Definition is_constant (w k p c : Z) : bool :=
  let r := iroot k 5 p * 2 ^ w + c in
  (0 <=? c) && (c <? 2 ^ w) && (p <? 2 ^ (k * 5)) && (r ^ k <=? p * 2 ^ (k * w)) && (p * 2 ^ (k * w) <? (r + 1) ^ k).

Lemma is_constant_spec w k p c :
  0 < w -> 0 < k -> 0 <= p -> is_constant w k p c = true -> root_constant w k p = c.
Proof.
  intros Hw Hk Hp. unfold is_constant, root_constant. rewrite !andb_true_iff, !Z.leb_le, !Z.ltb_lt.
  intros ((((H0 & Hc) & Hp5) & Hlo) & Hhi). pose proof (Z.pow_pos_nonneg 2 (k * w) ltac:(lia) ltac:(nia)) as H2.
  destruct (iroot_spec k 5 p Hk ltac:(lia)) as [Hr _]. set (q := iroot k 5 p) in *.
  pose proof (Z.pow_pos_nonneg 2 w ltac:(lia) ltac:(lia)) as Hw2.
  rewrite (iroot_unique k _ _ (q * 2 ^ w + c)); [|done| |nia|lia].
  - rewrite Z.add_comm, Z_mod_plus_full. by apply Z.mod_small.
  - split; [nia|]. replace (k * Z.of_nat (Z.to_nat w + 5)) with (k * 5 + k * w) by lia.
    rewrite Z.pow_add_r by nia. apply Z.mul_lt_mono_pos_r; lia.
Qed.

Lemma root_constants w k ps cs :
  0 < w -> 0 < k -> forallb (fun pc => (0 <=? pc.1) && is_constant w k pc.1 pc.2) (zip ps cs) = true ->
  length ps = length cs -> root_constant w k <$> ps = cs.
Proof.
  intros Hw Hk. revert cs. induction ps as [|p ps IH]; intros [|c cs] H Hl; try done.
  cbn [zip zip_with forallb fst snd] in H. rewrite !andb_true_iff, Z.leb_le in H. destruct H as [[Hp Hc] H].
  cbn [fmap list_fmap]. f_equal; [by apply is_constant_spec|]. apply IH; [done|]. by injection Hl.
Qed.

(** ** Block functions of the usual shape

    Rotation by two shifts, sums reduced once, the schedule extended from its length, the
    rounds over the zipped constants and words. *)

Section c_shape.
Context (w : Z) (rounds : nat) (S0 S1 s0 s1 : Z * Z * Z) (K : list Z).

Definition c_rotate (x n : Z) : Z := ((x .>> n) .| (x .<< (w - n))) mod 2 ^ w.

Definition c_schedule_step (W : list Z) : list Z :=
  let i := length W in
  let w15 := W.[(i - 15)%nat] in
  let w2 := W.[(i - 2)%nat] in
  let t0 := c_rotate w15 s0.1.1 .^ c_rotate w15 s0.1.2 .^ (w15 .>> s0.2) in
  let t1 := c_rotate w2 s1.1.1 .^ c_rotate w2 s1.1.2 .^ (w2 .>> s1.2) in
  W ++ [(W.[(i - 16)%nat] + t0 + W.[(i - 7)%nat] + t1) mod 2 ^ w].

Definition c_round (v : Z * Z * Z * Z * Z * Z * Z * Z) (kw : Z * Z) : Z * Z * Z * Z * Z * Z * Z * Z :=
  let '(a, b, c, d, e, f, g, h) := v in
  let t1 := c_rotate e S1.1.1 .^ c_rotate e S1.1.2 .^ c_rotate e S1.2 in
  let ch := (e .& f) .^ ((Z.lnot e) mod 2 ^ w .& g) in
  let temp1 := (h + t1 + ch + kw.1 + kw.2) mod 2 ^ w in
  let t0 := c_rotate a S0.1.1 .^ c_rotate a S0.1.2 .^ c_rotate a S0.2 in
  let maj := (a .& b) .^ (a .& c) .^ (b .& c) in
  let temp2 := (t0 + maj) mod 2 ^ w in
  ((temp1 + temp2) mod 2 ^ w, a, b, c, (d + temp1) mod 2 ^ w, e, f, g).

(** The block function on the first sixteen words. *)
Definition c_block (H first : list Z) : list Z :=
  let '(a, b, c, d, e, f, g, h) :=
    foldl c_round (H.[0], H.[1], H.[2], H.[3], H.[4], H.[5], H.[6], H.[7])
      (zip K (Nat.iter (rounds - 16) c_schedule_step first)) in
  (fun x => x mod 2 ^ w) <$>
  [H.[0] + a; H.[1] + b; H.[2] + c; H.[3] + d; H.[4] + e; H.[5] + f; H.[6] + g; H.[7] + h].

Definition amounts_ok (r : Z * Z * Z) : Prop := 0 < r.1.1 < w /\ 0 < r.1.2 < w /\ 0 < r.2 < w.

Context (Hw : 0 < w) (HS0 : amounts_ok S0) (HS1 : amounts_ok S1) (Hs0 : amounts_ok s0) (Hs1 : amounts_ok s1).
Context (HK : K = sha2_K w rounds) (Hlen : length K = rounds) (Hrounds : (16 <= rounds)%nat).

Abbreviation add := (add w).
Abbreviation words := (Forall (fits w)).

Lemma rotate_ROTR x n : 0 < n < w -> fits w x -> c_rotate x n = ROTR w n x.
Proof using All.
  intros Hn Hx. unfold c_rotate, ROTR. rewrite (lor_shiftl_add (w - n)) by first [lia | apply fits_shiftr; [lia|done]].
  rewrite Z.shiftr_div_pow2 by lia.
  pose proof (Z.pow_pos_nonneg 2 n ltac:(lia) ltac:(lia)) as Hp.
  pose proof (Z.pow_pos_nonneg 2 (w - n) ltac:(lia) ltac:(lia)) as Hq.
  pose proof (Z.mod_pos_bound x (2 ^ n) Hp) as Hm. pose proof (Z.div_mod x (2 ^ n) ltac:(lia)) as Hd.
  assert (2 ^ w = 2 ^ (w - n) * 2 ^ n) as Ew by (rewrite <- Z.pow_add_r by lia; f_equal; lia).
  assert (fits (w - n) (x / 2 ^ n)) as Hf by (rewrite <- Z.shiftr_div_pow2 by lia; apply fits_shiftr; [lia|done]).
  symmetry. apply (Z.mod_unique_pos _ _ (x / 2 ^ n)); [unfold fits in Hf; nia|].
  rewrite Ew. rewrite Hd at 2. ring.
Qed.

Lemma fits_mod x : fits w (x mod 2 ^ w).
Proof using All. apply Z.mod_pos_bound, Z.pow_pos_nonneg; lia. Qed.

Lemma shift_SHR x n : 0 < n < w -> x .>> n = SHR n x.
Proof using All. intros Hn. by rewrite Z.shiftr_div_pow2 by lia. Qed.

Lemma word_fits W i : words W -> fits w (W.[i]).
Proof using All.
  intros HW. unfold arr. destruct (W !! i) as [x|] eqn:E; [exact (Forall_lookup_1 _ _ _ _ HW E)|].
  cbn. split; [done|]. apply Z.pow_pos_nonneg; lia.
Qed.

Lemma c_big_sigma r x : amounts_ok r -> fits w x ->
  c_rotate x r.1.1 .^ c_rotate x r.1.2 .^ c_rotate x r.2 = big_sigma w r x.
Proof using All. destruct r as [[a b] c]. intros (Ha & Hb & Hc) Hx. cbn in *. by rewrite !rotate_ROTR. Qed.

Lemma c_small_sigma r x : amounts_ok r -> fits w x ->
  c_rotate x r.1.1 .^ c_rotate x r.1.2 .^ (x .>> r.2) = small_sigma w r x.
Proof using All. destruct r as [[a b] c]. intros (Ha & Hb & Hc) Hx. cbn in *. by rewrite !rotate_ROTR, shift_SHR. Qed.

Lemma lnot_complement x : fits w x -> Z.lnot x mod 2 ^ w = complement w x.
Proof using All.
  intros [H0 Hx]. unfold Z.lnot, complement. symmetry. apply (Z.mod_unique_pos _ _ (-1)); lia.
Qed.

(** Nested sums, as the standard writes them, are one sum reduced once. *)
Lemma add_4 a b c d : add (add (add a b) c) d = (a + b + c + d) mod 2 ^ w.
Proof using All.
  unfold Fips180.add. rewrite (Zplus_mod_idemp_l (a + b)). apply Zplus_mod_idemp_l.
Qed.

Lemma add_5 a b c d e : add (add (add (add a b) c) d) e = (a + b + c + d + e) mod 2 ^ w.
Proof using All. rewrite (add_4 a b c d). apply Zplus_mod_idemp_l. Qed.

(** *** The schedule *)

Lemma schedule_first (M : nat -> Z) n :
  (n <= 16)%nat -> foldl (next_W w s0 s1 M) [] (seq 0 n) = M <$> seq 0 n.
Proof using All.
  induction n as [|n IH]; intros Hn; [done|]. rewrite seq_S, foldl_app, fmap_app. cbn [foldl fmap list_fmap].
  rewrite IH by lia. unfold next_W. destruct (Nat.ltb_spec (0 + n) 16); [done|lia].
Qed.

Lemma schedule_rest (M : nat -> Z) n (W := Nat.iter n c_schedule_step (M <$> seq 0 16)) :
  (forall t, fits w (M t)) ->
  foldl (next_W w s0 s1 M) [] (seq 0 (16 + n)) = W /\ length W = (16 + n)%nat /\ words W.
Proof using All.
  intros HM. subst W. induction n as [|n IH].
  - split; [by rewrite schedule_first by lia|]. split; [done|].
    apply Forall_fmap, Forall_true. intros t. apply HM.
  - replace (16 + S n)%nat with (S (16 + n)) by lia. rewrite seq_S, foldl_app. destruct IH as (-> & Hl & HW).
    cbn [foldl]. rewrite Nat.iter_succ. set (W := Nat.iter n c_schedule_step (M <$> seq 0 16)) in *. clearbody W.
    unfold c_schedule_step. cbn zeta. rewrite length_app, Hl.
    split_and!; [|cbn [length]; lia|apply Forall_app; split; [done|]; apply Forall_singleton, fits_mod].
    unfold next_W. destruct (Nat.ltb_spec (0 + (16 + n)) 16); [lia|]. cbn [Nat.add]. do 2 f_equal.
    rewrite !c_small_sigma by (done || by apply word_fits). rewrite add_4. f_equal. lia.
Qed.

Lemma schedule_eq M :
  (forall t, fits w (M t)) ->
  Nat.iter (rounds - 16) c_schedule_step (M <$> seq 0 16) = schedule w rounds s0 s1 M
  /\ length (schedule w rounds s0 s1 M) = rounds /\ words (schedule w rounds s0 s1 M).
Proof using All.
  intros HM. destruct (schedule_rest M (rounds - 16) HM) as (E & Hl & Hf). unfold schedule.
  replace (16 + (rounds - 16))%nat with rounds in * by lia. by rewrite E.
Qed.

(** *** The rounds *)

Definition words8 (v : Z * Z * Z * Z * Z * Z * Z * Z) : Prop :=
  let '(a, b, c, d, e, f, g, h) := v in words [a; b; c; d; e; f; g; h].

Lemma round_eq W t v :
  words8 v -> c_round v (K.[t], W.[t]) = sha2_round w rounds S0 S1 W v t /\ words8 (c_round v (K.[t], W.[t])).
Proof using All.
  destruct v as [[[[[[[a b] c] d] e] f] g] h]. unfold words8. rewrite !Forall_cons.
  intros (Ha & Hb & Hc & Hd & He & Hf & Hg & Hh & _). split.
  - unfold c_round, sha2_round. cbn [fst snd]. rewrite !c_big_sigma, lnot_complement by done.
    fold (Ch w e f g) (Maj a b c). by rewrite (add_5 h), HK.
  - unfold c_round. rewrite !Forall_cons. split_and!; try done; apply fits_mod.
Qed.

Lemma foldl_zip {A} (f : A -> Z * Z -> A) (k l : list Z) v :
  length k = length l -> foldl f v (zip k l) = foldl (fun v t => f v (k.[t], l.[t])) v (seq 0 (length k)).
Proof using All.
  revert l v. induction k as [|x k IH]; intros [|y l] v Hl; try done. cbn [length zip zip_with foldl seq].
  rewrite IH by (by injection Hl). change (f v ((x :: k).[0], (y :: l).[0])) with (f v (x, y)).
  generalize (f v (x, y)). generalize (length k). intros n u.
  rewrite <- fmap_S_seq. generalize (seq 0 n). intros ts. revert u. induction ts as [|t ts IHt]; intros u; [done|].
  cbn [fmap list_fmap foldl]. apply IHt.
Qed.

Lemma rounds_eq W v :
  length W = rounds -> words8 v ->
  foldl c_round v (zip K W) = foldl (sha2_round w rounds S0 S1 W) v (seq 0 rounds)
  /\ words8 (foldl c_round v (zip K W)).
Proof using All.
  intros HW Hv. rewrite foldl_zip, Hlen by congruence. generalize (seq 0 rounds). intros ts. revert v Hv.
  induction ts as [|t ts IH]; intros v Hv; [done|]. cbn [foldl]. destruct (round_eq W t v Hv) as [E Hr].
  rewrite <- E. by apply IH.
Qed.

Lemma c_block_eq M H :
  length H = 8%nat -> words H -> (forall t, fits w (M t)) ->
  c_block H (M <$> seq 0 16) = sha2_block w rounds S0 S1 s0 s1 M H /\ words (c_block H (M <$> seq 0 16)).
Proof using All.
  intros Hl HH HM. destruct (schedule_eq M HM) as (E & HW & _). unfold c_block, sha2_block. rewrite E.
  set (v := (H.[0], H.[1], H.[2], H.[3], H.[4], H.[5], H.[6], H.[7])).
  assert (words8 v) as Hv.
  { unfold v, words8. repeat (apply Forall_cons; split; [by apply word_fits|]). apply Forall_nil_2. }
  destruct (rounds_eq (schedule w rounds s0 s1 M) v HW Hv) as [-> _].
  destruct (foldl _ _ _) as [[[[[[[a b] c] d] e] f] g] h]. split.
  - clear -Hl. do 9 (destruct H as [|? H]; try discriminate Hl). cbn [fmap list_fmap zip_with].
    unfold Fips180.add, arr. cbn [lookup list_lookup default from_option id].
    by rewrite (Z.add_comm a), (Z.add_comm b), (Z.add_comm c), (Z.add_comm d), (Z.add_comm e), (Z.add_comm f), (Z.add_comm g), (Z.add_comm h).
  - apply Forall_fmap, Forall_true. intros x. apply fits_mod.
Qed.

(** *** A whole message *)

Context (Hw8 : w = 8 * Z.of_nat (word_bytes w)) (f : list Z -> list Z -> list Z).
Context (Hf : forall H b, length b = (16 * word_bytes w)%nat -> bytes_ok b ->
           f H b = c_block H ((fun t => be_val (slice b (t * word_bytes w) (word_bytes w))) <$> seq 0 16)).

Lemma message_word_fits d i t : bytes_ok d -> fits w (message_word w d i t).
Proof using All.
  intros Hd. unfold message_word, be_val. set (l := slice d _ _).
  assert (bytes_ok (reverse l)) as Hl by (apply Forall_reverse; by apply slice_ok).
  apply (fits_mono (8 * Z.of_nat (length (reverse l)))); [by apply le_val_bound|].
  rewrite length_reverse. unfold l, slice. rewrite length_take. lia.
Qed.

Lemma block_eq H d i :
  length H = 8%nat -> words H -> bytes_ok d -> (16 * word_bytes w * (i + 1) <= length d)%nat ->
  let b := take (16 * word_bytes w) (drop (16 * word_bytes w * i) d) in
  f H b = sha2_block w rounds S0 S1 s0 s1 (message_word w d i) H /\ length (f H b) = 8%nat /\ words (f H b).
Proof using All.
  intros Hl HH Hd Hi b. assert (length b = 16 * word_bytes w)%nat as Hb.
  { unfold b. rewrite length_take, length_drop. lia. }
  assert (bytes_ok b) as Hbb by (by apply Forall_take, Forall_drop).
  assert (f H b = c_block H (message_word w d i <$> seq 0 16)) as ->.
  { rewrite Hf by done. f_equal. apply list_fmap_ext. intros k t [-> Ht]%lookup_seq. unfold message_word. f_equal.
    unfold b, slice. rewrite skipn_firstn_comm, take_take, Nat.min_l, drop_drop by nia. do 2 f_equal. lia. }
  destruct (c_block_eq (message_word w d i) H Hl HH (fun t => message_word_fits d i t Hd)) as [E Hwords].
  rewrite E in Hwords |- *. split; [done|]. split; [|done]. rewrite <- E. unfold c_block.
  by destruct (foldl _ _ _) as [[[[[[[? ?] ?] ?] ?] ?] ?] ?].
Qed.

Lemma compress_sha2 n H d :
  length H = 8%nat -> words H -> bytes_ok d -> (16 * word_bytes w * n <= length d)%nat ->
  compress (16 * word_bytes w) f n H d
  = foldl (fun H i => sha2_block w rounds S0 S1 s0 s1 (message_word w d i) H) H (seq 0 n)
  /\ length (compress (16 * word_bytes w) f n H d) = 8%nat /\ words (compress (16 * word_bytes w) f n H d).
Proof using All.
  intros Hl HH Hd. induction n as [|n IH]; intros Hn; [done|].
  destruct IH as (E & Hl' & Hw'); [lia|]. replace (S n) with (n + 1)%nat by lia.
  rewrite compress_add, seq_app, foldl_app, <- E by lia. cbn [seq foldl compress]. apply block_eq; [done..|lia].
Qed.

Lemma sha2_digest msg :
  bytes_ok msg -> words (sha2_H0 w) -> length (sha2_H0 w) = 8%nat ->
  concat (be_bytes (word_bytes w) <$>
    compress (16 * word_bytes w) f (length (sha2_pad w msg) / (16 * word_bytes w)) (sha2_H0 w) (sha2_pad w msg))
  = sha2 w rounds S0 S1 s0 s1 msg.
Proof using All.
  intros Hm HH Hl. unfold sha2. do 2 f_equal. apply compress_sha2; [done|done| |].
  - unfold sha2_pad. rewrite !Forall_app. split_and!; [done|by apply Forall_singleton| |apply be_bytes_ok].
    by apply Forall_replicate.
  - apply Nat.Div0.mul_div_le.
Qed.
End c_shape.

(** The rotation amounts of the two functions are in range. *)
Ltac by_amounts := unfold amounts_ok; cbn [fst snd]; lia.
