(* ===== verification/Sha256.v ===== *)
(** * SHA-256: lunarcore/lunar/crypto/sha256.c

    The streaming hash with its 64-byte buffer, and the proof that it computes
    the FIPS 180-4 digest ([Fips180.fips_sha256]) of the concatenated input
    whatever the split into updates. *)
From S2P Require Import Prelude Blocks Fips180.

(** ** Constants *)

(** The table of the source, row by row. *)
Definition K : list Z :=
  concat
    [[0x428a2f98; 0x71374491; 0xb5c0fbcf; 0xe9b5dba5; 0x3956c25b; 0x59f111f1; 0x923f82a4; 0xab1c5ed5];
     [0xd807aa98; 0x12835b01; 0x243185be; 0x550c7dc3; 0x72be5d74; 0x80deb1fe; 0x9bdc06a7; 0xc19bf174];
     [0xe49b69c1; 0xefbe4786; 0x0fc19dc6; 0x240ca1cc; 0x2de92c6f; 0x4a7484aa; 0x5cb0a9dc; 0x76f988da];
     [0x983e5152; 0xa831c66d; 0xb00327c8; 0xbf597fc7; 0xc6e00bf3; 0xd5a79147; 0x06ca6351; 0x14292967];
     [0x27b70a85; 0x2e1b2138; 0x4d2c6dfc; 0x53380d13; 0x650a7354; 0x766a0abb; 0x81c2c92e; 0x92722c85];
     [0xa2bfe8a1; 0xa81a664b; 0xc24b8b70; 0xc76c51a3; 0xd192e819; 0xd6990624; 0xf40e3585; 0x106aa070];
     [0x19a4c116; 0x1e376c08; 0x2748774c; 0x34b0bcb5; 0x391c0cb3; 0x4ed8aa4a; 0x5b9cca4f; 0x682e6ff3];
     [0x748f82ee; 0x78a5636f; 0x84c87814; 0x8cc70208; 0x90befffa; 0xa4506ceb; 0xbef9a3f7; 0xc67178f2]].

Definition H_INIT : list Z :=
  [0x6a09e667; 0xbb67ae85; 0x3c6ef372; 0xa54ff53a;
   0x510e527f; 0x9b05688c; 0x1f83d9ab; 0x5be0cd19].

Definition DIGEST_SIZE : nat := 32.
Definition BLOCK_SIZE : nat := 64.

(** ** State: [s_buffer] is [buffer[0 .. buffer_len)] *)

Record Sha256 := mkSha {
  s_state : list Z;        (* uint32_t state[8] *)
  s_total_len : Z;         (* uint64_t *)
  s_buffer : list Z        (* buffer, buffer_len *)
}.

(** ** Helpers *)

Definition rotate_right (value count : Z) : Z :=
  u32 ((value .>> count) .| (value .<< (32 - count))).

Definition u32_to_be_bytes (value : Z) : list Z :=
  [u8 ((value .>> 24) .& 0xFF); u8 ((value .>> 16) .& 0xFF);
   u8 ((value .>> 8) .& 0xFF); u8 (value .& 0xFF)].

Definition u64_to_be_bytes (value : Z) : list Z :=
  [u8 ((value .>> 56) .& 0xFF); u8 ((value .>> 48) .& 0xFF);
   u8 ((value .>> 40) .& 0xFF); u8 ((value .>> 32) .& 0xFF);
   u8 ((value .>> 24) .& 0xFF); u8 ((value .>> 16) .& 0xFF);
   u8 ((value .>> 8) .& 0xFF); u8 (value .& 0xFF)].

Definition u32_from_be_bytes (bytes : list Z) : Z :=
  (bytes.[0] .<< 24) .| (bytes.[1] .<< 16) .| (bytes.[2] .<< 8) .| bytes.[3].

(** ** The block function *)

(** Extend the schedule by word [i = length w]. *)
Definition schedule_step (w : list Z) : list Z :=
  let i := length w in
  let w15 := w.[(i - 15)%nat] in
  let w2 := w.[(i - 2)%nat] in
  let s0 := rotate_right w15 7 .^ rotate_right w15 18 .^ (w15 .>> 3) in
  let s1 := rotate_right w2 17 .^ rotate_right w2 19 .^ (w2 .>> 10) in
  w ++ [u32 (w.[(i - 16)%nat] + s0 + w.[(i - 7)%nat] + s1)].

Definition message_schedule (block : list Z) : list Z :=
  Nat.iter 48 schedule_step ((fun i => u32_from_be_bytes (slice block (i * 4) 4)) <$> seq 0 16).

Definition round (v : Z * Z * Z * Z * Z * Z * Z * Z) (kw : Z * Z) : Z * Z * Z * Z * Z * Z * Z * Z :=
  let '(a, b, c, d, e, f, g, h) := v in
  let s1 := rotate_right e 6 .^ rotate_right e 11 .^ rotate_right e 25 in
  let ch := (e .& f) .^ (u32 (Z.lnot e) .& g) in
  let temp1 := u32 (h + s1 + ch + kw.1 + kw.2) in
  let s0 := rotate_right a 2 .^ rotate_right a 13 .^ rotate_right a 22 in
  let maj := (a .& b) .^ (a .& c) .^ (b .& c) in
  let temp2 := u32 (s0 + maj) in
  (u32 (temp1 + temp2), a, b, c, u32 (d + temp1), e, f, g).

Definition sha256_process_block (state block : list Z) : list Z :=
  let w := message_schedule block in
  let '(a, b, c, d, e, f, g, h) :=
    foldl round (state.[0], state.[1], state.[2], state.[3],
                 state.[4], state.[5], state.[6], state.[7]) (zip K w) in
  [u32 (state.[0] + a); u32 (state.[1] + b); u32 (state.[2] + c); u32 (state.[3] + d);
   u32 (state.[4] + e); u32 (state.[5] + f); u32 (state.[6] + g); u32 (state.[7] + h)].

(** ** Streaming interface *)

Definition sha256_new : Sha256 := mkSha H_INIT 0 [].

(** The loop [while (offset + BLOCK_SIZE <= data_len)] is [process_blocks]: it
    returns the state and the bytes left over, which become the buffer. *)
Definition sha256_update (self : Sha256) (data : list Z) : Sha256 :=
  let total := u64 (s_total_len self + Z.of_nat (length data)) in
  let loop := process_blocks BLOCK_SIZE sha256_process_block (length data) in
  let needed := (BLOCK_SIZE - length (s_buffer self))%nat in
  if (0 <? length (s_buffer self))%nat then
    if (needed <=? length data)%nat then
      let state := sha256_process_block (s_state self) (s_buffer self ++ take needed data) in
      let '(state, rest) := loop state (drop needed data) in
      mkSha state total rest
    else mkSha (s_state self) total (s_buffer self ++ data)
  else
    let '(state, rest) := loop (s_state self) data in
    mkSha state total rest.

(** The object is left with the padded block in its state and buffer. *)
Definition sha256_finalize (self : Sha256) : Sha256 * list Z :=
  let total_bits := u64 (s_total_len self * 8) in
  let buffer := s_buffer self ++ [0x80] in
  let '(state, buffer) :=
    if (56 <? length buffer)%nat
    then (sha256_process_block (s_state self)
            (buffer ++ replicate (BLOCK_SIZE - length buffer) 0), [])
    else (s_state self, buffer) in
  let state :=
    sha256_process_block state
      (buffer ++ replicate (56 - length buffer) 0 ++ u64_to_be_bytes total_bits) in
  (mkSha state (s_total_len self) buffer, concat (u32_to_be_bytes <$> state)).

Definition sha256_hash (data : list Z) : list Z :=
  snd (sha256_finalize (sha256_update sha256_new data)).

Definition sha256_hash256 (data : list Z) : list Z := sha256_hash (sha256_hash data).

Definition sha256_default : Sha256 := sha256_new.
Definition sha256_clone (src : Sha256) : Sha256 :=
  mkSha (s_state src) (s_total_len src) (s_buffer src).

(** ** The digest of a whole message, block by block *)

(** The message, 0x80, zeros up to 56 mod 64, the bit length as 64 bits. *)
Definition pad (msg : list Z) : list Z :=
  let l := (length msg + 1)%nat in
  msg ++ [0x80] ++ replicate ((120 - l mod 64) mod 64) 0
      ++ u64_to_be_bytes (u64 (Z.of_nat (length msg) * 8)).

Definition sha256_blocks (msg : list Z) : list Z :=
  concat (u32_to_be_bytes <$>
    compress BLOCK_SIZE sha256_process_block (length (pad msg) / 64) H_INIT (pad msg)).

Example sha256_abc :
  sha256_hash [97; 98; 99] =
  be_bytes 32 0xba7816bf8f01cfea414140de5dae2223b00361a396177a9cb410ff61f20015ad.
Proof. vm_compute. reflexivity. Qed.

Example sha256_empty :
  sha256_hash [] =
  be_bytes 32 0xe3b0c44298fc1c149afbf4c8996fb92427ae41e4649b934ca495991b7852b855.
Proof. vm_compute. reflexivity. Qed.

(** "abcdbcdecdefdefgefghfghighijhijkijkljklmklmnlmnomnopnopq", two blocks. *)
Example sha256_two_blocks :
  sha256_hash (concat ((fun i => [97 + i; 98 + i; 99 + i; 100 + i]) <$> range 14)) =
  be_bytes 32 0x248d6a61d20638b8e5c026930c3e6039a33ce45964ff2167f6ecedd419db06c1.
Proof. vm_compute. reflexivity. Qed.

(** ** The block loop *)

Local Abbreviation sha_compress := (compress BLOCK_SIZE sha256_process_block).
Local Abbreviation sha_absorb := (absorb BLOCK_SIZE sha256_process_block).

(** The update is an absorption of the buffered bytes and the new ones. *)
Lemma sha256_update_absorb s d :
  (length (s_buffer s) < 64)%nat ->
  sha256_update s d
  = let '(state, rest) := sha_absorb (s_state s) (s_buffer s ++ d) in
    mkSha state (u64 (s_total_len s + Z.of_nat (length d))) rest.
Proof.
  intros Hb. rewrite <- buffered_update_absorb by (done || unfold BLOCK_SIZE; lia).
  unfold sha256_update, buffered_update.
  destruct (0 <? length (s_buffer s))%nat; [|done].
  by destruct (BLOCK_SIZE - length (s_buffer s) <=? length d)%nat.
Qed.

(** ** Refinement: the object represents the bytes fed to it *)

Record repr (s : Sha256) (msg : list Z) : Prop := mk_repr {
  repr_blocks : sha_absorb H_INIT msg = (s_state s, s_buffer s);
  repr_total : s_total_len s = u64 (Z.of_nat (length msg))
}.

Lemma repr_buffer s msg : repr s msg -> length (s_buffer s) = (length msg mod 64)%nat.
Proof.
  intros [Hb _]. change 64%nat with BLOCK_SIZE.
  by rewrite <- (length_absorb_rest BLOCK_SIZE sha256_process_block ltac:(unfold BLOCK_SIZE; lia) H_INIT), Hb.
Qed.

Lemma repr_new : repr sha256_new [].
Proof. by split. Qed.

Lemma repr_update s msg d : repr s msg -> repr (sha256_update s d) (msg ++ d).
Proof.
  intros Hr. pose proof (repr_buffer s msg Hr) as Hb. destruct Hr as [Habs Htot].
  rewrite sha256_update_absorb by (rewrite Hb; apply Nat.mod_upper_bound; lia).
  destruct (sha_absorb (s_state s) (s_buffer s ++ d)) as [state rest] eqn:E.
  split; simpl.
  - rewrite absorb_app by (unfold BLOCK_SIZE; lia). by rewrite Habs.
  - rewrite Htot, length_app, Nat2Z.inj_add. unfold u64. by rewrite Zplus_mod_idemp_l.
Qed.

#[local] Opaque sha256_process_block.

Lemma repr_finalize_blocks s msg : repr s msg -> (sha256_finalize s).2 = sha256_blocks msg.
Proof.
  intros [Habs Htot]. set (tail := u64_to_be_bytes (u64 (Z.of_nat (length msg) * 8))).
  assert (u64 (s_total_len s * 8) = u64 (Z.of_nat (length msg) * 8)) as E.
  { rewrite Htot. unfold u64. by rewrite Zmult_mod_idemp_l. }
  transitivity (concat (u32_to_be_bytes <$>
    (md_finish BLOCK_SIZE sha256_process_block 8 (s_state s) (s_buffer s) tail).1)).
  - unfold sha256_finalize, md_finish. rewrite E. fold tail. change (BLOCK_SIZE - 8)%nat with 56%nat.
    destruct (if (_ <? _)%nat then _ else _). reflexivity.
  - rewrite (md_finish_spec BLOCK_SIZE sha256_process_block ltac:(unfold BLOCK_SIZE; lia) 8 H_INIT msg)
      by (done || unfold BLOCK_SIZE; lia).
    done.
Qed.

#[local] Transparent sha256_process_block.

(** ** Digest shape *)

Lemma length_sha256_process_block state block : length (sha256_process_block state block) = 8%nat.
Proof. unfold sha256_process_block. by destruct (foldl _ _ _) as [[[[[[[? ?] ?] ?] ?] ?] ?] ?]. Qed.

Lemma length_compress n state msg : length state = 8%nat -> length (sha_compress n state msg) = 8%nat.
Proof.
  revert state msg. induction n as [|n IH]; intros state msg Hs; [done|].
  apply IH, length_sha256_process_block.
Qed.

Lemma length_concat_words ws : length (concat (u32_to_be_bytes <$> ws)) = (4 * length ws)%nat.
Proof. induction ws as [|w ws IH]; [done|]. rewrite fmap_cons. cbn [concat].
  rewrite length_app, IH. simpl. lia. Qed.

Lemma concat_words_ok ws : bytes_ok (concat (u32_to_be_bytes <$> ws)).
Proof. induction ws as [|w ws IH]; simpl; [constructor|]. by solve_bytes. Qed.

(** What the modules that hash rely on: a digest is 32 bytes. *)
Lemma length_sha256_finalize s : length (sha256_finalize s).2 = 32%nat.
Proof.
  unfold sha256_finalize. destruct (if (_ <? _)%nat then _ else _) as [state buffer].
  cbn [snd]. by rewrite length_concat_words, length_sha256_process_block.
Qed.

Lemma sha256_finalize_ok s : bytes_ok (sha256_finalize s).2.
Proof.
  unfold sha256_finalize. destruct (if (_ <? _)%nat then _ else _) as [state buffer].
  apply concat_words_ok.
Qed.

Lemma repr_updates s m pieces :
  repr s m -> repr (foldl sha256_update s pieces) (m ++ concat pieces).
Proof.
  revert s m. induction pieces as [|d l IH]; intros s m Hr; simpl; [by rewrite app_nil_r|].
  rewrite app_assoc. by apply IH, repr_update.
Qed.

Lemma sha256_hash_blocks msg : sha256_hash msg = sha256_blocks msg.
Proof. apply (repr_finalize_blocks _ ([] ++ msg)), repr_update, repr_new. Qed.

(** What the clients use: the digest of an object that represents [msg]. *)
Lemma repr_finalize s msg : repr s msg -> (sha256_finalize s).2 = sha256_hash msg.
Proof. rewrite sha256_hash_blocks. apply repr_finalize_blocks. Qed.

(** ** The block function is that of FIPS 180-4 *)

Lemma K_constants : sha2_K 32 64 = K.
Proof. apply root_constants; [done|done|vm_compute; reflexivity|reflexivity]. Qed.

Lemma H_INIT_constants : sha2_H0 32 = H_INIT.
Proof. apply root_constants; [done|done|vm_compute; reflexivity|reflexivity]. Qed.

Lemma be_val_4 b : length b = 4%nat -> bytes_ok b -> u32_from_be_bytes b = be_val b.
Proof.
  intros Hl Hb. do 5 (destruct b as [|? b]; try discriminate Hl). rewrite !Forall_cons in Hb. destruct_and! Hb.
  unfold u32_from_be_bytes. rewrite be32_eq by done. done.
Qed.

Lemma u32_to_be_bytes_eq v : u32_to_be_bytes v = be_bytes 4 v.
Proof. unfold be_bytes, u32_to_be_bytes. norm_le_bytes. by rewrite !u8_u8. Qed.

Lemma u64_to_be_bytes_eq v : u64_to_be_bytes v = be_bytes 8 v.
Proof. unfold be_bytes, u64_to_be_bytes. norm_le_bytes. by rewrite !u8_u8. Qed.

Lemma schedule_step_shape : schedule_step = c_schedule_step 32 (7, 18, 3) (17, 19, 10).
Proof. reflexivity. Qed.

Lemma round_shape : round = c_round 32 (2, 13, 22) (6, 11, 25).
Proof. reflexivity. Qed.

Lemma process_block_shape H b :
  length b = 64%nat -> bytes_ok b ->
  sha256_process_block H b
  = c_block 32 64 (2, 13, 22) (6, 11, 25) (7, 18, 3) (17, 19, 10) K H
      ((fun t => be_val (slice b (t * 4) 4)) <$> seq 0 16).
Proof.
  intros Hl Hb.
  assert ((fun t => be_val (slice b (t * 4) 4)) <$> seq 0 16
          = (fun t => u32_from_be_bytes (slice b (t * 4) 4)) <$> seq 0 16) as ->.
  { apply list_fmap_ext. intros k t [-> Ht]%lookup_seq. symmetry.
    apply be_val_4; [apply length_slice; lia|by apply slice_ok]. }
  unfold sha256_process_block, message_schedule, c_block. rewrite round_shape, schedule_step_shape.
  change (64 - 16)%nat with 48%nat. by destruct (foldl _ _ _) as [[[[[[[? ?] ?] ?] ?] ?] ?] ?].
Qed.

Lemma pad_fips msg : pad msg = sha2_pad 32 msg.
Proof.
  unfold pad, sha2_pad. cbn zeta.
  assert (Z.to_nat ((14 * 32 - (8 * Z.of_nat (length msg) + 1)) mod (16 * 32) / 8)
          = (120 - (length msg + 1) mod 64) mod 64)%nat as -> by div_lia.
  do 3 f_equal. rewrite u64_to_be_bytes_eq. change (2 * word_bytes 32)%nat with 8%nat.
  rewrite <- (be_bytes_mod 8 (8 * _)). f_equal. unfold u64. f_equal. lia.
Qed.

Lemma H_INIT_words : Forall (fits 32) (sha2_H0 32) /\ length (sha2_H0 32) = 8%nat.
Proof. rewrite H_INIT_constants. split; [|done]. apply (bool_decide_unpack _). vm_compute. exact I. Qed.

Lemma sha256_hash_fips msg : bytes_ok msg -> sha256_hash msg = fips_sha256 msg.
Proof.
  intros Hm. destruct H_INIT_words as [Hw Hl].
  pose proof (sha2_digest 32 64 (2, 13, 22) (6, 11, 25) (7, 18, 3) (17, 19, 10) K eq_refl
    ltac:(by_amounts) ltac:(by_amounts) ltac:(by_amounts) ltac:(by_amounts) (eq_sym K_constants) eq_refl
    ltac:(lia) eq_refl sha256_process_block process_block_shape msg Hm Hw Hl) as E.
  unfold fips_sha256. rewrite <- E, sha256_hash_blocks. unfold sha256_blocks.
  rewrite pad_fips, H_INIT_constants. f_equal. apply list_fmap_ext. intros i v _. apply u32_to_be_bytes_eq.
Qed.

(** ** The interface of a 32-byte hash

    The clients (contact addresses, packet ids, HMAC) are stated against this
    class; [sha256_digest] discharges it. *)
Class Digest (H : list Z -> list Z) : Prop := {
  digest_length : forall m, length (H m) = 32%nat;
  digest_ok : forall m, bytes_ok (H m)
}.

#[export] Instance sha256_digest : Digest sha256_hash.
Proof. split; intros m; [apply length_sha256_finalize | apply sha256_finalize_ok]. Qed.

(** ** Properties *)

(** C10. Streaming: whatever the sequence of [sha256_update] calls, the digest
    [sha256_finalize] writes is the FIPS 180-4 digest of the concatenation of
    the pieces: the specification has its own constants (from the roots of the
    primes), rotations, functions, schedule, rounds, padding and parsing. The
    digest does not depend on where the pieces are cut, and is [sha256_hash] of
    the whole. (The standard is for messages below 2^64 bits; beyond, both reduce
    the length modulo 2^64.) *)
Theorem sha256_streaming (pieces : list (list Z)) :
  Forall bytes_ok pieces ->
  let digest := (sha256_finalize (foldl sha256_update sha256_new pieces)).2 in
  digest = fips_sha256 (concat pieces) /\ digest = sha256_hash (concat pieces)
  /\ length digest = DIGEST_SIZE.
Proof.
  intros Hp digest. assert (digest = sha256_hash (concat pieces)) as E.
  { apply repr_finalize, (repr_updates _ []), repr_new. }
  pose proof (length_sha256_finalize (foldl sha256_update sha256_new pieces)) as Hl.
  split; [|exact (conj E Hl)]. rewrite E. apply sha256_hash_fips. by apply Forall_concat.
Qed.

Lemma sha256_streaming_witness :
  let digest := (sha256_finalize (foldl sha256_update sha256_new [range 60; range 5; []; range 70])).2 in
  digest = fips_sha256 (range 60 ++ range 5 ++ range 70).
Proof.
  assert (Forall bytes_ok [range 60; range 5; []; range 70]) as Hp
    by (apply (bool_decide_unpack _); vm_compute; exact I).
  exact (proj1 (sha256_streaming [range 60; range 5; []; range 70] Hp)).
Defined.
