(* ===== verification/Hmac.v ===== *)
(** * HMAC and HKDF: lunarcore/lunar/crypto/hmac.c and hkdf.c

    HMAC-SHA-256 over the streaming hash of [Sha256], the two HKDF steps and the
    key derivations of the three mesh protocols, against RFC 2104 and RFC 5869.

    hmac.c and hkdf.c call [sha256_hash] and [hmac_sha256_mac] with the output
    buffer in another position than the definitions have it (the headers that
    would settle the prototypes are not in the repository); the calls are read by
    the role of their arguments. *)
From S2P Require Import Prelude Sha256.

(** ** hmac.c *)

Record HmacSha256 := mkHmac { inner : Sha256; outer_key : list Z }.

(** [key_block]: the key, hashed when it is longer than a block, zero-padded. *)
Definition hmac_key_block (key : list Z) : list Z :=
  let k := if (BLOCK_SIZE <? length key)%nat then sha256_hash key else key in
  k ++ replicate (BLOCK_SIZE - length k) 0.

Definition hmac_sha256_new (key : list Z) : HmacSha256 :=
  let key_block := hmac_key_block key in
  let inner_key := (fun b => b .^ 0x36) <$> key_block in
  let outer_key := (fun b => b .^ 0x5c) <$> key_block in
  mkHmac (sha256_update sha256_new inner_key) outer_key.

Definition hmac_sha256_update (hmac : HmacSha256) (data : list Z) : HmacSha256 :=
  mkHmac (sha256_update (inner hmac) data) (outer_key hmac).

Definition hmac_sha256_finalize (hmac : HmacSha256) : HmacSha256 * list Z :=
  let '(inner', inner_hash) := sha256_finalize (inner hmac) in
  let outer := sha256_update (sha256_update sha256_new (outer_key hmac)) inner_hash in
  (mkHmac inner' (outer_key hmac), (sha256_finalize outer).2).

Definition hmac_sha256_mac (key data : list Z) : list Z :=
  (hmac_sha256_finalize (hmac_sha256_update (hmac_sha256_new key) data)).2.

Definition hmac_sha256_verify (key data expected : list Z) : bool :=
  constant_time_eq (hmac_sha256_mac key data) expected.

Definition hmac_sha256_clone (src : HmacSha256) : HmacSha256 :=
  mkHmac (sha256_clone (inner src)) (outer_key src).

(** ** hkdf.c *)

Definition hkdf_extract (salt ikm : list Z) : list Z :=
  let actual_salt := if (length salt =? 0)%nat then replicate DIGEST_SIZE 0 else salt in
  hmac_sha256_mac actual_salt ikm.

(** One iteration of the loop of [hkdf_expand]: [t] and the output so far
    ([offset] is its length). *)
Definition hkdf_expand_step (prk info : list Z) (okm_len : nat) (st : list Z * list Z) (i : nat)
    : list Z * list Z :=
  let '(t, okm) := st in
  let hmac := hmac_sha256_new prk in
  let hmac := if (1 <? i)%nat then hmac_sha256_update hmac t else hmac in
  let hmac := hmac_sha256_update hmac info in
  let hmac := hmac_sha256_update hmac [u8 (Z.of_nat i)] in
  let t := (hmac_sha256_finalize hmac).2 in
  let left := (okm_len - length okm)%nat in
  let to_copy := if (DIGEST_SIZE <? left)%nat then DIGEST_SIZE else left in
  (t, okm ++ take to_copy t).

(** [None] is the failed [assert (n <= 255)]; [okm_len + SHA256_DIGEST_SIZE - 1] is a
    32-bit [size_t]. The result is what the loop writes to [okm]. *)
Definition hkdf_expand (prk info : list Z) (okm_len : nat) : option (list Z) :=
  let n := Z.to_nat (u32 (Z.of_nat okm_len + Z.of_nat DIGEST_SIZE - 1) / Z.of_nat DIGEST_SIZE) in
  if (n <=? 255)%nat
  then Some (snd (foldl (hkdf_expand_step prk info okm_len) (replicate DIGEST_SIZE 0, []) (seq 1 n)))
  else None.

Definition hkdf_derive (salt ikm info : list Z) (okm_len : nat) : option (list Z) :=
  hkdf_expand (hkdf_extract salt ikm) info okm_len.

Definition RETICULUM_IDENTITY_HASH_SIZE : nat := 16.

Definition reticulum_full_identity_hash (signing_key encryption_key : list Z) : list Z :=
  (sha256_finalize (sha256_update (sha256_update sha256_new signing_key) encryption_key)).2.

Definition reticulum_identity_hash (signing_key encryption_key : list Z) : list Z :=
  let full :=
    (sha256_finalize (sha256_update (sha256_update sha256_new signing_key) encryption_key)).2 in
  take RETICULUM_IDENTITY_HASH_SIZE full.

Record reticulum_link_keys := mkLinkKeys { tx_key : list Z; rx_key : list Z }.

(** "reticulum", "meshcore" and "meshcore-node". *)
Definition salt_reticulum : list Z := [114; 101; 116; 105; 99; 117; 108; 117; 109].
Definition salt_meshcore : list Z := [109; 101; 115; 104; 99; 111; 114; 101].
Definition salt_meshcore_node : list Z :=
  [109; 101; 115; 104; 99; 111; 114; 101; 45; 110; 111; 100; 101].

Definition reticulum_derive_link_keys (shared_secret initiator_pub responder_pub : list Z)
    : option reticulum_link_keys :=
  let context := initiator_pub ++ responder_pub in
  master ← hkdf_derive salt_reticulum shared_secret context 64;
  Some (mkLinkKeys (slice master 0 32) (slice master 32 32)).

Definition meshcore_derive_channel_key (psk : list Z) (channel_id : Z) : option (list Z) :=
  hkdf_derive salt_meshcore psk [67; 72; channel_id] 32.

Definition meshcore_derive_node_key (identity purpose : list Z) : option (list Z) :=
  hkdf_derive salt_meshcore_node identity purpose 32.

Definition MESHTASTIC_DEFAULT_KEY : list Z :=
  [0xd4; 0xf1; 0xbb; 0x3a; 0x20; 0x29; 0x07; 0x59;
   0xf0; 0xbc; 0xff; 0xab; 0xcf; 0x4e; 0x69; 0x01].

Definition meshtastic_derive_channel_key (channel_name : list Z) : list Z :=
  sha256_hash channel_name.

Definition meshtastic_derive_nonce (packet_id sender : Z) : list Z :=
  [u8 (packet_id .& 0xFF); u8 ((packet_id .>> 8) .& 0xFF); u8 ((packet_id .>> 16) .& 0xFF);
   u8 ((packet_id .>> 24) .& 0xFF); 0; 0; 0; 0;
   u8 (sender .& 0xFF); u8 ((sender .>> 8) .& 0xFF); u8 ((sender .>> 16) .& 0xFF);
   u8 ((sender .>> 24) .& 0xFF); 0; 0; 0; 0].

(** ** Specifications: RFC 2104 and RFC 5869 over any hash *)

Section rfc.
Context (H : list Z -> list Z).

Definition rfc_key (key : list Z) : list Z :=
  let k := if (64 <? length key)%nat then H key else key in
  k ++ replicate (64 - length k) 0.

Definition rfc_hmac (key msg : list Z) : list Z :=
  H (xor_bytes (rfc_key key) (replicate 64 0x5c)
     ++ H (xor_bytes (rfc_key key) (replicate 64 0x36) ++ msg)).

(** [T(1) || T(2) || ... || T(n)] after [T(i-1) = prev]. *)
Fixpoint rfc_blocks (prk info prev : list Z) (i n : nat) : list Z :=
  match n with
  | O => []
  | S n =>
      let t := rfc_hmac prk (prev ++ info ++ [Z.of_nat i]) in
      t ++ rfc_blocks prk info t (S i) n
  end.

Definition rfc_expand (prk info : list Z) (len : nat) : list Z :=
  take len (rfc_blocks prk info [] 1 ((len + 31) / 32)).

Context `{!Digest H}.

Lemma length_rfc_hmac key msg : length (rfc_hmac key msg) = 32%nat.
Proof. unfold rfc_hmac. apply digest_length. Qed.

Lemma length_rfc_blocks prk info prev i n :
  length (rfc_blocks prk info prev i n) = (32 * n)%nat.
Proof.
  revert prev i. induction n as [|n IH]; intros prev i; simpl; [done|].
  rewrite length_app, IH, length_rfc_hmac. lia.
Qed.

Lemma length_rfc_expand prk info len : length (rfc_expand prk info len) = len.
Proof. unfold rfc_expand. rewrite length_take, length_rfc_blocks. div_lia. Qed.

Lemma rfc_blocks_prefix prk info prev i n m :
  (n <= m)%nat -> rfc_blocks prk info prev i n = take (32 * n) (rfc_blocks prk info prev i m).
Proof.
  revert prev i m. induction n as [|n IH]; intros prev i m Hnm; [done|].
  destruct m as [|m]; [lia|]. cbn [rfc_blocks].
  rewrite (IH _ _ m) by lia. rewrite take_app_ge.
  - do 2 f_equal. rewrite length_rfc_hmac. lia.
  - rewrite length_rfc_hmac. lia.
Qed.
End rfc.

(** ** HMAC: proofs *)

Lemma fmap_xor_replicate l c : (fun b => b .^ c) <$> l = xor_bytes l (replicate (length l) c).
Proof. induction l as [|x l IH]; [done|]. rewrite fmap_cons, IH. done. Qed.

Lemma length_hmac_key_block key : length (hmac_key_block key) = 64%nat.
Proof.
  unfold hmac_key_block. rewrite length_app, length_replicate.
  destruct (Nat.ltb_spec BLOCK_SIZE (length key)); unfold BLOCK_SIZE in *; [|lia].
  pose proof (digest_length key). lia.
Qed.

(** An HMAC object fed with [msg]. *)
Record hmac_repr (h : HmacSha256) (key msg : list Z) : Prop := mk_hmac_repr {
  hmac_repr_inner :
    repr (inner h) (xor_bytes (hmac_key_block key) (replicate 64 0x36) ++ msg);
  hmac_repr_outer : outer_key h = xor_bytes (hmac_key_block key) (replicate 64 0x5c)
}.

Lemma hmac_repr_new key : hmac_repr (hmac_sha256_new key) key [].
Proof.
  split; simpl; rewrite fmap_xor_replicate, length_hmac_key_block; [|done].
  rewrite app_nil_r. apply (repr_update _ []), repr_new.
Qed.

Lemma hmac_repr_update h key msg d :
  hmac_repr h key msg -> hmac_repr (hmac_sha256_update h d) key (msg ++ d).
Proof. intros [Hi Ho]. split; simpl; [|done]. rewrite app_assoc. by apply repr_update. Qed.

Lemma hmac_repr_updates h key msg pieces :
  hmac_repr h key msg ->
  hmac_repr (foldl hmac_sha256_update h pieces) key (msg ++ concat pieces).
Proof.
  revert h msg. induction pieces as [|d l IH]; intros h msg Hr; simpl; [by rewrite app_nil_r|].
  rewrite app_assoc. by apply IH, hmac_repr_update.
Qed.

Lemma hmac_repr_finalize h key msg :
  hmac_repr h key msg -> (hmac_sha256_finalize h).2 = rfc_hmac sha256_hash key msg.
Proof.
  intros [Hi Ho]. unfold hmac_sha256_finalize. apply repr_finalize in Hi.
  destruct (sha256_finalize (inner h)) as [i' ih]. simpl in *.
  rewrite Hi, Ho. unfold rfc_hmac.
  change (rfc_key sha256_hash key) with (hmac_key_block key).
  by apply (repr_finalize _ (([] ++ _) ++ _)), repr_update, repr_update, repr_new.
Qed.

Lemma hmac_sha256_mac_rfc key msg : hmac_sha256_mac key msg = rfc_hmac sha256_hash key msg.
Proof. apply hmac_repr_finalize, (hmac_repr_update _ _ []), hmac_repr_new. Qed.

(** ** HKDF: proofs *)

Lemma hkdf_expand_step_rfc prk info okm_len t okm i :
  (1 <= i <= 255)%nat ->
  hkdf_expand_step prk info okm_len (t, okm) i
  = let t' := rfc_hmac sha256_hash prk ((if (1 <? i)%nat then t else []) ++ info ++ [Z.of_nat i]) in
    (t', okm ++ take (32 `min` (okm_len - length okm)) t').
Proof.
  intros Hi. unfold hkdf_expand_step.
  rewrite (u8_small (Z.of_nat i)) by (unfold fits; lia).
  set (h := hmac_sha256_update (hmac_sha256_update _ info) _).
  assert (hmac_repr h prk ((if (1 <? i)%nat then t else []) ++ info ++ [Z.of_nat i])) as Hr.
  { unfold h. rewrite app_assoc. apply hmac_repr_update, hmac_repr_update.
    case_match; [apply (hmac_repr_update _ _ [])|]; apply hmac_repr_new. }
  rewrite (hmac_repr_finalize _ _ _ Hr). cbn zeta. do 3 f_equal.
  unfold DIGEST_SIZE. destruct (Nat.ltb_spec 32 (okm_len - length okm)); lia.
Qed.

(** The loop appends the RFC blocks, cut at [okm_len]. *)
Lemma hkdf_expand_loop prk info okm_len n i t okm :
  (1 <= i)%nat -> (i + n <= 256)%nat -> (length okm <= okm_len)%nat ->
  snd (foldl (hkdf_expand_step prk info okm_len) (t, okm) (seq i n))
  = okm ++ take (okm_len - length okm)
             (rfc_blocks sha256_hash prk info (if (1 <? i)%nat then t else []) i n).
Proof.
  revert i t okm. induction n as [|n IH]; intros i t okm Hi Hn Ho; cbn [seq foldl rfc_blocks].
  - by rewrite take_nil, app_nil_r.
  - rewrite hkdf_expand_step_rfc by lia. cbn zeta.
    set (t' := rfc_hmac _ _ _).
    assert (length t' = 32%nat) as Ht by (apply length_rfc_hmac, _).
    rewrite IH by (rewrite ?length_app, ?length_take; lia).
    assert ((1 <? S i)%nat = true) as -> by (apply Nat.ltb_lt; lia).
    rewrite <- app_assoc. f_equal. rewrite take_app, length_app, length_take, Ht. f_equal.
    + destruct (decide (32 <= okm_len - length okm)%nat).
      * rewrite !take_ge by lia. done.
      * f_equal. lia.
    + f_equal. lia.
Qed.

(** The number of iterations, for a length that fits a [size_t]: it wraps to 0 for the
    last 31 lengths. *)
Lemma hkdf_iterations okm_len (n := Z.to_nat (u32 (Z.of_nat okm_len + 32 - 1) / 32)) :
  Z.of_nat okm_len < 2 ^ 32 ->
  if Z.of_nat okm_len <? 2 ^ 32 - 31 then n = ((okm_len + 31) / 32)%nat else n = 0%nat.
Proof.
  intros Hn. subst n. unfold u32. change 0x100000000 with (2 ^ 32).
  destruct (Z.ltb_spec (Z.of_nat okm_len) (2 ^ 32 - 31)).
  - rewrite Z.mod_small by lia. div_lia.
  - rewrite <- (Z.mod_unique_pos _ (2 ^ 32) 1 (Z.of_nat okm_len + 31 - 2 ^ 32)) by lia.
    rewrite Z.div_small by lia. done.
Qed.

Lemma hkdf_expand_rfc prk info okm_len :
  Z.of_nat okm_len < 2 ^ 32 ->
  hkdf_expand prk info okm_len
  = if (okm_len <=? 255 * 32)%nat then Some (rfc_expand sha256_hash prk info okm_len)
    else if Z.of_nat okm_len <? 2 ^ 32 - 31 then None else Some [].
Proof.
  intros H32. pose proof (hkdf_iterations okm_len H32) as Hn. unfold hkdf_expand, DIGEST_SIZE, rfc_expand.
  change (Z.of_nat 32) with 32. destruct (Nat.leb_spec okm_len (255 * 32)).
  - destruct (Z.ltb_spec (Z.of_nat okm_len) (2 ^ 32 - 31)); [|lia]. rewrite Hn.
    destruct (Nat.leb_spec ((okm_len + 31) / 32) 255); [|div_lia].
    rewrite hkdf_expand_loop by (simpl length; lia). cbn [app length Nat.ltb].
    by rewrite Nat.sub_0_r.
  - destruct (Z.ltb_spec (Z.of_nat okm_len) (2 ^ 32 - 31)); rewrite Hn; [|done].
    destruct (Nat.leb_spec ((okm_len + 31) / 32) 255); [div_lia|done].
Qed.

Lemma hkdf_expand_prefix prk info n m :
  (n <= m)%nat -> rfc_expand sha256_hash prk info n = take n (rfc_expand sha256_hash prk info m).
Proof.
  intros Hnm. unfold rfc_expand. rewrite take_take, Nat.min_l by done.
  rewrite (rfc_blocks_prefix sha256_hash prk info [] 1 ((n + 31) / 32) ((m + 31) / 32)) by div_lia.
  rewrite take_take, Nat.min_l by div_lia. done.
Qed.

Lemma hkdf_derive_rfc salt ikm info n :
  (n <= 255 * 32)%nat ->
  hkdf_derive salt ikm info n
  = Some (rfc_expand sha256_hash (hkdf_extract salt ikm) info n).
Proof.
  intros Hn. unfold hkdf_derive. rewrite hkdf_expand_rfc by lia.
  destruct (Nat.leb_spec n (255 * 32)); [done|lia].
Qed.

(** ** Test vectors: RFC 4231 case 2, RFC 5869 A.1 (20 bytes) *)

Example hmac_rfc4231_2 :
  hmac_sha256_mac [74; 101; 102; 101]
    [119; 104; 97; 116; 32; 100; 111; 32; 121; 97; 32; 119; 97; 110; 116; 32; 102; 111; 114; 32;
     110; 111; 116; 104; 105; 110; 103; 63]
  = be_bytes 32 0x5bdcc146bf60754e6a042426089575c75a003f089d2739839dec58b964ec3843.
Proof. vm_compute. reflexivity. Qed.

Example hkdf_rfc5869_1 :
  hkdf_derive (range 13) (replicate 22 0x0b) (zseq 0xf0 10) 42
  = Some (be_bytes 42
      0x3cb25f25faacd57a90434f64d0362f2a2d2d0a90cf1a5a4c5db02d56ecc4c5bf34007208d5b887185865).
Proof. vm_compute. reflexivity. Qed.

(** ** Properties *)

(** HMAC refines RFC 2104: for every key (hashed when longer than 64
    bytes, zero-padded otherwise) and every sequence of updates, the MAC written
    by [hmac_sha256_finalize] is
    [H((K ^ opad) || H((K ^ ipad) || m))] of the concatenated message, the
    one-shot [hmac_sha256_mac] gives the same bytes, and [hmac_sha256_verify]
    accepts exactly that MAC. *)
Theorem hmac_refines_rfc2104 (key : list Z) (pieces : list (list Z)) :
  let msg := concat pieces in
  let mac := (hmac_sha256_finalize (foldl hmac_sha256_update (hmac_sha256_new key) pieces)).2 in
  mac = rfc_hmac sha256_hash key msg
  /\ mac = hmac_sha256_mac key msg
  /\ forall expected, hmac_sha256_verify key msg expected = true <-> expected = mac.
Proof.
  cbn zeta.
  rewrite (hmac_repr_finalize _ _ _ (hmac_repr_updates _ _ _ pieces (hmac_repr_new key))).
  cbn [app]. split_and!; [done|by rewrite hmac_sha256_mac_rfc|]. intros expected.
  unfold hmac_sha256_verify. rewrite constant_time_eq_spec, hmac_sha256_mac_rfc. done.
Qed.

(** C30. HKDF refines RFC 5869: for every length [n] of a 32-bit [size_t], [hkdf_derive]
    gives the first [n] bytes of [T(1) || T(2) || ...] up to [255 * 32], stops at the
    assertion above that, and for the last 31 lengths, where [okm_len + 31] wraps to less
    than 32, passes the assertion and writes nothing. Up to [255 * 32] the output has the
    length asked for, and a shorter output is a prefix of a longer one (the 64 bytes that
    [reticulum_derive_link_keys] splits are two keys of one stream). *)
Theorem hkdf_refines_rfc5869 (salt ikm info : list Z) (n : nat) :
  Z.of_nat n < 2 ^ 32 ->
  let prk := rfc_hmac sha256_hash (if decide (salt = []) then replicate 32 0 else salt) ikm in
  let okm := rfc_expand sha256_hash prk info n in
  hkdf_derive salt ikm info n
  = (if (n <=? 255 * 32)%nat then Some okm
     else if Z.of_nat n <? 2 ^ 32 - 31 then None else Some [])
  /\ length okm = n
  /\ ((n <= 255 * 32)%nat -> forall m, (m <= n)%nat -> hkdf_derive salt ikm info m = Some (take m okm)).
Proof.
  intros H32. cbn zeta.
  assert (hkdf_extract salt ikm
          = rfc_hmac sha256_hash (if decide (salt = []) then replicate 32 0 else salt) ikm) as <-.
  { unfold hkdf_extract. rewrite hmac_sha256_mac_rfc. f_equal. destruct salt; done. }
  split; [by apply hkdf_expand_rfc|]. split; [apply length_rfc_expand, _|].
  intros Hn m Hm. rewrite hkdf_derive_rfc by lia. by rewrite <- hkdf_expand_prefix.
Qed.

Lemma hkdf_refines_rfc5869_witness :
  hkdf_derive (range 13) (replicate 22 0x0b) (zseq 0xf0 10) 42
  = Some (rfc_expand sha256_hash (rfc_hmac sha256_hash (range 13) (replicate 22 0x0b)) (zseq 0xf0 10) 42).
Proof. exact (proj1 (hkdf_refines_rfc5869 (range 13) (replicate 22 0x0b) (zseq 0xf0 10) 42 eq_refl)). Defined.

(** The key derivations of the three protocols always produce keys of 32
    bytes: the two link keys of Reticulum are the two halves of one 64-byte
    derivation, and the initiator's and the responder's public keys enter it in
    order; the Meshtastic nonce determines the 32-bit packet id and sender, so
    two packets share a nonce only when both agree. *)
Theorem derived_keys_and_nonce (secret ini resp psk : list Z) (ch : Z) (p1 s1 p2 s2 : Z)
    (Hp1 : fits 32 p1) (Hs1 : fits 32 s1) (Hp2 : fits 32 p2) (Hs2 : fits 32 s2) :
  (exists k, reticulum_derive_link_keys secret ini resp = Some k
     /\ length (tx_key k) = 32%nat /\ length (rx_key k) = 32%nat
     /\ hkdf_derive salt_reticulum secret (ini ++ resp) 64 = Some (tx_key k ++ rx_key k))
  /\ (exists k, meshcore_derive_channel_key psk ch = Some k /\ length k = 32%nat)
  /\ length (meshtastic_derive_nonce p1 s1) = 16%nat
  /\ (meshtastic_derive_nonce p1 s1 = meshtastic_derive_nonce p2 s2 -> p1 = p2 /\ s1 = s2).
Proof.
  split_and!; [| |done|].
  - unfold reticulum_derive_link_keys. rewrite hkdf_derive_rfc by lia. simpl.
    set (m := rfc_expand _ _ _ _).
    assert (length m = 64%nat) as Hm by apply length_rfc_expand, _.
    eexists. split; [done|]. cbn [tx_key rx_key]. rewrite !length_slice by (rewrite Hm; lia).
    split_and!; try done. f_equal. unfold slice. rewrite drop_0.
    rewrite (take_ge (drop 32 m)) by (rewrite length_drop, Hm; lia). by rewrite take_drop.
  - unfold meshcore_derive_channel_key. rewrite hkdf_derive_rfc by lia.
    eexists. split; [done|]. apply length_rfc_expand, _.
  - intros He. unfold meshtastic_derive_nonce in He.
    assert (le_bytes 4 p1 = le_bytes 4 p2 /\ le_bytes 4 s1 = le_bytes 4 s2) as [Ha Hb].
    { rewrite <- !wr32_eq. injection He. intros. split; congruence. }
    split; by apply (le_bytes_inj 4).
Qed.

Lemma derived_keys_and_nonce_witness : length (meshtastic_derive_nonce 1 2) = 16%nat.
Proof.
  apply (derived_keys_and_nonce [] [] [] [] 0 1 2 1 2);
    apply (bool_decide_unpack _); vm_compute; exact I.
Defined.
