(* ===== verification/Ota.v ===== *)
(** * Firmware update: lunarcore/lunar/ota.c

    The manager that receives an update in pieces: a header, checked against the trusted keys
    and the least version allowed, then the firmware, hashed and written to flash as it
    comes; at the end the hash is compared and the boot partition set. The update calls of
    the platform are the class [EspOta], a device passed along; Ed25519 verification is an
    argument. Error codes are negative; [OTA_ERROR_INVALID_HEADER] is 0. *)
From S2P Require Import Prelude Blocks Sha256.

(** ** Constants *)

Definition MAX_FIRMWARE_SIZE : Z := 3584000.
Definition SIGNATURE_SIZE : nat := 64.
Definition PUBLIC_KEY_SIZE : nat := 32.
Definition OTA_HEADER_MAGIC : list Z := [0x4C; 0x55; 0x4E; 0x41].
Definition OTA_HEADER_VERSION : Z := 1.
Definition OTA_HEADER_SIZE : nat := 144.
Definition MAX_TRUSTED_KEYS : nat := 2.

Inductive OtaError :=
  | OTA_ERROR_INVALID_HEADER | OTA_ERROR_SIGNATURE_INVALID | OTA_ERROR_HASH_MISMATCH | OTA_ERROR_TOO_LARGE
  | OTA_ERROR_FLASH_ERROR | OTA_ERROR_PARTITION_ERROR | OTA_ERROR_BUSY | OTA_ERROR_ABORTED | OTA_ERROR_TIMEOUT
  | OTA_ERROR_ROLLED_BACK | OTA_ERROR_DOWNGRADE_REJECTED | OTA_ERROR_NO_TRUSTED_KEYS.

#[global] Instance OtaError_eq_dec : EqDecision OtaError.
Proof. solve_decision. Defined.

(** The enumerators count from 0. *)
Definition error_number (e : OtaError) : Z :=
  match e with
  | OTA_ERROR_INVALID_HEADER => 0 | OTA_ERROR_SIGNATURE_INVALID => 1 | OTA_ERROR_HASH_MISMATCH => 2
  | OTA_ERROR_TOO_LARGE => 3 | OTA_ERROR_FLASH_ERROR => 4 | OTA_ERROR_PARTITION_ERROR => 5 | OTA_ERROR_BUSY => 6
  | OTA_ERROR_ABORTED => 7 | OTA_ERROR_TIMEOUT => 8 | OTA_ERROR_ROLLED_BACK => 9
  | OTA_ERROR_DOWNGRADE_REJECTED => 10 | OTA_ERROR_NO_TRUSTED_KEYS => 11
  end.

(** [return -OTA_ERROR_...;] *)
Definition failure (e : OtaError) : Z := - error_number e.

Inductive OtaStateType :=
  | OTA_STATE_IDLE | OTA_STATE_RECEIVING_HEADER | OTA_STATE_RECEIVING | OTA_STATE_VERIFYING | OTA_STATE_WRITING
  | OTA_STATE_COMPLETE | OTA_STATE_ERROR.

#[global] Instance OtaStateType_eq_dec : EqDecision OtaStateType.
Proof. solve_decision. Defined.

(** ** Headers *)

Record OtaHeader := mkHeader {
  magic : list Z;
  version : Z;
  header_size : Z;
  fw_major : Z;
  fw_minor : Z;
  fw_patch : Z;
  reserved : list Z;
  firmware_size : Z;
  firmware_hash : list Z;
  signature : list Z;
  public_key : list Z
}.

(** [memset(&header, 0, sizeof(OtaHeader))] *)
Definition zero_header : OtaHeader :=
  mkHeader (replicate 4 0) 0 0 0 0 0 (replicate 3 0) 0 (replicate 32 0) (replicate 64 0) (replicate 32 0).

Definition ct_key_eq (a b : list Z) : bool :=
  foldl (fun diff p => u8 (diff .| (p.1 .^ p.2))) 0 (zip a b) =? 0.

Definition pack_version (major minor patch : Z) : Z := (major .<< 16) .| (minor .<< 8) .| patch.

Definition ota_header_from_bytes (data : list Z) : option OtaHeader :=
  if (length data <? OTA_HEADER_SIZE)%nat then None
  else if negb (bool_decide (take 4 data = OTA_HEADER_MAGIC)) then None
  else if negb (data.[4] =? OTA_HEADER_VERSION) then None
  else
    Some (mkHeader (slice data 0 4) data.[4] data.[5] data.[6] data.[7] data.[8] (slice data 9 3)
            (data.[12] .| (data.[13] .<< 8) .| (data.[14] .<< 16) .| (data.[15] .<< 24))
            (slice data 16 32) (slice data 48 SIGNATURE_SIZE) (slice data 112 PUBLIC_KEY_SIZE)).

(** The digits written. *)
Definition write_u8_to_buf (val : Z) : list Z :=
  if 100 <=? val then [u8 (48 + val / 100); u8 (48 + (val / 10) mod 10); u8 (48 + val mod 10)]
  else if 10 <=? val then [u8 (48 + val / 10); u8 (48 + val mod 10)]
  else [u8 (48 + val)].

(** The twelve bytes of [buf]. *)
Definition ota_header_version_string (header : OtaHeader) : list Z :=
  let text := write_u8_to_buf (fw_major header) ++ [46] ++ write_u8_to_buf (fw_minor header) ++ [46]
              ++ write_u8_to_buf (fw_patch header) in
  text ++ replicate (12 - length text) 0.

(** ** The manager *)

Record OtaManager := mkManager {
  state : OtaStateType;
  error : OtaError;
  header_buf : list Z;          (* what has been received of it, [header_received] bytes *)
  header : OtaHeader;
  header_valid : bool;
  bytes_received : Z;
  hasher : Sha256;
  ota_handle : Z;
  trusted_keys : list (list Z); (* the [trusted_key_count] first *)
  progress_percent : Z;
  min_version : Z
}.

Definition ota_manager_new : OtaManager :=
  mkManager OTA_STATE_IDLE OTA_ERROR_ABORTED [] zero_header false 0 sha256_new 0 [] 0 0.

Definition with_state (m : OtaManager) (s : OtaStateType) : OtaManager :=
  mkManager s (error m) (header_buf m) (header m) (header_valid m) (bytes_received m) (hasher m) (ota_handle m)
    (trusted_keys m) (progress_percent m) (min_version m).
Definition with_error (m : OtaManager) (e : OtaError) : OtaManager :=
  mkManager OTA_STATE_ERROR e (header_buf m) (header m) (header_valid m) (bytes_received m) (hasher m) (ota_handle m)
    (trusted_keys m) (progress_percent m) (min_version m).
Definition with_handle (m : OtaManager) (h : Z) : OtaManager :=
  mkManager (state m) (error m) (header_buf m) (header m) (header_valid m) (bytes_received m) (hasher m) h
    (trusted_keys m) (progress_percent m) (min_version m).
Definition with_header_buf (m : OtaManager) (b : list Z) : OtaManager :=
  mkManager (state m) (error m) b (header m) (header_valid m) (bytes_received m) (hasher m) (ota_handle m)
    (trusted_keys m) (progress_percent m) (min_version m).
Definition with_header (m : OtaManager) (h : OtaHeader) : OtaManager :=
  mkManager (state m) (error m) (header_buf m) h true (bytes_received m) (hasher m) (ota_handle m)
    (trusted_keys m) (progress_percent m) (min_version m).
Definition with_hasher (m : OtaManager) (s : Sha256) : OtaManager :=
  mkManager (state m) (error m) (header_buf m) (header m) (header_valid m) (bytes_received m) s (ota_handle m)
    (trusted_keys m) (progress_percent m) (min_version m).
Definition with_progress (m : OtaManager) (received percent : Z) : OtaManager :=
  mkManager (state m) (error m) (header_buf m) (header m) (header_valid m) received (hasher m) (ota_handle m)
    (trusted_keys m) percent (min_version m).

Definition ota_manager_add_trusted_key (m : OtaManager) (key : list Z) : OtaManager * bool :=
  if (MAX_TRUSTED_KEYS <=? length (trusted_keys m))%nat then (m, false)
  else (mkManager (state m) (error m) (header_buf m) (header m) (header_valid m) (bytes_received m) (hasher m)
          (ota_handle m) (trusted_keys m ++ [key]) (progress_percent m) (min_version m), true).

Definition ota_manager_set_min_version (m : OtaManager) (major minor patch : Z) : OtaManager :=
  mkManager (state m) (error m) (header_buf m) (header m) (header_valid m) (bytes_received m) (hasher m)
    (ota_handle m) (trusted_keys m) (progress_percent m) (pack_version major minor patch).

Definition ota_manager_is_version_allowed (m : OtaManager) (h : OtaHeader) : bool :=
  let new_version := pack_version (fw_major h) (fw_minor h) (fw_patch h) in min_version m <=? new_version.

Definition ota_manager_state (m : OtaManager) : OtaStateType * OtaError := (state m, error m).
Definition ota_manager_progress (m : OtaManager) : Z := progress_percent m.
Definition ota_manager_is_enabled (m : OtaManager) : bool := (0 <? length (trusted_keys m))%nat.
Definition ota_manager_trusted_key_count (m : OtaManager) : nat := length (trusted_keys m).

(** ** The platform *)

(** The update calls of ESP-IDF: a partition, a handle, or whether the call succeeded
    ([ESP_OK]), and the device after the call. *)
Class EspOta := {
  Device : Type;
  Partition : Type;
  esp_ota_get_next_update_partition : Device -> option Partition;
  esp_ota_begin : Partition -> Device -> Device * option Z;
  esp_ota_write : Z -> list Z -> Device -> Device * bool;
  esp_ota_end : Z -> Device -> Device * bool;
  esp_ota_set_boot_partition : option Partition -> Device -> Device * bool;
  esp_ota_abort : Z -> Device -> Device;
  esp_ota_mark_app_valid_cancel_rollback : Device -> Device * bool;
  esp_ota_mark_app_invalid_rollback_and_reboot : Device -> Device * bool
}.

Section manager.
Context `{EspOta} (ed25519_verify : list Z -> list Z -> list Z -> bool).

(** ** Operations *)

Definition ota_manager_verify_signature (m : OtaManager) (h : OtaHeader) : bool :=
  if (length (trusted_keys m) =? 0)%nat then false
  else existsb (fun key => ct_key_eq (public_key h) key && ed25519_verify (public_key h) (firmware_hash h) (signature h))
         (trusted_keys m).

Definition ota_manager_abort (m : OtaManager) (dev : Device) : OtaManager * Device :=
  let '(m, dev) := if negb (ota_handle m =? 0) then (with_handle m 0, esp_ota_abort (ota_handle m) dev) else (m, dev) in
  (with_state m OTA_STATE_IDLE, dev).

(** The reset at the start of an update. *)
Definition reset (m : OtaManager) : OtaManager :=
  mkManager (state m) (error m) [] zero_header false 0 sha256_new (ota_handle m) (trusted_keys m) 0 (min_version m).

Definition ota_manager_begin (m : OtaManager) (dev : Device) : OtaManager * Device * Z :=
  if negb (bool_decide (state m = OTA_STATE_IDLE)) then (m, dev, failure OTA_ERROR_BUSY)
  else
    let m := reset m in
    match esp_ota_get_next_update_partition dev with
    | None => (m, dev, failure OTA_ERROR_PARTITION_ERROR)
    | Some next_partition =>
        let '(dev, handle) := esp_ota_begin next_partition dev in
        match handle with
        | None => (m, dev, failure OTA_ERROR_FLASH_ERROR)
        | Some handle => (with_state (with_handle m handle) OTA_STATE_RECEIVING_HEADER, dev, 0)
        end
    end.

Definition ota_manager_verify_and_finish (m : OtaManager) (dev : Device) : OtaManager * Device * Z :=
  if negb (header_valid m) then (m, dev, failure OTA_ERROR_INVALID_HEADER)
  else
    let computed_hash := (sha256_finalize (hasher m)).2 in
    if negb (bool_decide (computed_hash = firmware_hash (header m))) then
      let m := with_error m OTA_ERROR_HASH_MISMATCH in
      let '(m, dev) := ota_manager_abort m dev in
      (m, dev, failure OTA_ERROR_HASH_MISMATCH)
    else
      let '(dev, ok) := esp_ota_end (ota_handle m) dev in
      if negb ok then (with_error m OTA_ERROR_FLASH_ERROR, dev, failure OTA_ERROR_FLASH_ERROR)
      else
        let next_partition := esp_ota_get_next_update_partition dev in
        let '(dev, ok) := esp_ota_set_boot_partition next_partition dev in
        if negb ok then (with_error m OTA_ERROR_PARTITION_ERROR, dev, failure OTA_ERROR_PARTITION_ERROR)
        else (with_progress (with_state m OTA_STATE_COMPLETE) (bytes_received m) 100, dev, 0).

(** The result, and [*bytes_written] where it was 0 before. *)
Definition ota_manager_write_firmware (m : OtaManager) (dev : Device) (data : list Z) : OtaManager * Device * Z * nat :=
  if negb (header_valid m) then (m, dev, failure OTA_ERROR_INVALID_HEADER, 0%nat)
  else
    let remaining := u32 (firmware_size (header m) - bytes_received m) in
    let to_write := if Z.of_nat (length data) <? remaining then length data else Z.to_nat remaining in
    if (to_write =? 0)%nat then (m, dev, 0, 0%nat)
    else
      let data := take to_write data in
      let m := with_hasher m (sha256_update (hasher m) data) in
      let '(dev, ok) := esp_ota_write (ota_handle m) data dev in
      if negb ok then (with_error m OTA_ERROR_FLASH_ERROR, dev, failure OTA_ERROR_FLASH_ERROR, 0%nat)
      else
        let received := u32 (bytes_received m + Z.of_nat to_write) in
        let m := with_progress m received (u8 (received * 100 / firmware_size (header m))) in
        if firmware_size (header m) <=? received then
          let '(m, dev, result) := ota_manager_verify_and_finish (with_state m OTA_STATE_VERIFYING) dev in
          if negb (result =? 0) then (m, dev, result, 0%nat) else (m, dev, 0, to_write)
        else (m, dev, 0, to_write).

(** The checks of a header that is complete. *)
Definition check_header (m : OtaManager) (h : OtaHeader) : option OtaError :=
  if MAX_FIRMWARE_SIZE <? firmware_size h then Some OTA_ERROR_TOO_LARGE
  else if (length (trusted_keys m) =? 0)%nat then Some OTA_ERROR_NO_TRUSTED_KEYS
  else if negb (ota_manager_is_version_allowed m h) then Some OTA_ERROR_DOWNGRADE_REJECTED
  else if negb (ota_manager_verify_signature m h) then Some OTA_ERROR_SIGNATURE_INVALID
  else None.

Definition ota_manager_write_header (m : OtaManager) (dev : Device) (data : list Z) : OtaManager * Device * Z * nat :=
  let needed := (OTA_HEADER_SIZE - length (header_buf m))%nat in
  let to_copy := if (length data <? needed)%nat then length data else needed in
  let m := with_header_buf m (header_buf m ++ take to_copy data) in
  if (OTA_HEADER_SIZE <=? length (header_buf m))%nat then
    match ota_header_from_bytes (header_buf m) with
    | None => (with_error m OTA_ERROR_INVALID_HEADER, dev, failure OTA_ERROR_INVALID_HEADER, 0%nat)
    | Some h =>
        let m := with_header m h in
        match check_header m h with
        | Some e => (with_error m e, dev, failure e, 0%nat)
        | None =>
            let m := with_state m OTA_STATE_RECEIVING in
            if (to_copy <? length data)%nat then
              let '(m, dev, result, firmware_written) := ota_manager_write_firmware m dev (drop to_copy data) in
              (m, dev, result, (to_copy + firmware_written)%nat)
            else (m, dev, 0, to_copy)
        end
    end
  else (m, dev, 0, to_copy).

Definition ota_manager_write (m : OtaManager) (dev : Device) (data : list Z) : OtaManager * Device * Z * nat :=
  match state m with
  | OTA_STATE_IDLE => (m, dev, failure OTA_ERROR_ABORTED, 0%nat)
  | OTA_STATE_ERROR => (m, dev, failure (error m), 0%nat)
  | OTA_STATE_RECEIVING_HEADER => ota_manager_write_header m dev data
  | OTA_STATE_RECEIVING | OTA_STATE_WRITING => ota_manager_write_firmware m dev data
  | _ => (m, dev, 0, 0%nat)
  end.

Definition ota_manager_confirm (dev : Device) : Device * Z :=
  let '(dev, ok) := esp_ota_mark_app_valid_cancel_rollback dev in
  (dev, if negb ok then failure OTA_ERROR_PARTITION_ERROR else 0).

Definition ota_manager_rollback (dev : Device) : Device * Z :=
  let '(dev, ok) := esp_ota_mark_app_invalid_rollback_and_reboot dev in
  (dev, if negb ok then failure OTA_ERROR_ROLLED_BACK else 0).
End manager.

(** ** Commands *)

Inductive OtaCommand :=
  | OTA_COMMAND_BEGIN | OTA_COMMAND_DATA | OTA_COMMAND_END | OTA_COMMAND_ABORT | OTA_COMMAND_STATUS
  | OTA_COMMAND_CONFIRM | OTA_COMMAND_ROLLBACK | OTA_COMMAND_REBOOT.

Definition ota_command_from_u8 (v : Z) : OtaCommand :=
  match v with
  | 0x01 => OTA_COMMAND_BEGIN
  | 0x02 => OTA_COMMAND_DATA
  | 0x03 => OTA_COMMAND_END
  | 0x04 => OTA_COMMAND_ABORT
  | 0x05 => OTA_COMMAND_STATUS
  | 0x06 => OTA_COMMAND_CONFIRM
  | 0x07 => OTA_COMMAND_ROLLBACK
  | 0x08 => OTA_COMMAND_REBOOT
  | _ => OTA_COMMAND_STATUS
  end.

(** ** What the platform promises *)

(** What was written through a handle since it was given out; what the partition for the next
    update holds after its handle was closed; what the device will boot. *)
Class EspOtaLaws `{EspOta} := {
  written : Device -> Z -> list Z;
  image : Device -> option (list Z);
  boots : Device -> option (list Z);
  begin_law p d d' h : esp_ota_begin p d = (d', Some h) -> h <> 0 /\ written d' h = [];
  write_law h x d d' : esp_ota_write h x d = (d', true) -> written d' h = written d h ++ x;
  end_law h d d' : esp_ota_end h d = (d', true) -> image d' = Some (written d h);
  boot_law p d d' : esp_ota_set_boot_partition p d = (d', true) -> boots d' = image d
}.

(** ** Headers *)

Lemma ct_key_fold a b acc :
  fits 8 acc -> bytes_ok a -> bytes_ok b -> length a = length b ->
  (foldl (fun diff p => u8 (diff .| (p.1 .^ p.2))) acc (zip a b) =? 0) = true <-> acc = 0 /\ a = b.
Proof.
  intros Hacc Ha. revert b acc Hacc. induction Ha as [|x a Hx Ha IH]; intros [|y b] acc Hacc Hb Hl; try done.
  - cbn. rewrite Z.eqb_eq. naive_solver.
  - apply Forall_cons in Hb as [Hy Hb]. cbn [zip zip_with foldl fst snd].
    assert (fits 8 (acc .| (x .^ y))) as Hf by (apply fits_lor; [lia|done|by apply fits_lxor]).
    rewrite u8_small by done. rewrite IH by (done || by injection Hl).
    rewrite Z.lor_eq_0_iff, Z.lxor_eq_0_iff. naive_solver.
Qed.

Lemma ct_key_eq_spec a b : bytes_ok a -> bytes_ok b -> length a = length b -> ct_key_eq a b = true <-> a = b.
Proof. intros Ha Hb Hl. unfold ct_key_eq. rewrite ct_key_fold by done. naive_solver. Qed.

Lemma header_size_bounds data h :
  bytes_ok data -> ota_header_from_bytes data = Some h ->
  0 <= firmware_size h < 2 ^ 32 /\ length (public_key h) = 32%nat /\ bytes_ok (public_key h).
Proof.
  intros Hd Hp. unfold ota_header_from_bytes in Hp. destruct (Nat.ltb_spec (length data) OTA_HEADER_SIZE) as [|Hl]; [done|].
  destruct (negb _); [done|]. destruct (negb _); [done|]. apply (inj Some) in Hp as <-. unfold OTA_HEADER_SIZE in Hl.
  cbn [firmware_size public_key]. split; [|split; [apply length_slice; unfold PUBLIC_KEY_SIZE; lia|by apply slice_ok]].
  pose proof (arr_byte data 12 Hd) as H12. pose proof (arr_byte data 13 Hd) as H13.
  pose proof (arr_byte data 14 Hd) as H14. pose proof (arr_byte data 15 Hd) as H15.
  change (fits 32 (data.[12] .| (data.[13] .<< 8) .| (data.[14] .<< 16) .| (data.[15] .<< 24))).
  rewrite le32_eq by done. apply (le_val_bound [data.[12]; data.[13]; data.[14]; data.[15]]). repeat (apply Forall_cons_2; [done|]); by apply Forall_nil_2.
Qed.

#[local] Opaque sha256_update sha256_finalize sha256_new sha256_hash.

Section ota_properties.
Context `{EspOtaLaws} (verify : list Z -> list Z -> list Z -> bool) (keys : list (list Z)) (least : Z).

(** The header is signed under a trusted key, new enough and small enough. *)
Definition trusted_header (h : OtaHeader) : Prop :=
  public_key h ∈ keys /\ verify (public_key h) (firmware_hash h) (signature h) = true
  /\ least <= pack_version (fw_major h) (fw_minor h) (fw_patch h) /\ firmware_size h <= MAX_FIRMWARE_SIZE.

(** ... and the image is the one it announces. *)
Definition authentic (h : OtaHeader) (img : list Z) : Prop :=
  trusted_header h /\ Z.of_nat (length img) = firmware_size h /\ sha256_hash img = firmware_hash h.

Definition keys_ok : Prop := Forall (fun k => bytes_ok k /\ length k = 32%nat) keys.

(** The manager and the device between two calls; [written_so_far] are the bytes of the
    firmware received. *)
Definition receiving (m : OtaManager) (d : Device) (so_far : list Z) : Prop :=
  header_valid m = true /\ trusted_header (header m) /\ ota_header_from_bytes (header_buf m) = Some (header m)
  /\ 0 <= firmware_size (header m)
  /\ repr (hasher m) so_far /\ written d (ota_handle m) = so_far
  /\ bytes_received m = Z.of_nat (length so_far).

Definition ota_inv (m : OtaManager) (d : Device) : Prop :=
  trusted_keys m = keys /\ min_version m = least
  /\ match state m with
     | OTA_STATE_IDLE | OTA_STATE_ERROR => True
     | OTA_STATE_RECEIVING_HEADER =>
         (length (header_buf m) < OTA_HEADER_SIZE)%nat /\ bytes_ok (header_buf m) /\ bytes_received m = 0
         /\ repr (hasher m) [] /\ written d (ota_handle m) = []
     | OTA_STATE_RECEIVING =>
         exists so_far, receiving m d so_far /\ bytes_received m <= firmware_size (header m)
     | OTA_STATE_COMPLETE =>
         ota_header_from_bytes (header_buf m) = Some (header m) /\ exists img, boots d = Some img /\ authentic (header m) img
     | OTA_STATE_VERIFYING | OTA_STATE_WRITING => False
     end.

Lemma verify_signature_trusted m h :
  keys_ok -> trusted_keys m = keys -> length (public_key h) = 32%nat -> bytes_ok (public_key h) ->
  ota_manager_verify_signature verify m h = true
  <-> public_key h ∈ keys /\ verify (public_key h) (firmware_hash h) (signature h) = true.
Proof.
  intros Hk Em Hl Hb. unfold ota_manager_verify_signature. rewrite Em.
  destruct (Nat.eqb_spec (length keys) 0) as [E0|_].
  { apply nil_length_inv in E0. rewrite E0. split; [done|intros [Hin _]; by apply elem_of_nil in Hin]. }
  rewrite existsb_exists. unfold keys_ok in Hk. rewrite Forall_forall in Hk. split.
  - intros (k & Hin%list_elem_of_In & [Hc Hv]%andb_true_iff). destruct (Hk k Hin) as [Hkb Hkl].
    apply ct_key_eq_spec in Hc; [|done|done|congruence]. by subst k.
  - intros [Hin Hv]. exists (public_key h). split; [by apply list_elem_of_In|]. rewrite Hv, andb_true_r.
    by apply ct_key_eq_spec.
Qed.

Lemma check_header_trusted m h :
  keys_ok -> trusted_keys m = keys -> min_version m = least -> length (public_key h) = 32%nat -> bytes_ok (public_key h) ->
  check_header verify m h = None <-> trusted_header h.
Proof.
  intros Hk Em El Hl Hb. pose proof (verify_signature_trusted m h Hk Em Hl Hb) as Hs. unfold check_header, trusted_header.
  unfold ota_manager_is_version_allowed. rewrite El, Em.
  destruct (Z.ltb_spec MAX_FIRMWARE_SIZE (firmware_size h)); [split; [done|lia]|].
  destruct (Nat.eqb_spec (length keys) 0) as [E0|E0].
  { apply nil_length_inv in E0. rewrite E0 in *. split; [done|intros [Hin _]; by apply elem_of_nil in Hin]. }
  destruct (Z.leb_spec least (pack_version (fw_major h) (fw_minor h) (fw_patch h))); cbn [negb]; [|split; [done|lia]].
  destruct (ota_manager_verify_signature verify m h); cbn [negb].
  - destruct Hs as [Hs _]. specialize (Hs eq_refl). split; [|done]. intros _. destruct Hs. split_and!; (done || lia).
  - split; [done|]. intros (Hin & Hv & _). destruct Hs as [_ Hs]. by specialize (Hs (conj Hin Hv)).
Qed.
(** *** The invariant *)

Lemma inv_error m d e : trusted_keys m = keys -> min_version m = least -> ota_inv (with_error m e) d.
Proof. by intros Hk Hm. Qed.

Lemma abort_inv m d : trusted_keys m = keys -> min_version m = least -> ota_inv (ota_manager_abort m d).1 (ota_manager_abort m d).2.
Proof. intros Hk Hm. unfold ota_manager_abort. by destruct (negb _). Qed.

Lemma finish_inv m d so_far :
  trusted_keys m = keys -> min_version m = least -> receiving m d so_far -> Z.of_nat (length so_far) = firmware_size (header m) ->
  let '(m', d', r) := ota_manager_verify_and_finish m d in ota_inv m' d'.
Proof.
  intros Hk Hm (Hv & Ht & Hp & Hs & Hr & Hw & Hb) Hl. unfold ota_manager_verify_and_finish. rewrite Hv. cbn [negb].
  destruct (bool_decide_reflect ((sha256_finalize (hasher m)).2 = firmware_hash (header m))) as [Eh|Eh]; cbn [negb].
  - destruct (esp_ota_end _ d) as [d1 [|]] eqn:Ee; cbn [negb]; [|by apply inv_error].
    destruct (esp_ota_set_boot_partition _ d1) as [d2 [|]] eqn:Eb; cbn [negb]; [|by apply inv_error].
    split; [done|]. split; [done|]. cbn. split; [done|]. exists so_far. split.
    + rewrite (boot_law _ _ _ Eb), (end_law _ _ _ Ee). by rewrite Hw.
    + split; [done|]. split; [done|]. rewrite <- Eh. symmetry. by apply repr_finalize.
  - pose proof (abort_inv (with_error m OTA_ERROR_HASH_MISMATCH) d Hk Hm) as Ha. by destruct (ota_manager_abort _ d).
Qed.

Lemma write_firmware_inv m d data so_far :
  trusted_keys m = keys -> min_version m = least -> state m = OTA_STATE_RECEIVING ->
  receiving m d so_far -> bytes_received m <= firmware_size (header m) ->
  let '(m', d', r, n) := ota_manager_write_firmware m d data in ota_inv m' d'.
Proof.
  intros Hk Hm Hst Hrec Hle. pose proof Hrec as (Hv & Ht & Hp & Hs & Hr & Hw & Hb).
  unfold ota_manager_write_firmware. rewrite Hv. cbn [negb]. set (size := firmware_size (header m)) in *.
  assert (size <= MAX_FIRMWARE_SIZE) as Hmax by apply Ht. unfold MAX_FIRMWARE_SIZE in Hmax.
  rewrite u32_small by (unfold fits; lia). set (n := if _ <? _ then _ else _).
  assert (Z.of_nat n <= size - bytes_received m /\ (n <= length data)%nat) as [Hn Hn'].
  { unfold n. destruct (Z.ltb_spec (Z.of_nat (length data)) (size - bytes_received m)); lia. }
  destruct (Nat.eqb_spec n 0) as [E0|E0].
  { split; [done|]. split; [done|]. rewrite Hst. by exists so_far. }
  assert (length (take n data) = n) as Hlt by (rewrite length_take; lia).
  destruct (esp_ota_write _ _ d) as [d1 [|]] eqn:Ew; cbn [negb]; [|by apply inv_error].
  rewrite u32_small by (cbn; unfold fits; lia). cbn [bytes_received with_hasher].
  set (m1 := with_progress (with_hasher m _) (bytes_received m + Z.of_nat n) _).
  assert (receiving m1 d1 (so_far ++ take n data)) as Hrec1.
  { unfold m1, receiving. cbn. split_and!; try done.
    - by apply repr_update.
    - rewrite (write_law _ _ _ _ Ew). cbn. by rewrite Hw.
    - rewrite length_app, Hlt, Hb. lia. }
  change (firmware_size (header m1)) with size.
  destruct (Z.leb_spec size (bytes_received m + Z.of_nat n)).
  - pose proof (finish_inv (with_state m1 OTA_STATE_VERIFYING) d1 (so_far ++ take n data) Hk Hm Hrec1) as Hf.
    destruct (ota_manager_verify_and_finish _ d1) as [[m2 d2] r].
    assert (ota_inv m2 d2) by (apply Hf; rewrite length_app, Hlt; change (header (with_state m1 OTA_STATE_VERIFYING)) with (header m); fold size; lia).
    destruct (negb (r =? 0)); assumption.
  - split; [done|]. split; [done|]. cbn. rewrite Hst. exists (so_far ++ take n data). split; [done|]. cbn. fold size. lia.
Qed.

Lemma write_header_inv m d data :
  keys_ok -> bytes_ok data -> state m = OTA_STATE_RECEIVING_HEADER -> ota_inv m d ->
  let '(m', d', r, n) := ota_manager_write_header verify m d data in ota_inv m' d'.
Proof.
  intros Hkeys Hdata Hst (Hk & Hm & Hi). rewrite Hst in Hi. destruct Hi as (Hl & Hb & Hrc & Hr & Hw).
  unfold ota_manager_write_header. set (n := if (_ <? _)%nat then _ else _). set (buf := header_buf m ++ take n data).
  assert (bytes_ok buf) as Hbuf by (apply Forall_app; split; [done|by apply Forall_take]).
  cbn [header_buf with_header_buf]. destruct (Nat.leb_spec OTA_HEADER_SIZE (length buf)) as [Hf|Hf].
  - destruct (ota_header_from_bytes buf) as [h|] eqn:Eh; [|by apply inv_error].
    destruct (header_size_bounds buf h Hbuf Eh) as (Hsz & Hpl & Hpb).
    pose proof (check_header_trusted (with_header (with_header_buf m buf) h) h Hkeys Hk Hm Hpl Hpb) as [Hc _].
    destruct (check_header verify _ h) as [e|] eqn:Ec; [by apply inv_error|]. specialize (Hc eq_refl).
    set (m1 := with_state (with_header (with_header_buf m buf) h) OTA_STATE_RECEIVING).
    assert (receiving m1 d []) as Hrec by (unfold receiving, m1; cbn; split_and!; (done || lia)).
    destruct (n <? length data)%nat.
    + pose proof (write_firmware_inv m1 d (drop n data) [] Hk Hm eq_refl Hrec) as Hwf.
      destruct (ota_manager_write_firmware m1 d _) as [[[m2 d2] r] k]. apply Hwf. cbn. lia.
    + split; [done|]. split; [done|]. exists []. split; [done|]. cbn. lia.
  - split; [done|]. split; [done|]. cbn. rewrite Hst. done.
Qed.
Lemma begin_inv m d : ota_inv m d -> let '(m', d', r) := ota_manager_begin m d in ota_inv m' d'.
Proof.
  intros Hi. pose proof Hi as (Hk & Hm & _). unfold ota_manager_begin.
  destruct (bool_decide_reflect (state m = OTA_STATE_IDLE)) as [Es|]; cbn [negb]; [|done].
  destruct (esp_ota_get_next_update_partition d) as [p|].
  - destruct (esp_ota_begin p d) as [d1 [h|]] eqn:Eb.
    + destruct (begin_law _ _ _ _ Eb) as [_ Hw]. split; [done|]. split; [done|]. cbn. unfold OTA_HEADER_SIZE. split_and!; first [done|lia|apply repr_new].
    + split; [done|]. split; [done|]. cbn. by rewrite Es.
  - split; [done|]. split; [done|]. cbn. by rewrite Es.
Qed.

Lemma write_inv m d data :
  keys_ok -> bytes_ok data -> ota_inv m d -> let '(m', d', r, n) := ota_manager_write verify m d data in ota_inv m' d'.
Proof.
  intros Hkeys Hd Hi. unfold ota_manager_write. destruct (state m) eqn:Es; try done.
  - by apply write_header_inv.
  - pose proof Hi as (Hk & Hm & Hr). rewrite Es in Hr. destruct Hr as (so_far & Hr & Hle). by apply (write_firmware_inv m d data so_far).
  - pose proof Hi as (_ & _ & Hr). by rewrite Es in Hr.
Qed.
End ota_properties.

(** ** Any sequence of operations *)

(** A manager with its keys and its least version. *)
Definition configured (keys : list (list Z)) (major minor patch : Z) : OtaManager :=
  ota_manager_set_min_version (foldl (fun m k => (ota_manager_add_trusted_key m k).1) ota_manager_new keys) major minor patch.

Lemma configured_eq keys major minor patch :
  configured keys major minor patch
  = mkManager OTA_STATE_IDLE OTA_ERROR_ABORTED [] zero_header false 0 sha256_new 0 (take 2 keys) 0 (pack_version major minor patch).
Proof.
  unfold configured, ota_manager_set_min_version.
  destruct keys as [|k1 [|k2 keys]]; [reflexivity|reflexivity|]. cbn [foldl].
  assert (forall ks m, (2 <= length (trusted_keys m))%nat -> foldl (fun m k => (ota_manager_add_trusted_key m k).1) m ks = m) as Hf.
  { induction ks as [|k ks IH]; intros m Hl; [done|]. cbn [foldl]. unfold ota_manager_add_trusted_key at 2.
    unfold MAX_TRUSTED_KEYS. rewrite (proj2 (Nat.leb_le _ _)) by done. by apply IH. }
  rewrite Hf by (cbn; lia). reflexivity.
Qed.

Section runs.
Context `{EspOtaLaws} (verify : list Z -> list Z -> list Z -> bool).

Inductive operation := Begin | Write (data : list Z) | Abort.

Definition operate (m : OtaManager) (d : Device) (o : operation) : OtaManager * Device :=
  match o with
  | Begin => (ota_manager_begin m d).1
  | Write data => (ota_manager_write verify m d data).1.1
  | Abort => ota_manager_abort m d
  end.

Inductive reached (m0 : OtaManager) : OtaManager -> Device -> Prop :=
  | reached_start d : reached m0 m0 d
  | reached_next m d o :
      reached m0 m d -> match o with Write data => bytes_ok data | _ => True end ->
      reached m0 (operate m d o).1 (operate m d o).2.

(** C15. Only signed firmware is installed. However the update is fed, interrupted, aborted and begun
    again: when the manager says it is complete, the image the device boots next has the
    length and the SHA-256 digest of the header received, and that header names one of the
    (first two) trusted keys, is signed under it, is not below the least version and within
    the size limit. *)
Theorem ota_boots_only_signed (keys : list (list Z)) (major minor patch : Z) (m : OtaManager) (d : Device) :
  Forall (fun k => bytes_ok k /\ length k = 32%nat) keys ->
  reached (configured keys major minor patch) m d -> state m = OTA_STATE_COMPLETE ->
  ota_header_from_bytes (header_buf m) = Some (header m)
  /\ exists img, boots d = Some img
     /\ authentic verify (take 2 keys) (pack_version major minor patch) (header m) img.
Proof.
  intros Hk Hr. assert (ota_inv verify (take 2 keys) (pack_version major minor patch) m d) as Hi.
  { assert (keys_ok (take 2 keys)) as Hk2 by by apply Forall_take.
    rewrite configured_eq in Hr. induction Hr as [d|m d [|data|] _ IH Ho]; [done| | |].
    - pose proof (begin_inv verify (take 2 keys) (pack_version major minor patch) m d IH) as Hb. cbn [operate].
      by destruct (ota_manager_begin m d) as [[m' d'] r].
    - pose proof (write_inv verify (take 2 keys) (pack_version major minor patch) m d data Hk2 Ho IH) as Hb. cbn [operate].
      by destruct (ota_manager_write verify m d data) as [[[m' d'] r] n].
    - destruct IH as (IHk & IHm & _). cbn [operate]. by apply abort_inv. }
  intros Es. destruct Hi as (_ & _ & Hi). by rewrite Es in Hi.
Qed.
End runs.

(** ** An update that goes well *)

(** Every call of the platform succeeds. *)
Class EspOtaReliable `{EspOta} : Prop := {
  next_ok d : exists p, esp_ota_get_next_update_partition d = Some p;
  begin_ok p d : exists h, (esp_ota_begin p d).2 = Some h;
  write_ok h x d : (esp_ota_write h x d).2 = true;
  end_ok h d : (esp_ota_end h d).2 = true;
  boot_ok p d : (esp_ota_set_boot_partition p d).2 = true
}.

Section update.
Context `{EspOtaLaws} `{!EspOtaReliable} (verify : list Z -> list Z -> list Z -> bool) (keys : list (list Z)) (least : Z).
Context (hb fw : list Z) (h : OtaHeader).

(** Pieces written one after the other: the results and the bytes taken. *)
Fixpoint write_all (m : OtaManager) (d : Device) (chunks : list (list Z)) : OtaManager * Device * list Z * nat :=
  match chunks with
  | [] => (m, d, [], 0%nat)
  | c :: chunks =>
      let '(m, d, r, n) := ota_manager_write verify m d c in
      let '(m, d, rs, k) := write_all m d chunks in
      (m, d, r :: rs, (n + k)%nat)
  end.

Record update_ok : Prop := {
  uo_keys : keys_ok keys;
  uo_bytes : bytes_ok hb;
  uo_header : ota_header_from_bytes hb = Some h;
  uo_length : length hb = 144%nat;
  uo_trusted : trusted_header verify keys least h;
  uo_size : Z.of_nat (length fw) = firmware_size h;
  uo_some : fw <> [];
  uo_hash : sha256_hash fw = firmware_hash h
}.

(** The manager and the device when the bytes [s] of the stream have been taken. *)
Definition at_point (m : OtaManager) (d : Device) (s : list Z) : Prop :=
  trusted_keys m = keys /\ min_version m = least /\
  match state m with
  | OTA_STATE_RECEIVING_HEADER =>
      header_buf m = s /\ (length s < 144)%nat /\ bytes_received m = 0 /\ repr (hasher m) [] /\ written d (ota_handle m) = []
  | OTA_STATE_RECEIVING =>
      exists so_far, s = hb ++ so_far /\ header m = h /\ header_valid m = true /\ repr (hasher m) so_far
        /\ written d (ota_handle m) = so_far /\ bytes_received m = Z.of_nat (length so_far) /\ (length so_far < length fw)%nat
  | OTA_STATE_COMPLETE => s = hb ++ fw /\ progress_percent m = 100 /\ boots d = Some fw
  | _ => False
  end.

Lemma finish_at m d :
  update_ok -> trusted_keys m = keys -> min_version m = least -> header m = h -> header_valid m = true ->
  repr (hasher m) fw -> written d (ota_handle m) = fw ->
  let '(m', d', r) := ota_manager_verify_and_finish m d in
  r = 0 /\ state m' = OTA_STATE_COMPLETE /\ at_point m' d' (hb ++ fw).
Proof.
  intros Hu Hk Hm Hh Hv Hr Hw. unfold ota_manager_verify_and_finish. rewrite Hv, Hh. cbn [negb].
  rewrite (repr_finalize _ _ Hr), (bool_decide_eq_true_2 _ (uo_hash Hu)). cbn [negb].
  pose proof (end_ok (ota_handle m) d) as He. destruct (esp_ota_end _ d) as [d1 b] eqn:Ee. cbn [snd] in He. subst b. cbn [negb].
  pose proof (boot_ok (esp_ota_get_next_update_partition d1) d1) as Hb.
  destruct (esp_ota_set_boot_partition _ d1) as [d2 b] eqn:Eb. cbn [snd] in Hb. subst b. cbn [negb].
  split; [done|]. split; [done|]. split; [done|]. split; [done|]. cbn. split; [done|]. split; [done|].
  rewrite (boot_law _ _ _ Eb), (end_law _ _ _ Ee). by rewrite Hw.
Qed.

Lemma write_firmware_at m d so_far data :
  update_ok -> state m = OTA_STATE_RECEIVING -> at_point m d (hb ++ so_far) -> (exists rest, so_far ++ data ++ rest = fw) ->
  let '(m', d', r, n) := ota_manager_write_firmware m d data in
  r = 0 /\ n = length data /\ at_point m' d' (hb ++ so_far ++ data).
Proof.
  intros Hu Hs Hat [rest Hfw]. pose proof Hat as (Hk & Hm & Ha). rewrite Hs in Ha.
  destruct Ha as (sf & Esf & Hh & Hv & Hr & Hw & Hb & Hl). apply app_inv_head in Esf as <-.
  assert (length so_far + length data + length rest = length fw)%nat as Hlen by (rewrite <- Hfw, !length_app; lia).
  pose proof (uo_size Hu) as Hsz. pose proof (uo_trusted Hu) as (_ & _ & _ & Hmax). unfold MAX_FIRMWARE_SIZE in Hmax.
  unfold ota_manager_write_firmware. rewrite Hv, Hh, Hb. cbn [negb]. rewrite u32_small by (unfold fits; lia).
  set (n := if _ <? _ then _ else _). assert (n = length data) as En.
  { unfold n. destruct (Z.ltb_spec (Z.of_nat (length data)) (firmware_size h - Z.of_nat (length so_far))); lia. }
  rewrite En. destruct (Nat.eqb_spec (length data) 0) as [E0|E0].
  { apply nil_length_inv in E0 as ->. rewrite app_nil_r. done. }
  rewrite take_ge by done. set (m1 := with_hasher m (sha256_update (hasher m) data)).
  pose proof (write_ok (ota_handle m1) data d) as Hwo. destruct (esp_ota_write _ data d) as [d1 b] eqn:Ew. cbn [snd] in Hwo. subst b.
  cbn [negb]. change (header m1) with (header m). change (bytes_received m1) with (bytes_received m). rewrite Hb, Hh.
  rewrite u32_small by (unfold fits; lia). set (m2 := with_progress m1 _ _). change (header m2) with (header m). rewrite Hh.
  assert (repr (hasher m2) (so_far ++ data)) as Hr2 by (by apply repr_update).
  assert (written d1 (ota_handle m2) = so_far ++ data) as Hw2 by (rewrite (write_law _ _ _ _ Ew); cbn; by rewrite Hw).
  destruct (Z.leb_spec (firmware_size h) (Z.of_nat (length so_far) + Z.of_nat (length data))).
  - assert (rest = []) as -> by (apply nil_length_inv; lia). rewrite app_nil_r in Hfw.
    pose proof (finish_at (with_state m2 OTA_STATE_VERIFYING) d1 Hu Hk Hm Hh Hv) as Hf. cbn [hasher with_state ota_handle] in Hf.
    rewrite <- Hfw in Hf at 1 2. specialize (Hf Hr2 Hw2).
    destruct (ota_manager_verify_and_finish _ d1) as [[m3 d3] r]. destruct Hf as (-> & _ & Hat3). cbn [negb Z.eqb]. by rewrite Hfw.
  - split; [done|]. split; [done|]. split; [done|]. split; [done|]. cbn. rewrite Hs. exists (so_far ++ data).
    rewrite length_app. split_and!; (done || lia).
Qed.
Lemma write_header_at m d s data :
  update_ok -> state m = OTA_STATE_RECEIVING_HEADER -> at_point m d s -> (exists rest, s ++ data ++ rest = hb ++ fw) ->
  let '(m', d', r, n) := ota_manager_write_header verify m d data in
  r = 0 /\ n = length data /\ at_point m' d' (s ++ data).
Proof.
  intros Hu Hs Hat [rest Hst]. pose proof Hat as (Hk & Hm & Ha). rewrite Hs in Ha. destruct Ha as (Hbuf & Hl & Hb & Hr & Hw).
  pose proof (uo_length Hu) as Hhl. unfold ota_manager_write_header, OTA_HEADER_SIZE. rewrite Hbuf.
  set (n := if (_ <? _)%nat then _ else _). set (buf := s ++ take n data). cbn [header_buf with_header_buf].
  destruct (Nat.ltb_spec (length data) (144 - length s)) as [Hd|Hd]; subst n.
  - subst buf. rewrite take_ge, (proj2 (Nat.leb_gt _ _)) by (rewrite ?length_app; lia).
    split; [done|]. split; [done|]. split; [done|]. split; [done|]. cbn. rewrite Hs, length_app. split_and!; (done || lia).
  - assert (buf = hb) as Ebuf.
    { subst buf. rewrite <- (take_app_length hb fw), <- Hst, Hhl. by rewrite take_app, (take_ge s), take_app_le by lia. }
    rewrite Ebuf, (proj2 (Nat.leb_le _ _)) by lia. rewrite (uo_header Hu).
    destruct (header_size_bounds hb h (uo_bytes Hu) (uo_header Hu)) as (_ & Hpl & Hpb).
    rewrite (proj2 (check_header_trusted verify keys least (with_header (with_header_buf m hb) h) h (uo_keys Hu) Hk Hm Hpl Hpb)
               (uo_trusted Hu)).
    set (m1 := with_state (with_header (with_header_buf m hb) h) OTA_STATE_RECEIVING).
    assert (at_point m1 d (hb ++ [])) as Hat1.
    { split; [done|]. split; [done|]. cbn. exists []. split_and!; try done. cbn. pose proof (uo_some Hu). destruct fw; [done|cbn; lia]. }
    assert (s ++ data = hb ++ drop (144 - length s) data) as Esd by (rewrite <- Ebuf; unfold buf; by rewrite <- app_assoc, take_drop).
    destruct (Nat.ltb_spec (144 - length s) (length data)) as [Hlt|Hge].
    + pose proof (write_firmware_at m1 d [] (drop (144 - length s) data) Hu eq_refl Hat1) as Hf.
      destruct (ota_manager_write_firmware m1 d _) as [[[m2 d2] r] k]. destruct Hf as (-> & -> & Hat2).
      * exists rest. cbn [app]. rewrite app_assoc, Esd, <- app_assoc in Hst. by apply app_inv_head in Hst.
      * rewrite Esd. split; [done|]. split; [rewrite length_drop; lia|exact Hat2].
    + split; [done|]. split; [lia|]. rewrite Esd, drop_ge by lia. exact Hat1.
Qed.

Lemma write_all_at chunks m d s :
  update_ok -> at_point m d s -> s ++ concat chunks = hb ++ fw ->
  let '(m', d', rs, n) := write_all m d chunks in
  Forall (fun r => r = 0) rs /\ n = length (concat chunks) /\ at_point m' d' (hb ++ fw).
Proof.
  intros Hu. revert m d s. induction chunks as [|c chunks IH]; intros m d s Hat Hs.
  { cbn [write_all concat] in *. rewrite app_nil_r in Hs. subst s. done. }
  cbn [write_all concat] in *. assert (let '(m', d', r, n) := ota_manager_write verify m d c in r = 0 /\ n = length c /\ at_point m' d' (s ++ c)) as Hc.
  { unfold ota_manager_write. pose proof Hat as (Hk & Hm & Ha). destruct (state m) eqn:Es; try done.
    - apply write_header_at; [done|done|done|by exists (concat chunks)].
    - destruct Ha as (sf & -> & Ha'). rewrite <- app_assoc. apply write_firmware_at; [done|done|done|].
      exists (concat chunks). rewrite <- app_assoc in Hs. by apply app_inv_head in Hs.
    - destruct Ha as (-> & Ha'). assert (c = []) as ->.
      { destruct c as [|x c]; [done|]. apply (f_equal length) in Hs. rewrite !length_app in Hs. cbn [length] in Hs. lia. }
      by rewrite app_nil_r. }
  destruct (ota_manager_write verify m d c) as [[[m1 d1] r] n]. destruct Hc as (-> & -> & Hat1).
  specialize (IH m1 d1 (s ++ c) Hat1). rewrite <- app_assoc in IH. specialize (IH Hs).
  destruct (write_all m1 d1 chunks) as [[[m2 d2] rs] k]. destruct IH as (Hrs & -> & Hat2).
  split; [by constructor|]. by rewrite length_app.
Qed.
End update.

Lemma update_completes `{EspOtaLaws} `{!EspOtaReliable} verify (keys : list (list Z)) (major minor patch : Z)
    (hb fw : list Z) (h : OtaHeader) (chunks : list (list Z)) (d : Device) :
  update_ok verify (take 2 keys) (pack_version major minor patch) hb fw h -> concat chunks = hb ++ fw ->
  let '(m, d, r) := ota_manager_begin (configured keys major minor patch) d in
  let '(m', d', results, taken) := write_all verify m d chunks in
  r = 0 /\ Forall (fun r => r = 0) results /\ taken = length (hb ++ fw)
  /\ state m' = OTA_STATE_COMPLETE /\ progress_percent m' = 100 /\ boots d' = Some fw.
Proof.
  intros Hu Hc. rewrite configured_eq. unfold ota_manager_begin. cbn [state bool_decide negb].
  rewrite bool_decide_eq_true_2 by done. cbn [negb]. destruct (next_ok d) as [p ->].
  destruct (begin_ok p d) as [hd Eh]. destruct (esp_ota_begin p d) as [d1 o] eqn:Eb. cbn [snd] in Eh. subst o.
  destruct (begin_law _ _ _ _ Eb) as [_ Hw].
  match goal with |- context [write_all _ ?m d1 chunks] => set (m1 := m) end.
  assert (at_point (take 2 keys) (pack_version major minor patch) hb fw h m1 d1 []) as Hat.
  { split; [done|]. split; [done|]. cbn. split_and!; first [done|lia|apply repr_new]. }
  pose proof (write_all_at verify (take 2 keys) (pack_version major minor patch) hb fw h chunks m1 d1 [] Hu Hat Hc) as Hf.
  destruct (write_all verify m1 d1 chunks) as [[[m2 d2] rs] n]. destruct Hf as (Hrs & -> & _ & _ & Ha).
  split; [done|]. split; [done|]. split; [by rewrite Hc|].
  pose proof (uo_some _ _ _ _ _ _ Hu) as Hne. pose proof (uo_length _ _ _ _ _ _ Hu) as Hhl.
  destruct (state m2); try done.
  - destruct Ha as (_ & Hl & _). rewrite length_app in Hl. lia.
  - destruct Ha as (sf & E & _ & _ & _ & _ & _ & Hl). apply app_inv_head in E as <-. lia.
  - by destruct Ha as (_ & Hp & Hbt).
Qed.

(** ** Where the update falls short *)

(** The header with another version. *)
Definition with_version (hb : list Z) (major minor patch : Z) : list Z := take 6 hb ++ [major; minor; patch] ++ drop 9 hb.

Lemma with_version_header hb h major minor patch :
  length hb = 144%nat -> ota_header_from_bytes hb = Some h ->
  exists h', ota_header_from_bytes (with_version hb major minor patch) = Some h'
    /\ fw_major h' = major /\ fw_minor h' = minor /\ fw_patch h' = patch /\ firmware_size h' = firmware_size h
    /\ firmware_hash h' = firmware_hash h /\ signature h' = signature h /\ public_key h' = public_key h.
Proof.
  intros Hl Hp. do 144 (destruct hb as [|? hb]; [done|]). destruct hb; [|done]. clear Hl.
  unfold ota_header_from_bytes in *. cbn [length] in *. unfold with_version. cbn [take drop app length] in *.
  change (144 <? OTA_HEADER_SIZE)%nat with false in *. cbn iota in *.
  destruct (bool_decide _); [|done]. cbn [negb] in *. unfold arr in *. cbn [lookup list_lookup default from_option id] in *.
  destruct (negb _); [done|]. apply (inj Some) in Hp as <-. eexists. split; [reflexivity|]. done.
Qed.

Lemma update_ok_version verify keys least least' hb fw h major minor patch :
  update_ok verify keys least hb fw h -> byte_ok major -> byte_ok minor -> byte_ok patch ->
  least' <= pack_version major minor patch ->
  exists h', update_ok verify keys least' (with_version hb major minor patch) fw h'.
Proof.
  intros [Hk Hb Hh Hl (Hin & Hv & _ & Hmax) Hs Hne Hsha] Ha Hmi Hp Hle.
  destruct (with_version_header hb h major minor patch Hl Hh) as (h' & Hh' & E1 & E2 & E3 & E4 & E5 & E6 & E7).
  exists h'. split; try done.
  - unfold with_version. repeat apply Forall_app_2; [by apply Forall_take| |by apply Forall_drop].
    repeat (apply Forall_cons_2; [done|]). by apply Forall_nil_2.
  - unfold with_version. rewrite !length_app, length_take, length_drop, Hl. done.
  - unfold trusted_header. rewrite E1, E2, E3, E4, E5, E6, E7. split_and!; done.
  - by rewrite E4.
  - by rewrite E5.
Qed.

Lemma pack_version_eq a b c : byte_ok a -> byte_ok b -> byte_ok c -> pack_version a b c = 65536 * a + 256 * b + c.
Proof.
  intros Ha Hb Hc. unfold pack_version. rewrite (Z.lor_comm _ c), (Z.lor_comm (a .<< 16)), Z.lor_assoc.
  rewrite (lor_shiftl_add 8) by done. rewrite (lor_shiftl_add 16) by (unfold fits in *; lia). unfold fits in *. lia.
Qed.

(** ** Properties *)

(** C34. An update that is what it should be is installed: a header signed under a trusted key, new
    enough and small enough, followed by the firmware it announces, in pieces of any sizes,
    on a platform whose calls succeed. Every piece is taken whole and without error; at the
    end the device boots the firmware. *)
Theorem ota_update_completes `{EspOtaLaws} `{!EspOtaReliable} verify (keys : list (list Z)) (major minor patch : Z)
    (hb fw : list Z) (h : OtaHeader) (chunks : list (list Z)) (d : Device) :
  update_ok verify (take 2 keys) (pack_version major minor patch) hb fw h -> concat chunks = hb ++ fw ->
  let '(m, d, r) := ota_manager_begin (configured keys major minor patch) d in
  let '(m', d', results, taken) := write_all verify m d chunks in
  r = 0 /\ Forall (fun r => r = 0) results /\ taken = length (hb ++ fw)
  /\ state m' = OTA_STATE_COMPLETE /\ progress_percent m' = 100 /\ boots d' = Some fw.
Proof. apply update_completes. Qed.

(** The least version does not keep an old firmware out: the version is not under the
    signature. Whoever holds a signed update, of any version, changes three bytes of its
    header and every device that trusts the key installs it, whatever least version it was
    given. *)
Theorem ota_version_not_signed `{EspOtaLaws} `{!EspOtaReliable} verify (keys : list (list Z)) (least major minor patch : Z)
    (hb fw : list Z) (h : OtaHeader) (d : Device) :
  update_ok verify (take 2 keys) least hb fw h -> byte_ok major -> byte_ok minor -> byte_ok patch ->
  let '(m, d, r) := ota_manager_begin (configured keys major minor patch) d in
  let '(m', d', results, taken) := write_all verify m d [with_version hb 255 255 255; fw] in
  state m' = OTA_STATE_COMPLETE /\ boots d' = Some fw.
Proof.
  intros Hu Ha Hb Hc. destruct (update_ok_version _ _ _ (pack_version major minor patch) _ _ _ 255 255 255 Hu) as [h' Hu'];
    [done|done|done|rewrite !pack_version_eq by done; unfold fits in *; lia|].
  pose proof (update_completes verify keys major minor patch _ fw h' [with_version hb 255 255 255; fw] d Hu') as Hf.
  cbn [concat] in Hf. rewrite app_nil_r in Hf. specialize (Hf eq_refl).
  destruct (ota_manager_begin _ d) as [[m1 d1] r]. destruct (write_all verify m1 d1 _) as [[[m2 d2] rs] n]. tauto.
Qed.

(** A header that is not one is refused without an error: the call that completes it gives 0,
    which is success, and so does every call after it, with nothing taken; a new update is
    refused until an abort. *)
Theorem ota_bad_header_silent `{EspOta} verify (m : OtaManager) (d : Device) (data : list Z) :
  state m = OTA_STATE_RECEIVING_HEADER -> (length (header_buf m) <= 144 <= length (header_buf m) + length data)%nat ->
  ota_header_from_bytes (take 144 (header_buf m ++ data)) = None ->
  let '(m', d', r, n) := ota_manager_write verify m d data in
  r = 0 /\ n = 0%nat /\ d' = d /\ state m' = OTA_STATE_ERROR /\ error m' = OTA_ERROR_INVALID_HEADER
  /\ (forall more, ota_manager_write verify m' d more = (m', d, 0, 0%nat))
  /\ ota_manager_begin m' d = (m', d, failure OTA_ERROR_BUSY).
Proof.
  intros Hs Hl Hh. unfold ota_manager_write at 1. rewrite Hs. unfold ota_manager_write_header, OTA_HEADER_SIZE.
  set (n := if (_ <? _)%nat then _ else _). assert (n = 144 - length (header_buf m))%nat as En.
  { subst n. destruct (Nat.ltb_spec (length data) (144 - length (header_buf m))); lia. }
  cbn [header_buf with_header_buf]. assert (header_buf m ++ take n data = take 144 (header_buf m ++ data)) as ->.
  { rewrite take_app, (take_ge (header_buf m)) by lia. by rewrite En. }
  rewrite length_take, length_app, (proj2 (Nat.leb_le _ _)), Hh by lia. done.
Qed.

(** The text of a number. *)
Definition decimal (l : list Z) : Z := foldl (fun n c => 10 * n + (c - 48)) 0 l.
Definition decimal_text (l : list Z) : Prop :=
  l <> [] /\ Forall (fun c => 48 <= c <= 57) l /\ (List.hd_error l = Some 48 -> l = [48]).

Lemma write_u8_decimal v :
  byte_ok v -> decimal (write_u8_to_buf v) = v /\ decimal_text (write_u8_to_buf v) /\ (length (write_u8_to_buf v) <= 3)%nat.
Proof.
  intros Hv. pose proof (range_check 256 (fun v => let t := write_u8_to_buf v in
    (decimal t =? v) && (0 <? length t)%nat && (length t <=? 3)%nat && forallb (fun c => (48 <=? c) && (c <=? 57)) t
    && ((length t =? 1)%nat || negb (List.hd 0 t =? 48))) eq_refl v Hv) as Hc. cbn zeta in Hc.
  rewrite !andb_true_iff, Z.eqb_eq, Nat.ltb_lt, Nat.leb_le, forallb_forall, orb_true_iff, Nat.eqb_eq, negb_true_iff, Z.eqb_neq in Hc.
  destruct Hc as ((((Hd & Hl) & Hl3) & Hf) & Hz). split; [done|]. split; [|done]. clear Hd Hl3.
  set (t := write_u8_to_buf v) in *. clearbody t. split_and!.
  - destruct t; [cbn in Hl; lia|done].
  - apply Forall_forall. intros c Hc%list_elem_of_In. apply Hf in Hc. rewrite andb_true_iff, !Z.leb_le in Hc. done.
  - destruct t as [|c [|c' l]]; cbn in *; [done|naive_solver|]. intros [= ->]. by destruct Hz.
Qed.

(** The version as text: the three numbers in decimal, without leading zeros, with dots
    between them, and at least one NUL within the twelve bytes. *)
Theorem version_string_reads_back (h : OtaHeader) :
  byte_ok (fw_major h) -> byte_ok (fw_minor h) -> byte_ok (fw_patch h) ->
  exists a b c n, ota_header_version_string h = a ++ [46] ++ b ++ [46] ++ c ++ replicate (S n) 0
  /\ length (ota_header_version_string h) = 12%nat
  /\ decimal_text a /\ decimal_text b /\ decimal_text c
  /\ decimal a = fw_major h /\ decimal b = fw_minor h /\ decimal c = fw_patch h.
Proof.
  intros Ha Hb Hc. destruct (write_u8_decimal _ Ha) as (Da & Ta & La), (write_u8_decimal _ Hb) as (Db & Tb & Lb),
    (write_u8_decimal _ Hc) as (Dc & Tc & Lc).
  exists (write_u8_to_buf (fw_major h)), (write_u8_to_buf (fw_minor h)), (write_u8_to_buf (fw_patch h)).
  unfold ota_header_version_string. cbn zeta.
  set (a := write_u8_to_buf (fw_major h)) in *. set (b := write_u8_to_buf (fw_minor h)) in *. set (c := write_u8_to_buf (fw_patch h)) in *.
  exists (9 - (length a + length b + length c))%nat. split.
  - assert ((12 - length (a ++ [46%Z] ++ b ++ [46%Z] ++ c))%nat = S (9 - (length a + length b + length c))) as ->
      by (rewrite !length_app; cbn [length]; lia).
    by rewrite <- !app_assoc.
  - split; [|done]. rewrite length_app, length_replicate, !length_app. cbn [length]. lia.
Qed.

(** ** Witnesses *)

Module Sample.
(** A device: what was written since the last begin, the closed image, the one to boot. *)
#[export] Instance flash : EspOta := {
  Device := list Z * option (list Z) * option (list Z);
  Partition := unit;
  esp_ota_get_next_update_partition _ := Some tt;
  esp_ota_begin _ d := (([], d.1.2, d.2), Some 1);
  esp_ota_write _ x d := ((d.1.1 ++ x, d.1.2, d.2), true);
  esp_ota_end _ d := ((d.1.1, Some d.1.1, d.2), true);
  esp_ota_set_boot_partition _ d := ((d.1.1, d.1.2, d.1.2), true);
  esp_ota_abort _ d := d;
  esp_ota_mark_app_valid_cancel_rollback d := (d, true);
  esp_ota_mark_app_invalid_rollback_and_reboot d := (d, true)
}.

#[export, refine] Instance flash_laws : EspOtaLaws := {
  written d _ := d.1.1;
  image d := d.1.2;
  boots d := d.2
}.
Proof. all: intros; simplify_eq/=; done. Defined.

#[export] Instance flash_reliable : EspOtaReliable.
Proof. split; cbn; eauto. Qed.

Definition verify (public_key hash signature : list Z) : bool := bool_decide (signature = public_key ++ hash).
Definition key : list Z := [1; 2; 3; 4; 5; 6; 7; 8; 9; 10; 11; 12; 13; 14; 15; 16; 17; 18; 19; 20; 21; 22; 23; 24; 25; 26; 27; 28; 29; 30; 31; 32].
Definition firmware : list Z := [1; 2; 3; 4; 5].
Definition hash : list Z :=
  [116; 248; 31; 225; 103; 217; 155; 76; 180; 29; 109; 12; 205; 168; 34; 120; 202; 238; 159; 62; 47; 37; 213; 229; 163; 147; 111; 243; 220; 236; 96; 208].
Definition header_bytes : list Z :=
  OTA_HEADER_MAGIC ++ [1; 144; 1; 2; 3; 0; 0; 0; 5; 0; 0; 0] ++ hash ++ (key ++ hash) ++ key.
Definition sample_header : OtaHeader :=
  mkHeader OTA_HEADER_MAGIC 1 144 1 2 3 [0; 0; 0] 5 hash (key ++ hash) key.

Lemma sample_update : update_ok verify [key] (pack_version 1 2 0) header_bytes firmware sample_header.
Proof.
  split.
  - apply Forall_cons_2; [|by apply Forall_nil_2]. split; [|reflexivity]. apply (bool_decide_unpack _). vm_compute. exact I.
  - apply (bool_decide_unpack _). vm_compute. exact I.
  - reflexivity.
  - reflexivity.
  - split; [apply list_elem_of_singleton; reflexivity|]. split; [reflexivity|]. split; [vm_compute; discriminate|vm_compute; discriminate].
  - reflexivity.
  - discriminate.
  - vm_compute. reflexivity.
Qed.
End Sample.

Import Sample.

Definition blank : Device := ([], None, None).

Definition begun : OtaManager * Device := operate verify (configured [key] 1 2 0) blank Begin.
Definition checked : OtaManager * Device := operate verify begun.1 begun.2 (Write header_bytes).
Definition sample_run : OtaManager * Device := operate verify checked.1 checked.2 (Write firmware).

Lemma ota_boots_only_signed_witness :
  exists img, boots sample_run.2 = Some img
    /\ authentic verify [key] (pack_version 1 2 0) (header sample_run.1) img.
Proof.
  apply (ota_boots_only_signed verify [key] 1 2 0 sample_run.1 sample_run.2).
  - apply Forall_cons_2; [|by apply Forall_nil_2]. split; [|reflexivity]. apply (bool_decide_unpack _). vm_compute. exact I.
  - apply (reached_next verify _ checked.1 checked.2 (Write firmware)); [|apply (bool_decide_unpack _); vm_compute; exact I].
    apply (reached_next verify _ begun.1 begun.2 (Write header_bytes)); [|apply (bool_decide_unpack _); vm_compute; exact I].
    apply (reached_next verify _ _ _ Begin); [|exact I]. apply reached_start.
  - vm_compute. reflexivity.
Defined.

Lemma ota_update_completes_witness :
  let '(m, d, r) := ota_manager_begin (configured [key] 1 2 0) blank in
  let '(m', d', results, taken) := write_all verify m d [take 100 header_bytes; drop 100 header_bytes ++ [1; 2]; []; [3; 4; 5]] in
  r = 0 /\ Forall (fun r => r = 0) results /\ taken = 149%nat
  /\ state m' = OTA_STATE_COMPLETE /\ progress_percent m' = 100 /\ boots d' = Some firmware.
Proof.
  apply (ota_update_completes verify [key] 1 2 0 header_bytes firmware sample_header
           [take 100 header_bytes; drop 100 header_bytes ++ [1; 2]; []; [3; 4; 5]] blank);
    [exact sample_update|reflexivity].
Defined.

Lemma ota_version_not_signed_witness :
  let '(m, d, r) := ota_manager_begin (configured [key] 9 0 0) blank in
  let '(m', d', results, taken) := write_all verify m d [with_version header_bytes 255 255 255; firmware] in
  state m' = OTA_STATE_COMPLETE /\ boots d' = Some firmware.
Proof.
  apply (ota_version_not_signed verify [key] (pack_version 1 2 0) 9 0 0 header_bytes firmware sample_header blank);
    [exact sample_update|split; lia|split; lia|split; lia].
Defined.

Lemma ota_bad_header_silent_witness :
  let m := (ota_manager_begin (configured [key] 1 2 0) blank).1.1 in
  let '(m', d', r, n) := ota_manager_write verify m blank (replicate 144 0) in
  r = 0 /\ n = 0%nat /\ state m' = OTA_STATE_ERROR.
Proof.
  pose proof (ota_bad_header_silent verify (ota_manager_begin (configured [key] 1 2 0) blank).1.1 blank
    (replicate 144 0) ltac:(reflexivity) ltac:(apply (bool_decide_unpack _); vm_compute; exact I) ltac:(reflexivity)) as Hw. cbn zeta.
  destruct (ota_manager_write verify _ _ _) as [[[m' d'] r] n]. tauto.
Defined.

Lemma version_string_reads_back_witness :
  exists a b c n, ota_header_version_string sample_header = a ++ [46] ++ b ++ [46] ++ c ++ replicate (S n) 0
  /\ decimal a = 1 /\ decimal b = 2 /\ decimal c = 3.
Proof.
  destruct (version_string_reads_back sample_header) as (a & b & c & n & E & _ & _ & _ & _ & Ea & Eb & Ec);
    [apply (bool_decide_unpack _); vm_compute; exact I..|].
  exists a, b, c, n. done.
Defined.
