(* ===== verification/Sha512.v ===== *)
(** * SHA-512: the end of lunarcore/lunar/crypto/ed25519.c

    The hash of Ed25519, with the buffer loop and the padding of [Blocks]. *)
From Stdlib Require Import Btauto.
From S2P Require Import Prelude Blocks Fips180.

(** ** Constants *)

Definition K512 : list Z :=
  concat
    [[0x428a2f98d728ae22; 0x7137449123ef65cd; 0xb5c0fbcfec4d3b2f; 0xe9b5dba58189dbbc];
     [0x3956c25bf348b538; 0x59f111f1b605d019; 0x923f82a4af194f9b; 0xab1c5ed5da6d8118];
     [0xd807aa98a3030242; 0x12835b0145706fbe; 0x243185be4ee4b28c; 0x550c7dc3d5ffb4e2];
     [0x72be5d74f27b896f; 0x80deb1fe3b1696b1; 0x9bdc06a725c71235; 0xc19bf174cf692694];
     [0xe49b69c19ef14ad2; 0xefbe4786384f25e3; 0x0fc19dc68b8cd5b5; 0x240ca1cc77ac9c65];
     [0x2de92c6f592b0275; 0x4a7484aa6ea6e483; 0x5cb0a9dcbd41fbd4; 0x76f988da831153b5];
     [0x983e5152ee66dfab; 0xa831c66d2db43210; 0xb00327c898fb213f; 0xbf597fc7beef0ee4];
     [0xc6e00bf33da88fc2; 0xd5a79147930aa725; 0x06ca6351e003826f; 0x142929670a0e6e70];
     [0x27b70a8546d22ffc; 0x2e1b21385c26c926; 0x4d2c6dfc5ac42aed; 0x53380d139d95b3df];
     [0x650a73548baf63de; 0x766a0abb3c77b2a8; 0x81c2c92e47edaee6; 0x92722c851482353b];
     [0xa2bfe8a14cf10364; 0xa81a664bbc423001; 0xc24b8b70d0f89791; 0xc76c51a30654be30];
     [0xd192e819d6ef5218; 0xd69906245565a910; 0xf40e35855771202a; 0x106aa07032bbd1b8];
     [0x19a4c116b8d2d0c8; 0x1e376c085141ab53; 0x2748774cdf8eeb99; 0x34b0bcb5e19b48a8];
     [0x391c0cb3c5c95a63; 0x4ed8aa4ae3418acb; 0x5b9cca4f7763e373; 0x682e6ff3d6b2b8a3];
     [0x748f82ee5defb2fc; 0x78a5636f43172f60; 0x84c87814a1f0ab72; 0x8cc702081a6439ec];
     [0x90befffa23631e28; 0xa4506cebde82bde9; 0xbef9a3f7b2c67915; 0xc67178f2e372532b];
     [0xca273eceea26619c; 0xd186b8c721c0c207; 0xeada7dd6cde0eb1e; 0xf57d4f7fee6ed178];
     [0x06f067aa72176fba; 0x0a637dc5a2c898a6; 0x113f9804bef90dae; 0x1b710b35131c471b];
     [0x28db77f523047d84; 0x32caab7b40c72493; 0x3c9ebe0a15c9bebc; 0x431d67c49c100d4c];
     [0x4cc5d4becb3e42b6; 0x597f299cfc657e2a; 0x5fcb6fab3ad6faec; 0x6c44198c4a475817]].

Definition H512_INIT : list Z :=
  [0x6a09e667f3bcc908; 0xbb67ae8584caa73b; 0x3c6ef372fe94f82b; 0xa54ff53a5f1d36f1;
   0x510e527fade682d1; 0x9b05688c2b3e6c1f; 0x1f83d9abfb41bd6b; 0x5be0cd19137e2179].

(** [__uint128_t]. *)
Definition u128 (x : Z) : Z := x mod 0x100000000000000000000000000000000.

(** ** State: [f_buffer] is [buffer[0 .. buffer_len)] *)

Record Sha512 := mkSha512 {
  f_state : list Z;        (* uint64_t state[8] *)
  f_total_len : Z;         (* __uint128_t *)
  f_buffer : list Z        (* buffer, buffer_len *)
}.

Definition rotr64 (x n : Z) : Z := u64 ((x .>> n) .| (x .<< (64 - n))).

Definition u64_from_be_bytes (b : list Z) : Z :=
  (b.[0] .<< 56) .| (b.[1] .<< 48) .| (b.[2] .<< 40) .| (b.[3] .<< 32)
  .| (b.[4] .<< 24) .| (b.[5] .<< 16) .| (b.[6] .<< 8) .| b.[7].

Definition u64_be_bytes (v : Z) : list Z :=
  [u8 (v .>> 56); u8 (v .>> 48); u8 (v .>> 40); u8 (v .>> 32);
   u8 (v .>> 24); u8 (v .>> 16); u8 (v .>> 8); u8 v].

Definition u128_to_be_bytes (v : Z) : list Z := (fun i => u8 (v .>> (120 - i * 8))) <$> range 16.

(** ** The block function *)

Definition schedule512_step (w : list Z) : list Z :=
  let i := length w in
  let w15 := w.[(i - 15)%nat] in
  let w2 := w.[(i - 2)%nat] in
  let s0 := rotr64 w15 1 .^ rotr64 w15 8 .^ (w15 .>> 7) in
  let s1 := rotr64 w2 19 .^ rotr64 w2 61 .^ (w2 .>> 6) in
  w ++ [u64 (w.[(i - 16)%nat] + s0 + w.[(i - 7)%nat] + s1)].

Definition schedule512 (block : list Z) : list Z :=
  Nat.iter 64 schedule512_step ((fun i => u64_from_be_bytes (slice block (i * 8) 8)) <$> seq 0 16).

Definition round512 (v : Z * Z * Z * Z * Z * Z * Z * Z) (kw : Z * Z) : Z * Z * Z * Z * Z * Z * Z * Z :=
  let '(a, b, c, d, e, f, g, h) := v in
  let s1 := rotr64 e 14 .^ rotr64 e 18 .^ rotr64 e 41 in
  let ch := (e .& f) .^ (u64 (Z.lnot e) .& g) in
  let temp1 := u64 (h + s1 + ch + kw.1 + kw.2) in
  let s0 := rotr64 a 28 .^ rotr64 a 34 .^ rotr64 a 39 in
  let maj := (a .& b) .^ (a .& c) .^ (b .& c) in
  let temp2 := u64 (s0 + maj) in
  (u64 (temp1 + temp2), a, b, c, u64 (d + temp1), e, f, g).

Definition sha512_process_block (state block : list Z) : list Z :=
  let w := schedule512 block in
  let '(a, b, c, d, e, f, g, h) :=
    foldl round512 (state.[0], state.[1], state.[2], state.[3],
                    state.[4], state.[5], state.[6], state.[7]) (zip K512 w) in
  [u64 (state.[0] + a); u64 (state.[1] + b); u64 (state.[2] + c); u64 (state.[3] + d);
   u64 (state.[4] + e); u64 (state.[5] + f); u64 (state.[6] + g); u64 (state.[7] + h)].

(** ** Streaming interface *)

Definition sha512_init : Sha512 := mkSha512 H512_INIT 0 [].

Definition sha512_update (self : Sha512) (data : list Z) : Sha512 :=
  let total := u128 (f_total_len self + Z.of_nat (length data)) in
  let loop := process_blocks 128 sha512_process_block (length data) in
  let needed := (128 - length (f_buffer self))%nat in
  if (0 <? length (f_buffer self))%nat then
    if (needed <=? length data)%nat then
      let state := sha512_process_block (f_state self) (f_buffer self ++ take needed data) in
      let '(state, rest) := loop state (drop needed data) in
      mkSha512 state total rest
    else mkSha512 (f_state self) total (f_buffer self ++ data)
  else
    let '(state, rest) := loop (f_state self) data in
    mkSha512 state total rest.

Definition sha512_finalize (self : Sha512) : Sha512 * list Z :=
  let total_bits := u128 (f_total_len self * 8) in
  let buffer := f_buffer self ++ [0x80] in
  let '(state, buffer) :=
    if (112 <? length buffer)%nat
    then (sha512_process_block (f_state self)
            (buffer ++ replicate (128 - length buffer) 0), [])
    else (f_state self, buffer) in
  let state :=
    sha512_process_block state
      (buffer ++ replicate (112 - length buffer) 0 ++ u128_to_be_bytes total_bits) in
  (mkSha512 state (f_total_len self) buffer, concat (u64_be_bytes <$> state)).

Definition sha512 (data : list Z) : list Z :=
  snd (sha512_finalize (sha512_update sha512_init data)).

(** ** The digest of a whole message, block by block *)

(** The message, 0x80, zeros up to 112 mod 128, the bit length as 128 bits. *)
Definition pad512 (msg : list Z) : list Z :=
  md_pad 128 16 msg (be_bytes 16 (u128 (Z.of_nat (length msg) * 8))).

Definition sha512_blocks (msg : list Z) : list Z :=
  concat (be_bytes 8 <$>
    compress 128 sha512_process_block (length (pad512 msg) / 128) H512_INIT (pad512 msg)).

Example sha512_abc :
  sha512 [97; 98; 99] =
  be_bytes 64 0xddaf35a193617abacc417349ae20413112e6fa4e89a97ea20a9eeee64b55d39a2192992a274fc1a836ba3c23a3feebbd454d4423643ce80e2a9ac94fa54ca49f.
Proof. vm_compute. reflexivity. Qed.

(** 112 letters a: the padding takes a second block. *)
Example sha512_two_blocks :
  sha512 (replicate 112 97) =
  be_bytes 64 0xc01d080efd492776a1c43bd23dd99d0a2e626d481e16782e75d54c2503b5dc32bd05f0f1ba33e568b88fd2d970929b719ecbb152f58f130a407c8830604b70ca.
Proof. vm_compute. reflexivity. Qed.

(** ** Refinement: the object represents the bytes fed to it *)

Local Abbreviation absorb512 := (absorb 128 sha512_process_block).

Lemma sha512_update_absorb s d :
  (length (f_buffer s) < 128)%nat ->
  sha512_update s d
  = let '(state, rest) := absorb512 (f_state s) (f_buffer s ++ d) in
    mkSha512 state (u128 (f_total_len s + Z.of_nat (length d))) rest.
Proof.
  intros Hb. rewrite <- buffered_update_absorb by (done || lia).
  unfold sha512_update, buffered_update.
  destruct (0 <? length (f_buffer s))%nat; [|done].
  by destruct (128 - length (f_buffer s) <=? length d)%nat.
Qed.

Record repr512 (s : Sha512) (msg : list Z) : Prop := mk_repr512 {
  repr512_blocks : absorb512 H512_INIT msg = (f_state s, f_buffer s);
  repr512_total : f_total_len s = u128 (Z.of_nat (length msg))
}.

Lemma repr512_update s msg d : repr512 s msg -> repr512 (sha512_update s d) (msg ++ d).
Proof.
  intros [Habs Htot].
  assert (length (f_buffer s) < 128)%nat as Hb.
  { pose proof (length_absorb_rest 128 sha512_process_block ltac:(lia) H512_INIT msg) as Hl.
    rewrite Habs in Hl. cbn [snd] in Hl. rewrite Hl. apply Nat.mod_upper_bound. lia. }
  rewrite sha512_update_absorb by done.
  destruct (absorb512 (f_state s) (f_buffer s ++ d)) as [state rest] eqn:E.
  split; cbn [f_state f_buffer f_total_len].
  - rewrite absorb_app by lia. by rewrite Habs.
  - rewrite Htot, length_app, Nat2Z.inj_add. unfold u128. by rewrite Zplus_mod_idemp_l.
Qed.

Lemma u64_be_bytes_eq v : u64_be_bytes v = be_bytes 8 v.
Proof. unfold be_bytes, u64_be_bytes. norm_le_bytes. done. Qed.

Lemma concat_words512 ws : concat (u64_be_bytes <$> ws) = concat (be_bytes 8 <$> ws).
Proof. f_equal. apply list_fmap_ext. intros i x _. apply u64_be_bytes_eq. Qed.

Lemma u128_to_be_bytes_eq v : u128_to_be_bytes v = be_bytes 16 v.
Proof.
  unfold be_bytes, u128_to_be_bytes. change (range 16) with [0; 1; 2; 3; 4; 5; 6; 7; 8; 9; 10; 11; 12; 13; 14; 15].
  cbn [fmap list_fmap le_bytes]. rewrite !Z.shiftr_div_pow2, !Z.div_div by lia.
  change (2 ^ (120 - 15 * 8)) with 1. by rewrite Z.div_1_r.
Qed.

#[local] Opaque sha512_process_block.

Lemma repr512_finalize_blocks s msg : repr512 s msg -> (sha512_finalize s).2 = sha512_blocks msg.
Proof.
  intros [Habs Htot]. set (tail := be_bytes 16 (u128 (Z.of_nat (length msg) * 8))).
  assert (u128 (f_total_len s * 8) = u128 (Z.of_nat (length msg) * 8)) as E.
  { rewrite Htot. unfold u128. by rewrite Zmult_mod_idemp_l. }
  transitivity (concat (be_bytes 8 <$>
    (md_finish 128 sha512_process_block 16 (f_state s) (f_buffer s) tail).1)).
  - unfold sha512_finalize, md_finish. rewrite E, u128_to_be_bytes_eq. fold tail.
    change (128 - 16)%nat with 112%nat.
    destruct (if (_ <? _)%nat then _ else _). cbn [fst snd].
    rewrite concat_words512. reflexivity.
  - rewrite (md_finish_spec 128 sha512_process_block ltac:(lia) 16 H512_INIT msg); [reflexivity|lia| |done].
    apply length_be_bytes.
Qed.

#[local] Transparent sha512_process_block.

Lemma length_sha512_process_block state block : length (sha512_process_block state block) = 8%nat.
Proof. unfold sha512_process_block. by destruct (foldl _ _ _) as [[[[[[[? ?] ?] ?] ?] ?] ?] ?]. Qed.

Lemma sha512_finalize_shape s : length (sha512_finalize s).2 = 64%nat /\ bytes_ok (sha512_finalize s).2.
Proof.
  unfold sha512_finalize. destruct (if (_ <? _)%nat then _ else _) as [state buffer]. cbn [snd].
  set (ws := sha512_process_block _ _). assert (length ws = 8%nat) as Hl by apply length_sha512_process_block.
  clearbody ws. do 9 (destruct ws as [|? ws]; try discriminate Hl). split; [done|].
  cbn [fmap list_fmap concat app u64_be_bytes]. solve_bytes.
Qed.

Lemma repr512_updates s m pieces :
  repr512 s m -> repr512 (foldl sha512_update s pieces) (m ++ concat pieces).
Proof.
  revert s m. induction pieces as [|d l IH]; intros s m Hr; simpl; [by rewrite app_nil_r|].
  rewrite app_assoc. by apply IH, repr512_update.
Qed.

Lemma sha512_hash_blocks msg : sha512 msg = sha512_blocks msg.
Proof. apply (repr512_finalize_blocks _ ([] ++ msg)), repr512_update. by split. Qed.

Lemma repr512_finalize s msg : repr512 s msg -> (sha512_finalize s).2 = sha512 msg.
Proof. rewrite sha512_hash_blocks. apply repr512_finalize_blocks. Qed.

(** ** The block function is that of FIPS 180-4 *)

Lemma K512_constants : sha2_K 64 80 = K512.
Proof. apply root_constants; [done|done|vm_compute; reflexivity|reflexivity]. Qed.

Lemma H512_INIT_constants : sha2_H0 64 = H512_INIT.
Proof. apply root_constants; [done|done|vm_compute; reflexivity|reflexivity]. Qed.

Lemma H512_INIT_words : Forall (fits 64) (sha2_H0 64) /\ length (sha2_H0 64) = 8%nat.
Proof. rewrite H512_INIT_constants. split; [|done]. apply (bool_decide_unpack _). vm_compute. exact I. Qed.

Lemma be_val_8 b : length b = 8%nat -> bytes_ok b -> u64_from_be_bytes b = be_val b.
Proof.
  intros Hl Hb. do 9 (destruct b as [|? b]; try discriminate Hl). rewrite !Forall_cons in Hb. destruct_and! Hb.
  transitivity (le_val [z6; z5; z4; z3; z2; z1; z0; z]); [|done].
  rewrite <- le64_eq by (rewrite !Forall_cons; done). unfold u64_from_be_bytes.
  apply Z.bits_inj'. intros i _. rewrite !Z.lor_spec. unfold arr. cbn [lookup list_lookup default from_option id].
  btauto.
Qed.

Lemma schedule512_step_shape : schedule512_step = c_schedule_step 64 (1, 8, 7) (19, 61, 6).
Proof. reflexivity. Qed.

Lemma round512_shape : round512 = c_round 64 (28, 34, 39) (14, 18, 41).
Proof. reflexivity. Qed.

Lemma process_block512_shape H b :
  length b = 128%nat -> bytes_ok b ->
  sha512_process_block H b
  = c_block 64 80 (28, 34, 39) (14, 18, 41) (1, 8, 7) (19, 61, 6) K512 H
      ((fun t => be_val (slice b (t * 8) 8)) <$> seq 0 16).
Proof.
  intros Hl Hb.
  assert ((fun t => be_val (slice b (t * 8) 8)) <$> seq 0 16
          = (fun t => u64_from_be_bytes (slice b (t * 8) 8)) <$> seq 0 16) as ->.
  { apply list_fmap_ext. intros k t [-> Ht]%lookup_seq. symmetry.
    apply be_val_8; [apply length_slice; lia|by apply slice_ok]. }
  unfold sha512_process_block, schedule512, c_block. rewrite round512_shape, schedule512_step_shape.
  change (80 - 16)%nat with 64%nat. by destruct (foldl _ _ _) as [[[[[[[? ?] ?] ?] ?] ?] ?] ?].
Qed.

Lemma pad512_fips msg : pad512 msg = sha2_pad 64 msg.
Proof.
  unfold pad512, md_pad, sha2_pad. cbn zeta.
  assert (Z.to_nat ((14 * 64 - (8 * Z.of_nat (length msg) + 1)) mod (16 * 64) / 8)
          = (2 * 128 - 16 - (length msg + 1) mod 128) mod 128)%nat as -> by div_lia.
  do 3 f_equal. change (2 * word_bytes 64)%nat with 16%nat.
  rewrite <- (be_bytes_mod 16 (8 * _)). f_equal. unfold u128. f_equal. lia.
Qed.

Lemma sha512_fips msg : bytes_ok msg -> sha512 msg = fips_sha512 msg.
Proof.
  intros Hm. destruct H512_INIT_words as [Hw Hl].
  pose proof (sha2_digest 64 80 (28, 34, 39) (14, 18, 41) (1, 8, 7) (19, 61, 6) K512 eq_refl
    ltac:(by_amounts) ltac:(by_amounts) ltac:(by_amounts) ltac:(by_amounts) (eq_sym K512_constants) eq_refl
    ltac:(lia) eq_refl sha512_process_block process_block512_shape msg Hm Hw Hl) as E.
  unfold fips_sha512. rewrite <- E, sha512_hash_blocks. unfold sha512_blocks.
  by rewrite pad512_fips, H512_INIT_constants.
Qed.

Lemma sha512_shape msg : length (sha512 msg) = 64%nat /\ bytes_ok (sha512 msg).
Proof. apply sha512_finalize_shape. Qed.

(** ** Properties *)

(** The digest is that of FIPS 180-4 for the concatenation of the pieces, wherever they
    are cut. *)
Theorem sha512_streaming (pieces : list (list Z)) :
  Forall bytes_ok pieces ->
  let digest := (sha512_finalize (foldl sha512_update sha512_init pieces)).2 in
  digest = fips_sha512 (concat pieces) /\ digest = sha512 (concat pieces)
  /\ length digest = 64%nat /\ bytes_ok digest.
Proof.
  intros Hp digest. assert (digest = sha512 (concat pieces)) as E.
  { apply repr512_finalize, (repr512_updates _ []). by split. }
  pose proof (sha512_finalize_shape (foldl sha512_update sha512_init pieces)) as Hl.
  split; [|exact (conj E Hl)]. rewrite E. apply sha512_fips. by apply Forall_concat.
Qed.

Lemma sha512_streaming_witness :
  let digest := (sha512_finalize (foldl sha512_update sha512_init [range 120; range 5; []; range 130])).2 in
  digest = fips_sha512 (range 120 ++ range 5 ++ range 130).
Proof.
  assert (Forall bytes_ok [range 120; range 5; []; range 130]) as Hp
    by (apply (bool_decide_unpack _); vm_compute; exact I).
  exact (proj1 (sha512_streaming [range 120; range 5; []; range 130] Hp)).
Defined.
