(* ===== verification/Fe25519.v ===== *)
(** * Arithmetic modulo 2^255 - 19: lunarcore/lunar/crypto/x25519.c, ed25519.c

    Both files have the same field arithmetic: ten signed limbs of 26 and 25 bits in turn, in
    int64_t, products in __int128. Every result that is stored wraps at its width
    ([s64], [s128]); the lemmas show that within the bounds of use nothing does. *)
From S2P Require Import Prelude.
From Stdlib Require Import Setoid Morphisms.

(** Conversion to [int64_t] and [__int128]. *)
Definition s64 (x : Z) : Z := (x + 2 ^ 63) mod 2 ^ 64 - 2 ^ 63.
Definition s128 (x : Z) : Z := (x + 2 ^ 127) mod 2 ^ 128 - 2 ^ 127.

(** ** Field elements: ten limbs *)

Abbreviation Fe := (list Z).

Definition fe_zero : Fe := replicate 10 0.
Definition fe_one : Fe := [1; 0; 0; 0; 0; 0; 0; 0; 0; 0].

Definition load_4 (s : list Z) : Z := s.[0] .| (s.[1] .<< 8) .| (s.[2] .<< 16) .| (s.[3] .<< 24).
Definition load_3 (s : list Z) : Z := s.[0] .| (s.[1] .<< 8) .| (s.[2] .<< 16).

(** The nine low limbs, the same in both files. *)
Definition low_limbs (bytes : list Z) : list Z :=
  [load_4 (drop 0 bytes) .& 0x3ffffff;
   (load_4 (drop 3 bytes) .>> 2) .& 0x1ffffff;
   (load_4 (drop 6 bytes) .>> 3) .& 0x3ffffff;
   (load_4 (drop 9 bytes) .>> 5) .& 0x1ffffff;
   (load_4 (drop 12 bytes) .>> 6) .& 0x3ffffff;
   load_4 (drop 16 bytes) .& 0x1ffffff;
   (load_4 (drop 19 bytes) .>> 1) .& 0x3ffffff;
   (load_4 (drop 22 bytes) .>> 3) .& 0x1ffffff;
   (load_4 (drop 25 bytes) .>> 4) .& 0x3ffffff].

(** x25519.c takes the last limb from three bytes, *)
Definition fe_from_bytes (bytes : list Z) : Fe :=
  low_limbs bytes ++ [(load_3 (drop 28 bytes) .>> 6) .& 0x1ffffff].
(** ed25519.c from four. *)
Definition ed_fe_from_bytes (bytes : list Z) : Fe :=
  low_limbs bytes ++ [(load_4 (drop 28 bytes) .>> 6) .& 0x1ffffff].

Definition fe_add (a b : Fe) : Fe := zip_with (fun x y => s64 (x + y)) a b.
Definition fe_sub (a b : Fe) : Fe := zip_with (fun x y => s64 (x - y)) a b.
Definition fe_neg (a : Fe) : Fe := (fun x => s64 (- x)) <$> a.

(** *** Multiplication *)

Definition carry_mul (h : list Z) : Fe :=
  let carry := s128 (h.[0] + (1 .<< 25)) .>> 26 in
  let out0 := s64 (h.[0] - (carry .<< 26)) in
  let h1 := s128 (h.[1] + carry) in
  let carry := s128 (h1 + (1 .<< 24)) .>> 25 in
  let out1 := s64 (h1 - (carry .<< 25)) in
  let h2 := s128 (h.[2] + carry) in
  let carry := s128 (h2 + (1 .<< 25)) .>> 26 in
  let out2 := s64 (h2 - (carry .<< 26)) in
  let h3 := s128 (h.[3] + carry) in
  let carry := s128 (h3 + (1 .<< 24)) .>> 25 in
  let out3 := s64 (h3 - (carry .<< 25)) in
  let h4 := s128 (h.[4] + carry) in
  let carry := s128 (h4 + (1 .<< 25)) .>> 26 in
  let out4 := s64 (h4 - (carry .<< 26)) in
  let h5 := s128 (h.[5] + carry) in
  let carry := s128 (h5 + (1 .<< 24)) .>> 25 in
  let out5 := s64 (h5 - (carry .<< 25)) in
  let h6 := s128 (h.[6] + carry) in
  let carry := s128 (h6 + (1 .<< 25)) .>> 26 in
  let out6 := s64 (h6 - (carry .<< 26)) in
  let h7 := s128 (h.[7] + carry) in
  let carry := s128 (h7 + (1 .<< 24)) .>> 25 in
  let out7 := s64 (h7 - (carry .<< 25)) in
  let h8 := s128 (h.[8] + carry) in
  let carry := s128 (h8 + (1 .<< 25)) .>> 26 in
  let out8 := s64 (h8 - (carry .<< 26)) in
  let h9 := s128 (h.[9] + carry) in
  let carry := s128 (h9 + (1 .<< 24)) .>> 25 in
  let out9 := s64 (h9 - (carry .<< 25)) in
  let out0 := s64 (out0 + s64 (carry * 19)) in
  let carry := s128 (out0 + (1 .<< 25)) .>> 26 in
  let out0 := s64 (out0 - s64 (carry .<< 26)) in
  let out1 := s64 (out1 + s64 carry) in
  [out0; out1; out2; out3; out4; out5; out6; out7; out8; out9].

(** The ten sums of products. *)
Definition fe_products (f g : Fe) : list Z :=
  let f0 := f.[0] in  let f1 := f.[1] in  let f2 := f.[2] in  let f3 := f.[3] in  let f4 := f.[4] in
  let f5 := f.[5] in  let f6 := f.[6] in  let f7 := f.[7] in  let f8 := f.[8] in  let f9 := f.[9] in
  let g0 := g.[0] in  let g1 := g.[1] in  let g2 := g.[2] in  let g3 := g.[3] in  let g4 := g.[4] in
  let g5 := g.[5] in  let g6 := g.[6] in  let g7 := g.[7] in  let g8 := g.[8] in  let g9 := g.[9] in
  let g1_19 := 19 * g1 in  let g2_19 := 19 * g2 in  let g3_19 := 19 * g3 in
  let g4_19 := 19 * g4 in  let g5_19 := 19 * g5 in  let g6_19 := 19 * g6 in
  let g7_19 := 19 * g7 in  let g8_19 := 19 * g8 in  let g9_19 := 19 * g9 in
  let f1_2 := 2 * f1 in  let f3_2 := 2 * f3 in  let f5_2 := 2 * f5 in
  let f7_2 := 2 * f7 in  let f9_2 := 2 * f9 in
  [s128 (f0 * g0 + f1_2 * g9_19 + f2 * g8_19 + f3_2 * g7_19 + f4 * g6_19
         + f5_2 * g5_19 + f6 * g4_19 + f7_2 * g3_19 + f8 * g2_19 + f9_2 * g1_19);
   s128 (f0 * g1 + f1 * g0 + f2 * g9_19 + f3 * g8_19 + f4 * g7_19
         + f5 * g6_19 + f6 * g5_19 + f7 * g4_19 + f8 * g3_19 + f9 * g2_19);
   s128 (f0 * g2 + f1_2 * g1 + f2 * g0 + f3_2 * g9_19 + f4 * g8_19
         + f5_2 * g7_19 + f6 * g6_19 + f7_2 * g5_19 + f8 * g4_19 + f9_2 * g3_19);
   s128 (f0 * g3 + f1 * g2 + f2 * g1 + f3 * g0 + f4 * g9_19
         + f5 * g8_19 + f6 * g7_19 + f7 * g6_19 + f8 * g5_19 + f9 * g4_19);
   s128 (f0 * g4 + f1_2 * g3 + f2 * g2 + f3_2 * g1 + f4 * g0
         + f5_2 * g9_19 + f6 * g8_19 + f7_2 * g7_19 + f8 * g6_19 + f9_2 * g5_19);
   s128 (f0 * g5 + f1 * g4 + f2 * g3 + f3 * g2 + f4 * g1
         + f5 * g0 + f6 * g9_19 + f7 * g8_19 + f8 * g7_19 + f9 * g6_19);
   s128 (f0 * g6 + f1_2 * g5 + f2 * g4 + f3_2 * g3 + f4 * g2
         + f5_2 * g1 + f6 * g0 + f7_2 * g9_19 + f8 * g8_19 + f9_2 * g7_19);
   s128 (f0 * g7 + f1 * g6 + f2 * g5 + f3 * g4 + f4 * g3
         + f5 * g2 + f6 * g1 + f7 * g0 + f8 * g9_19 + f9 * g8_19);
   s128 (f0 * g8 + f1_2 * g7 + f2 * g6 + f3_2 * g5 + f4 * g4
         + f5_2 * g3 + f6 * g2 + f7_2 * g1 + f8 * g0 + f9_2 * g9_19);
   s128 (f0 * g9 + f1 * g8 + f2 * g7 + f3 * g6 + f4 * g5
         + f5 * g4 + f6 * g3 + f7 * g2 + f8 * g1 + f9 * g0)].

Definition fe_mul (a b : Fe) : Fe := carry_mul (fe_products a b).
Definition fe_square (a : Fe) : Fe := fe_mul a a.
Definition fe_mul121666 (a : Fe) : Fe := carry_mul ((fun x => s128 (x * 121666)) <$> a).

(** [fe_square] so many times. *)
Definition squares (n : nat) (a : Fe) : Fe := Nat.iter n fe_square a.

Definition fe_invert (a : Fe) : Fe :=
  let t0 := fe_square a in
  let t1 := fe_square t0 in
  let t1 := fe_square t1 in
  let t1 := fe_mul a t1 in
  let t0 := fe_mul t0 t1 in
  let t2 := fe_square t0 in
  let t1 := fe_mul t1 t2 in
  let t2 := fe_square t1 in
  let t2 := squares 4 t2 in
  let t1 := fe_mul t2 t1 in
  let t2 := fe_square t1 in
  let t2 := squares 9 t2 in
  let t2 := fe_mul t2 t1 in
  let t3 := fe_square t2 in
  let t3 := squares 19 t3 in
  let t2 := fe_mul t3 t2 in
  let t2 := fe_square t2 in
  let t2 := squares 9 t2 in
  let t1 := fe_mul t2 t1 in
  let t2 := fe_square t1 in
  let t2 := squares 49 t2 in
  let t2 := fe_mul t2 t1 in
  let t3 := fe_square t2 in
  let t3 := squares 99 t3 in
  let t2 := fe_mul t3 t2 in
  let t2 := fe_square t2 in
  let t2 := squares 49 t2 in
  let t1 := fe_mul t2 t1 in
  let t1 := fe_square t1 in
  let t1 := fe_square t1 in
  let t1 := fe_square t1 in
  let t1 := fe_square t1 in
  let t1 := fe_square t1 in
  fe_mul t0 t1.

(** [a] and [b] after the call. *)
Definition fe_cswap (a b : Fe) (swap : Z) : Fe * Fe :=
  let swap_mask := s64 (- swap) in
  let xs := zip_with (fun x y => swap_mask .& (x .^ y)) a b in
  (zip_with Z.lxor a xs, zip_with Z.lxor b xs).

(** *** Serialization *)

Definition to_bytes_q (h : list Z) : Z :=
  let q := s64 (19 * h.[9] + (1 .<< 24)) .>> 25 in
  let q := s64 (h.[0] + q) .>> 26 in
  let q := s64 (h.[1] + q) .>> 25 in
  let q := s64 (h.[2] + q) .>> 26 in
  let q := s64 (h.[3] + q) .>> 25 in
  let q := s64 (h.[4] + q) .>> 26 in
  let q := s64 (h.[5] + q) .>> 25 in
  let q := s64 (h.[6] + q) .>> 26 in
  let q := s64 (h.[7] + q) .>> 25 in
  let q := s64 (h.[8] + q) .>> 26 in
  let q := s64 (h.[9] + q) .>> 25 in
  q.

Definition fe_reduce (fe : Fe) : list Z :=
  let q := to_bytes_q fe in
  let h0 := s64 (fe.[0] + 19 * q) in
  let carry := h0 .>> 26 in let h1 := s64 (fe.[1] + carry) in let h0 := s64 (h0 - (carry .<< 26)) in
  let carry := h1 .>> 25 in let h2 := s64 (fe.[2] + carry) in let h1 := s64 (h1 - (carry .<< 25)) in
  let carry := h2 .>> 26 in let h3 := s64 (fe.[3] + carry) in let h2 := s64 (h2 - (carry .<< 26)) in
  let carry := h3 .>> 25 in let h4 := s64 (fe.[4] + carry) in let h3 := s64 (h3 - (carry .<< 25)) in
  let carry := h4 .>> 26 in let h5 := s64 (fe.[5] + carry) in let h4 := s64 (h4 - (carry .<< 26)) in
  let carry := h5 .>> 25 in let h6 := s64 (fe.[6] + carry) in let h5 := s64 (h5 - (carry .<< 25)) in
  let carry := h6 .>> 26 in let h7 := s64 (fe.[7] + carry) in let h6 := s64 (h6 - (carry .<< 26)) in
  let carry := h7 .>> 25 in let h8 := s64 (fe.[8] + carry) in let h7 := s64 (h7 - (carry .<< 25)) in
  let carry := h8 .>> 26 in let h9 := s64 (fe.[9] + carry) in let h8 := s64 (h8 - (carry .<< 26)) in
  let carry := h9 .>> 25 in let h9 := s64 (h9 - (carry .<< 25)) in
  [h0; h1; h2; h3; h4; h5; h6; h7; h8; h9].

Definition fe_to_bytes (fe : Fe) : list Z :=
  let h := fe_reduce fe in
  [u8 h.[0]; u8 (h.[0] .>> 8);
   u8 (h.[0] .>> 16); u8 ((h.[0] .>> 24) .| (h.[1] .<< 2));
   u8 (h.[1] .>> 6); u8 (h.[1] .>> 14);
   u8 ((h.[1] .>> 22) .| (h.[2] .<< 3)); u8 (h.[2] .>> 5);
   u8 (h.[2] .>> 13); u8 ((h.[2] .>> 21) .| (h.[3] .<< 5));
   u8 (h.[3] .>> 3); u8 (h.[3] .>> 11);
   u8 ((h.[3] .>> 19) .| (h.[4] .<< 6)); u8 (h.[4] .>> 2);
   u8 (h.[4] .>> 10); u8 (h.[4] .>> 18);
   u8 h.[5]; u8 (h.[5] .>> 8);
   u8 (h.[5] .>> 16); u8 ((h.[5] .>> 24) .| (h.[6] .<< 1));
   u8 (h.[6] .>> 7); u8 (h.[6] .>> 15);
   u8 ((h.[6] .>> 23) .| (h.[7] .<< 3)); u8 (h.[7] .>> 5);
   u8 (h.[7] .>> 13); u8 ((h.[7] .>> 21) .| (h.[8] .<< 4));
   u8 (h.[8] .>> 4); u8 (h.[8] .>> 12);
   u8 ((h.[8] .>> 20) .| (h.[9] .<< 6)); u8 (h.[9] .>> 2);
   u8 (h.[9] .>> 10); u8 (h.[9] .>> 18)].

(** ** Values and congruence *)

(** The field prime. *)
Definition P25519 : Z := 2 ^ 255 - 19.

(** Congruence modulo the prime. *)
Definition eqp (a b : Z) : Prop := a mod P25519 = b mod P25519.
Infix "≡p" := eqp (at level 70, no associativity) : cint_scope.

#[global] Instance eqp_equiv : Equivalence eqp.
Proof.
  split; unfold eqp; [by intros ?|by intros ??|]. intros x y z H1 H2. by rewrite H1.
Qed.
#[global] Instance eqp_add : Proper (eqp ==> eqp ==> eqp) Z.add.
Proof. intros a b H c d H'. unfold eqp in *. rewrite (Z.add_mod a) by done; rewrite H, H'. by rewrite <- Z.add_mod. Qed.
#[global] Instance eqp_sub : Proper (eqp ==> eqp ==> eqp) Z.sub.
Proof. intros a b H c d H'. unfold eqp in *. rewrite (Zminus_mod a), H, H'. by rewrite <- Zminus_mod. Qed.
#[global] Instance eqp_mul : Proper (eqp ==> eqp ==> eqp) Z.mul.
Proof. intros a b H c d H'. unfold eqp in *. rewrite (Z.mul_mod a) by done; rewrite H, H'. by rewrite <- Z.mul_mod. Qed.
#[global] Instance eqp_opp : Proper (eqp ==> eqp) Z.opp.
Proof. intros a b H. change (0 - a ≡p 0 - b). by rewrite H. Qed.
Lemma eqp_mod a : a mod P25519 ≡p a.
Proof. unfold eqp. by rewrite Z.mod_mod. Qed.
Lemma eqp_intro a b q : a = b + P25519 * q -> a ≡p b.
Proof. intros ->. unfold eqp. by rewrite Z.mul_comm, Z.mod_add. Qed.
Lemma eqp_pow a b n : 0 <= n -> a ≡p b -> a ^ n ≡p b ^ n.
Proof.
  intros Hn H. revert n Hn. apply natlike_ind; [done|]. intros n Hn IH.
  rewrite !Z.pow_succ_r by done. exact (eqp_mul _ _ H _ _ IH).
Qed.

(** What ten limbs stand for. *)
Definition fe_val (f : list Z) : Z :=
  f.[0] + 2 ^ 26 * f.[1] + 2 ^ 51 * f.[2] + 2 ^ 77 * f.[3] + 2 ^ 102 * f.[4]
  + 2 ^ 128 * f.[5] + 2 ^ 153 * f.[6] + 2 ^ 179 * f.[7] + 2 ^ 204 * f.[8] + 2 ^ 230 * f.[9].

(** [bnd e o f]: ten limbs, the even ones within [e], the odd ones within [o]. *)
Definition bnd (e o : Z) (f : list Z) : Prop :=
  match f with
  | [f0; f1; f2; f3; f4; f5; f6; f7; f8; f9] =>
      (- e <= f0 <= e /\ - o <= f1 <= o /\ - e <= f2 <= e /\ - o <= f3 <= o /\ - e <= f4 <= e)
      /\ (- o <= f5 <= o /\ - e <= f6 <= e /\ - o <= f7 <= o /\ - e <= f8 <= e /\ - o <= f9 <= o)
  | _ => False
  end.

(** After a carry; after an addition of two such; what [fe_mul] takes. *)
Abbreviation tight := (bnd (2 ^ 25) (2 ^ 24 + 2 ^ 18)).
Abbreviation loose := (bnd (2 ^ 28) (2 ^ 27)).

Ltac fe_destruct f :=
  destruct f as [|?f0 [|?f1 [|?f2 [|?f3 [|?f4 [|?f5 [|?f6 [|?f7 [|?f8 [|?f9 [|? ?]]]]]]]]]]];
  try (cbn [bnd] in *; contradiction).

(** [lia] on goals about the limbs of explicit lists. *)
Ltac limb_lia := cbn [bnd] in *; cbv [fe_val arr lookup list_lookup default id] in *; lia.

Lemma bnd_mono e o e' o' f : bnd e o f -> e <= e' -> o <= o' -> bnd e' o' f.
Proof. intros H ??. fe_destruct f. cbn [bnd] in *. lia. Qed.

Lemma s64_id x : - 2 ^ 63 <= x < 2 ^ 63 -> s64 x = x.
Proof. intros. unfold s64. rewrite Z.mod_small; lia. Qed.
Lemma s128_id x : - 2 ^ 127 <= x < 2 ^ 127 -> s128 x = x.
Proof. intros. unfold s128. rewrite Z.mod_small; lia. Qed.

(** ** Addition and subtraction *)

Lemma fe_add_ok f g : loose f -> loose g ->
  fe_val (fe_add f g) = fe_val f + fe_val g.
Proof.
  intros Hf Hg. fe_destruct f. fe_destruct g. cbn [bnd] in *. cbn [fe_add zip_with].
  rewrite !s64_id by lia. limb_lia.
Qed.

Lemma fe_sub_ok f g : loose f -> loose g ->
  fe_val (fe_sub f g) = fe_val f - fe_val g.
Proof.
  intros Hf Hg. fe_destruct f. fe_destruct g. cbn [bnd] in *. cbn [fe_sub zip_with].
  rewrite !s64_id by lia. limb_lia.
Qed.

Lemma fe_add_bnd e o e' o' f g : bnd e o f -> bnd e' o' g ->
  e + e' <= 2 ^ 28 -> o + o' <= 2 ^ 27 -> bnd (e + e') (o + o') (fe_add f g).
Proof.
  intros Hf Hg ??. fe_destruct f. fe_destruct g. cbn [bnd] in *. cbn [fe_add zip_with].
  rewrite !s64_id by lia. limb_lia.
Qed.

Lemma fe_sub_bnd e o e' o' f g : bnd e o f -> bnd e' o' g ->
  e + e' <= 2 ^ 28 -> o + o' <= 2 ^ 27 -> bnd (e + e') (o + o') (fe_sub f g).
Proof.
  intros Hf Hg ??. fe_destruct f. fe_destruct g. cbn [bnd] in *. cbn [fe_sub zip_with].
  rewrite !s64_id by lia. limb_lia.
Qed.

(** ** The carry chain *)

(** One link: the carry out of a limb of [n] bits, rounded to nearest. *)
Lemma carry_link n x : (n = 25 \/ n = 26) -> - 2 ^ 100 <= x < 2 ^ 100 ->
  exists c, s128 (x + (1 .<< (n - 1))) .>> n = c
    /\ s64 (x - (c .<< n)) = x - 2 ^ n * c
    /\ - 2 ^ (n - 1) <= x - 2 ^ n * c < 2 ^ (n - 1).
Proof.
  intros Hn Hx. eexists. split; [done|].
  rewrite Z.shiftl_1_l, s128_id, Z.shiftr_div_pow2, Z.shiftl_mul_pow2 by (destruct Hn; subst; lia).
  assert (- 2 ^ (n - 1) <= x - 2 ^ n * ((x + 2 ^ (n - 1)) / 2 ^ n) < 2 ^ (n - 1)) as Hr
    by (destruct Hn; subst n; simpl Z.pow; div_lia).
  split; [|done]. rewrite s64_id; [lia|]. destruct Hn; subst n; lia.
Qed.

Lemma carry_link26 x : - 2 ^ 100 <= x < 2 ^ 100 ->
  exists c, s128 (x + (1 .<< 25)) .>> 26 = c
    /\ s64 (x - (c .<< 26)) = x - 2 ^ 26 * c /\ - 2 ^ 25 <= x - 2 ^ 26 * c < 2 ^ 25.
Proof. apply (carry_link 26). by right. Qed.
Lemma carry_link25 x : - 2 ^ 100 <= x < 2 ^ 100 ->
  exists c, s128 (x + (1 .<< 24)) .>> 25 = c
    /\ s64 (x - (c .<< 25)) = x - 2 ^ 25 * c /\ - 2 ^ 24 <= x - 2 ^ 25 * c < 2 ^ 24.
Proof. apply (carry_link 25). by left. Qed.

(** The next link of the chain whose limb is [x]. *)
Ltac link L x :=
  let c := fresh "c" in let E := fresh in let F := fresh in let B := fresh in
  destruct (L x) as (c & E & F & B); [lia|]; rewrite ?E, ?F; clear E F.

Lemma carry_mul_ok h : bnd (2 ^ 64) (2 ^ 64) h ->
  tight (carry_mul h) /\ fe_val (carry_mul h) ≡p fe_val h.
Proof.
  intros Hh. fe_destruct h. cbn [bnd] in Hh. unfold carry_mul. cbn zeta.
  cbv [arr lookup list_lookup default id].
  link carry_link26 f0. rewrite (s128_id (f1 + c)) by lia.
  link carry_link25 (f1 + c). rewrite (s128_id (f2 + c0)) by lia.
  link carry_link26 (f2 + c0). rewrite (s128_id (f3 + c1)) by lia.
  link carry_link25 (f3 + c1). rewrite (s128_id (f4 + c2)) by lia.
  link carry_link26 (f4 + c2). rewrite (s128_id (f5 + c3)) by lia.
  link carry_link25 (f5 + c3). rewrite (s128_id (f6 + c4)) by lia.
  link carry_link26 (f6 + c4). rewrite (s128_id (f7 + c5)) by lia.
  link carry_link25 (f7 + c5). rewrite (s128_id (f8 + c6)) by lia.
  link carry_link26 (f8 + c6). rewrite (s128_id (f9 + c7)) by lia.
  link carry_link25 (f9 + c7).
  rewrite (s64_id (c8 * 19)), (s64_id (_ + c8 * 19)) by lia.
  link carry_link26 (f0 - 2 ^ 26 * c + c8 * 19).
  rewrite !(s64_id c9), (s64_id (c9 .<< 26)), Z.shiftl_mul_pow2 by (rewrite ?Z.shiftl_mul_pow2; lia).
  rewrite !s64_id by lia. split; [cbn [bnd]; lia|].
  apply (eqp_intro _ _ (- c8)). unfold P25519. limb_lia.
Qed.

(** ** Multiplication *)

Lemma abs_add a b A B : Z.abs a <= A -> Z.abs b <= B -> Z.abs (a + b) <= A + B.
Proof. lia. Qed.
Lemma abs_mul a b A B : Z.abs a <= A -> Z.abs b <= B -> Z.abs (a * b) <= A * B.
Proof. intros. rewrite Z.abs_mul. apply Z.mul_le_mono_nonneg; lia. Qed.
Lemma abs_of x B : - B <= x -> x <= B -> Z.abs x <= B.
Proof. lia. Qed.

(** Bound a polynomial in limbs whose bounds are hypotheses. *)
Ltac poly_abs :=
  lazymatch goal with
  | |- Z.abs (_ + _) <= _ => apply abs_add; poly_abs
  | |- Z.abs (_ * _) <= _ => apply abs_mul; poly_abs
  | |- Z.abs (Zpos _) <= _ => apply Z.le_refl
  | |- _ => eassumption
  end.
Ltac poly_bound := eapply Z.le_trans; [poly_abs | apply Z.leb_le; reflexivity].

(** The quotient: the products whose weight is 2^255 and more. *)
Definition fe_quot (f g : list Z) : Z :=
  (2 * f.[1] * g.[9] + f.[2] * g.[8] + 2 * f.[3] * g.[7] + f.[4] * g.[6] + 2 * f.[5] * g.[5]
   + f.[6] * g.[4] + 2 * f.[7] * g.[3] + f.[8] * g.[2] + 2 * f.[9] * g.[1])
  + 2 ^ 26 * (f.[2] * g.[9] + f.[3] * g.[8] + f.[4] * g.[7] + f.[5] * g.[6] + f.[6] * g.[5]
              + f.[7] * g.[4] + f.[8] * g.[3] + f.[9] * g.[2])
  + 2 ^ 51 * (2 * f.[3] * g.[9] + f.[4] * g.[8] + 2 * f.[5] * g.[7] + f.[6] * g.[6]
              + 2 * f.[7] * g.[5] + f.[8] * g.[4] + 2 * f.[9] * g.[3])
  + 2 ^ 77 * (f.[4] * g.[9] + f.[5] * g.[8] + f.[6] * g.[7] + f.[7] * g.[6] + f.[8] * g.[5]
              + f.[9] * g.[4])
  + 2 ^ 102 * (2 * f.[5] * g.[9] + f.[6] * g.[8] + 2 * f.[7] * g.[7] + f.[8] * g.[6]
               + 2 * f.[9] * g.[5])
  + 2 ^ 128 * (f.[6] * g.[9] + f.[7] * g.[8] + f.[8] * g.[7] + f.[9] * g.[6])
  + 2 ^ 153 * (2 * f.[7] * g.[9] + f.[8] * g.[8] + 2 * f.[9] * g.[7])
  + 2 ^ 179 * (f.[8] * g.[9] + f.[9] * g.[8]) + 2 ^ 204 * (2 * f.[9] * g.[9]).

Lemma fe_products_ok f g : loose f -> loose g ->
  bnd (2 ^ 64) (2 ^ 64) (fe_products f g) /\ fe_val (fe_products f g) ≡p fe_val f * fe_val g.
Proof.
  intros Hf Hg. fe_destruct f. fe_destruct g. cbn [bnd] in Hf, Hg. destruct_and!.
  repeat match goal with H : - ?B <= ?x, H' : ?x <= ?B |- _ => pose proof (abs_of _ _ H H'); clear H H' end.
  unfold fe_products. cbn zeta. cbv [arr lookup list_lookup default id].
  repeat match goal with |- context [s128 ?x] =>
    let E := fresh "E" in assert (Z.abs x <= 2 ^ 64) as E by poly_bound;
    rewrite (s128_id x) by (clear - E; lia); remember x eqn:?
  end.
  split; [cbn [bnd]; rewrite <- !Z.abs_le; tauto|]. subst.
  match goal with |- _ ≡p fe_val ?f * fe_val ?g => apply (eqp_intro _ _ (- fe_quot f g)) end.
  unfold P25519. cbv [fe_val fe_quot arr lookup list_lookup default id]. ring.
Qed.

Lemma fe_mul_ok f g : loose f -> loose g ->
  tight (fe_mul f g) /\ fe_val (fe_mul f g) ≡p fe_val f * fe_val g.
Proof.
  intros Hf Hg. unfold fe_mul. destruct (fe_products_ok f g Hf Hg) as [Hb Hv].
  destruct (carry_mul_ok _ Hb) as [Ht Hc]. split; [done|]. by rewrite Hc.
Qed.

Lemma tight_loose f : tight f -> loose f.
Proof. intros. by eapply bnd_mono. Qed.

Lemma fe_mul_loose f g : loose f -> loose g -> loose (fe_mul f g).
Proof. intros. by apply tight_loose, fe_mul_ok. Qed.
Lemma fe_mul_val f g : loose f -> loose g -> fe_val (fe_mul f g) ≡p fe_val f * fe_val g.
Proof. intros. by apply fe_mul_ok. Qed.

Lemma fe_mul121666_ok f : loose f ->
  tight (fe_mul121666 f) /\ fe_val (fe_mul121666 f) ≡p 121666 * fe_val f.
Proof.
  intros Hf. unfold fe_mul121666. fe_destruct f. cbn [bnd] in Hf. cbn [fmap list_fmap].
  rewrite !s128_id by lia.
  match goal with |- context [carry_mul ?h] => destruct (carry_mul_ok h) as [Ht Hc] end;
    [cbn [bnd]; lia|].
  split; [done|]. rewrite Hc. apply (eqp_intro _ _ 0). limb_lia.
Qed.

#[local] Opaque carry_mul fe_mul fe_mul121666.

(** ** Exponentiation: [fe_invert] is the power p - 2 *)

(** [f] is the [e]th power of [x]. *)
Definition power_of (x : Z) (f : list Z) (e : Z) : Prop :=
  loose f /\ 0 <= e /\ fe_val f ≡p x ^ e.

Lemma power_mul x f g a b : power_of x f a -> power_of x g b -> power_of x (fe_mul f g) (a + b).
Proof.
  intros (Hf & Ha & Hx) (Hg & Hb & Hy). split; [by apply fe_mul_loose|]. split; [lia|].
  rewrite fe_mul_val, Z.pow_add_r by done. by rewrite Hx, Hy.
Qed.
Lemma power_square x f a : power_of x f a -> power_of x (fe_square f) (a + a).
Proof. intros H. exact (power_mul x f f a a H H). Qed.
Lemma power_squares x n f a : power_of x f a -> power_of x (squares n f) (a * 2 ^ Z.of_nat n).
Proof.
  intros H. induction n as [|n IH]; [simpl; by rewrite Z.mul_1_r|].
  rewrite Nat2Z.inj_succ, Z.pow_succ_r by lia.
  replace (a * (2 * _)) with (a * 2 ^ Z.of_nat n + a * 2 ^ Z.of_nat n) by ring.
  apply (power_square _ _ _ IH).
Qed.
Lemma power_let x f e (k : list Z -> list Z) e' :
  power_of x f e -> (forall t, power_of x t e -> power_of x (k t) e') ->
  power_of x (let t := f in k t) e'.
Proof. intros H Hk. by apply Hk. Qed.

Lemma power_eq x f a b : power_of x f a -> a = b -> power_of x f b.
Proof. by intros H <-. Qed.

(** One assignment, its exponent evaluated. *)
Ltac power_norm := match goal with |- ?a = _ => let v := eval vm_compute in a in exact (@eq_refl Z v) end.
Ltac power_step :=
  lazymatch goal with
  | |- power_of _ (fe_mul _ _) _ => eapply power_eq; [eapply power_mul; eassumption|power_norm]
  | |- power_of _ (squares _ _) _ => eapply power_eq; [eapply power_squares; eassumption|power_norm]
  | |- power_of _ (fe_square _) _ => eapply power_eq; [eapply power_square; eassumption|power_norm]
  end.
Ltac power_bind :=
  lazymatch goal with
  | |- power_of ?x (let t := ?f in @?k t) ?e =>
      refine (power_let x f _ k e _ _); [power_step|intros ? ?; cbv beta]
  end.

Lemma fe_invert_power f : loose f -> power_of (fe_val f) (fe_invert f) (P25519 - 2).
Proof.
  intros Hf. assert (power_of (fe_val f) f 1) as H1 by (by unfold power_of; rewrite Z.pow_1_r).
  cbv beta delta [fe_invert]. repeat power_bind. power_step.
Qed.

Lemma fe_invert_ok f : loose f ->
  loose (fe_invert f) /\ fe_val (fe_invert f) ≡p fe_val f ^ (P25519 - 2).
Proof. intros Hf. destruct (fe_invert_power f Hf) as (Hl & _ & Hv). done. Qed.

(** ** The conditional swap *)

Lemma lxor_cancel x y : x .^ (x .^ y) = y.
Proof. by rewrite <- Z.lxor_assoc, Z.lxor_nilpotent, Z.lxor_0_l. Qed.

Lemma fe_cswap_ok a b (swap : bool) : length a = length b ->
  fe_cswap a b (Z.b2z swap) = if swap then (b, a) else (a, b).
Proof.
  intros Hl. apply Forall2_same_length in Hl. unfold fe_cswap.
  destruct swap; [change (s64 (- Z.b2z true)) with (-1)|change (s64 (- Z.b2z false)) with 0]; f_equal;
    induction Hl as [|x y a b _ _ IH]; [done| |done| |done| |done|]; cbn [zip_with]; rewrite IH; f_equal;
    rewrite ?Z.land_m1_l, ?Z.land_0_l, ?Z.lxor_0_r, ?lxor_cancel; [done| |done..].
  by rewrite (Z.lxor_comm x y), lxor_cancel.
Qed.

(** ** Serialization *)

(** Floors nest: the carry of the carries is the quotient of the whole value. *)
Lemma s64_shiftr n x : 0 <= n -> - 2 ^ 63 <= x < 2 ^ 63 -> s64 x .>> n = x / 2 ^ n.
Proof. intros. by rewrite s64_id, Z.shiftr_div_pow2. Qed.

(** The limb [x] of [n] bits and what is left above it. *)
Lemma floor_link n x : 0 <= n -> exists c, x / 2 ^ n = c /\ 0 <= x - 2 ^ n * c < 2 ^ n.
Proof.
  intros Hn. eexists. split; [done|]. assert (0 < 2 ^ n) by lia.
  pose proof (Z.mod_pos_bound x (2 ^ n)). rewrite Z.mod_eq in * by lia. lia.
Qed.

Ltac floor_links :=
  repeat match goal with
  | |- context [s64 ?x .>> ?n] =>
      lazymatch x with
      | context [s64 _] => fail
      | _ => rewrite (s64_shiftr n x) by lia;
             let c := fresh "c" in let E := fresh in let B := fresh in
             destruct (floor_link n x) as (c & E & B); [lia|]; rewrite E; clear E
      end
  end.

Lemma to_bytes_q_ok f : loose f -> to_bytes_q f = fe_val f / P25519.
Proof.
  intros Hf. fe_destruct f. cbn [bnd] in Hf. unfold to_bytes_q.
  pose proof (Z.div_mod (fe_val [f0; f1; f2; f3; f4; f5; f6; f7; f8; f9]) P25519 ltac:(done)) as Hv.
  pose proof (Z.mod_pos_bound (fe_val [f0; f1; f2; f3; f4; f5; f6; f7; f8; f9]) P25519 ltac:(done)) as Hr.
  remember (_ / P25519) as q eqn:Eq. remember (_ mod P25519) as r eqn:Er. clear Eq Er. unfold P25519 in *.
  cbv [fe_val arr lookup list_lookup default id] in *. change (1 .<< 24) with (2 ^ 24).
  floor_links. lia.
Qed.

(** Ten digits of 26 and 25 bits. *)
Definition digits (h : list Z) : Prop :=
  match h with
  | [h0; h1; h2; h3; h4; h5; h6; h7; h8; h9] =>
      (fits 26 h0 /\ fits 25 h1 /\ fits 26 h2 /\ fits 25 h3 /\ fits 26 h4)
      /\ (fits 25 h5 /\ fits 26 h6 /\ fits 25 h7 /\ fits 26 h8 /\ fits 25 h9)
  | _ => False
  end.

(** A limb minus its carry. *)
Lemma digit_link n x : n = 25 \/ n = 26 -> - 2 ^ 40 <= x < 2 ^ 40 ->
  exists c, x .>> n = c /\ s64 (x - (c .<< n)) = x - 2 ^ n * c /\ 0 <= x - 2 ^ n * c < 2 ^ n.
Proof.
  intros Hn Hx. destruct (floor_link n x) as (c & E & B); [lia|]. exists c.
  rewrite Z.shiftr_div_pow2, Z.shiftl_mul_pow2 by lia. split; [done|].
  rewrite s64_id by (destruct Hn; subst n; lia). split; [ring|done].
Qed.

Ltac digit n x :=
  let c := fresh "c" in let E := fresh in let F := fresh in let B := fresh in
  destruct (digit_link n x) as (c & E & F & B); [lia|lia|]; rewrite ?E, ?F; clear E F.

Lemma fe_reduce_ok f : loose f ->
  digits (fe_reduce f) /\ fe_val (fe_reduce f) = fe_val f mod P25519.
Proof.
  intros Hf. unfold fe_reduce. rewrite (to_bytes_q_ok f Hf).
  assert (0 <= fe_val f - P25519 * (fe_val f / P25519) < P25519) as Hr
    by (rewrite <- Z.mod_eq by done; apply Z.mod_pos_bound; done).
  rewrite Z.mod_eq by done. set (q := fe_val f / P25519) in *.
  assert (- 32 <= q <= 32) as Hq by (unfold P25519 in Hr; fe_destruct f; limb_lia).
  clearbody q. fe_destruct f. cbn [bnd] in Hf. cbv [arr lookup list_lookup default id].
  rewrite (s64_id (f0 + 19 * q)) by lia. digit 26 (f0 + 19 * q).
  rewrite (s64_id (f1 + c)) by lia. digit 25 (f1 + c).
  rewrite (s64_id (f2 + c0)) by lia. digit 26 (f2 + c0).
  rewrite (s64_id (f3 + c1)) by lia. digit 25 (f3 + c1).
  rewrite (s64_id (f4 + c2)) by lia. digit 26 (f4 + c2).
  rewrite (s64_id (f5 + c3)) by lia. digit 25 (f5 + c3).
  rewrite (s64_id (f6 + c4)) by lia. digit 26 (f6 + c4).
  rewrite (s64_id (f7 + c5)) by lia. digit 25 (f7 + c5).
  rewrite (s64_id (f8 + c6)) by lia. digit 26 (f8 + c6).
  rewrite (s64_id (f9 + c7)) by lia. digit 25 (f9 + c7).
  unfold P25519 in Hr. split; [unfold digits, fits; lia|].
  unfold P25519. assert (c8 = q) by limb_lia. limb_lia.
Qed.

(** A limb cut at bit [a] and then into bytes. *)
Lemma limb_split a b c x : 0 <= a -> b = a + 8 -> c = a + 16 ->
  exists v0 v1 v2 v3, x mod 2 ^ a = v0 /\ u8 (x .>> a) = v1 /\ u8 (x .>> b) = v2 /\ x .>> c = v3
    /\ x = v0 + 2 ^ a * v1 + 2 ^ b * v2 + 2 ^ c * v3.
Proof.
  intros Ha -> ->. eexists _, _, _, _. do 4 (split; [done|]). rewrite !Z.shiftr_div_pow2, !Z.pow_add_r, <- !Z.div_div by lia.
  pose proof (Z.div_mod x (2 ^ a) ltac:(lia)) as E. remember (x / 2 ^ a) as y eqn:Hy. clear Hy.
  remember (2 ^ a) as p eqn:Hp. clear Hp.
  assert (y = u8 y + 256 * u8 (y / 256) + 65536 * (y / 65536)) as Ey by (unfold u8; div_lia).
  change (2 ^ 8) with 256. change (2 ^ 16) with 65536. rewrite E at 1. rewrite Ey at 1. ring.
Qed.

(** The byte two limbs share. *)
Lemma pack_byte k j x y : 0 <= k -> 0 <= j -> k + j = 8 -> fits k x ->
  u8 (x .| (y .<< k)) = x + 2 ^ k * (y mod 2 ^ j).
Proof.
  intros Hk Hj Hkj Hx. rewrite lor_shiftl_add by done. unfold u8. change 0x100 with (2 ^ 8).
  rewrite <- Hkj, Z.pow_add_r by done. unfold fits in Hx.
  rewrite Z.rem_mul_r by lia. rewrite (Z.mul_comm _ y), Z.mod_add, Z.mod_small by lia.
  rewrite Z.div_add, Z.div_small by lia. by rewrite Z.add_0_l.
Qed.

Ltac pack w k n h :=
  let j := eval vm_compute in (8 - k) in
  rewrite (pack_byte k j (h .>> n)) by (lia || by apply (fits_shiftr w n)).
Ltac split_limb a h :=
  let b := eval vm_compute in (8 + a) in let c := eval vm_compute in (16 + a) in
  destruct (limb_split a b c h ltac:(lia) ltac:(lia) ltac:(lia))
    as (? & ? & ? & ? & E0 & E1 & E2 & E3 & Ex);
  rewrite ?E0, ?E1, ?E2, ?E3, Ex; clear E0 E1 E2 E3 Ex.

Lemma bytes_of_digits f : digits (fe_reduce f) -> le_val (fe_to_bytes f) = fe_val (fe_reduce f).
Proof.
  unfold fe_to_bytes. generalize (fe_reduce f) as h. intros h Hh.
  destruct h as [|h0 [|h1 [|h2 [|h3 [|h4 [|h5 [|h6 [|h7 [|h8 [|h9 [|? ?]]]]]]]]]]]; try done.
  destruct Hh as [(H0 & H1 & H2 & H3 & H4) (H5 & H6 & H7 & H8 & H9)].
  cbv [arr lookup list_lookup default id fe_val].
  pack 26 2 24 h0. pack 25 3 22 h1. pack 26 5 21 h2. pack 25 6 19 h3.
  pack 25 1 24 h5. pack 26 3 23 h6. pack 25 4 21 h7. pack 26 6 20 h8.
  rewrite (u8_small (h4 .>> 18)) by (by apply (fits_shiftr 26 18)).
  rewrite (u8_small (h9 .>> 18)) by (apply (fits_mono 7); [by apply (fits_shiftr 25 18)|lia]).
  change (u8 h0) with (h0 mod 2 ^ 8). change (u8 h5) with (h5 mod 2 ^ 8).
  split_limb 8 h0. split_limb 6 h1. split_limb 5 h2. split_limb 3 h3. split_limb 2 h4.
  split_limb 8 h5. split_limb 7 h6. split_limb 5 h7. split_limb 4 h8. split_limb 2 h9.
  cbn [le_val]. ring.
Qed.

Lemma bnd_length e o f : bnd e o f -> length f = 10%nat.
Proof. intros. by fe_destruct f. Qed.

(** The canonical bytes of the residue. *)
Lemma fe_to_bytes_ok f : loose f -> fe_to_bytes f = le_bytes 32 (fe_val f mod P25519).
Proof.
  intros Hf. destruct (fe_reduce_ok f Hf) as [Hd Hv]. rewrite <- Hv, <- bytes_of_digits by done.
  symmetry. apply (le_bytes_le_val (fe_to_bytes f)). unfold fe_to_bytes. cbn zeta. solve_bytes.
Qed.

(** ** Deserialization *)

(** Bits [k] to [k + m] of four bytes: [24 - k + t = m]. *)
Lemma window k m t w x y z : 0 <= k <= 8 -> 0 <= t <= 8 -> 24 - k + t = m ->
  byte_ok w -> byte_ok x -> byte_ok y -> byte_ok z ->
  fits m ((le_val [w; x; y; z] .>> k) .& Z.ones m)
  /\ (le_val [w; x; y; z] .>> k) .& Z.ones m
     = w / 2 ^ k + 2 ^ (8 - k) * (x + 256 * y) + 2 ^ (24 - k) * (z mod 2 ^ t).
Proof.
  intros Hk Ht Hm Hw Hx Hy Hz. rewrite Z.land_ones, Z.shiftr_div_pow2 by lia.
  split; [apply Z.mod_pos_bound; lia|].
  assert (2 ^ k * 2 ^ (8 - k) = 256) as E8 by (rewrite <- Z.pow_add_r by lia; by replace (k + (8 - k)) with 8 by ring).
  assert (2 ^ (24 - k) = 2 ^ (8 - k) * 65536) as E24 by (change 65536 with (2 ^ 16); rewrite <- Z.pow_add_r by lia; f_equal; lia).
  assert (le_val [w; x; y; z] = w + (2 ^ (8 - k) * (x + 256 * y) + 2 ^ (24 - k) * z) * 2 ^ k) as ->
    by (rewrite E24; cbn [le_val]; transitivity (w + 2 ^ k * 2 ^ (8 - k) * (x + 256 * y + 65536 * z)); [rewrite E8; ring|ring]).
  rewrite Z.div_add by lia. rewrite <- Hm, Z.pow_add_r by lia.
  assert (0 <= w / 2 ^ k < 2 ^ (8 - k)) as Hq.
  { unfold fits in Hw. split; [apply Z.div_pos; lia|]. apply Z.div_lt_upper_bound; [lia|]. rewrite E8. lia. }
  replace (w / 2 ^ k + (2 ^ (8 - k) * (x + 256 * y) + 2 ^ (24 - k) * z))
    with (w / 2 ^ k + 2 ^ (8 - k) * (x + 256 * y) + z * 2 ^ (24 - k)) by ring.
  rewrite Z.rem_mul_r by lia. rewrite Z.mod_add, Z.div_add by lia.
  unfold fits in *.
  assert (0 <= w / 2 ^ k + 2 ^ (8 - k) * (x + 256 * y) < 2 ^ (24 - k)) by (rewrite E24; nia).
  rewrite (Z.mod_small (_ + _) (2 ^ (24 - k))), (Z.div_small (_ + _) (2 ^ (24 - k))) by lia. by rewrite Z.add_0_l.
Qed.

Ltac window_of k m t w x y z :=
  let a := eval vm_compute in (8 - k) in let b := eval vm_compute in (24 - k) in
  let F := fresh "F" in let E := fresh "E" in
  destruct (window k m t w x y z) as [F E]; [lia..|assumption|assumption|assumption|(assumption || done)|];
  change (8 - k) with a in E; change (24 - k) with b in E; rewrite ?E in *; clear E.

Lemma window_ones x m : x .& m = (x .>> 0) .& m.
Proof. by rewrite Z.shiftr_0_r. Qed.

(** A byte cut at bit [k]. *)
Lemma byte_split k x : 0 <= k -> exists l h, x mod 2 ^ k = l /\ x / 2 ^ k = h /\ x = l + 2 ^ k * h.
Proof. intros. eexists _, _. do 2 (split; [done|]). rewrite Z.add_comm. apply Z.div_mod. lia. Qed.

Ltac split_byte k x :=
  destruct (byte_split k x ltac:(lia)) as (? & ? & E0 & E1 & Ex); rewrite ?E0, ?E1, Ex; clear E0 E1 Ex.

(** The nine low limbs and the last one, from bytes 28 to [x]. *)
Lemma limbs_ok b x : length b = 31%nat -> bytes_ok b -> byte_ok x ->
  let f := low_limbs (b ++ [x]) ++ [(le_val (drop 28 b ++ [x]) .>> 6) .& 0x1ffffff] in
  bnd (2 ^ 26) (2 ^ 25) f /\ fe_val f = le_val (b ++ [x mod 2 ^ 7]).
Proof.
  intros Hl Hb Hx. unfold low_limbs, load_4.
  do 32 (destruct b as [|? b]; try done). clear Hl.
  repeat match goal with H : Forall _ (_ :: _) |- _ => apply Forall_cons in H as [? H] end.
  cbn [drop take app]. cbv [arr lookup list_lookup default id].
  rewrite !le32_eq by done.
  change 0x3ffffff with (Z.ones 26). change 0x1ffffff with (Z.ones 25).
  rewrite (window_ones (le_val [z; z0; z1; z2])), (window_ones (le_val [z15; z16; z17; z18])).
  window_of 0 26 2 z z0 z1 z2. window_of 2 25 3 z2 z3 z4 z5. window_of 3 26 5 z5 z6 z7 z8.
  window_of 5 25 6 z8 z9 z10 z11. window_of 6 26 8 z11 z12 z13 z14. window_of 0 25 1 z15 z16 z17 z18.
  window_of 1 26 3 z18 z19 z20 z21. window_of 3 25 4 z21 z22 z23 z24.
  window_of 4 26 6 z24 z25 z26 z27. window_of 6 25 7 z27 z28 z29 x.
  split; [cbn [bnd]; unfold fits in *; lia|]. cbv [fe_val arr lookup list_lookup default id].
  clear F F0 F1 F2 F3 F4 F5 F6 F7 F8. rewrite !Z.div_1_r.
  rewrite (Z.mod_small z14 (2 ^ 8)) by done.
  split_byte 2 z2. split_byte 3 z5. split_byte 5 z8. split_byte 6 z11. split_byte 1 z18.
  split_byte 3 z21. split_byte 4 z24. split_byte 6 z27. cbn [le_val]. ring.
Qed.

Lemma init_last (l : list Z) n : length l = S n -> exists b x, l = b ++ [x] /\ length b = n.
Proof.
  intros Hl. destruct (exists_last (l := l)) as (b & x & ->); [by intros ->|].
  exists b, x. rewrite length_app in Hl. simpl in Hl. split; [done|lia].
Qed.

(** x25519.c leaves byte 31 out; ed25519.c leaves out its top bit. *)
Lemma fe_from_bytes_ok b : length b = 32%nat -> bytes_ok b ->
  bnd (2 ^ 26) (2 ^ 25) (fe_from_bytes b) /\ fe_val (fe_from_bytes b) = le_val (take 31 b).
Proof.
  intros Hl Hb. destruct (init_last b 31 Hl) as (c & x & -> & Hc). apply Forall_app in Hb as [Hb _].
  assert (fe_from_bytes (c ++ [x]) = low_limbs (c ++ [0]) ++ [(le_val (drop 28 c ++ [0]) .>> 6) .& 0x1ffffff])
    as ->.
  { unfold fe_from_bytes. do 32 (destruct c as [|? c]; try done).
    repeat match goal with H : Forall _ (_ :: _) |- _ => apply Forall_cons in H as [? H] end.
    f_equal. cbn [drop app]. unfold load_3. cbv [arr lookup list_lookup default id].
    by rewrite <- le32_eq, Z.shiftl_0_l, Z.lor_0_r by done. }
  rewrite take_app_length' by done. destruct (limbs_ok c 0) as [H1 H2]; [done..|].
  split; [done|]. rewrite H2, le_val_app. cbn [le_val]. rewrite Z.mod_0_l by done. lia.
Qed.

Lemma ed_fe_from_bytes_ok b : length b = 32%nat -> bytes_ok b ->
  bnd (2 ^ 26) (2 ^ 25) (ed_fe_from_bytes b)
  /\ fe_val (ed_fe_from_bytes b) = le_val b mod 2 ^ 255.
Proof.
  intros Hl Hb. destruct (init_last b 31 Hl) as (c & x & -> & Hc). apply Forall_app in Hb as [Hb Hx].
  apply Forall_cons in Hx as [Hx _].
  assert (ed_fe_from_bytes (c ++ [x]) = low_limbs (c ++ [x]) ++ [(le_val (drop 28 c ++ [x]) .>> 6) .& 0x1ffffff])
    as ->.
  { unfold ed_fe_from_bytes. do 32 (destruct c as [|? c]; try done).
    repeat match goal with H : Forall _ (_ :: _) |- _ => apply Forall_cons in H as [? H] end.
    f_equal. cbn [drop app]. unfold load_4. cbv [arr lookup list_lookup default id].
    by rewrite le32_eq by done. }
  destruct (limbs_ok c x) as [H1 H2]; [done..|].
  split; [done|]. rewrite H2, !le_val_app, Hc. cbn [le_val].
  pose proof (le_val_bound c Hb) as Hv. rewrite Hc in Hv. unfold fits in Hv.
  change (8 * Z.of_nat 31) with 248 in *. rewrite !Z.mul_0_r, !Z.add_0_r, (Z.mul_comm _ x).
  change (2 ^ 255) with (2 ^ 248 * 2 ^ 7).
  rewrite Z.rem_mul_r, Z.mod_add, Z.div_add by lia.
  rewrite (Z.mod_small (le_val c)), (Z.div_small (le_val c)) by lia. lia.
Qed.

(** A bit of a number in bytes. *)
Lemma testbit_le_val k (i : nat) : bytes_ok k ->
  Z.testbit k.[i / 8] (Z.of_nat (i mod 8)) = Z.testbit (le_val k) (Z.of_nat i).
Proof.
  intros Hk. revert i. induction Hk as [|b k Hb _ IH]; intros i; [by rewrite !Z.bits_0|]. cbn [le_val].
  destruct (decide (i < 8)%nat) as [H|H].
  - rewrite Nat.div_small, Nat.mod_small by done. change ((b :: k).[0]) with b.
    rewrite <- (Z.mod_pow2_bits_low (_ + _) 8) by lia.
    change (2 ^ 8) with 256. by rewrite (Z.mul_comm 256), Z.mod_add, Z.mod_small by done.
  - replace i with (8 + (i - 8))%nat by lia. set (n := (i - 8)%nat).
    replace ((8 + n) / 8)%nat with (S (n / 8)) by div_lia.
    replace ((8 + n) mod 8)%nat with (n mod 8)%nat by div_lia.
    change ((b :: k).[S (n / 8)]) with (k.[n / 8]).
    replace (Z.of_nat (8 + n)) with (Z.of_nat n + 8) by lia.
    rewrite <- Z.div_pow2_bits by lia. change (2 ^ 8) with 256.
    rewrite (Z.mul_comm 256), Z.div_add, Z.div_small by (done || lia). by rewrite Z.add_0_l, <- IH.
Qed.

(** [(x >> n) & 1]. *)
Lemma bit_of x n : 0 <= n -> (x .>> n) .& 1 = Z.b2z (Z.testbit x n).
Proof.
  intros Hn. change 1 with (Z.ones 1). rewrite Z.land_ones by done. change (2 ^ 1) with 2.
  by rewrite <- Z.bit0_mod, Z.shiftr_spec, Z.add_0_l by done.
Qed.

(** ** Expressions

    What the clients use: the bounds and the value of an expression in field elements. *)

Abbreviation wide := (bnd (2 ^ 26) (2 ^ 25)).

(** [f] holds the residue [v]. *)
Definition holds (f : list Z) (v : Z) : Prop := fe_val f ≡p v.

Lemma holds_mul f g a b : loose f -> loose g -> holds f a -> holds g b -> holds (fe_mul f g) (a * b).
Proof. unfold holds. intros Hf Hg Ha Hb. rewrite fe_mul_val by done. by rewrite Ha, Hb. Qed.
Lemma holds_add f g a b : loose f -> loose g -> holds f a -> holds g b -> holds (fe_add f g) (a + b).
Proof. unfold holds. intros Hf Hg Ha Hb. rewrite fe_add_ok by done. by rewrite Ha, Hb. Qed.
Lemma holds_sub f g a b : loose f -> loose g -> holds f a -> holds g b -> holds (fe_sub f g) (a - b).
Proof. unfold holds. intros Hf Hg Ha Hb. rewrite fe_sub_ok by done. by rewrite Ha, Hb. Qed.
Lemma holds_121666 f a : loose f -> holds f a -> holds (fe_mul121666 f) (121666 * a).
Proof.
  unfold holds. intros Hf Ha. destruct (fe_mul121666_ok f Hf) as [_ H]. rewrite H. by rewrite Ha.
Qed.
Lemma holds_mod f a : holds f a -> holds f (a mod P25519).
Proof. unfold holds. intros ->. symmetry. apply eqp_mod. Qed.
Lemma holds_eq f a b : holds f a -> a ≡p b -> holds f b.
Proof. unfold holds. by intros -> ->. Qed.

Lemma fe_neg_ok f : loose f -> fe_val (fe_neg f) = - fe_val f.
Proof.
  intros Hf. fe_destruct f. cbn [bnd] in *. cbn [fe_neg fmap list_fmap].
  rewrite !s64_id by lia. limb_lia.
Qed.
Lemma holds_neg f a : loose f -> holds f a -> holds (fe_neg f) (- a).
Proof.
  unfold holds. intros Hf Ha. rewrite fe_neg_ok by done. by rewrite Ha.
Qed.

Lemma tight_mul f g : loose f -> loose g -> tight (fe_mul f g).
Proof. intros. by apply fe_mul_ok. Qed.
Lemma tight_121666 f : loose f -> tight (fe_mul121666 f).
Proof. intros. by apply fe_mul121666_ok. Qed.
Lemma bnd_neg e o f : bnd e o f -> e <= 2 ^ 28 -> o <= 2 ^ 27 -> bnd e o (fe_neg f).
Proof.
  intros Hf ??. fe_destruct f. cbn [bnd] in *. cbn [fe_neg fmap list_fmap].
  rewrite !s64_id by lia. limb_lia.
Qed.
Lemma wide_loose f : wide f -> loose f.
Proof. intros. by eapply bnd_mono. Qed.
Lemma tight_wide f : tight f -> wide f.
Proof. intros. by eapply bnd_mono. Qed.

(** Follow the expression: its bounds, then its value. *)
Ltac bound :=
  lazymatch goal with
  | |- bnd _ _ (fe_mul _ _) => solve [apply tight_mul; bound | eapply bnd_mono; [apply tight_mul; bound|done|done]]
  | |- bnd _ _ (fe_mul121666 _) =>
      solve [apply tight_121666; bound | eapply bnd_mono; [apply tight_121666; bound|done|done]]
  | |- bnd _ _ (fe_add _ _) => eapply bnd_mono; [eapply fe_add_bnd; [bound|bound|done|done]|done|done]
  | |- bnd _ _ (fe_sub _ _) => eapply bnd_mono; [eapply fe_sub_bnd; [bound|bound|done|done]|done|done]
  | |- bnd _ _ (fe_neg _) => eapply bnd_mono; [eapply bnd_neg; [bound|done|done]|done|done]
  | |- bnd _ _ _ => first [eassumption | eapply bnd_mono; [eassumption|done|done]]
  end.
Ltac value :=
  lazymatch goal with
  | |- holds (fe_mul _ _) _ => eapply holds_mul; [bound|bound|value|value]
  | |- holds (fe_add _ _) _ => eapply holds_add; [bound|bound|value|value]
  | |- holds (fe_sub _ _) _ => eapply holds_sub; [bound|bound|value|value]
  | |- holds (fe_neg _) _ => eapply holds_neg; [bound|value]
  | |- holds (fe_mul121666 _) _ => eapply holds_121666; [bound|value]
  | |- _ => eassumption
  end.
