(* ===== verification/X25519.v ===== *)
(** * X25519: lunarcore/lunar/crypto/x25519.c

    Scalar multiplication by the Montgomery ladder with deferred conditional swaps. The
    specification is the ladder of the literature: a pair of points, doubled and added
    according to the bits of the scalar. *)
From S2P Require Import Prelude Fe25519.
From Stdlib Require Import Setoid Morphisms Zpow_facts.

(** [k]: the scalar with its five bits set as RFC 7748 asks. *)
Definition clamp (scalar : list Z) : list Z :=
  let k := <[0%nat := scalar.[0] .& 248]> scalar in
  let k := <[31%nat := k.[31] .& 127]> k in
  <[31%nat := k.[31] .| 64]> k.

Definition scalar_bit (k : list Z) (pos : nat) : Z :=
  (k.[pos / 8] .>> (Z.of_nat pos .& 7)) .& 1.

(** The variables of the loop. *)
Record Ladder := { x_2 : list Z; z_2 : list Z; x_3 : list Z; z_3 : list Z; swap : Z }.

Definition swap_points (st : Ladder) (swap' : Z) : Ladder :=
  let '(x_2, x_3) := fe_cswap st.(x_2) st.(x_3) swap' in
  let '(z_2, z_3) := fe_cswap st.(z_2) st.(z_3) swap' in
  {| x_2 := x_2; z_2 := z_2; x_3 := x_3; z_3 := z_3; swap := swap' |}.

(** The field operations of one iteration. *)
Definition ladder_core (x_1 x_2 z_2 x_3 z_3 : list Z) (bit : Z) : Ladder :=
  let a := fe_add x_2 z_2 in
  let aa := fe_square a in
  let b := fe_sub x_2 z_2 in
  let bb := fe_square b in
  let e := fe_sub aa bb in
  let c := fe_add x_3 z_3 in
  let d := fe_sub x_3 z_3 in
  let da := fe_mul d a in
  let cb := fe_mul c b in
  let sum := fe_add da cb in
  let diff := fe_sub da cb in
  let x_3 := fe_square sum in
  let diff_sq := fe_square diff in
  let z_3 := fe_mul x_1 diff_sq in
  let x_2 := fe_mul aa bb in
  let e_mul := fe_mul121666 e in
  let aa_plus_e_mul := fe_add aa e_mul in
  let z_2 := fe_mul e aa_plus_e_mul in
  {| x_2 := x_2; z_2 := z_2; x_3 := x_3; z_3 := z_3; swap := bit |}.

Definition ladder_step (x_1 k : list Z) (pos : nat) (st : Ladder) : Ladder :=
  let bit := scalar_bit k pos in
  let st := swap_points st (st.(swap) .^ bit) in
  ladder_core x_1 st.(x_2) st.(z_2) st.(x_3) st.(z_3) bit.

(** The iterations for [pos = n - 1, ..., 0]. *)
Fixpoint ladder_loop (x_1 k : list Z) (n : nat) (st : Ladder) : Ladder :=
  match n with
  | O => st
  | S pos => ladder_loop x_1 k pos (ladder_step x_1 k pos st)
  end.

Definition x25519 (scalar point : list Z) : list Z :=
  let k := clamp scalar in
  let u := fe_from_bytes point in
  let st := {| x_2 := fe_one; z_2 := fe_zero; x_3 := u; z_3 := fe_one; swap := 0 |} in
  let st := ladder_loop u k 255 st in
  let st := swap_points st st.(swap) in
  let z_2_inv := fe_invert st.(z_2) in
  let result := fe_mul st.(x_2) z_2_inv in
  fe_to_bytes result.

Definition basepoint : list Z := 9 :: replicate 31 0.
Definition x25519_base (scalar : list Z) : list Z := x25519 scalar basepoint.

(** ** Specification: the ladder on projective u-coordinates *)

Definition xdbl '((x, z) : Z * Z) : Z * Z :=
  let aa := (x + z) * (x + z) in
  let bb := (x - z) * (x - z) in
  let e := aa - bb in
  ((aa * bb) mod P25519, (e * (aa + 121666 * e)) mod P25519).

Definition xadd (u : Z) '((x, z) : Z * Z) '((x', z') : Z * Z) : Z * Z :=
  let da := (x' - z') * (x + z) in
  let cb := (x' + z') * (x - z) in
  (((da + cb) * (da + cb)) mod P25519, (u * ((da - cb) * (da - cb))) mod P25519).

(** From the pair ([m]P, [m + 1]P), the [n] low bits of the scalar [N] still to come. *)
Fixpoint mladder (u N : Z) (n : nat) (P Q : Z * Z) : (Z * Z) * (Z * Z) :=
  match n with
  | O => (P, Q)
  | S i => if Z.testbit N (Z.of_nat i) then mladder u N i (xadd u P Q) (xdbl Q)
           else mladder u N i (xdbl P) (xadd u P Q)
  end.

(** The affine u-coordinate of a point, by Fermat's inversion. *)
Definition affine '((x, z) : Z * Z) : Z := (x * Zpow_mod z (P25519 - 2) P25519) mod P25519.

Definition scalar_mult (N u : Z) : Z := affine (mladder u N 255 (1, 0) (u, 1)).1.

(** The clamped scalar as a number: a multiple of 8 from 2^254 on. *)
Definition clamped (N : Z) : Z := 2 ^ 254 + 8 * ((N mod 2 ^ 254) / 8).

(** ** One iteration *)

#[local] Opaque bnd fe_val fe_mul fe_add fe_sub fe_mul121666 fe_invert.

(** A point of the state: x within [wide], z within [tight]. *)
Definition point (x z : list Z) (P : Z * Z) : Prop :=
  wide x /\ tight z /\ holds x P.1 /\ holds z P.2.

Lemma ladder_core_ok x_1 u x2 z2 x3 z3 P Q bit :
  wide x_1 -> holds x_1 u -> point x2 z2 P -> point x3 z3 Q ->
  let st := ladder_core x_1 x2 z2 x3 z3 bit in
  point st.(x_2) st.(z_2) (xdbl P) /\ point st.(x_3) st.(z_3) (xadd u P Q) /\ st.(swap) = bit.
Proof.
  intros Hw Hu (B1 & B2 & V1 & V2) (B3 & B4 & V3 & V4). destruct P as [p1 p2], Q as [q1 q2].
  unfold ladder_core, fe_square. cbn in *.
  unfold point, xdbl, xadd. cbn.
  split_and!; try apply holds_mod; try bound; try value; done.
Qed.

(** ** The scalar *)

Lemma scalar_bit_ok k pos : bytes_ok k -> scalar_bit k pos = Z.b2z (Z.testbit (le_val k) (Z.of_nat pos)).
Proof.
  intros Hk. unfold scalar_bit. change 7 with (Z.ones 3). rewrite Z.land_ones by done.
  replace (Z.of_nat pos mod 2 ^ 3) with (Z.of_nat (pos mod 8)) by div_lia.
  by rewrite bit_of, testbit_le_val by (done || lia).
Qed.

Lemma clamp_low b : byte_ok b -> b .& 248 = 8 * (b / 8).
Proof.
  intros Hb. apply Z.eqb_eq. by apply (range_check 256 (fun b => b .& 248 =? 8 * (b / 8))).
Qed.
Lemma clamp_high b : byte_ok b -> (b .& 127) .| 64 = 64 + b mod 64.
Proof.
  intros Hb. apply Z.eqb_eq. by apply (range_check 256 (fun b => (b .& 127) .| 64 =? 64 + b mod 64)).
Qed.

Lemma ends_of (l : list Z) n : length l = S (S n) -> exists a m b, l = a :: m ++ [b] /\ length m = n.
Proof.
  intros Hl. destruct l as [|a l]; [done|]. destruct (init_last l n) as (m & b & -> & Hm); [by injection Hl|].
  by exists a, m, b.
Qed.

Lemma clamp_shape a m b : length m = 30%nat -> byte_ok a -> byte_ok b ->
  clamp (a :: m ++ [b]) = (8 * (a / 8)) :: m ++ [64 + b mod 64].
Proof.
  intros Hm Ha Hb. unfold clamp. cbn [insert list_insert]. change ((a :: m ++ [b]).[0]) with a.
  rewrite clamp_low by done. f_equal.
  assert (forall x y z, (x :: m ++ [y]).[31] = y /\ <[30%nat := z]> (m ++ [y]) = m ++ [z]) as Hi.
  { intros x y z. split.
    - change (((m ++ [y]).[30]) = y). unfold arr. rewrite lookup_app_r, Hm by lia. done.
    - rewrite insert_app_r_alt, Hm by lia. done. }
  rewrite (proj1 (Hi _ b 0)).
  fold (<[30%nat := b .& 127]> (m ++ [b])). rewrite (proj2 (Hi 0 b _)), (proj1 (Hi _ _ 0)).
  rewrite (proj2 (Hi 0 _ _)). by rewrite clamp_high.
Qed.

Lemma clamp_ok s : length s = 32%nat -> bytes_ok s ->
  bytes_ok (clamp s) /\ le_val (clamp s) = clamped (le_val s).
Proof.
  intros Hl Hs. destruct (ends_of s 30 Hl) as (a & m & b & -> & Hm).
  apply Forall_cons in Hs as [Ha Hs]. apply Forall_app in Hs as [Hs Hb]. apply Forall_cons in Hb as [Hb _].
  rewrite clamp_shape by done. split; [solve_bytes|].
  pose proof (le_val_bound m Hs) as Hv. rewrite Hm in Hv. unfold fits in Hv.
  change (8 * Z.of_nat 30) with 240 in Hv. unfold clamped. cbn [le_val].
  rewrite !le_val_app, Hm. cbn [le_val]. change (8 * Z.of_nat 30) with 240.
  remember (le_val m) as M eqn:EM. clear EM Hs Hm Hl.
  words_lia.
Qed.

(** ** The loop *)

Lemma xadd_comm u P Q : xadd u P Q = xadd u Q P.
Proof. destruct P, Q. unfold xadd. f_equal; f_equal; ring. Qed.

(** The two points in the order of the specification, up to the pending swap [s]. *)
Definition ladder_inv (st : Ladder) (s : bool) (P Q : Z * Z) : Prop :=
  st.(swap) = Z.b2z s
  /\ if s then point st.(x_3) st.(z_3) P /\ point st.(x_2) st.(z_2) Q
     else point st.(x_2) st.(z_2) P /\ point st.(x_3) st.(z_3) Q.

Lemma swap_points_ok st s t P Q : ladder_inv st s P Q ->
  let st' := swap_points st (st.(swap) .^ Z.b2z t) in
  if t then point st'.(x_2) st'.(z_2) Q /\ point st'.(x_3) st'.(z_3) P
  else point st'.(x_2) st'.(z_2) P /\ point st'.(x_3) st'.(z_3) Q.
Proof.
  intros [Hs HP]. cbn zeta.
  assert (length st.(x_2) = length st.(x_3) /\ length st.(z_2) = length st.(z_3)) as [Hx Hz].
  { destruct s; destruct HP as [(?%bnd_length & ?%bnd_length & _) (?%bnd_length & ?%bnd_length & _)]; lia. }
  assert (st.(swap) .^ Z.b2z t = Z.b2z (xorb s t)) as -> by (rewrite Hs; by destruct s, t).
  unfold swap_points. rewrite !fe_cswap_ok by done. destruct s, t; cbn in *; tauto.
Qed.

Lemma ladder_step_ok x_1 u k pos st s P Q :
  wide x_1 -> holds x_1 u -> bytes_ok k -> ladder_inv st s P Q ->
  let t := Z.testbit (le_val k) (Z.of_nat pos) in
  ladder_inv (ladder_step x_1 k pos st) t
    (if t then xadd u P Q else xdbl P) (if t then xdbl Q else xadd u P Q).
Proof.
  intros Hw Hu Hk Hinv t. unfold ladder_step. cbn zeta. rewrite scalar_bit_ok by done. fold t.
  pose proof (swap_points_ok st s t P Q Hinv) as HP. cbn zeta in HP.
  set (st' := swap_points st _) in *. unfold ladder_inv. destruct t; destruct HP as [H2 H3].
  - destruct (ladder_core_ok x_1 u _ _ _ _ _ _ 1 Hw Hu H2 H3) as (HD & HA & HS).
    rewrite (xadd_comm u P Q). done.
  - by destruct (ladder_core_ok x_1 u _ _ _ _ _ _ 0 Hw Hu H2 H3) as (HD & HA & HS).
Qed.

Lemma ladder_loop_ok x_1 u k n st s P Q :
  wide x_1 -> holds x_1 u -> bytes_ok k -> ladder_inv st s P Q ->
  let R := mladder u (le_val k) n P Q in
  exists s', ladder_inv (ladder_loop x_1 k n st) s' R.1 R.2.
Proof.
  intros Hw Hu Hk. revert st s P Q. induction n as [|n IH]; intros st s P Q Hinv; [by exists s|].
  cbn [ladder_loop mladder]. pose proof (ladder_step_ok x_1 u k n st s P Q Hw Hu Hk Hinv) as Hst.
  cbn zeta in Hst. destruct (Z.testbit (le_val k) (Z.of_nat n)); by eapply IH.
Qed.

Lemma affine_ok x z P : point x z P ->
  fe_to_bytes (fe_mul x (fe_invert z)) = le_bytes 32 (affine P).
Proof.
  intros (Hx & Hz & Vx & Vz). destruct P as [a c]. unfold holds in *. cbn [fst snd] in Vx, Vz.
  destruct (fe_invert_ok z (tight_loose _ Hz)) as [Hi Vi]. apply wide_loose in Hx.
  rewrite fe_to_bytes_ok by (by apply tight_loose, tight_mul). f_equal.
  unfold affine. rewrite Zpow_mod_correct by done.
  change (fe_val (fe_mul x (fe_invert z)) ≡p a * (c ^ (P25519 - 2) mod P25519)).
  rewrite fe_mul_val by done. rewrite eqp_mod, Vx, Vi.
  by rewrite (eqp_pow _ _ (P25519 - 2) ltac:(done) Vz).
Qed.

Lemma x25519_spec scalar p : length scalar = 32%nat -> bytes_ok scalar -> length p = 32%nat -> bytes_ok p ->
  x25519 scalar p = le_bytes 32 (scalar_mult (clamped (le_val scalar)) (le_val (take 31 p))).
Proof.
  intros Hs Hsb Hp Hpb. destruct (clamp_ok scalar Hs Hsb) as [Hk Hkv].
  destruct (fe_from_bytes_ok p Hp Hpb) as [Hu Hv]. unfold x25519. cbn zeta.
  set (u := le_val (take 31 p)) in *. set (x_1 := fe_from_bytes p) in *.
  assert (holds x_1 u) as Hx by (unfold holds; by rewrite Hv).
  pose (st0 := {| x_2 := fe_one; z_2 := fe_zero; x_3 := x_1; z_3 := fe_one; swap := 0 |}).
  assert (ladder_inv st0 false (1, 0) (u, 1)) as H0.
  { split; [done|]. split; split_and!; cbn [fst snd x_2 z_2 x_3 z_3 st0]; try done; apply (bool_decide_unpack _); by vm_compute. }
  destruct (ladder_loop_ok x_1 u (clamp scalar) 255 st0 false _ _ Hu Hx Hk H0) as [s' Hinv].
  rewrite Hkv in Hinv. change {| swap := 0 |} with st0. set (st := ladder_loop _ _ _ _) in *.
  pose proof (swap_points_ok _ _ false _ _ Hinv) as [HP _]. cbn zeta in HP.
  change (Z.b2z false) with 0 in HP. rewrite Z.lxor_0_r in HP. exact (affine_ok _ _ _ HP).
Qed.

Lemma scalar_mult_range N u : 0 <= scalar_mult N u < P25519.
Proof.
  unfold scalar_mult. generalize (mladder u N 255 (1, 0) (u, 1)).1 as P. intros [a c].
  unfold affine. apply Z.mod_pos_bound. reflexivity.
Qed.
#[local] Opaque scalar_mult.

(** ** What x25519.c computes *)

(** C6. The function is the Montgomery ladder, for the clamped scalar, from the number of the
    first 31 bytes of the point; no operation of it overflows its int64_t or __int128 and the
    result is the canonical residue. *)
Theorem x25519_montgomery scalar p : length scalar = 32%nat -> bytes_ok scalar -> length p = 32%nat -> bytes_ok p ->
  x25519 scalar p = le_bytes 32 (scalar_mult (clamped (le_val scalar)) (le_val (take 31 p)))
  /\ 0 <= le_val (x25519 scalar p) < P25519.
Proof.
  intros Hs Hsb Hp Hpb. rewrite (x25519_spec scalar p) by done. split; [done|].
  pose proof (scalar_mult_range (clamped (le_val scalar)) (le_val (take 31 p))) as Hr.
  rewrite le_val_fits; [exact Hr|]. unfold fits, P25519 in *. change (8 * Z.of_nat 32) with 256. lia.
Qed.

Lemma x25519_montgomery_witness :
  x25519 (replicate 32 7) basepoint
  = le_bytes 32 (scalar_mult (clamped (le_val (replicate 32 7))) (le_val (take 31 basepoint)))
  /\ 0 <= le_val (x25519 (replicate 32 7) basepoint) < P25519.
Proof.
  apply x25519_montgomery; first [reflexivity | apply (bool_decide_unpack _); vm_compute; exact I].
Defined.

(** The last byte of the point, bits 248 to 254 of its coordinate, is not read. *)
Theorem last_byte_of_point scalar p a b :
  length p = 31%nat -> x25519 scalar (p ++ [a]) = x25519 scalar (p ++ [b]).
Proof.
  intros Hp. unfold x25519.
  assert (fe_from_bytes (p ++ [a]) = fe_from_bytes (p ++ [b])) as ->; [|reflexivity].
  do 32 (destruct p as [|? p]; try discriminate Hp). reflexivity.
Qed.
Lemma last_byte_of_point_witness :
  x25519 (replicate 32 7) (replicate 31 5 ++ [0]) = x25519 (replicate 32 7) (replicate 31 5 ++ [127]).
Proof. apply (last_byte_of_point (replicate 32 7) (replicate 31 5) 0 127). reflexivity. Defined.

(** The doubling of the curve y^2 = x^3 + A x^2 + x. *)
Definition double (A : Z) '((x, z) : Z * Z) : Z * Z :=
  (((x * x - z * z) * (x * x - z * z)) mod P25519, (4 * x * z * (x * x + A * x * z + z * z)) mod P25519).

(** The ladder doubles on the curve with A = 486666; that of Curve25519 is 486662. *)
Theorem doubling_coefficient P : xdbl P = double 486666 P /\ xdbl (9, 1) <> double 486662 (9, 1).
Proof.
  split; [|vm_compute; congruence]. destruct P as [x z]. unfold xdbl, double. f_equal; f_equal; ring.
Qed.
