(* ===== verification/Ed25519.v ===== *)
(** * Ed25519: lunarcore/lunar/crypto/ed25519.c

    Points of the twisted Edwards curve in extended coordinates over the field of [Fe25519]
    (the file repeats those functions), their encoding, the ladder, the scalars modulo the
    group order, keys and signatures. SHA-512 is an argument here: the functions sha512_new,
    sha512_free and sha512_hash this file declares are nowhere defined; [Sha512] has the hash at
    its end. *)
From S2P Require Import Prelude Fe25519 X25519 Sha512.
From Stdlib Require Import Setoid Morphisms Znumtheory Zpow_facts.

(** ** Constants *)

Definition BASE_Y : list Z := 0x58 :: replicate 31 0x66.

Definition D : list Z :=
  [-10913610; 13857413; -15372611; 6949391; 114729;
   -8787816; -6275908; -3247719; -18696448; -12055116].
Definition D2 : list Z :=
  [-21827239; -5839606; -30745221; 13898782; 229458;
   15978800; -12551817; -6495438; 29715968; 9444199].
Definition SQRT_M1 : list Z :=
  [-32595792; -7943725; 9377950; 3500415; 12389472;
   -272473; -25146209; -2005654; 326686; 11406482].

(** ** Field elements *)

Definition fe_square2 (a : list Z) : list Z := let h := fe_square a in fe_add h h.

Definition fe_pow22523 (self : list Z) : list Z :=
  let t0 := fe_square self in
  let t1 := fe_square t0 in
  let t1 := fe_square t1 in
  let t1 := fe_mul self t1 in
  let t0 := fe_mul t0 t1 in
  let t0 := fe_square t0 in
  let t0 := fe_mul t1 t0 in
  let t1 := fe_square t0 in
  let t1 := squares 4 t1 in
  let t0 := fe_mul t1 t0 in
  let t1 := fe_square t0 in
  let t1 := squares 9 t1 in
  let t1 := fe_mul t1 t0 in
  let t2 := fe_square t1 in
  let t2 := squares 19 t2 in
  let t1 := fe_mul t2 t1 in
  let t1 := fe_square t1 in
  let t1 := squares 9 t1 in
  let t0 := fe_mul t1 t0 in
  let t1 := fe_square t0 in
  let t1 := squares 49 t1 in
  let t1 := fe_mul t1 t0 in
  let t2 := fe_square t1 in
  let t2 := squares 99 t2 in
  let t1 := fe_mul t2 t1 in
  let t1 := fe_square t1 in
  let t1 := squares 49 t1 in
  let t0 := fe_mul t1 t0 in
  let t0 := fe_square t0 in
  let t0 := fe_square t0 in
  fe_mul self t0.

Definition fe_is_negative (self : list Z) : bool := (fe_to_bytes self).[0] .& 1 =? 1.
Definition fe_is_zero (self : list Z) : bool := bool_decide (fe_to_bytes self = replicate 32 0).
Definition fe_abs (self : list Z) : list Z := if fe_is_negative self then fe_neg self else self.

(** [a] and [b] after the call. *)
Definition fe_ct_swap (a b : list Z) (mask : Z) : list Z * list Z :=
  let ts := zip_with (fun x y => mask .& (x .^ y)) a b in
  (zip_with Z.lxor a ts, zip_with Z.lxor b ts).
Definition fe_ct_select (a b : list Z) (mask : Z) : list Z :=
  zip_with (fun x y => x .^ (mask .& (x .^ y))) a b.

(** ** Points *)

Record ExtendedPoint := mkPoint { px : list Z; py : list Z; pz : list Z; pt : list Z }.

Definition extended_point_identity : ExtendedPoint := mkPoint fe_zero fe_one fe_one fe_zero.

(** [None]: the function returns false. *)
Definition extended_point_from_bytes (bytes : list Z) : option ExtendedPoint :=
  let y := ed_fe_from_bytes bytes in
  let z := fe_one in
  let y2 := fe_square y in
  let u := fe_sub y2 fe_one in
  let v := fe_add (fe_mul y2 D) fe_one in
  let v3 := fe_mul (fe_square v) v in
  let v7 := fe_mul (fe_square v3) v in
  let uv7 := fe_mul u v7 in
  let x := fe_mul (fe_mul (fe_pow22523 uv7) u) v3 in
  let vx2 := fe_mul (fe_square x) v in
  let check := fe_sub vx2 u in
  let root :=
    if negb (fe_is_zero check) then
      let check2 := fe_add vx2 u in
      if negb (fe_is_zero check2) then None else Some (fe_mul x SQRT_M1)
    else Some x in
  match root with
  | None => None
  | Some x =>
      let x := if negb (Bool.eqb (fe_is_negative x) (bytes.[31] .>> 7 =? 1)) then fe_neg x else x in
      let t := fe_mul x y in
      Some (mkPoint x y z t)
  end.

Definition extended_point_to_bytes (self : ExtendedPoint) : list Z :=
  let z_inv := fe_invert self.(pz) in
  let x := fe_mul self.(px) z_inv in
  let y := fe_mul self.(py) z_inv in
  let output := fe_to_bytes y in
  <[31%nat := u8 (output.[31] .^ (Z.b2z (fe_is_negative x) .<< 7))]> output.

Definition extended_point_double (self : ExtendedPoint) : ExtendedPoint :=
  let a := fe_square self.(px) in
  let b := fe_square self.(py) in
  let c := fe_square2 self.(pz) in
  let d := fe_neg a in
  let e := fe_sub (fe_sub (fe_square (fe_add self.(px) self.(py))) a) b in
  let g := fe_add d b in
  let f := fe_sub g c in
  let h := fe_sub d b in
  let x3 := fe_mul e f in
  let y3 := fe_mul g h in
  let t3 := fe_mul e h in
  let z3 := fe_mul f g in
  mkPoint x3 y3 z3 t3.

Definition extended_point_add (self other : ExtendedPoint) : ExtendedPoint :=
  let a := fe_mul (fe_sub self.(py) self.(px)) (fe_sub other.(py) other.(px)) in
  let b := fe_mul (fe_add self.(py) self.(px)) (fe_add other.(py) other.(px)) in
  let c := fe_mul (fe_mul self.(pt) D2) other.(pt) in
  let d := fe_add (fe_mul self.(pz) other.(pz)) (fe_mul self.(pz) other.(pz)) in
  let e := fe_sub b a in
  let f := fe_sub d c in
  let g := fe_add d c in
  let h := fe_add b a in
  let x3 := fe_mul e f in
  let y3 := fe_mul g h in
  let t3 := fe_mul e h in
  let z3 := fe_mul f g in
  mkPoint x3 y3 z3 t3.

Definition extended_point_neg (self : ExtendedPoint) : ExtendedPoint :=
  mkPoint (fe_neg self.(px)) self.(py) self.(pz) (fe_neg self.(pt)).

Definition ct_swap (a b : ExtendedPoint) (choice : Z) : ExtendedPoint * ExtendedPoint :=
  let mask := s64 (- choice) in
  let '(ax, bx) := fe_ct_swap a.(px) b.(px) mask in
  let '(ay, by_) := fe_ct_swap a.(py) b.(py) mask in
  let '(az, bz) := fe_ct_swap a.(pz) b.(pz) mask in
  let '(at_, bt) := fe_ct_swap a.(pt) b.(pt) mask in
  (mkPoint ax ay az at_, mkPoint bx by_ bz bt).

Definition extended_point_ct_select (a b : ExtendedPoint) (choice : Z) : ExtendedPoint :=
  let mask := s64 (- choice) in
  mkPoint (fe_ct_select a.(px) b.(px) mask) (fe_ct_select a.(py) b.(py) mask)
    (fe_ct_select a.(pz) b.(pz) mask) (fe_ct_select a.(pt) b.(pt) mask).

Definition mul_step (scalar : list Z) (i : nat) (r : ExtendedPoint * ExtendedPoint)
    : ExtendedPoint * ExtendedPoint :=
  let '(r0, r1) := r in
  let bit := (scalar.[i / 8] .>> Z.of_nat (i mod 8)) .& 1 in
  let '(r0, r1) := ct_swap r0 r1 bit in
  let r1 := extended_point_add r0 r1 in
  let r0 := extended_point_double r0 in
  ct_swap r0 r1 bit.

(** The iterations for [i = n - 1, ..., 0]. *)
Fixpoint mul_loop (scalar : list Z) (n : nat) (r : ExtendedPoint * ExtendedPoint)
    : ExtendedPoint * ExtendedPoint :=
  match n with
  | O => r
  | S i => mul_loop scalar i (mul_step scalar i r)
  end.

Definition extended_point_scalar_mul (self : ExtendedPoint) (scalar : list Z) : ExtendedPoint :=
  (mul_loop scalar 256 (extended_point_identity, self)).1.

(** The function returns the point whatever the decompression says; [basepoint_ok] shows it
    succeeds. *)
Definition basepoint : ExtendedPoint := default extended_point_identity (extended_point_from_bytes BASE_Y).

(** ** Scalars

    Twelve or twenty-four limbs of 21 bits in int64_t. Signed overflow, undefined in C, wraps
    here. *)

Definition L : list Z :=
  [0x1cf5d3ed; 0x009318d2; 0x1de73596; 0x1df3bd45; 0x0000014d; 0; 0; 0; 0; 0; 0; 0x00200000].

Definition load_3_i64 (s : list Z) : Z := load_3 s.
Definition load_4_i64 (s : list Z) : Z := load_4 s.

(** The eleven low limbs, the same in four functions. *)
Definition sc_low (s : list Z) : list Z :=
  [0x1fffff .& load_3_i64 (drop 0 s);
   0x1fffff .& (load_4_i64 (drop 2 s) .>> 5);
   0x1fffff .& (load_3_i64 (drop 5 s) .>> 2);
   0x1fffff .& (load_4_i64 (drop 7 s) .>> 7);
   0x1fffff .& (load_4_i64 (drop 10 s) .>> 4);
   0x1fffff .& (load_3_i64 (drop 13 s) .>> 1);
   0x1fffff .& (load_4_i64 (drop 15 s) .>> 6);
   0x1fffff .& (load_3_i64 (drop 18 s) .>> 3);
   0x1fffff .& load_3_i64 (drop 21 s);
   0x1fffff .& (load_4_i64 (drop 23 s) .>> 5);
   0x1fffff .& (load_3_i64 (drop 26 s) .>> 2)].

(** [a[k] -= q * c]. *)
Definition sub_mul (q : Z) (a : list Z) (kc : nat * Z) : list Z :=
  <[kc.1 := s64 (a.[kc.1] - s64 (q * kc.2))]> a.

Definition sc_fold (a : list Z) (i : nat) : list Z :=
  let q := a.[i] in
  if q =? 0 then a
  else
    let shift := (i - 11)%nat in
    let a := foldl (sub_mul q) a
      [((shift + 0)%nat, 0x1cf5d3ed); ((shift + 1)%nat, 0x009318d2); ((shift + 2)%nat, 0x1de73596);
       ((shift + 3)%nat, 0x1df3bd45); ((shift + 4)%nat, 0x0000014d); ((shift + 11)%nat, 0x00200000)] in
    <[i := 0]> a.

Definition sc_carry (a : list Z) (i : nat) : list Z :=
  let carry := a.[i] .>> 21 in
  let a := <[i := a.[i] .& 0x1fffff]> a in
  <[(i + 1)%nat := s64 (a.[(i + 1)%nat] + carry)]> a.

Definition sc_fix (a : list Z) (i : nat) : list Z :=
  if a.[i] <? 0 then
    let a := <[i := a.[i] + 0x200000]> a in
    <[(i + 1)%nat := s64 (a.[(i + 1)%nat] - 1)]> a
  else a.

Definition sc_borrow (tb : list Z * Z) (i : nat) : list Z * Z :=
  let '(tmp, borrow) := tb in
  let t := s64 (tmp.[i] + borrow) in
  if t <? 0 then (<[i := t + 0x200000]> tmp, -1) else (<[i := t]> tmp, 0).

Definition sc_reduce_limbs (a : list Z) : list Z :=
  let a := foldl sc_fold a (reverse (seq 12 12)) in
  let a := Nat.iter 2 (fun a => foldl sc_fix (foldl sc_carry a (seq 0 11)) (seq 0 11)) a in
  let tmp := zip_with (fun x l => s64 (x - l)) (take 12 a) L in
  let '(tmp, borrow) := foldl sc_borrow (tmp, 0) (seq 0 11) in
  let tmp := <[11%nat := s64 (tmp.[11] + borrow)]> tmp in
  let mask := Z.lnot (tmp.[11] .>> 63) in
  zip_with (fun x t => (x .& Z.lnot mask) .| (t .& mask)) (take 12 a) tmp ++ drop 12 a.

(** The 32 bytes of twelve limbs, the same in both callers. *)
Definition sc_pack (a : list Z) : list Z :=
  [u8 a.[0]; u8 (a.[0] .>> 8); u8 ((a.[0] .>> 16) .| (a.[1] .<< 5));
   u8 (a.[1] .>> 3); u8 (a.[1] .>> 11); u8 ((a.[1] .>> 19) .| (a.[2] .<< 2));
   u8 (a.[2] .>> 6); u8 ((a.[2] .>> 14) .| (a.[3] .<< 7)); u8 (a.[3] .>> 1);
   u8 (a.[3] .>> 9); u8 ((a.[3] .>> 17) .| (a.[4] .<< 4)); u8 (a.[4] .>> 4);
   u8 (a.[4] .>> 12); u8 ((a.[4] .>> 20) .| (a.[5] .<< 1)); u8 (a.[5] .>> 7);
   u8 ((a.[5] .>> 15) .| (a.[6] .<< 6)); u8 (a.[6] .>> 2); u8 (a.[6] .>> 10);
   u8 ((a.[6] .>> 18) .| (a.[7] .<< 3)); u8 (a.[7] .>> 5); u8 (a.[7] .>> 13);
   u8 a.[8]; u8 (a.[8] .>> 8); u8 ((a.[8] .>> 16) .| (a.[9] .<< 5));
   u8 (a.[9] .>> 3); u8 (a.[9] .>> 11); u8 ((a.[9] .>> 19) .| (a.[10] .<< 2));
   u8 (a.[10] .>> 6); u8 ((a.[10] .>> 14) .| (a.[11] .<< 7)); u8 (a.[11] .>> 1);
   u8 (a.[11] .>> 9); u8 (a.[11] .>> 17)].

Definition sc_reduce (s : list Z) : list Z :=
  let a := sc_low s ++
    [0x1fffff .& (load_4_i64 (drop 28 s) .>> 7);
     0x1fffff .& (load_4_i64 (drop 31 s) .>> 4);
     0x1fffff .& (load_3_i64 (drop 34 s) .>> 1);
     0x1fffff .& (load_4_i64 (drop 36 s) .>> 6);
     0x1fffff .& (load_3_i64 (drop 39 s) .>> 3);
     0x1fffff .& load_3_i64 (drop 42 s);
     0x1fffff .& (load_4_i64 (drop 44 s) .>> 5);
     0x1fffff .& (load_3_i64 (drop 47 s) .>> 2);
     0x1fffff .& (load_4_i64 (drop 49 s) .>> 7);
     0x1fffff .& (load_4_i64 (drop 52 s) .>> 4);
     0x1fffff .& (load_3_i64 (drop 55 s) .>> 1);
     0x1fffff .& (load_4_i64 (drop 57 s) .>> 6);
     load_4_i64 (drop 60 s) .>> 3] in
  sc_pack (sc_reduce_limbs a).

Definition sc_load (s : list Z) : list Z := sc_low s ++ [load_4_i64 (drop 28 s) .>> 7].

Definition sc_product (a b : list Z) : list Z :=
  foldl (fun p i => foldl (fun p j => <[(i + j)%nat := s64 (p.[(i + j)%nat] + s64 (a.[i] * b.[j]))]> p) p (seq 0 12))
    (replicate 24 0) (seq 0 12).

Definition sc_muladd (a b c : list Z) : list Z :=
  let a_limbs := sc_load a in
  let b_limbs := sc_load b in
  let c_limbs := sc_load c in
  let product := sc_product a_limbs b_limbs in
  let product := foldl (fun p i => <[i := s64 (p.[i] + c_limbs.[i])]> p) product (seq 0 12) in
  let product := foldl sc_carry product (seq 0 23) in
  sc_pack (sc_reduce_limbs product).

(** The first of the two functions of this name, which [ed25519_verify] calls. *)
Definition sc_is_valid (s : list Z) : bool :=
  let val := ((s.[31] .<< 24) .| (s.[30] .<< 16) .| (s.[29] .<< 8) .| s.[28]) .>> 7 in
  if L.[11] .>> 17 <? val .>> 17 then false
  else if val .>> 17 <? L.[11] .>> 17 then true
  else
    let limbs := sc_load s in
    let carry := foldl (fun carry i => (u64 (limbs.[i] - L.[i] - carry) .>> 63) .& 1) 0 (seq 0 12) in
    if carry =? 0 then true else negb (carry =? 0).

(** The second one, on a length, with the order in bytes and an int16_t [diff]. *)
Definition L_bytes : list Z :=
  [0xed; 0xd3; 0xf5; 0x5c; 0x1a; 0x63; 0x12; 0x58; 0xd6; 0x9c; 0xf7; 0xa2; 0xde; 0xf9; 0xde; 0x14;
   0; 0; 0; 0; 0; 0; 0; 0; 0; 0; 0; 0; 0; 0; 0; 0x10].

Definition sc_is_valid_len (s : list Z) (len : Z) : bool :=
  if negb (len =? 32) then false
  else
    let borrow := foldl (fun borrow sl => (i16 (sl.1 - sl.2 - borrow) .>> 15) .& 1) 0 (zip s L_bytes) in
    borrow =? 1.

(** ** Keys and signatures *)

Section signatures.
Context (sha512 : list Z -> list Z).

Definition clamp_key (h : list Z) : list Z :=
  let s := take 32 h in
  let s := <[0%nat := s.[0] .& 248]> s in
  let s := <[31%nat := s.[31] .& 127]> s in
  <[31%nat := s.[31] .| 64]> s.

Definition ed25519_public_key (private_key : list Z) : list Z :=
  let h := sha512 private_key in
  let s := clamp_key h in
  let b := basepoint in
  let a := extended_point_scalar_mul b s in
  extended_point_to_bytes a.

Definition ed25519_sign (private_key message : list Z) : list Z :=
  let h := sha512 private_key in
  let s := clamp_key h in
  let b := basepoint in
  let a_point := extended_point_scalar_mul b s in
  let a := extended_point_to_bytes a_point in
  let r_hash := sha512 (slice h 32 32 ++ message) in
  let r := sc_reduce r_hash in
  let r_point := extended_point_scalar_mul b r in
  let r_bytes := extended_point_to_bytes r_point in
  let k_hash := sha512 (r_bytes ++ a ++ message) in
  let k := sc_reduce k_hash in
  let s_scalar := sc_muladd k s r in
  r_bytes ++ s_scalar.

Definition ed25519_verify (public_key message signature : list Z) : bool :=
  match extended_point_from_bytes public_key with
  | None => false
  | Some a_point =>
      let s := slice signature 32 32 in
      if negb (sc_is_valid s) then false
      else
        let k_hash := sha512 (take 32 signature ++ public_key ++ message) in
        let k := sc_reduce k_hash in
        let b := basepoint in
        let sb := extended_point_scalar_mul b s in
        match extended_point_from_bytes (take 32 signature) with
        | None => false
        | Some r_point =>
            let ka := extended_point_scalar_mul a_point k in
            let rhs := extended_point_add r_point ka in
            let lhs_bytes := extended_point_to_bytes sb in
            let rhs_bytes := extended_point_to_bytes rhs in
            constant_time_eq lhs_bytes rhs_bytes
        end
  end.
End signatures.

(** ** Specification: points over the integers modulo the prime *)

(** The curve -x^2 + y^2 = 1 + d x^2 y^2, d = -121665/121666. *)
Definition d25519 : Z := 37095705934669439343138083508754565189542113879843219016388785533085940283555.

Lemma d25519_ok : d25519 * 121666 ≡p -121665.
Proof. vm_compute. reflexivity. Qed.

Definition on_curve (x y : Z) : Prop := y * y - x * x ≡p 1 + d25519 * (x * x) * (y * y).

(** Extended coordinates (X, Y, Z, T). *)
Definition zadd '((x1, y1, z1, t1) : Z * Z * Z * Z) '((x2, y2, z2, t2) : Z * Z * Z * Z) : Z * Z * Z * Z :=
  let a := (y1 - x1) * (y2 - x2) in
  let b := (y1 + x1) * (y2 + x2) in
  let c := t1 * (2 * d25519) * t2 in
  let d := z1 * z2 + z1 * z2 in
  let e := b - a in let f := d - c in let g := d + c in let h := b + a in
  ((e * f) mod P25519, (g * h) mod P25519, (f * g) mod P25519, (e * h) mod P25519).

Definition zdbl '((x, y, z, t) : Z * Z * Z * Z) : Z * Z * Z * Z :=
  let a := x * x in
  let b := y * y in
  let c := z * z + z * z in
  let d := - a in
  let e := (x + y) * (x + y) - a - b in let g := d + b in let f := g - c in let h := d - b in
  ((e * f) mod P25519, (g * h) mod P25519, (f * g) mod P25519, (e * h) mod P25519).

(** The ladder on the pair ([m]P, [m + 1]P), [n] bits of [N] still to come. *)
Fixpoint zladder (N : Z) (n : nat) (p q : Z * Z * Z * Z) : Z * Z * Z * Z :=
  match n with
  | O => p
  | S i => if Z.testbit N (Z.of_nat i) then zladder N i (zadd q p) (zdbl q)
           else zladder N i (zdbl p) (zadd p q)
  end.

Definition zmul (N : Z) (p : Z * Z * Z * Z) : Z * Z * Z * Z := zladder N 256 (0, 1, 1, 0) p.

(** RFC 8032: y in 255 bits, the parity of x above it. *)
Definition zencode '((x, y, z, t) : Z * Z * Z * Z) : list Z :=
  let zi := Zpow_mod z (P25519 - 2) P25519 in
  le_bytes 32 ((y * zi) mod P25519 + 2 ^ 255 * (((x * zi) mod P25519) mod 2)).

(** ** Field lemmas *)

Lemma D_ok : tight D /\ holds D d25519.
Proof. split; [cbn; lia|vm_compute; reflexivity]. Qed.
Lemma D2_ok : tight D2 /\ holds D2 (2 * d25519).
Proof. split; [cbn; lia|vm_compute; reflexivity]. Qed.
Lemma SQRT_M1_ok : tight SQRT_M1 /\ fe_val SQRT_M1 * fe_val SQRT_M1 ≡p -1.
Proof. split; [cbn; lia|vm_compute; reflexivity]. Qed.
Lemma fe_one_ok : tight fe_one /\ holds fe_one 1.
Proof. split; [cbn; lia|vm_compute; reflexivity]. Qed.
Lemma fe_zero_ok : tight fe_zero /\ holds fe_zero 0.
Proof. split; [cbn; lia|vm_compute; reflexivity]. Qed.

#[local] Opaque bnd fe_val fe_mul fe_add fe_sub fe_neg fe_invert fe_to_bytes.

Lemma fe_pow22523_power f : loose f -> power_of (fe_val f) (fe_pow22523 f) (2 ^ 252 - 3).
Proof.
  intros Hf. assert (power_of (fe_val f) f 1) as H1 by (by unfold power_of; rewrite Z.pow_1_r).
  cbv beta delta [fe_pow22523]. repeat power_bind. power_step.
Qed.

Lemma fe_pow22523_tight f : loose f -> loose (fe_pow22523 f).
Proof. intros Hf. by destruct (fe_pow22523_power f Hf). Qed.

(** Parity and zero of the canonical residue. *)
Lemma fe_is_negative_ok f a : loose f -> holds f a ->
  fe_is_negative f = Z.odd (a mod P25519).
Proof.
  intros Hf Ha. unfold fe_is_negative. rewrite fe_to_bytes_ok by done.
  change (fe_val f mod P25519 = a mod P25519) in Ha. rewrite Ha.
  change ((le_bytes 32 ?v).[0]) with (u8 v). set (v := a mod P25519). cbv beta.
  change 1 with (Z.ones 1) at 1. rewrite Z.land_ones by done. change (2 ^ 1) with 2.
  rewrite Zodd_mod. unfold u8. f_equal.
  apply Z.mod_mod_divide. by exists 128.
Qed.

Lemma fe_is_zero_ok f a : loose f -> holds f a -> fe_is_zero f = (a mod P25519 =? 0).
Proof.
  intros Hf Ha. unfold fe_is_zero. rewrite fe_to_bytes_ok by done.
  change (fe_val f mod P25519 = a mod P25519) in Ha. rewrite Ha. change (replicate 32 0) with (le_bytes 32 0).
  pose proof (Z.mod_pos_bound a P25519 ltac:(done)) as Hr.
  destruct (Z.eqb_spec (a mod P25519) 0) as [->|Hn]; [by apply bool_decide_true|].
  apply bool_decide_false. intros He. apply Hn.
  apply (le_bytes_inj 32); [| |done]; unfold fits, P25519 in *; change (8 * Z.of_nat 32) with 256; lia.
Qed.

(** ** Points: the formulas compute [zadd] and [zdbl] *)

Definition pt_holds (P : ExtendedPoint) '((x, y, z, t) : Z * Z * Z * Z) : Prop :=
  (wide P.(px) /\ wide P.(py) /\ wide P.(pz) /\ wide P.(pt))
  /\ (holds P.(px) x /\ holds P.(py) y /\ holds P.(pz) z /\ holds P.(pt) t).

Ltac coordinates := split_and!; try apply holds_mod; first [bound | value].

Lemma add_holds P Q p q : pt_holds P p -> pt_holds Q q -> pt_holds (extended_point_add P Q) (zadd p q).
Proof.
  destruct p as [[[x1 y1] z1] t1], q as [[[x2 y2] z2] t2].
  intros [(? & ? & ? & ?) (? & ? & ? & ?)] [(? & ? & ? & ?) (? & ? & ? & ?)].
  destruct D2_ok. unfold extended_point_add, zadd. cbn [px py pz pt]. cbv zeta. unfold pt_holds. cbn [px py pz pt].
  coordinates.
Qed.

Lemma double_holds P p : pt_holds P p -> pt_holds (extended_point_double P) (zdbl p).
Proof.
  destruct p as [[[x1 y1] z1] t1]. intros [(? & ? & ? & ?) (? & ? & ? & ?)].
  unfold extended_point_double, zdbl, fe_square2, fe_square. cbv zeta. unfold pt_holds. cbn [px py pz pt].
  coordinates.
Qed.

(** ** The ladder *)

Lemma ct_swap_ok a b (c : bool) p q : pt_holds a p -> pt_holds b q ->
  ct_swap a b (Z.b2z c) = if c then (b, a) else (a, b).
Proof.
  destruct p as [[[? ?] ?] ?], q as [[[? ?] ?] ?].
  intros [(A1 & A2 & A3 & A4) _] [(B1 & B2 & B3 & B4) _].
  apply bnd_length in A1, A2, A3, A4, B1, B2, B3, B4. unfold ct_swap.
  change (fe_ct_swap ?x ?y (s64 (- Z.b2z c))) with (fe_cswap x y (Z.b2z c)).
  rewrite !fe_cswap_ok by congruence. destruct a, b; by destruct c.
Qed.

#[local] Opaque extended_point_add extended_point_double.

Lemma mul_loop_holds scalar n r p q : bytes_ok scalar -> pt_holds r.1 p -> pt_holds r.2 q ->
  pt_holds (mul_loop scalar n r).1 (zladder (le_val scalar) n p q).
Proof.
  intros Hs. revert r p q. induction n as [|n IH]; intros [r0 r1] p q H0 H1; [done|].
  cbn [fst snd] in H0, H1. cbn [mul_loop zladder]. unfold mul_step. rewrite bit_of, testbit_le_val by (done || lia).
  rewrite (ct_swap_ok _ _ _ _ _ H0 H1).
  destruct (Z.testbit (le_val scalar) (Z.of_nat n)).
  - pose proof (add_holds _ _ _ _ H1 H0) as Ha. pose proof (double_holds _ _ H1) as Hd.
    rewrite (ct_swap_ok _ _ true _ _ Hd Ha). by apply IH.
  - pose proof (add_holds _ _ _ _ H0 H1) as Ha. pose proof (double_holds _ _ H0) as Hd.
    rewrite (ct_swap_ok _ _ false _ _ Hd Ha). by apply IH.
Qed.

Lemma identity_holds : pt_holds extended_point_identity (0, 1, 1, 0).
Proof.
  destruct fe_one_ok, fe_zero_ok. cbn [pt_holds extended_point_identity px py pz pt].
  split_and!; try done; by apply tight_wide.
Qed.

Lemma scalar_mul_holds P p scalar : bytes_ok scalar -> pt_holds P p ->
  pt_holds (extended_point_scalar_mul P scalar) (zmul (le_val scalar) p).
Proof. intros Hs HP. apply mul_loop_holds; [done|apply identity_holds|done]. Qed.

(** ** Encoding *)

Lemma xor_top t (b : bool) : 0 <= t < 128 -> u8 (t .^ (Z.b2z b .<< 7)) = t + 128 * Z.b2z b.
Proof.
  intros Ht. apply Z.eqb_eq.
  by destruct b; [apply (range_check 128 (fun t => u8 (t .^ (1 .<< 7)) =? t + 128 * 1))
                 |apply (range_check 128 (fun t => u8 (t .^ (0 .<< 7)) =? t + 128 * 0))].
Qed.

(** The sign goes to bit 255. *)
Lemma sign_bit v (b : bool) : 0 <= v < P25519 ->
  <[31%nat := u8 ((le_bytes 32 v).[31] .^ (Z.b2z b .<< 7))]> (le_bytes 32 v)
  = le_bytes 32 (v + 2 ^ 255 * (if b then 1 else 0)).
Proof.
  intros Hv. unfold P25519 in Hv.
  assert (fits (8 * Z.of_nat 32) v) as Hf by (unfold fits; change (8 * Z.of_nat 32) with 256; lia).
  destruct (init_last (le_bytes 32 v) 31 (length_le_bytes 32 v)) as (m & t & E & Hm).
  pose proof (le_val_fits 32 v Hf) as Ev. pose proof (le_bytes_ok 32 v) as Hok. rewrite E in Hok, Ev.
  apply Forall_app in Hok as [Hmo Hto]. apply Forall_cons in Hto as [Hto _].
  rewrite le_val_app, Hm in Ev. cbn [le_val] in Ev. change (8 * Z.of_nat 31) with 248 in Ev.
  pose proof (le_val_bound m Hmo) as Hmb. rewrite Hm in Hmb. unfold fits in Hmb.
  change (8 * Z.of_nat 31) with 248 in Hmb.
  assert (0 <= t < 128) as Ht by (unfold fits in Hto; lia).
  rewrite E at 1 2. replace ((m ++ [t]).[31]) with t by (unfold arr; by rewrite lookup_app_r, Hm by lia).
  rewrite xor_top, insert_app_r_alt, Hm, Nat.sub_diag by (done || lia). cbn [insert list_insert].
  assert (Z.b2z b = if b then 1 else 0) as -> by (by destruct b).
  set (s := if b then 1 else 0). assert (0 <= s <= 1) as Hs by (unfold s; destruct b; lia). clearbody s.
  apply le_val_inj; [apply Forall_app; split; [done|apply Forall_singleton; unfold fits; lia]
    |apply le_bytes_ok|by rewrite length_app, Hm, length_le_bytes|].
  rewrite le_val_fits by (unfold fits; change (8 * Z.of_nat 32) with 256; lia).
  rewrite le_val_app, Hm. cbn [le_val]. change (8 * Z.of_nat 31) with 248. lia.
Qed.

Lemma to_bytes_holds P p : pt_holds P p -> extended_point_to_bytes P = zencode p.
Proof.
  destruct p as [[[x y] z] t]. intros [(Bx & By & Bz & Bt) (Vx & Vy & Vz & Vt)].
  apply wide_loose in Bx, By, Bz. unfold extended_point_to_bytes, zencode.
  destruct (fe_invert_ok _ Bz) as [Bi Vi]. rewrite Zpow_mod_correct by done. set (zi := z ^ (P25519 - 2) mod P25519).
  assert (holds (fe_invert (pz P)) zi) as Hi.
  { apply holds_mod. unfold holds in *. rewrite Vi. by apply eqp_pow. }
  assert (holds (fe_mul (px P) (fe_invert (pz P))) (x * zi)) as Hx by value.
  assert (holds (fe_mul (py P) (fe_invert (pz P))) (y * zi)) as Hy by value.
  rewrite (fe_is_negative_ok _ (x * zi)), fe_to_bytes_ok by first [assumption | bound].
  change (fe_val (fe_mul (py P) (fe_invert (pz P))) mod P25519 = (y * zi) mod P25519) in Hy.
  rewrite Hy, Zmod_odd. apply sign_bit. apply Z.mod_pos_bound. done.
Qed.

(** ** Decompression *)

Lemma eqp_0 a : a mod P25519 = 0 -> a ≡p 0.
Proof. intros H. unfold eqp. by rewrite H. Qed.

(** The two square roots the function tries. *)
Lemma root_curve x y : (d25519 * (y * y) + 1) * (x * x) - (y * y - 1) ≡p 0 -> on_curve x y.
Proof.
  intros H. unfold on_curve.
  transitivity (y * y - x * x + ((d25519 * (y * y) + 1) * (x * x) - (y * y - 1))); [|apply (eqp_intro _ _ 0); ring].
  rewrite H. apply (eqp_intro _ _ 0). ring.
Qed.
Lemma root_curve' x y s : s * s ≡p -1 -> (d25519 * (y * y) + 1) * (x * x) + (y * y - 1) ≡p 0 ->
  on_curve (x * s) y.
Proof.
  intros Hs H. apply root_curve.
  transitivity ((d25519 * (y * y) + 1) * (x * x) * (s * s) - (y * y - 1)); [apply (eqp_intro _ _ 0); ring|].
  rewrite Hs.
  transitivity (0 - ((d25519 * (y * y) + 1) * (x * x) + (y * y - 1))); [apply (eqp_intro _ _ 0); ring|].
  by rewrite H.
Qed.
Lemma on_curve_eqp x x' y : x ≡p x' -> on_curve x y -> on_curve x' y.
Proof. unfold on_curve. by intros <-. Qed.

(** Negation flips the parity of a residue that is not zero. *)
Lemma neg_parity x : x mod P25519 <> 0 -> Z.odd ((- x) mod P25519) = negb (Z.odd (x mod P25519)).
Proof.
  intros Hx. rewrite Z.mod_opp_l_nz, Z.odd_sub by done. by destruct (Z.odd (x mod P25519)).
Qed.

#[local] Opaque fe_pow22523 ed_fe_from_bytes D SQRT_M1 fe_one fe_is_negative fe_is_zero.

(** Either root, when the check passes. *)
Lemma root_ok x u v r y : tight x -> bnd (2 ^ 26) (2 ^ 26) u -> bnd (2 ^ 26) (2 ^ 26) v ->
  holds u (y * y - 1) -> holds v (d25519 * (y * y) + 1) ->
  (if negb (fe_is_zero (fe_sub (fe_mul (fe_mul x x) v) u)) then
     if negb (fe_is_zero (fe_add (fe_mul (fe_mul x x) v) u)) then None else Some (fe_mul x SQRT_M1)
   else Some x) = Some r ->
  tight r /\ on_curve (fe_val r) y.
Proof.
  intros Bx Bu Bv Vu Vv. assert (holds x (fe_val x)) as Vx by done. set (X := fe_val x) in *.
  destruct SQRT_M1_ok as [Bs Vs]. assert (holds SQRT_M1 (fe_val SQRT_M1)) as Vm by done.
  assert (loose (fe_sub (fe_mul (fe_mul x x) v) u)) as L1 by bound.
  assert (loose (fe_add (fe_mul (fe_mul x x) v) u)) as L2 by bound.
  assert (holds (fe_sub (fe_mul (fe_mul x x) v) u) (X * X * (d25519 * (y * y) + 1) - (y * y - 1))) as V1 by value.
  assert (holds (fe_add (fe_mul (fe_mul x x) v) u) (X * X * (d25519 * (y * y) + 1) + (y * y - 1))) as V2 by value.
  rewrite (fe_is_zero_ok _ _ L1 V1), (fe_is_zero_ok _ _ L2 V2).
  destruct (Z.eqb_spec ((X * X * (d25519 * (y * y) + 1) - (y * y - 1)) mod P25519) 0) as [E1|_]; cbn [negb].
  - intros E. apply (inj Some) in E as <-. split; [done|]. apply root_curve. apply eqp_0 in E1. rewrite <- E1.
    apply (eqp_intro _ _ 0). unfold X. ring.
  - destruct (Z.eqb_spec ((X * X * (d25519 * (y * y) + 1) + (y * y - 1)) mod P25519) 0) as [E2|_]; cbn [negb]; [|done].
    intros E. apply (inj Some) in E as <-. split; [bound|].
    apply (on_curve_eqp (X * fe_val SQRT_M1)).
    + symmetry. assert (holds (fe_mul x SQRT_M1) (X * fe_val SQRT_M1)) as H by value. exact H.
    + apply root_curve'; [done|]. apply eqp_0 in E2. rewrite <- E2. apply (eqp_intro _ _ 0). ring.
Qed.

(** The sign: negation keeps the point on the curve and gives the parity asked for. *)
Lemma sign_ok r flip want y : tight r -> on_curve (fe_val r) y ->
  flip = negb (Bool.eqb (fe_is_negative r) want) ->
  let x := if flip then fe_neg r else r in
  tight x /\ on_curve (fe_val x) y
  /\ (fe_val x mod P25519 <> 0 -> Z.odd (fe_val x mod P25519) = want).
Proof.
  intros Br Hr Hf. rewrite (fe_is_negative_ok r (fe_val r)) in Hf by (done || by apply tight_loose).
  destruct flip; cbv zeta.
  - rewrite fe_neg_ok by by apply tight_loose. split_and!; [bound| |].
    + unfold on_curve in *. by replace (- fe_val r * - fe_val r) with (fe_val r * fe_val r) by ring.
    + intros Hn. rewrite neg_parity; [by destruct (Z.odd _), want|].
      intros H0. apply Hn. by rewrite Z.mod_opp_l_z.
  - split_and!; [done..|]. intros _. by destruct (Z.odd _), want.
Qed.

Lemma from_bytes_holds b P : length b = 32%nat -> bytes_ok b -> extended_point_from_bytes b = Some P ->
  exists x, let y := le_val b mod 2 ^ 255 in
    pt_holds P (x, y, 1, x * y) /\ on_curve x y
    /\ (x mod P25519 <> 0 -> Z.odd (x mod P25519) = (b.[31] .>> 7 =? 1)).
Proof.
  intros Hl Hb HP. destruct (ed_fe_from_bytes_ok b Hl Hb) as [By Vy]. cbn zeta.
  set (y := le_val b mod 2 ^ 255) in *. unfold extended_point_from_bytes, fe_square in HP. cbv zeta in HP.
  set (fy := ed_fe_from_bytes b) in *. assert (holds fy y) as Hy by (unfold holds; by rewrite Vy).
  destruct fe_one_ok as [B1 V1], D_ok as [Bd Vd], SQRT_M1_ok as [Bs Vs].
  set (u := fe_sub (fe_mul fy fy) fe_one) in HP. assert (Bu : bnd (2 ^ 26) (2 ^ 26) u) by (unfold u; bound).
  assert (Vu : holds u (y * y - 1)) by (unfold u; value).
  set (v := fe_add (fe_mul (fe_mul fy fy) D) fe_one) in HP. assert (Bv : bnd (2 ^ 26) (2 ^ 26) v) by (unfold v; bound).
  assert (Vv : holds v (y * y * d25519 + 1)) by (unfold v; value).
  match type of HP with context [fe_pow22523 ?w] => assert (Bw : loose (fe_pow22523 w)) by (apply fe_pow22523_tight; bound) end.
  match type of HP with context [fe_mul (fe_mul ?r ?r) v] => set (x := r) in HP; assert (Bx : tight x) by (unfold x; bound) end.
  clearbody x u v fy. clear Bw.
  match type of HP with match ?root with _ => _ end = _ => destruct root as [r|] eqn:Er; [|discriminate HP] end.
  destruct (root_ok x u v r y) as [Br Hr]; [done..|by eapply holds_eq; [exact Vv|apply (eqp_intro _ _ 0); ring]|done|].
  set (flip := negb _) in HP. destruct (sign_ok r flip (b.[31] .>> 7 =? 1) y) as (Bx' & Hx & Hs); [done..|].
  apply (inj Some) in HP as <-. set (x' := if flip then fe_neg r else r) in *. clearbody x'.
  exists (fe_val x'). split; [|exact (conj Hx Hs)]. cbn [pt_holds px py pz pt].
  assert (holds x' (fe_val x')) as Hv by done.
  split_and!; lazymatch goal with |- bnd _ _ _ => bound | |- holds _ _ => value end.
Qed.

(** ** The group law

    [represents P x y]: the point has the affine coordinates x and y, its Z is invertible. No
    use is made of the primality of the modulus: inverses are given. *)
Definition inverse (a i : Z) : Prop := a * i ≡p 1.

Definition represents (P : ExtendedPoint) (x y : Z) : Prop :=
  exists z zi, pt_holds P (x * z, y * z, z, x * y * z) /\ inverse z zi.

Lemma pt_holds_eqp P x y z t x' y' z' t' : pt_holds P (x, y, z, t) ->
  x ≡p x' -> y ≡p y' -> z ≡p z' -> t ≡p t' -> pt_holds P (x', y', z', t').
Proof.
  intros [HB (Hx & Hy & Hz & Ht)] ????. split; [done|]. split_and!; by eapply holds_eq.
Qed.

(** Rewrite with congruences after bringing the goal into the form [lhs ≡p rhs]. *)
Ltac by_ring := apply (eqp_intro _ _ 0); ring.

(** Cancel an inverse: [a * i] can be inserted. *)
Lemma inverse_insert a i b : inverse a i -> b ≡p b * (a * i).
Proof. unfold inverse. intros ->. by_ring. Qed.

Section affine_addition.
Context (x1 y1 x2 y2 i j : Z).
Let k := d25519 * x1 * x2 * y1 * y2.
Context (Hi : inverse (1 + k) i) (Hj : inverse (1 - k) j).
Let x3 := (x1 * y2 + x2 * y1) * i.
Let y3 := (y1 * y2 + x1 * x2) * j.

(** The sum of two points of the curve is on the curve. *)
Lemma sum_on_curve : on_curve x1 y1 -> on_curve x2 y2 -> on_curve x3 y3.
Proof.
  unfold on_curve. intros H1 H2.
  set (N1 := x1 * y2 + x2 * y1). set (N2 := y1 * y2 + x1 * x2).
  set (c1 := d25519 * (x1 * x1) * (y1 * y1)). set (c2 := d25519 * (x2 * x2) * (y2 * y2)).
  set (e1 := y1 * y1 - x1 * x1). set (e2 := y2 * y2 - x2 * x2). fold e1 in H1. fold e2 in H2.
  assert (e1 ≡p 1 + c1) as E1 by exact H1.
  assert (e2 ≡p 1 + c2) as E2 by exact H2.
  assert ((N2 * N2) * ((1 + k) * (1 + k)) - (N1 * N1) * ((1 - k) * (1 - k))
          ≡p (1 + k) * (1 - k) * ((1 + k) * (1 - k)) + d25519 * (N1 * N1) * (N2 * N2)) as HF.
  { transitivity ((1 + k) * (1 - k) * ((1 + k) * (1 - k)) + d25519 * (N1 * N1) * (N2 * N2)
      + (e1 * e2 * (1 + c1 * c2) - 1 + 2 * c1 * c2 - c1 * c1 * (c2 * c2) - c1 * (e2 * e2) - c2 * (e1 * e1)));
      [unfold N1, N2, e1, e2, c1, c2, k; by_ring|].
    rewrite E1, E2. by_ring. }
  unfold inverse in Hi, Hj. fold k in Hi, Hj. unfold x3, y3. fold N1 N2.
  transitivity ((N2 * N2) * (j * j) * (((1 + k) * i) * ((1 + k) * i))
                - (N1 * N1) * (i * i) * (((1 - k) * j) * ((1 - k) * j))); [rewrite Hi, Hj; by_ring|].
  transitivity (((N2 * N2) * ((1 + k) * (1 + k)) - (N1 * N1) * ((1 - k) * (1 - k))) * (i * i * (j * j)));
    [by_ring|].
  rewrite HF.
  transitivity (((1 + k) * i) * ((1 - k) * j) * (((1 + k) * i) * ((1 - k) * j))
                + d25519 * (N1 * i * (N1 * i)) * (N2 * j * (N2 * j))); [by_ring|].
  rewrite Hi, Hj. by_ring.
Qed.

(** [zadd] computes the sum. *)
Lemma zadd_affine P z1 z2 zi1 zi2 : inverse z1 zi1 -> inverse z2 zi2 ->
  pt_holds P (zadd (x1 * z1, y1 * z1, z1, x1 * y1 * z1) (x2 * z2, y2 * z2, z2, x2 * y2 * z2)) ->
  represents P x3 y3.
Proof.
  intros Hz1 Hz2 HP. unfold inverse in *. fold k in Hi, Hj.
  exists (4 * (z1 * z1) * (z2 * z2) * (1 + k) * (1 - k)).
  exists (((P25519 + 1) / 2) * ((P25519 + 1) / 2) * (zi1 * zi1) * (zi2 * zi2) * i * j).
  split.
  - eapply pt_holds_eqp; [exact HP|..]; rewrite eqp_mod; unfold x3, y3.
    + rewrite (inverse_insert (1 + k) i) by done. unfold k. by_ring.
    + rewrite (inverse_insert (1 - k) j) by done. unfold k. by_ring.
    + unfold k. by_ring.
    + rewrite (inverse_insert (1 + k) i), (inverse_insert (1 - k) j) by done. unfold k. by_ring.
  - unfold inverse.
    transitivity (4 * (((P25519 + 1) / 2) * ((P25519 + 1) / 2)) * (z1 * zi1 * (z1 * zi1)) * (z2 * zi2 * (z2 * zi2))
                  * ((1 + k) * i) * ((1 - k) * j)); [by_ring|].
    rewrite Hz1, Hz2, Hi, Hj. vm_compute. reflexivity.
Qed.
End affine_addition.

(** [zdbl] computes the double of a point of the curve. *)
Lemma zdbl_affine P x y i j z zi (k := d25519 * x * x * y * y) :
  inverse (1 + k) i -> inverse (1 - k) j -> on_curve x y -> inverse z zi ->
  pt_holds P (zdbl (x * z, y * z, z, x * y * z)) ->
  represents P ((x * y + x * y) * i) ((y * y + x * x) * j).
Proof.
  intros Hi Hj Hc Hz HP. unfold inverse, on_curve in *.
  assert (Hk : y * y - x * x ≡p 1 + k) by (rewrite Hc; unfold k; by_ring). clearbody k.
  exists (- ((z * z) * (z * z)) * (1 + k) * (1 - k)), (- ((zi * zi) * (zi * zi)) * i * j). split.
  - eapply pt_holds_eqp; [exact HP|..]; rewrite eqp_mod.
    + transitivity ((x * y + x * y) * ((y * y - x * x) - 2) * ((z * z) * (z * z))); [by_ring|]. rewrite Hk.
      transitivity ((x * y + x * y) * ((1 + k) * i) * - (1 - k) * ((z * z) * (z * z))); [|by_ring].
      rewrite Hi. by_ring.
    + transitivity (- (y * y - x * x) * (y * y + x * x) * ((z * z) * (z * z))); [by_ring|]. rewrite Hk.
      transitivity (- (1 + k) * ((1 - k) * j) * (y * y + x * x) * ((z * z) * (z * z))); [|by_ring].
      rewrite Hj. by_ring.
    + transitivity ((y * y - x * x) * ((y * y - x * x) - 2) * ((z * z) * (z * z))); [by_ring|]. rewrite Hk. by_ring.
    + transitivity (- (x * y + x * y) * (y * y + x * x) * ((z * z) * (z * z))); [by_ring|].
      transitivity (- (x * y + x * y) * ((1 + k) * i) * (y * y + x * x) * ((1 - k) * j) * ((z * z) * (z * z)));
        [|by_ring].
      rewrite Hi, Hj. by_ring.
  - unfold inverse. transitivity ((z * zi) * (z * zi) * ((z * zi) * (z * zi)) * ((1 + k) * i) * ((1 - k) * j)); [by_ring|].
    rewrite Hz, Hi, Hj. by_ring.
Qed.

Lemma identity_represents : represents extended_point_identity 0 1.
Proof. exists 1, 1. split; [exact identity_holds|reflexivity]. Qed.

(** ** The base point *)

#[local] Transparent bnd fe_val fe_mul fe_add fe_sub fe_neg fe_invert fe_to_bytes fe_pow22523
  ed_fe_from_bytes D SQRT_M1 fe_one fe_is_negative fe_is_zero.

Lemma basepoint_some : is_Some (extended_point_from_bytes BASE_Y).
Proof.
  assert (bool_decide (is_Some (extended_point_from_bytes BASE_Y)) = true) as H by (vm_compute; reflexivity).
  by apply bool_decide_eq_true in H.
Qed.

#[local] Opaque bnd fe_val fe_mul fe_add fe_sub fe_neg fe_invert fe_to_bytes fe_pow22523
  ed_fe_from_bytes D SQRT_M1 fe_one fe_is_negative fe_is_zero.

(** The point of RFC 8032: y = 4/5, x even. *)
Definition base_y : Z := 46316835694926478169428394003475163141307993866256225615783033603165251855960.

Lemma basepoint_holds : exists x, pt_holds basepoint (x, base_y, 1, x * base_y) /\ on_curve x base_y
  /\ 5 * base_y ≡p 4 /\ Z.even (x mod P25519) = true.
Proof.
  destruct basepoint_some as [P HP]. unfold basepoint. rewrite HP. cbn [default].
  destruct (from_bytes_holds BASE_Y P eq_refl) as (x & HH & HC & HS);
    [apply (bool_decide_unpack _); vm_compute; exact I|exact HP|].
  change (le_val BASE_Y mod 2 ^ 255) with base_y in *. exists x. split_and!; [exact HH|exact HC|reflexivity|].
  rewrite <- Z.negb_odd. destruct (decide (x mod P25519 = 0)) as [E|E]; [by rewrite E|].
  by rewrite (HS E).
Qed.

(** ** Scalars of signatures *)

Lemma sc_is_valid_eq s : bytes_ok s -> sc_is_valid s = (s.[31] <=? 16).
Proof.
  intros Hs. unfold sc_is_valid.
  assert ((((s.[31] .<< 24) .| (s.[30] .<< 16) .| (s.[29] .<< 8) .| s.[28]) .>> 7) .>> 17 = s.[31]) as ->.
  { rewrite Z.shiftr_shiftr by done.
    replace ((s.[31] .<< 24) .| (s.[30] .<< 16) .| (s.[29] .<< 8) .| s.[28])
      with (le_val [s.[28]; s.[29]; s.[30]; s.[31]]).
    - rewrite Z.shiftr_div_pow2 by done. cbn [le_val].
      pose proof (arr_byte s 28 Hs). pose proof (arr_byte s 29 Hs). pose proof (arr_byte s 30 Hs).
      unfold fits in *. div_lia.
    - rewrite <- le32_eq by by apply arr_byte. apply Z.bits_inj'. intros n _. rewrite !Z.lor_spec.
      by destruct (Z.testbit s.[28] n), (Z.testbit (s.[29] .<< 8) n), (Z.testbit (s.[30] .<< 16) n),
        (Z.testbit (s.[31] .<< 24) n). }
  change (L.[11] .>> 17) with 16.
  destruct (Z.ltb_spec 16 s.[31]), (Z.leb_spec s.[31] 16); try lia.
  destruct (s.[31] <? 16); [done|]. by destruct (_ =? 0).
Qed.

Lemma i16_sign n : -256 <= n < 256 -> (i16 n .>> 15) .& 1 = if n <? 0 then 1 else 0.
Proof.
  intros Hn. apply Z.eqb_eq. replace n with ((n + 256) - 256) by lia.
  by apply (range_check 512 (fun m => (i16 (m - 256) .>> 15) .& 1 =? (if m - 256 <? 0 then 1 else 0))); [|lia].
Qed.

(** The borrow out of a subtraction, byte by byte. *)
Lemma borrow_chain s l b : length s = length l -> bytes_ok s -> bytes_ok l -> 0 <= b <= 1 ->
  foldl (fun borrow sl => (i16 (sl.1 - sl.2 - borrow) .>> 15) .& 1) b (zip s l)
  = if le_val s <? le_val l + b then 1 else 0.
Proof.
  intros Hl Hs Hlb. revert b l Hl Hlb. induction Hs as [|x s Hx Hs IH]; intros b [|y l] Hl Hlb Hb; try done.
  - cbn. destruct (Z.ltb_spec 0 (0 + b)); lia.
  - apply Forall_cons in Hlb as [Hy Hlb]. cbn [zip zip_with foldl fst snd].
    assert ((i16 (x - y - b) .>> 15) .& 1 = if x <? y + b then 1 else 0) as ->.
    { unfold fits in Hx, Hy. replace (x <? y + b) with (x - y - b <? 0) by lia. apply i16_sign; lia. }
    destruct (Z.ltb_spec x (y + b)); rewrite IH by (done || (simpl in Hl; lia)); cbn [le_val];
      unfold fits in *;
      repeat match goal with |- context [?m <? ?n] => destruct (Z.ltb_spec m n) end; lia.
Qed.

Lemma sc_is_valid_len_eq s : length s = 32%nat -> bytes_ok s -> sc_is_valid_len s 32 = (le_val s <? le_val L_bytes).
Proof.
  intros Hl Hs. unfold sc_is_valid_len. rewrite borrow_chain; [|done|done|apply (bool_decide_unpack _); vm_compute; exact I|lia].
  rewrite Z.add_0_r. by destruct (le_val s <? le_val L_bytes).
Qed.

Lemma sc_pack_ok a : bytes_ok (sc_pack a).
Proof. unfold sc_pack. solve_bytes. Qed.
Lemma sc_reduce_ok s : bytes_ok (sc_reduce s).
Proof. apply sc_pack_ok. Qed.

(** The encoding of an affine point whose sign bit is right. *)
Lemma encode_affine x y b : Z.odd (x mod P25519) = (b.[31] .>> 7 =? 1) -> y = le_val b mod 2 ^ 255 ->
  y < P25519 -> length b = 32%nat -> bytes_ok b -> zencode (x, y, 1, x * y) = b.
Proof.
  intros Hs -> Hy Hl Hb. unfold zencode. rewrite Zpow_mod_correct, Z.pow_1_l by done.
  change (1 mod P25519) with 1. rewrite !Z.mul_1_r, Zmod_odd, Hs.
  pose proof (Z.mod_pos_bound (le_val b) (2 ^ 255) ltac:(done)) as Hy0.
  rewrite (Z.mod_small (_ mod _) P25519) by lia.
  destruct (init_last b 31 Hl) as (c & t & E & Hc).
  replace (b.[31]) with t by (rewrite E; unfold arr; by rewrite lookup_app_r, Hc by lia).
  pose proof Hb as Hb'. rewrite E in Hb'. apply Forall_app in Hb' as [Hco Hto]. apply Forall_cons in Hto as [Hto _].
  pose proof (le_val_bound c Hco) as Hcb. rewrite Hc in Hcb. unfold fits in Hcb, Hto.
  change (8 * Z.of_nat 31) with 248 in Hcb.
  assert (le_val b = le_val c + 2 ^ 248 * t) as Ev.
  { rewrite E, le_val_app, Hc. cbn [le_val]. change (8 * Z.of_nat 31) with 248. lia. }
  rewrite <- (le_bytes_le_val b) at 2 by done. rewrite Hl. f_equal.
  rewrite Z.shiftr_div_pow2 by done. change (2 ^ 7) with 128.
  assert (t / 128 = 0 \/ t / 128 = 1) as Ht by (clear - Hto; div_lia).
  rewrite (Z.div_mod (le_val b) (2 ^ 255)) at 2 by done.
  assert (le_val b / 2 ^ 255 = t / 128) as ->.
  { rewrite Ev. change (2 ^ 255) with (2 ^ 248 * 128).
    rewrite <- Z.div_div, (Z.mul_comm _ t), Z.div_add, (Z.div_small (le_val c)) by lia. by rewrite Z.add_0_l. }
  destruct Ht as [Ht|Ht]; rewrite Ht; [change (0 =? 1) with false|change (1 =? 1) with true]; cbv iota; ring.
Qed.

(** ** What ed25519.c computes *)

(** C7. The group operations are those of the curve: the sum and the double of points given by
    their coordinates, wherever the denominators of the addition law are invertible; the
    result is on the curve again. *)
Theorem edwards_group_law P Q x1 y1 x2 y2 i j (k := d25519 * x1 * x2 * y1 * y2) :
  represents P x1 y1 -> represents Q x2 y2 -> on_curve x1 y1 -> on_curve x2 y2 ->
  inverse (1 + k) i -> inverse (1 - k) j ->
  let x3 := (x1 * y2 + x2 * y1) * i in
  let y3 := (y1 * y2 + x1 * x2) * j in
  represents (extended_point_add P Q) x3 y3 /\ on_curve x3 y3
  /\ (x2 = x1 -> y2 = y1 -> represents (extended_point_double P) x3 y3).
Proof.
  intros (z1 & zi1 & HP & Hz1) (z2 & zi2 & HQ & Hz2) C1 C2 Hi Hj x3 y3. split_and!.
  - exact (zadd_affine x1 y1 x2 y2 i j Hi Hj _ z1 z2 zi1 zi2 Hz1 Hz2 (add_holds _ _ _ _ HP HQ)).
  - exact (sum_on_curve x1 y1 x2 y2 i j Hi Hj C1 C2).
  - intros -> ->. exact (zdbl_affine _ x1 y1 i j z1 zi1 Hi Hj C1 Hz1 (double_holds _ _ HP)).
Qed.

Lemma edwards_group_law_witness :
  let P := mkPoint
    [52811034; 25909283; 16144682; 17082669; 27570973; 30858332; 40966398; 8378388; 20764389; 8758491]
    [40265304; 26843545; 13421772; 20132659; 26843545; 6710886; 53687091; 13421772; 40265318; 26843545]
    fe_one
    [28827043; 27438313; 39759291; 244362; 8635006; 11264893; 19351346; 13413597; 16611511; 27139452] in
  let x := 15112221349535400772501151409588531511454012693041857206046113283949847762202 in
  let i := 209325846291170943509691191589112255490563248687624486049616149279891676193 in
  let j := 23433485286344922975343343183309822149119477277686524097973672123823657291327 in
  represents (extended_point_add P P) ((x * base_y + x * base_y) * i) ((base_y * base_y + x * x) * j)
  /\ on_curve ((x * base_y + x * base_y) * i) ((base_y * base_y + x * x) * j)
  /\ (x = x -> base_y = base_y ->
      represents (extended_point_double P) ((x * base_y + x * base_y) * i) ((base_y * base_y + x * x) * j)).
Proof.
  intros P x i j. assert (represents P x base_y) as HP.
  { exists 1, 1. split; [|reflexivity]. split; [|split_and!; vm_compute; reflexivity].
    Transparent bnd fe_one. split; [|split; [|split]]; cbn; lia. }
  apply edwards_group_law; [exact HP|exact HP|vm_compute; reflexivity..].
Defined.

(** C29. A point the decompression accepts is on the curve, has the y of the encoding, and x with
    the parity asked for; the encoding of that point gives the bytes back when y was reduced
    and x is not zero. *)
Theorem decompression b P : length b = 32%nat -> bytes_ok b -> extended_point_from_bytes b = Some P ->
  exists x, let y := le_val b mod 2 ^ 255 in
    represents P x y /\ on_curve x y
    /\ (x mod P25519 <> 0 -> y < P25519 -> extended_point_to_bytes P = b).
Proof.
  intros Hl Hb HP. destruct (from_bytes_holds b P Hl Hb HP) as (x & HH & HC & HS). cbn zeta in *.
  set (y := le_val b mod 2 ^ 255) in *. exists x. split_and!; [|exact HC|].
  - exists 1, 1. split; [|reflexivity]. eapply pt_holds_eqp; [exact HH|by_ring..].
  - intros Hx Hy. rewrite (to_bytes_holds _ _ HH). specialize (HS Hx).
    apply (encode_affine x y b HS); [|lia|done|done]. subst y. done.
Qed.
Lemma decompression_witness :
  exists P, extended_point_from_bytes BASE_Y = Some P /\
  exists x, let y := le_val BASE_Y mod 2 ^ 255 in
    represents P x y /\ on_curve x y
    /\ (x mod P25519 <> 0 -> y < P25519 -> extended_point_to_bytes P = BASE_Y).
Proof.
  destruct basepoint_some as [P HP]. exists P. split; [exact HP|].
  apply decompression; [reflexivity|apply (bool_decide_unpack _); vm_compute; exact I|exact HP].
Defined.

(** C28. Scalar multiplication is the ladder over the curve, public keys are the encodings of the
    clamped multiples of the base point, and a signature is accepted exactly when its point
    R and the key A decompress, the last byte of S is at most 16, and the encodings of [S]B
    and R + [k]A agree. *)
Theorem ed25519_api (sha512 : list Z -> list Z) (b : Z * Z * Z * Z) : pt_holds basepoint b ->
  (forall m, length (sha512 m) = 64%nat /\ bytes_ok (sha512 m)) ->
  (forall sk, ed25519_public_key sha512 sk
     = zencode (zmul (clamped (le_val (take 32 (sha512 sk)))) b))
  /\ (forall pk m sig A R a r, length sig = 64%nat -> bytes_ok sig ->
     extended_point_from_bytes pk = Some A -> extended_point_from_bytes (take 32 sig) = Some R ->
     pt_holds A a -> pt_holds R r ->
     let S := slice sig 32 32 in
     let k := le_val (sc_reduce (sha512 (take 32 sig ++ pk ++ m))) in
     ed25519_verify sha512 pk m sig
     = (S.[31] <=? 16) && bool_decide (zencode (zmul (le_val S) b) = zencode (zadd r (zmul k a))))
  /\ (forall pk m sig, extended_point_from_bytes pk = None \/ extended_point_from_bytes (take 32 sig) = None ->
     ed25519_verify sha512 pk m sig = false).
Proof.
  intros Hb Hsha. split_and!.
  - intros sk. destruct (Hsha sk) as [Hl Ho]. unfold ed25519_public_key. cbv zeta.
    change (clamp_key (sha512 sk)) with (clamp (take 32 (sha512 sk))).
    destruct (clamp_ok (take 32 (sha512 sk))) as [Hc Hv]; [by rewrite length_take, Hl|by apply Forall_take|].
    rewrite (to_bytes_holds _ _ (scalar_mul_holds _ _ _ Hc Hb)). by rewrite Hv.
  - intros pk m sig A R a r Hl Ho HA HR Ha Hr S k. unfold ed25519_verify. rewrite HA, HR. cbv zeta. fold S.
    assert (bytes_ok S) as HS by by apply slice_ok.
    rewrite sc_is_valid_eq by done. destruct (S.[31] <=? 16); cbn [negb andb]; [|done].
    rewrite (to_bytes_holds _ _ (scalar_mul_holds _ _ _ HS Hb)).
    rewrite (to_bytes_holds _ _ (add_holds _ _ _ _ Hr (scalar_mul_holds _ _ _ (sc_reduce_ok _) Ha))).
    fold k. apply eq_bool_prop_intro. rewrite bool_decide_spec. rewrite Is_true_true. apply constant_time_eq_spec.
  - intros pk m sig [H|H]; unfold ed25519_verify; rewrite H; [done|].
    destruct (extended_point_from_bytes pk); [|done]. by destruct (negb _).
Qed.

Lemma ed25519_api_witness :
  exists b, pt_holds basepoint b
  /\ (forall sk, ed25519_public_key sha512 sk
     = zencode (zmul (clamped (le_val (take 32 (sha512 sk)))) b))
  /\ (forall pk m sig A R a r, length sig = 64%nat -> bytes_ok sig ->
     extended_point_from_bytes pk = Some A -> extended_point_from_bytes (take 32 sig) = Some R ->
     pt_holds A a -> pt_holds R r ->
     let S := slice sig 32 32 in
     let k := le_val (sc_reduce (sha512 (take 32 sig ++ pk ++ m))) in
     ed25519_verify sha512 pk m sig
     = (S.[31] <=? 16) && bool_decide (zencode (zmul (le_val S) b) = zencode (zadd r (zmul k a))))
  /\ (forall pk m sig, extended_point_from_bytes pk = None \/ extended_point_from_bytes (take 32 sig) = None ->
     ed25519_verify sha512 pk m sig = false).
Proof.
  destruct basepoint_holds as (x & Hb & _). exists (x, base_y, 1, x * base_y). split; [exact Hb|].
  apply ed25519_api; [exact Hb|exact sha512_shape].
Defined.

(** The order of the base point. *)
Definition order25519 : Z := 2 ^ 252 + 27742317777372353535851937790883648493.

(** The two range checks: the one on a length tells whether the scalar is below the order, the
    one of the verification looks at the last byte only and takes the order itself. *)
Theorem scalar_range_checks s : length s = 32%nat -> bytes_ok s ->
  sc_is_valid_len s 32 = (le_val s <? order25519) /\ sc_is_valid s = (s.[31] <=? 16)
  /\ sc_is_valid L_bytes = true /\ sc_is_valid_len L_bytes 32 = false.
Proof.
  intros Hl Hs. rewrite sc_is_valid_eq, sc_is_valid_len_eq by done.
  change (le_val L_bytes) with order25519. done.
Qed.
Lemma scalar_range_checks_witness :
  sc_is_valid_len (replicate 32 15) 32 = (le_val (replicate 32 15) <? order25519)
  /\ sc_is_valid (replicate 32 15) = ((replicate 32 15).[31] <=? 16)
  /\ sc_is_valid L_bytes = true /\ sc_is_valid_len L_bytes 32 = false.
Proof. apply scalar_range_checks; [reflexivity|apply (bool_decide_unpack _); vm_compute; exact I]. Defined.

(** The table [L] of the reduction has the 29-bit pieces of the order in 21-bit limbs: neither
    function reduces modulo the order. *)
Theorem scalar_reduction_wrong :
  sc_reduce (le_bytes 64 order25519) <> le_bytes 32 0
  /\ (let a := le_bytes 32 (2 ^ 250 + 77) in let b := le_bytes 32 (2 ^ 251 + 12345) in
      let c := le_bytes 32 99 in
      sc_muladd a b c <> le_bytes 32 ((le_val a * le_val b + le_val c) mod order25519)).
Proof. split; vm_compute; congruence. Qed.
