(* ===== verification/MeshPacket.v ===== *)
(** * Meshtastic LoRa packets: lunarcore/lunar/meshtastic/packet.h and packet.c

    Parsing and building of the over-the-air packet, the duplicate cache, the
    routing decision, forwarding, statistics and the retransmission table. The
    hash behind the MIC is a parameter ([sha256_hash] is declared, not defined,
    in packet.c); the theorems use the interface [Digest]. *)
From S2P Require Import Prelude Sha256.

(** ** packet.h *)

Inductive Priority := PRIORITY_DEFAULT | PRIORITY_HIGH | PRIORITY_LOW.
Inductive PacketPayloadType := PACKET_PAYLOAD_ENCRYPTED | PACKET_PAYLOAD_DECRYPTED.

Definition VEC_MAX_CAPACITY : nat := 256.

(** [Vec] is the list [data[0 .. len)]; its capacity is [VEC_MAX_CAPACITY]. *)
Record PacketPayload := mkPayload { payload_type : PacketPayloadType; payload_data : list Z }.

(** [rx_snr] (a float) is only ever set to [0.0f] here. *)
Record MeshPacket := mkPacket {
  p_from : Z;
  p_to : Z;
  p_channel : Z;
  p_id : Z;
  p_hop_limit : Z;
  p_want_ack : bool;
  p_priority : Priority;
  p_rx_time : Z;
  p_rx_snr : Z;
  p_rx_rssi : Z;
  p_payload : PacketPayload
}.

Definition LORA_HEADER_SIZE : nat := 17.
Definition MAX_LORA_PAYLOAD : nat := 237.
Definition MIC_SIZE : nat := 4.

Definition OFFSET_TO : nat := 0.
Definition OFFSET_FROM : nat := 4.
Definition OFFSET_ID : nat := 8.
Definition OFFSET_FLAGS : nat := 12.
Definition OFFSET_CHANNEL_HASH : nat := 13.

Definition FLAG_WANT_ACK : Z := 0x01.
Definition FLAG_HOP_LIMIT_MASK : Z := 0x0E.
Definition FLAG_HOP_LIMIT_SHIFT : Z := 1.
Definition FLAG_CHANNEL_MASK : Z := 0xF0.
Definition FLAG_CHANNEL_SHIFT : Z := 4.

(** ** Helpers *)

Definition vec_extend_from_slice (vec data : list Z) : option (list Z) :=
  vec_extend VEC_MAX_CAPACITY vec data.
Definition packet_vec_push (vec : list Z) (byte : Z) : option (list Z) :=
  vec_push VEC_MAX_CAPACITY vec byte.

Definition read_u32_le (data : list Z) : Z :=
  data.[0] .| (data.[1] .<< 8) .| (data.[2] .<< 16) .| (data.[3] .<< 24).

Definition write_u32_le (value : Z) : list Z :=
  [u8 (value .& 0xFF); u8 ((value .>> 8) .& 0xFF);
   u8 ((value .>> 16) .& 0xFF); u8 ((value .>> 24) .& 0xFF)].

Definition compute_channel_hash (channel : Z) : Z :=
  let h := u8 (channel * 0x9E + 0x37) in
  let h := u8 (h .^ (h .>> 4)) in
  u8 (h * 0xB5).

(** ** Parsing and building *)

Section packet.
Context (sha256_hash : list Z -> list Z).

Definition compute_mic (data : list Z) : list Z := take MIC_SIZE (sha256_hash data).

(** A failed MIC comparison has an empty branch: the packet is accepted. *)
Definition parse_lora_packet (data : list Z) : option MeshPacket :=
  if (length data <? LORA_HEADER_SIZE + MIC_SIZE)%nat then None
  else
    let to := read_u32_le (slice data OFFSET_TO 4) in
    let from := read_u32_le (slice data OFFSET_FROM 4) in
    let id := read_u32_le (slice data OFFSET_ID 4) in
    let flags := data.[OFFSET_FLAGS] in
    let channel_hash := data.[OFFSET_CHANNEL_HASH] in
    let want_ack := negb (flags .& FLAG_WANT_ACK =? 0) in
    let hop_limit := u8 ((flags .& FLAG_HOP_LIMIT_MASK) .>> FLAG_HOP_LIMIT_SHIFT) in
    let channel := u8 ((flags .& FLAG_CHANNEL_MASK) .>> FLAG_CHANNEL_SHIFT) in
    let payload_end := (length data - MIC_SIZE)%nat in
    let payload_start := LORA_HEADER_SIZE in
    if (payload_end <=? payload_start)%nat then None
    else
      payload ← vec_extend_from_slice [] (slice data payload_start (payload_end - payload_start));
      let mic_ok :=
        constant_time_eq (drop payload_end data) (compute_mic (take payload_end data)) in
      let packet :=
        mkPacket from to channel id hop_limit want_ack PRIORITY_DEFAULT 0 0 0
          (mkPayload PACKET_PAYLOAD_ENCRYPTED payload) in
      if negb mic_ok then Some packet else Some packet.

Definition build_flags (channel hop_limit : Z) (want_ack : bool) : Z :=
  u8 ((if want_ack then FLAG_WANT_ACK else 0)
      .| ((hop_limit .& 0x07) .<< FLAG_HOP_LIMIT_SHIFT)
      .| ((channel .& 0x0F) .<< FLAG_CHANNEL_SHIFT)).

Definition build_lora_packet (from to id channel hop_limit : Z) (want_ack : bool)
    (payload : list Z) : option (list Z) :=
  let total_len := (LORA_HEADER_SIZE + length payload + MIC_SIZE)%nat in
  if (256 <? total_len)%nat || (MAX_LORA_PAYLOAD <? length payload)%nat then None
  else
    out ← vec_extend_from_slice [] (write_u32_le to);
    out ← vec_extend_from_slice out (write_u32_le from);
    out ← vec_extend_from_slice out (write_u32_le id);
    out ← packet_vec_push out (build_flags channel hop_limit want_ack);
    out ← packet_vec_push out (compute_channel_hash channel);
    out ← packet_vec_push out 0;
    out ← packet_vec_push out 0;
    out ← vec_extend_from_slice out payload;
    vec_extend_from_slice out (compute_mic out).

Definition create_forward_packet (original : MeshPacket) (payload : list Z) : option (list Z) :=
  if p_hop_limit original =? 0 then None
  else build_lora_packet (p_from original) (p_to original) (p_id original) (p_channel original)
         (p_hop_limit original - 1) (p_want_ack original) payload.
End packet.

(** ** PacketCache *)

Definition PACKET_CACHE_SIZE : nat := 32.

(** An entry is [{from, packet_id, timestamp}]. *)
Abbreviation entry := (Z * Z * Z)%type.

Record PacketCache := mkCache { c_entries : list entry; c_index : nat }.

Definition packet_cache_init : PacketCache :=
  mkCache (replicate PACKET_CACHE_SIZE (0, 0, 0)) 0.

Definition entry_matches (from packet_id : Z) (e : entry) : bool :=
  let '(f, id, _) := e in (f =? from) && (id =? packet_id) && negb (f =? 0).

Definition packet_cache_is_duplicate (cache : PacketCache) (from packet_id : Z) : bool :=
  existsb (entry_matches from packet_id) (c_entries cache).

Definition packet_cache_add (cache : PacketCache) (from packet_id timestamp : Z) : PacketCache :=
  mkCache (<[c_index cache := (from, packet_id, timestamp)]> (c_entries cache))
    ((c_index cache + 1) mod PACKET_CACHE_SIZE).

Definition packet_cache_check_and_add (cache : PacketCache) (from packet_id timestamp : Z)
    : PacketCache * bool :=
  if packet_cache_is_duplicate cache from packet_id then (cache, true)
  else (packet_cache_add cache from packet_id timestamp, false).

Definition clear_old_entry (current_time max_age : Z) (e : entry) : entry :=
  let '(f, _, entry_time) := e in
  if negb (f =? 0) then
    let age := if entry_time <? current_time then current_time - entry_time else 0 in
    if max_age <? age then (0, 0, 0) else e
  else e.

Definition packet_cache_clear_old (cache : PacketCache) (current_time max_age : Z) : PacketCache :=
  mkCache (clear_old_entry current_time max_age <$> c_entries cache) (c_index cache).

(** ** Routing *)

Inductive RoutingDecision :=
  ROUTING_DECISION_LOCAL | ROUTING_DECISION_FORWARD | ROUTING_DECISION_DROP.

Definition route_packet (packet : MeshPacket) (our_node_id : Z) (cache : PacketCache)
    (timestamp : Z) : PacketCache * RoutingDecision :=
  let '(cache, dup) :=
    packet_cache_check_and_add cache (p_from packet) (p_id packet) timestamp in
  if dup then (cache, ROUTING_DECISION_DROP)
  else
    let is_broadcast := p_to packet =? 0xFFFFFFFF in
    let is_for_us := p_to packet =? our_node_id in
    if is_for_us || is_broadcast then
      if is_broadcast && (0 <? p_hop_limit packet) then (cache, ROUTING_DECISION_FORWARD)
      else (cache, ROUTING_DECISION_LOCAL)
    else if 0 <? p_hop_limit packet then (cache, ROUTING_DECISION_FORWARD)
    else (cache, ROUTING_DECISION_DROP).

(** ** PacketStats *)

Record PacketStats := mkStats {
  rx_total : Z;
  rx_local : Z;
  rx_forwarded : Z;
  rx_dropped_dup : Z;
  rx_dropped_expired : Z;
  rx_bad : Z;
  tx_total : Z;
  tx_retransmit : Z;
  tx_fail : Z
}.

Definition packet_stats_init : PacketStats := mkStats 0 0 0 0 0 0 0 0 0.

Definition packet_stats_record_rx (s : PacketStats) (decision : RoutingDecision) : PacketStats :=
  let 'mkStats t l f d e b tx tr tf := s in
  let t := u32 (t + 1) in
  match decision with
  | ROUTING_DECISION_LOCAL => mkStats t (u32 (l + 1)) f d e b tx tr tf
  | ROUTING_DECISION_FORWARD => mkStats t l (u32 (f + 1)) d e b tx tr tf
  | ROUTING_DECISION_DROP => mkStats t l f (u32 (d + 1)) e b tx tr tf
  end.

Definition packet_stats_record_rx_bad (s : PacketStats) : PacketStats :=
  let 'mkStats t l f d e b tx tr tf := s in
  mkStats (u32 (t + 1)) l f d e (u32 (b + 1)) tx tr tf.

Definition packet_stats_record_tx (s : PacketStats) (success : bool) : PacketStats :=
  let 'mkStats t l f d e b tx tr tf := s in
  mkStats t l f d e b (u32 (tx + 1)) tr (if negb success then u32 (tf + 1) else tf).

Definition packet_stats_record_retransmit (s : PacketStats) : PacketStats :=
  let 'mkStats t l f d e b tx tr tf := s in mkStats t l f d e b tx (u32 (tr + 1)) tf.

(** The calls the receive and transmit paths make. *)
Inductive stats_step : PacketStats -> PacketStats -> Prop :=
  | step_rx s d : stats_step s (packet_stats_record_rx s d)
  | step_rx_bad s : stats_step s (packet_stats_record_rx_bad s)
  | step_tx s b : stats_step s (packet_stats_record_tx s b)
  | step_retransmit s : stats_step s (packet_stats_record_retransmit s).

(** ** AckTracker *)

Record PendingAck := mkAck {
  a_packet_id : Z;
  a_to : Z;
  a_packet_data : list Z;
  a_tx_count : Z;            (* uint8_t *)
  a_max_retransmit : Z;      (* uint8_t *)
  a_last_tx_time : Z;
  a_retransmit_timeout : Z
}.

Definition ACK_TRACKER_SIZE : nat := 8.

(** Slot [i] is [(pending_valid[i], pending[i])]. *)
Abbreviation AckTracker := (list (bool * PendingAck)).

Definition ack_tracker_init : AckTracker :=
  replicate ACK_TRACKER_SIZE (false, mkAck 0 0 [] 0 0 0 0).

Fixpoint ack_tracker_add (tracker : AckTracker) (ack : PendingAck) : option AckTracker :=
  match tracker with
  | [] => None
  | (valid, p) :: tracker =>
      if negb valid then Some ((true, ack) :: tracker)
      else cons (valid, p) <$> ack_tracker_add tracker ack
  end.

Definition slot_matches (to packet_id : Z) (s : bool * PendingAck) : bool :=
  s.1 && ((a_to s.2 =? to) && (a_packet_id s.2 =? packet_id)).

Definition ack_tracker_is_pending (tracker : AckTracker) (to packet_id : Z) : bool :=
  existsb (slot_matches to packet_id) tracker.

Fixpoint ack_tracker_handle_ack (tracker : AckTracker) (from request_id : Z) : AckTracker * bool :=
  match tracker with
  | [] => ([], false)
  | s :: tracker =>
      if slot_matches from request_id s then ((false, s.2) :: tracker, true)
      else let '(tracker, r) := ack_tracker_handle_ack tracker from request_id in (s :: tracker, r)
  end.

Fixpoint ack_tracker_get_retransmit (tracker : AckTracker) (current_time : Z)
    : AckTracker * option (list Z) :=
  match tracker with
  | [] => ([], None)
  | (valid, ack) :: rest =>
      let continue s :=
        let '(rest, r) := ack_tracker_get_retransmit rest current_time in (s :: rest, r) in
      if valid then
        let elapsed :=
          if a_last_tx_time ack <? current_time then current_time - a_last_tx_time ack else 0 in
        if a_retransmit_timeout ack <=? elapsed then
          if a_tx_count ack <? a_max_retransmit ack then
            ((true, mkAck (a_packet_id ack) (a_to ack) (a_packet_data ack)
                      (u8 (a_tx_count ack + 1)) (a_max_retransmit ack) current_time
                      (a_retransmit_timeout ack)) :: rest,
             Some (a_packet_data ack))
          else continue (false, ack)
        else continue (valid, ack)
      else continue (valid, ack)
  end.

Definition ack_tracker_clear (tracker : AckTracker) : AckTracker :=
  (fun s : bool * PendingAck => (false, s.2)) <$> tracker.

Definition ack_tracker_pending_count (tracker : AckTracker) : nat :=
  foldl (fun (count : nat) (s : bool * PendingAck) => if s.1 then S count else count) O tracker.

(** ** Building and parsing: lemmas *)

Lemma write_u32_le_bytes v : write_u32_le v = le_bytes 4 v.
Proof. apply wr32_eq. Qed.

Lemma read_write_u32_le v : fits 32 v -> read_u32_le (le_bytes 4 v) = v.
Proof.
  intros Hv. unfold read_u32_le, arr. cbn [le_bytes lookup list_lookup default from_option id].
  rewrite le32_eq by auto with word.
  change (le_val (le_bytes 4 v) = v). by apply le_val_fits.
Qed.

Definition flags_ok (c h : Z) : bool :=
  forallb (fun b : bool =>
    let flags := u8 ((if b then FLAG_WANT_ACK else 0) .| (h .<< FLAG_HOP_LIMIT_SHIFT)
                     .| (c .<< FLAG_CHANNEL_SHIFT)) in
    Bool.eqb (negb (flags .& FLAG_WANT_ACK =? 0)) b
    && (u8 ((flags .& FLAG_HOP_LIMIT_MASK) .>> FLAG_HOP_LIMIT_SHIFT) =? h)
    && (u8 ((flags .& FLAG_CHANNEL_MASK) .>> FLAG_CHANNEL_SHIFT) =? c)) [true; false].

(** The flag byte and the three fields the parser takes from it. *)
Lemma build_flags_fields channel hop_limit want_ack :
  fits 8 channel -> fits 8 hop_limit ->
  let flags := build_flags channel hop_limit want_ack in
  negb (flags .& FLAG_WANT_ACK =? 0) = want_ack
  /\ u8 ((flags .& FLAG_HOP_LIMIT_MASK) .>> FLAG_HOP_LIMIT_SHIFT) = hop_limit mod 8
  /\ u8 ((flags .& FLAG_CHANNEL_MASK) .>> FLAG_CHANNEL_SHIFT) = channel mod 16.
Proof.
  intros Hc Hh. cbn zeta. unfold build_flags.
  change 0x07 with (Z.ones 3). change 0x0F with (Z.ones 4). rewrite !Z.land_ones by lia.
  assert (flags_ok (channel mod 2 ^ 4) (hop_limit mod 2 ^ 3) = true) as HP.
  { apply (range_check2 16 8 flags_ok); [vm_compute; done|apply Z.mod_pos_bound; lia..]. }
  unfold flags_ok in HP. rewrite List.forallb_forall in HP.
  specialize (HP want_ack). cbv beta in HP. rewrite !andb_true_iff, eqb_true_iff, !Z.eqb_eq in HP.
  destruct HP as [[? ?] ?]; [destruct want_ack; simpl; auto|done].
Qed.

Section packet_lemmas.
Context (H : list Z -> list Z) `{!Digest H}.

Definition packet_header (from to id channel hop_limit : Z) (want_ack : bool) : list Z :=
  le_bytes 4 to ++ le_bytes 4 from ++ le_bytes 4 id
  ++ [build_flags channel hop_limit want_ack; compute_channel_hash channel; 0; 0].

Lemma length_packet_header from to id channel hop_limit want_ack :
  length (packet_header from to id channel hop_limit want_ack) = 16%nat.
Proof. done. Qed.

Lemma length_compute_mic d : length (compute_mic H d) = 4%nat.
Proof. unfold compute_mic. rewrite length_take, digest_length. done. Qed.

Lemma build_lora_packet_eq from to id channel hop_limit want_ack payload :
  build_lora_packet H from to id channel hop_limit want_ack payload
  = if (length payload <=? 235)%nat then
      let body := packet_header from to id channel hop_limit want_ack ++ payload in
      Some (body ++ compute_mic H body)
    else None.
Proof.
  unfold build_lora_packet, LORA_HEADER_SIZE, MIC_SIZE, MAX_LORA_PAYLOAD.
  rewrite !write_u32_le_bytes.
  destruct (Nat.leb_spec (length payload) 235) as [Hp|Hp].
  - assert ((256 <? 17 + length payload + 4)%nat = false) as -> by (apply Nat.ltb_ge; lia).
    assert ((237 <? length payload)%nat = false) as -> by (apply Nat.ltb_ge; lia).
    cbn [orb mbind option_bind].
    unfold vec_extend_from_slice, packet_vec_push, VEC_MAX_CAPACITY.
    repeat first [ rewrite vec_extend_Some
                     by (rewrite ?length_app, ?length_le_bytes; cbn [length]; lia)
                 | rewrite vec_push_Some
                     by (rewrite ?length_app, ?length_le_bytes; cbn [length]; lia)
                 | progress cbn [mbind option_bind] ].
    assert (forall l, l = packet_header from to id channel hop_limit want_ack ++ payload ->
              vec_extend 256 l (compute_mic H l) = Some (l ++ compute_mic H l)) as Hx.
    { intros l ->. apply vec_extend_Some.
      rewrite length_app, length_packet_header, length_compute_mic. lia. }
    rewrite Hx; unfold packet_header; by rewrite <- ?app_assoc.
  - rewrite (proj2 (Nat.ltb_lt _ _)) by lia. done.
Qed.

(** What the parser makes of a built header followed by [r]: byte 16, the
    first after the header as built, is skipped. *)
Lemma parse_packet_header from to id channel hop_limit want_ack r :
  fits 32 from -> fits 32 to -> fits 32 id -> fits 8 channel -> fits 8 hop_limit ->
  (6 <= length r <= 261)%nat ->
  parse_lora_packet H (packet_header from to id channel hop_limit want_ack ++ r)
  = Some (mkPacket from to (channel mod 16) id (hop_limit mod 8) want_ack PRIORITY_DEFAULT 0 0 0
            (mkPayload PACKET_PAYLOAD_ENCRYPTED (slice r 1 (length r - 5)))).
Proof.
  intros Hf Ht Hi Hc Hh Hr. set (hdr := packet_header _ _ _ _ _ _).
  assert (length hdr = 16%nat) as Hlen by done.
  assert (slice hdr 0 4 = le_bytes 4 to /\ slice hdr 4 4 = le_bytes 4 from
          /\ slice hdr 8 4 = le_bytes 4 id
          /\ hdr.[12] = build_flags channel hop_limit want_ack) as (E1 & E2 & E3 & E4) by done.
  assert ((hdr ++ r).[12] = hdr.[12]) as E5.
  { unfold arr. by rewrite lookup_app_l by (rewrite Hlen; lia). }
  destruct (build_flags_fields channel hop_limit want_ack Hc Hh) as (F1 & F2 & F3).
  unfold parse_lora_packet, LORA_HEADER_SIZE, MIC_SIZE, OFFSET_TO, OFFSET_FROM, OFFSET_ID,
    OFFSET_FLAGS, vec_extend_from_slice, VEC_MAX_CAPACITY.
  rewrite (slice_app_l hdr r 0), (slice_app_l hdr r 4), (slice_app_l hdr r 8) by (rewrite Hlen; lia).
  rewrite E1, E2, E3, E5, E4, !read_write_u32_le by done.
  rewrite !(length_app hdr r), Hlen.
  rewrite (proj2 (Nat.ltb_ge _ _)) by lia. cbv zeta.
  rewrite (proj2 (Nat.leb_gt _ _)) by lia.
  rewrite slice_app_r, Hlen by (rewrite Hlen; lia).
  assert (16 + length r - 4 - 17 = length r - 5)%nat as -> by lia.
  change (17 - 16)%nat with 1%nat.
  rewrite vec_extend_Some by (rewrite length_slice; simpl; lia).
  cbn [mbind option_bind app]. rewrite F1, F2, F3. by destruct (constant_time_eq _ _).
Qed.

Lemma parse_too_short d : (length d < 22)%nat -> parse_lora_packet H d = None.
Proof.
  intros Hd. unfold parse_lora_packet, LORA_HEADER_SIZE, MIC_SIZE. cbv zeta.
  destruct (Nat.ltb_spec (length d) (17 + 4)); [done|].
  by rewrite (proj2 (Nat.leb_le _ _)) by lia.
Qed.
End packet_lemmas.

(** ** The duplicate cache as a queue: lemmas *)

(** The entries from the oldest to the newest. *)
Definition cache_queue (c : PacketCache) : list entry :=
  drop (c_index c) (c_entries c) ++ take (c_index c) (c_entries c).

Definition cache_wf (c : PacketCache) : Prop :=
  length (c_entries c) = PACKET_CACHE_SIZE /\ (c_index c < PACKET_CACHE_SIZE)%nat.

Lemma cache_wf_init : cache_wf packet_cache_init.
Proof. split; [done|]. unfold PACKET_CACHE_SIZE. simpl. lia. Qed.

Lemma cache_wf_add c f i t : cache_wf c -> cache_wf (packet_cache_add c f i t).
Proof.
  intros [Hl Hi]. split; cbn [packet_cache_add c_entries c_index].
  - by rewrite length_insert.
  - by apply Nat.mod_upper_bound.
Qed.

Lemma cache_wf_check_and_add c f i t :
  cache_wf c -> cache_wf (packet_cache_check_and_add c f i t).1.
Proof.
  intros Hc. unfold packet_cache_check_and_add.
  destruct (packet_cache_is_duplicate c f i); [done|]. by apply cache_wf_add.
Qed.

Lemma length_cache_queue c : cache_wf c -> length (cache_queue c) = PACKET_CACHE_SIZE.
Proof.
  intros [Hl Hi]. unfold cache_queue. rewrite length_app, length_drop, length_take, Hl. lia.
Qed.

(** Adding drops the oldest entry and appends the new one. *)
Lemma cache_queue_add c f i t :
  cache_wf c -> cache_queue (packet_cache_add c f i t) = drop 1 (cache_queue c) ++ [(f, i, t)].
Proof.
  intros [Hl Hi]. destruct c as [es n]. unfold cache_queue, packet_cache_add.
  cbn [c_entries c_index] in *.
  destruct (lookup_lt_is_Some_2 es n) as [x Hx]; [lia|].
  rewrite (drop_S _ _ _ Hx). cbn [app drop].
  rewrite insert_take_drop by lia.
  assert (length (take n es) = n) as Ht by (rewrite length_take; lia).
  destruct (decide (n + 1 < PACKET_CACHE_SIZE)%nat) as [Hn|Hn].
  - rewrite Nat.mod_small by done.
    rewrite drop_app_ge, take_app_ge by (rewrite Ht; lia). rewrite Ht.
    replace (n + 1 - n)%nat with 1%nat by lia. cbn [drop take]. by rewrite drop_0, take_0, app_assoc.
  - assert (n = 31)%nat as -> by (unfold PACKET_CACHE_SIZE in *; lia).
    change ((31 + 1) mod PACKET_CACHE_SIZE)%nat with 0%nat.
    rewrite drop_0, take_0, app_nil_r. rewrite !(drop_ge es 32) by (rewrite Hl; done). done.
Qed.

Lemma existsb_app_swap {A} (P : A -> bool) l1 l2 : existsb P (l1 ++ l2) = existsb P (l2 ++ l1).
Proof. rewrite !existsb_app. apply orb_comm. Qed.

Lemma is_duplicate_queue c f i :
  packet_cache_is_duplicate c f i = existsb (entry_matches f i) (cache_queue c).
Proof.
  unfold packet_cache_is_duplicate, cache_queue.
  by rewrite existsb_app_swap, take_drop.
Qed.

Lemma cache_queue_clear c now age :
  cache_queue (packet_cache_clear_old c now age) = clear_old_entry now age <$> cache_queue c.
Proof. unfold cache_queue. simpl. by rewrite fmap_app, fmap_drop, fmap_take. Qed.

Lemma entry_matches_true f i e :
  entry_matches f i e = true <-> (exists t, e = (f, i, t)) /\ f <> 0.
Proof.
  destruct e as [[g j] t]. unfold entry_matches.
  rewrite !andb_true_iff, negb_true_iff, !Z.eqb_eq, Z.eqb_neq. split.
  - intros [[-> ->] ?]. eauto.
  - intros [[t' [= -> -> ->]] ?]. done.
Qed.

Lemma is_duplicate_spec c f i :
  packet_cache_is_duplicate c f i = true
  <-> f <> 0 /\ exists t, (f, i, t) ∈ cache_queue c.
Proof.
  rewrite is_duplicate_queue, existsb_exists. split.
  - intros (e & He & Hm). apply entry_matches_true in Hm as [[t ->] ?].
    split; [done|]. exists t. by apply list_elem_of_In.
  - intros [Hf [t Ht]]. exists (f, i, t). split; [by apply list_elem_of_In|].
    apply entry_matches_true. eauto.
Qed.

(** Ageing keeps an entry or clears it to node 0. *)
Lemma clear_old_entry_keeps now age f i t e :
  f <> 0 ->
  clear_old_entry now age e = (f, i, t) <-> e = (f, i, t) /\ Z.max 0 (now - t) <= age.
Proof.
  intros Hf. destruct e as [[g j] s]. unfold clear_old_entry.
  assert (forall x, (if s <? now then now - s else 0) = x -> x = Z.max 0 (now - s)) as Hx
    by (intros x <-; destruct (Z.ltb_spec s now); lia).
  rewrite (Hx _ eq_refl). clear Hx.
  destruct (Z.eqb_spec g 0) as [->|Hg]; cbn [negb]; [split; [|intros [??]]; congruence|].
  destruct (Z.ltb_spec age (Z.max 0 (now - s))); split; intros; simplify_eq; try done.
  - destruct H0. simplify_eq. lia.
  - by destruct H0.
Qed.

(** Additions in a row: the queue keeps the newest 32 of everything. *)
Definition cache_add_entry (c : PacketCache) (e : entry) : PacketCache :=
  let '(f, i, t) := e in packet_cache_add c f i t.

Lemma cache_wf_adds c l : cache_wf c -> cache_wf (foldl cache_add_entry c l).
Proof.
  revert c. induction l as [|[[f i] t] l IH]; intros c Hc; [done|].
  by apply IH, cache_wf_add.
Qed.

Lemma cache_queue_adds c l :
  cache_wf c -> cache_queue (foldl cache_add_entry c l) = drop (length l) (cache_queue c ++ l).
Proof.
  revert c. induction l as [|[[f i] t] l IH]; intros c Hc; cbn [foldl length].
  - by rewrite drop_0, app_nil_r.
  - pose proof (length_cache_queue c Hc) as Hq.
    rewrite IH by (by apply cache_wf_add). cbn [cache_add_entry].
    rewrite cache_queue_add by done. rewrite <- app_assoc. cbn [app].
    change (S (length l)) with (1 + length l)%nat. rewrite <- drop_drop. f_equal. rewrite drop_app_le; [done|].
    rewrite Hq. unfold PACKET_CACHE_SIZE. lia.
Qed.

(** The entry of a packet just added survives [k <= 31] further additions in the
    last [k + 1] places of the queue. *)
Definition recent (c : PacketCache) (e : entry) (k : nat) : Prop :=
  cache_wf c /\ e ∈ drop (31 - k) (cache_queue c).

Lemma recent_add c f i t : cache_wf c -> recent (packet_cache_add c f i t) (f, i, t) 0.
Proof.
  intros Hc. split; [by apply cache_wf_add|]. rewrite cache_queue_add by done.
  rewrite drop_app_ge; rewrite length_drop, length_cache_queue by done; [|done].
  by apply list_elem_of_singleton.
Qed.

Lemma recent_step c e k f i t :
  (k < 31)%nat -> recent c e k -> recent (packet_cache_check_and_add c f i t).1 e (S k).
Proof.
  intros Hk [Hc He]. unfold packet_cache_check_and_add.
  destruct (packet_cache_is_duplicate c f i); cbn [fst].
  - split; [done|]. replace (31 - k)%nat with ((31 - S k) + 1)%nat in He by lia.
    rewrite <- drop_drop in He. apply list_elem_of_In in He. apply list_elem_of_In.
    rewrite <- (take_drop 1 (drop (31 - S k) _)). apply List.in_or_app. by right.
  - split; [by apply cache_wf_add|]. rewrite cache_queue_add by done.
    rewrite drop_app_le by (rewrite length_drop, length_cache_queue by done;
      unfold PACKET_CACHE_SIZE; lia).
    rewrite drop_drop. replace (1 + (31 - S k))%nat with (31 - k)%nat by lia.
    apply elem_of_app. by left.
Qed.

Lemma recent_duplicate c f i t k : f <> 0 -> recent c (f, i, t) k ->
  packet_cache_is_duplicate c f i = true.
Proof.
  intros Hf [_ He]. apply is_duplicate_spec. split; [done|]. exists t.
  rewrite <- (take_drop (31 - k) (cache_queue c)). apply elem_of_app. by right.
Qed.

Lemma route_packet_cache p us c t :
  (route_packet p us c t).1 = (packet_cache_check_and_add c (p_from p) (p_id p) t).1.
Proof.
  unfold route_packet. destruct (packet_cache_check_and_add _ _ _ _) as [c' []]; [done|].
  by destruct (_ || _), (p_to p =? 0xFFFFFFFF), (0 <? p_hop_limit p).
Qed.

Definition route_all (us : Z) (c : PacketCache) (l : list (MeshPacket * Z)) : PacketCache :=
  foldl (fun c pt => (route_packet pt.1 us c pt.2).1) c l.

Lemma recent_route_all us c e k l :
  (k + length l <= 31)%nat -> recent c e k -> recent (route_all us c l) e (k + length l).
Proof.
  revert c k. induction l as [|[p t] l IH]; intros c k Hk Hr; cbn [length] in *.
  - by rewrite Nat.add_0_r.
  - replace (k + S (length l))%nat with (S k + length l)%nat by lia.
    apply IH; [lia|]. cbn [fst snd]. rewrite route_packet_cache. by apply recent_step; [lia|].
Qed.

(** ** Relaying: lemmas *)

(** A node that receives [p] forwards it with [payload]; the next one parses it. *)
Definition relay (H : list Z -> list Z) (p : MeshPacket) (payload : list Z) : option MeshPacket :=
  out ← create_forward_packet H p payload; parse_lora_packet H out.

Fixpoint relays (H : list Z -> list Z) (p : MeshPacket) (payloads : list (list Z))
    : option MeshPacket :=
  match payloads with
  | [] => Some p
  | payload :: payloads => p' ← relay H p payload; relays H p' payloads
  end.

(** The ranges of the fields of a parsed packet. *)
Record packet_wf (p : MeshPacket) : Prop := mk_packet_wf {
  wf_from : fits 32 (p_from p);
  wf_to : fits 32 (p_to p);
  wf_id : fits 32 (p_id p);
  wf_channel : fits 4 (p_channel p);
  wf_hop_limit : fits 3 (p_hop_limit p)
}.

Lemma relay_step H `{!Digest H} p payload p' :
  packet_wf p -> relay H p payload = Some p' ->
  packet_wf p' /\ p_hop_limit p' = p_hop_limit p - 1
  /\ p_from p' = p_from p /\ p_to p' = p_to p /\ p_id p' = p_id p
  /\ p_channel p' = p_channel p /\ p_want_ack p' = p_want_ack p.
Proof.
  intros [Hf Ht Hi Hc Hh] Hr. unfold relay, create_forward_packet in Hr.
  destruct (Z.eqb_spec (p_hop_limit p) 0); [done|].
  rewrite build_lora_packet_eq in Hr by done.
  destruct (Nat.leb_spec (length payload) 235) as [Hp|]; [|done].
  cbv zeta in Hr. cbn [mbind option_bind] in Hr. rewrite <- app_assoc in Hr.
  pose proof (length_compute_mic H) as Hm.
  assert (2 <= length payload)%nat as Hp2.
  { destruct (decide (2 <= length payload)%nat); [done|].
    rewrite (parse_too_short H) in Hr; [done|].
    rewrite !length_app, length_packet_header, Hm. lia. }
  rewrite parse_packet_header in Hr by
    (first [done | rewrite length_app, Hm; lia | eapply fits_mono; [done|lia] | words_lia]).
  injection Hr as <-. cbn.
  assert (p_channel p mod 16 = p_channel p) as -> by (apply Z.mod_small; done).
  assert ((p_hop_limit p - 1) mod 8 = p_hop_limit p - 1) as -> by words_lia.
  split_and!; try done. split; try done. cbn. words_lia.
Qed.

Lemma relay_some H `{!Digest H} p payload :
  packet_wf p -> 0 < p_hop_limit p -> (2 <= length payload <= 235)%nat ->
  exists p', relay H p payload = Some p'.
Proof.
  intros [Hf Ht Hi Hc Hh] H0 Hp. unfold relay, create_forward_packet.
  destruct (Z.eqb_spec (p_hop_limit p) 0); [lia|].
  rewrite build_lora_packet_eq by done.
  destruct (Nat.leb_spec (length payload) 235); [|lia].
  cbv zeta. cbn [mbind option_bind]. rewrite <- app_assoc. eexists.
  apply parse_packet_header;
    first [done | rewrite length_app, (length_compute_mic H); lia | words_lia].
Qed.

(** ** The retransmission table as a multiset of pending packets: lemmas *)

Fixpoint pending_acks (t : AckTracker) : list PendingAck :=
  match t with
  | [] => []
  | (valid, a) :: t => if valid then a :: pending_acks t else pending_acks t
  end.

Definition ack_matches (to packet_id : Z) (a : PendingAck) : bool :=
  (a_to a =? to) && (a_packet_id a =? packet_id).

Lemma pending_count_eq t : ack_tracker_pending_count t = length (pending_acks t).
Proof.
  unfold ack_tracker_pending_count.
  assert (forall n, foldl (fun (count : nat) (s : bool * PendingAck) =>
                       if s.1 then S count else count) n t = (n + length (pending_acks t))%nat) as Hn.
  { induction t as [|[[] a] t IH]; intros n; cbn; rewrite ?IH; lia. }
  apply Hn.
Qed.

Lemma is_pending_eq t to id :
  ack_tracker_is_pending t to id = existsb (ack_matches to id) (pending_acks t).
Proof.
  induction t as [|[[] a] t IH]; [done| |].
  - cbn. unfold ack_tracker_is_pending in IH. by rewrite IH.
  - cbn. apply IH.
Qed.

Lemma ack_add_spec t ack :
  match ack_tracker_add t ack with
  | Some t' => length t' = length t /\ pending_acks t' ≡ₚ ack :: pending_acks t
  | None => length (pending_acks t) = length t
  end.
Proof.
  induction t as [|[[] a] t IH]; cbn; [done| |done].
  destruct (ack_tracker_add t ack) as [t'|]; cbn.
  - destruct IH as [Hl IH]. split; [lia|]. rewrite IH. apply Permutation_swap.
  - by rewrite IH.
Qed.

Lemma handle_ack_spec t from id :
  let '(t', r) := ack_tracker_handle_ack t from id in
  length t' = length t
  /\ if r : bool
     then exists a, ack_matches from id a = true /\ pending_acks t ≡ₚ a :: pending_acks t'
     else t' = t /\ Forall (fun a => ack_matches from id a = false) (pending_acks t).
Proof.
  induction t as [|[[] a] t IH]; cbn; [done| |].
  - unfold slot_matches. cbn. fold (ack_matches from id a).
    destruct (ack_matches from id a) eqn:Ha; [cbn; eauto|].
    destruct (ack_tracker_handle_ack t from id) as [t' []]; cbn; destruct IH as [Hl IH].
    + split; [lia|]. destruct IH as (b & Hb & Hp). exists b. split; [done|].
      rewrite Hp. apply Permutation_swap.
    + split; [lia|]. destruct IH as [-> IH]. split; [done|]. by constructor.
  - destruct (ack_tracker_handle_ack t from id) as [t' []]; cbn; destruct IH as [Hl IH].
    + split; [lia|]. done.
    + split; [lia|]. destruct IH as [-> IH]. done.
Qed.

(** The retransmissions the pending entries have left. *)
Definition ack_budget (t : AckTracker) : Z :=
  foldr (fun a n => Z.max 0 (a_max_retransmit a - a_tx_count a) + n) 0 (pending_acks t).

Definition ack_wf (a : PendingAck) : Prop :=
  fits 8 (a_tx_count a) /\ fits 8 (a_max_retransmit a).

Definition tracker_wf (t : AckTracker) : Prop := Forall (fun s => ack_wf s.2) t.

Lemma ack_budget_nonneg t : 0 <= ack_budget t.
Proof. unfold ack_budget. induction (pending_acks t); simpl; lia. Qed.

Definition got (r : option (list Z)) : Z := match r with Some _ => 1 | None => 0 end.

(** One poll: the packet returned belongs to a pending entry that timed out, and
    costs one retransmission; an entry is dropped only when it has none left. *)
Lemma get_retransmit_spec t now :
  tracker_wf t ->
  let '(t', r) := ack_tracker_get_retransmit t now in
  tracker_wf t' /\ length t' = length t
  /\ ack_budget t = ack_budget t' + got r
  /\ forall d, r = Some d -> exists a, a ∈ pending_acks t /\ a_packet_data a = d
       /\ a_tx_count a < a_max_retransmit a
       /\ a_retransmit_timeout a <= Z.max 0 (now - a_last_tx_time a).
Proof.
  induction 1 as [|[valid a] t Ha Ht IH]; [cbn; split_and!; try constructor; done|].
  cbn [ack_tracker_get_retransmit].
  assert (forall v, (v = valid \/ (valid = true /\ v = false
                    /\ a_max_retransmit a <= a_tx_count a)) ->
    let '(t', r) := (let '(rest, r) := ack_tracker_get_retransmit t now in ((v, a) :: rest, r)) in
    tracker_wf t' /\ length t' = S (length t)
    /\ ack_budget ((valid, a) :: t) = ack_budget t' + got r
    /\ forall d, r = Some d -> exists b, b ∈ pending_acks ((valid, a) :: t) /\ a_packet_data b = d
       /\ a_tx_count b < a_max_retransmit b
       /\ a_retransmit_timeout b <= Z.max 0 (now - a_last_tx_time b)) as Hcont.
  { intros v Hv. destruct (ack_tracker_get_retransmit t now) as [t' r].
    destruct IH as (Hw & Hl & Hb & Hd). split_and!.
    - by constructor.
    - cbn. lia.
    - unfold ack_budget in *. destruct Hv as [->|(-> & -> & ?)]; [destruct valid|];
        cbn; lia.
    - intros d Hr. destruct (Hd d Hr) as (b & Hin & ?). exists b. split; [|done].
      destruct valid; cbn; [by right|done]. }
  destruct valid; [|apply Hcont; by left].
  destruct (Z.leb_spec (a_retransmit_timeout a)
    (if a_last_tx_time a <? now then now - a_last_tx_time a else 0)) as [He|];
    [|apply Hcont; by left].
  destruct (Z.ltb_spec (a_tx_count a) (a_max_retransmit a)) as [Hx|]; [|apply Hcont; by right].
  destruct Ha as [Ha1 Ha2]. cbn [snd] in Ha1, Ha2. split_and!.
  - constructor; [|done]. split; cbn; auto with word.
  - done.
  - unfold ack_budget. cbn. rewrite u8_small by words_lia. lia.
  - intros d [= <-]. exists a. cbn. split_and!; try done; [by left|].
    destruct (Z.ltb_spec (a_last_tx_time a) now); lia.
Qed.

Definition ack_polls (t : AckTracker) (times : list Z) : AckTracker * Z :=
  foldl (fun st now =>
    let '(t', r) := ack_tracker_get_retransmit st.1 now in
    (t', st.2 + got r)) (t, 0) times.

Lemma ack_polls_budget t times :
  tracker_wf t ->
  tracker_wf (ack_polls t times).1
  /\ ack_budget t = ack_budget (ack_polls t times).1 + (ack_polls t times).2.
Proof.
  intros Ht. unfold ack_polls.
  assert (forall n, let st := foldl (fun st now =>
      let '(t', r) := ack_tracker_get_retransmit st.1 now in
      (t', st.2 + got r)) (t, n) times in
      tracker_wf st.1 /\ ack_budget t + n = ack_budget st.1 + st.2) as Hn.
  { revert t Ht. induction times as [|now times IH]; intros t Ht n; cbn [foldl fst snd]; [done|].
    pose proof (get_retransmit_spec t now Ht) as Hs.
    destruct (ack_tracker_get_retransmit t now) as [t' r]. destruct Hs as (Hw & _ & Hb & _).
    destruct (IH t' Hw (n + got r)). split; [done|lia]. }
  specialize (Hn 0). cbv zeta in Hn. rewrite Z.add_0_r in Hn. done.
Qed.

(** ** Properties *)

(** Build and parse: [build_lora_packet] succeeds exactly for payloads of at
    most 235 bytes and writes 20 bytes more than the payload; parsing what it
    wrote gives back sender, destination, id, acknowledgement flag, the hop limit
    modulo 8 and the channel modulo 16, and the payload without its first byte
    (nothing at all for a payload of one byte or none): [build_lora_packet]
    writes a 16-byte header, [LORA_HEADER_SIZE] in the parser is 17. *)
Theorem packet_build_parse H `{!Digest H} from to id channel hop_limit want_ack payload
    (Hf : fits 32 from) (Ht : fits 32 to) (Hi : fits 32 id)
    (Hc : fits 8 channel) (Hh : fits 8 hop_limit) :
  let built := build_lora_packet H from to id channel hop_limit want_ack payload in
  (built = None <-> (235 < length payload)%nat)
  /\ forall w, built = Some w ->
       length w = (length payload + 20)%nat
       /\ parse_lora_packet H w
          = if (length payload <=? 1)%nat then None
            else Some (mkPacket from to (channel mod 16) id (hop_limit mod 8) want_ack
                         PRIORITY_DEFAULT 0 0 0
                         (mkPayload PACKET_PAYLOAD_ENCRYPTED (drop 1 payload))).
Proof.
  cbv zeta. rewrite build_lora_packet_eq by done. cbv zeta.
  destruct (Nat.leb_spec (length payload) 235) as [Hp|Hp]; split; try done; [split; [done|lia]|].
  intros w Hw. apply (inj Some) in Hw as <-. pose proof (length_compute_mic H) as Hm. rewrite <- app_assoc. split.
  - rewrite !length_app, length_packet_header, Hm. lia.
  - destruct (Nat.leb_spec (length payload) 1).
    + rewrite (parse_too_short H); [done|]. rewrite !length_app, length_packet_header, Hm. lia.
    + rewrite parse_packet_header by (first [done | rewrite length_app, Hm; lia]).
      do 3 f_equal. rewrite length_app, Hm, slice_app_l by lia.
      unfold slice. rewrite take_ge; [done|]. rewrite length_drop. lia.
Qed.

Lemma packet_build_parse_witness :
  exists w, build_lora_packet sha256_hash 0x11223344 0xFFFFFFFF 7 5 3 true [10; 20; 30] = Some w
    /\ parse_lora_packet sha256_hash w
       = Some (mkPacket 0x11223344 0xFFFFFFFF 5 7 3 true PRIORITY_DEFAULT 0 0 0
                 (mkPayload PACKET_PAYLOAD_ENCRYPTED [20; 30])).
Proof.
  destruct (packet_build_parse sha256_hash 0x11223344 0xFFFFFFFF 7 5 3 true [10; 20; 30])
    as [_ Hw]; [apply (bool_decide_unpack _); vm_compute; exact I..|].
  eexists. split; [vm_compute; reflexivity|]. apply Hw. vm_compute. reflexivity.
Defined.

(** C14. Hop limit: along any chain of nodes that forward a packet
    ([create_forward_packet] at one, [parse_lora_packet] at the next, whatever
    payload each sends on) the hop limit falls by one per node while sender,
    destination, id, channel and acknowledgement flag stay; the chain is never
    longer than the hop limit, and it does reach every length up to it as long as
    the payloads have 2 to 235 bytes. *)
Theorem relay_hop_limit H `{!Digest H} p payloads (Hp : packet_wf p) :
  let n := Z.of_nat (length payloads) in
  (forall p', relays H p payloads = Some p' ->
     p_hop_limit p' = p_hop_limit p - n
     /\ p_from p' = p_from p /\ p_to p' = p_to p /\ p_id p' = p_id p
     /\ p_channel p' = p_channel p /\ p_want_ack p' = p_want_ack p)
  /\ (p_hop_limit p < n -> relays H p payloads = None)
  /\ (n <= p_hop_limit p -> Forall (fun d => (2 <= length d <= 235)%nat) payloads ->
      exists p', relays H p payloads = Some p').
Proof.
  cbv zeta. revert p Hp. induction payloads as [|d l IH]; intros p Hp; cbn [relays length].
  - pose proof (wf_hop_limit p Hp) as Hh. split_and!; [|unfold fits in Hh; lia|eauto].
    intros p' [= ->]. rewrite Z.sub_0_r. done.
  - destruct (relay H p d) as [q|] eqn:Hq; cbn [mbind option_bind].
    + destruct (relay_step H p d q Hp Hq) as (Hwq & Hhq & Heq).
      destruct (IH q Hwq) as (Hs & Hn & Ht). split_and!.
      * intros p' Hp'. destruct (Hs p' Hp') as [Hh He]. split; [lia|].
        destruct Heq as (-> & -> & -> & -> & ->) in He |- *. done.
      * intros ?. apply Hn. lia.
      * intros ? [_ ?]%Forall_cons. apply Ht; [lia|done].
    + split_and!; [done..|]. intros Hl [Hd _]%Forall_cons.
      destruct (relay_some H p d Hp) as [q ?]; [lia|done|]. by rewrite Hq in *.
Qed.

Lemma relay_hop_limit_witness :
  let p := mkPacket 1 0xFFFFFFFF 0 9 1 false PRIORITY_DEFAULT 0 0 0
             (mkPayload PACKET_PAYLOAD_ENCRYPTED [1; 2; 3]) in
  relays sha256_hash p [[1; 2; 3]; [2; 3]] = None
  /\ exists p', relays sha256_hash p [[1; 2; 3]] = Some p'.
Proof.
  cbv zeta. set (p := mkPacket _ _ _ _ _ _ _ _ _ _ _).
  assert (packet_wf p) as Hp by (split; apply (bool_decide_unpack _); vm_compute; exact I).
  split.
  - apply (relay_hop_limit sha256_hash p [[1; 2; 3]; [2; 3]] Hp). simpl. lia.
  - apply (relay_hop_limit sha256_hash p [[1; 2; 3]] Hp); [simpl; lia|].
    constructor; [simpl; lia|constructor].
Defined.

(** The duplicate cache is a queue of the newest 32 additions: after any
    sequence of [packet_cache_add] on the initial cache,
    [packet_cache_is_duplicate] answers true exactly for a non-zero sender whose
    id is among the last 32 additions (node 0 is never a duplicate), and
    [packet_cache_clear_old] removes the entries older than [max_age] and no
    other. *)
Theorem cache_is_bounded_queue (l : list entry) (from packet_id now max_age : Z) :
  let c := foldl cache_add_entry packet_cache_init l in
  let newest := drop (length l - 32) l in
  (packet_cache_is_duplicate c from packet_id = true
   <-> from <> 0 /\ exists t, (from, packet_id, t) ∈ newest)
  /\ (packet_cache_is_duplicate (packet_cache_clear_old c now max_age) from packet_id = true
      <-> from <> 0 /\ exists t, (from, packet_id, t) ∈ newest /\ Z.max 0 (now - t) <= max_age).
Proof.
  cbv zeta. set (c := foldl _ _ _).
  assert (cache_queue c = drop (length l) (replicate 32 (0, 0, 0) ++ l)) as Hq
    by apply (cache_queue_adds _ _ cache_wf_init).
  assert (forall f i t, f <> 0 ->
    (f, i, t) ∈ cache_queue c <-> (f, i, t) ∈ drop (length l - 32) l) as Hin.
  { intros f i t Hf. rewrite Hq. destruct (decide (length l <= 32)%nat).
    - replace (length l - 32)%nat with 0%nat by lia.
      rewrite drop_app_le, drop_replicate, elem_of_app, drop_0 by (by rewrite length_replicate).
      rewrite elem_of_replicate. split; [intros [[? _]|?]; [congruence|done]|by right].
    - rewrite drop_app_ge, length_replicate by (rewrite length_replicate; lia). done. }
  split.
  - rewrite is_duplicate_spec. split; intros [Hf [t Ht]]; (split; [done|]); exists t; by apply Hin.
  - rewrite is_duplicate_spec, cache_queue_clear. setoid_rewrite list_elem_of_fmap. split.
    + intros [Hf (t & e & He & Hi)]. symmetry in He.
      apply (clear_old_entry_keeps now max_age from packet_id t e Hf) in He as [-> Hage].
      split; [done|]. exists t. by rewrite <- Hin.
    + intros [Hf (t & Hi & Hage)]. split; [done|]. exists t, (from, packet_id, t).
      rewrite Hin by done. split; [|done]. symmetry. by apply clear_old_entry_keeps.
Qed.

(** Duplicates are dropped: once a packet with a non-zero sender that was
    not in the cache has been routed, a further copy of it (same sender and id) is
    dropped and leaves the cache as it is, whatever up to 31 packets are routed in
    between and whatever the times. *)
Theorem duplicates_are_dropped us c p t l t' copy
    (Hc : cache_wf c) (Hnew : packet_cache_is_duplicate c (p_from p) (p_id p) = false)
    (Hl : (length l <= 31)%nat)
    (Hcopy : p_from copy = p_from p /\ p_id copy = p_id p) (Hfrom : p_from p <> 0) :
  let c' := route_all us (route_packet p us c t).1 l in
  route_packet copy us c' t' = (c', ROUTING_DECISION_DROP).
Proof.
  cbv zeta. set (c' := route_all _ _ _). destruct Hcopy as [Hf Hi].
  assert (recent c' (p_from p, p_id p, t) (0 + length l)) as Hr.
  { apply recent_route_all; [done|]. rewrite route_packet_cache.
    unfold packet_cache_check_and_add. rewrite Hnew. by apply recent_add. }
  apply recent_duplicate in Hr; [|done].
  unfold route_packet, packet_cache_check_and_add. by rewrite Hf, Hi, Hr.
Qed.

Lemma duplicates_are_dropped_witness :
  let p := mkPacket 7 0xFFFFFFFF 0 9 3 false PRIORITY_DEFAULT 0 0 0
             (mkPayload PACKET_PAYLOAD_ENCRYPTED []) in
  let q := mkPacket 8 0xFFFFFFFF 0 9 3 false PRIORITY_DEFAULT 0 0 0
             (mkPayload PACKET_PAYLOAD_ENCRYPTED []) in
  let c' := route_all 1 (route_packet p 1 packet_cache_init 0).1 [(q, 5)] in
  route_packet p 1 c' 6 = (c', ROUTING_DECISION_DROP).
Proof.
  cbv zeta. apply duplicates_are_dropped; [apply cache_wf_init|reflexivity|simpl; lia|done|done].
Defined.

(** Routing decision of a packet that is not a duplicate: it is recorded in
    the cache; addressed to us it is delivered; broadcast or addressed to another
    node it is forwarded exactly when hops remain, and with no hops left a
    broadcast is delivered and the other dropped. *)
Theorem route_packet_decision p us c t
    (Hnew : packet_cache_is_duplicate c (p_from p) (p_id p) = false)
    (Hh : 0 <= p_hop_limit p) (Hus : us <> 0xFFFFFFFF) :
  route_packet p us c t
  = (packet_cache_add c (p_from p) (p_id p) t,
     if decide (p_to p = us) then ROUTING_DECISION_LOCAL
     else if decide (p_hop_limit p = 0) then
       if decide (p_to p = 0xFFFFFFFF) then ROUTING_DECISION_LOCAL else ROUTING_DECISION_DROP
     else ROUTING_DECISION_FORWARD).
Proof.
  unfold route_packet, packet_cache_check_and_add. rewrite Hnew.
  destruct (Z.eqb_spec (p_to p) us), (Z.eqb_spec (p_to p) 0xFFFFFFFF),
    (Z.ltb_spec 0 (p_hop_limit p)); repeat case_decide; cbn [orb andb]; try done; lia.
Qed.

Lemma route_packet_decision_witness :
  let p := mkPacket 7 0xFFFFFFFF 0 9 3 false PRIORITY_DEFAULT 0 0 0
             (mkPayload PACKET_PAYLOAD_ENCRYPTED []) in
  (route_packet p 1 packet_cache_init 0).2 = ROUTING_DECISION_FORWARD.
Proof.
  cbv zeta. rewrite route_packet_decision; [done|done|cbn; lia|done].
Defined.

(** Retransmissions are bounded: over any sequence of polls at any times
    the number of packets [ack_tracker_get_retransmit] hands out is the budget the
    table loses, so it never exceeds the sum of the remaining retransmissions of
    the pending entries; each packet handed out is that of a pending entry whose
    timeout has elapsed and which has retransmissions left. *)
Theorem retransmissions_bounded t times (Ht : tracker_wf t) :
  let '(t', sent) := ack_polls t times in
  sent = ack_budget t - ack_budget t' /\ sent <= ack_budget t
  /\ forall now d, (ack_tracker_get_retransmit t' now).2 = Some d ->
       exists a, a ∈ pending_acks t' /\ a_packet_data a = d
         /\ a_tx_count a < a_max_retransmit a
         /\ a_retransmit_timeout a <= Z.max 0 (now - a_last_tx_time a).
Proof.
  pose proof (ack_polls_budget t times Ht) as [Hw Hb].
  destruct (ack_polls t times) as [t' sent]. cbn [fst snd] in Hw, Hb.
  pose proof (ack_budget_nonneg t'). split_and!; [lia|lia|]. intros now d.
  pose proof (get_retransmit_spec t' now Hw) as Hs.
  destruct (ack_tracker_get_retransmit t' now) as [t'' r]. cbn [snd]. apply Hs.
Qed.

Lemma retransmissions_bounded_witness :
  (ack_polls ((true, mkAck 5 1 [9] 0 2 0 100) :: ack_tracker_init) [50; 100; 200; 300; 400]).2 = 2
  /\ ack_budget ((true, mkAck 5 1 [9] 0 2 0 100) :: ack_tracker_init) = 2.
Proof.
  set (t := _ :: _).
  assert (tracker_wf t) as Ht
    by (apply (bool_decide_unpack (Forall (fun s : bool * PendingAck =>
          fits 8 (a_tx_count s.2) /\ fits 8 (a_max_retransmit s.2)) t)); vm_compute; exact I).
  pose proof (retransmissions_bounded t [50; 100; 200; 300; 400] Ht) as Hb. split; [|done].
  destruct (ack_polls t _) as [t' sent] eqn:E. vm_compute in E. injection E as <- <-. done.
Defined.

(** The table of pending acknowledgements is a bounded multiset:
    [ack_tracker_add] fails exactly when all slots are pending and otherwise adds
    the entry; [ack_tracker_handle_ack] returns true exactly when a matching entry
    is pending, and then removes one such entry and nothing else;
    [ack_tracker_pending_count] is its size and [ack_tracker_clear] empties it. *)
Theorem ack_tracker_is_multiset t ack from id :
  (match ack_tracker_add t ack with
   | Some t' => length t' = length t /\ pending_acks t' ≡ₚ ack :: pending_acks t
   | None => ack_tracker_pending_count t = length t
   end)
  /\ (let '(t', r) := ack_tracker_handle_ack t from id in
      r = ack_tracker_is_pending t from id
      /\ if r : bool
         then exists a, ack_matches from id a = true /\ pending_acks t ≡ₚ a :: pending_acks t'
         else t' = t)
  /\ ack_tracker_pending_count t = length (pending_acks t)
  /\ pending_acks (ack_tracker_clear t) = [].
Proof.
  split_and!.
  - rewrite pending_count_eq. apply ack_add_spec.
  - pose proof (handle_ack_spec t from id) as Hs. rewrite is_pending_eq.
    destruct (ack_tracker_handle_ack t from id) as [t' []]; destruct Hs as [_ Hs].
    + split; [|done]. destruct Hs as (a & Ha & Hp). symmetry. apply existsb_exists.
      exists a. split; [|done]. apply list_elem_of_In. rewrite Hp. by left.
    + destruct Hs as [-> Hs]. split; [|done]. symmetry. apply not_true_iff_false.
      intros (a & Hin & Ha)%existsb_exists. rewrite Forall_forall in Hs.
      apply list_elem_of_In in Hin. rewrite (Hs a Hin) in Ha. done.
  - apply pending_count_eq.
  - unfold ack_tracker_clear. by induction t as [|[[] a] t IH].
Qed.


(** Conservation of the receive counters: after any sequence of recorded
    events the packets received are those delivered, forwarded, dropped and bad,
    modulo the width of the counters; every drop is counted as a duplicate, also
    that of a packet with no hops left, and [rx_dropped_expired] stays zero. *)
Theorem stats_conservation s (Hs : rtc stats_step packet_stats_init s) :
  rx_total s = u32 (rx_local s + rx_forwarded s + rx_dropped_dup s + rx_bad s)
  /\ rx_dropped_expired s = 0.
Proof.
  revert s Hs. apply rtc_ind_r; [done|]. intros s s' _ Hstep [Ht He].
  destruct Hstep as [[] []|[]|[] []|[]]; cbn in *; (split; [|done]); words_lia.
Qed.

Lemma stats_conservation_witness :
  rx_dropped_expired (packet_stats_record_rx packet_stats_init ROUTING_DECISION_DROP) = 0.
Proof. apply stats_conservation, rtc_once, step_rx. Defined.
