(* ===== verification/PacketId.v ===== *)
(** * Packet identifiers: lunarcore/lunar/packet_id.c

    The generator of packet ids that survives deep sleep: a session id and a
    sequence number in RAM, written now and then to RTC memory and restored on
    wake with a skip. The state is explicit: the RTC slots, the atomics, and how
    often the two hardware sources have been read. *)
From S2P Require Import Prelude.

(** ** Constants *)

Definition RTC_SLOT_SESSION_HI : Z := 8.
Definition RTC_SLOT_SEQUENCE : Z := 10.
Definition RTC_SLOT_BOOT_COUNT : Z := 11.
Definition RTC_SLOT_MAGIC : Z := 12.
Definition RTC_MAGIC : Z := 0x4C554E42.
Definition MAX_SEQUENCE : Z := 0xFFFFFFFE.
Definition WAKE_SEQUENCE_SKIP : Z := 256.

(** ** Mixing *)

Definition mix32 (x : Z) : Z :=
  let x := x .^ (x .>> 16) in
  let x := u32 (x * 0x85EBCA6B) in
  let x := x .^ (x .>> 13) in
  let x := u32 (x * 0xC2B2AE35) in
  x .^ (x .>> 16).

(** ** State *)

Record Device := mkDevice {
  rtc : Z -> Z;                 (* RTC slow memory by slot *)
  PACKET_ID_SESSION : Z;
  PACKET_ID_SEQUENCE : Z;
  BOOT_COUNT : Z;
  INITIALIZED : bool;
  rng_reads : nat;              (* calls of random_u32 so far *)
  time_reads : nat              (* reads of the RTC time register so far *)
}.

Definition rtc_read (d : Device) (slot : Z) : Z := rtc d slot.

Definition rtc_write (slot value : Z) (d : Device) : Device :=
  mkDevice (fun s => if s =? slot then value else rtc d s)
    (PACKET_ID_SESSION d) (PACKET_ID_SEQUENCE d) (BOOT_COUNT d) (INITIALIZED d)
    (rng_reads d) (time_reads d).

Definition store_session (v : Z) (d : Device) : Device :=
  mkDevice (rtc d) v (PACKET_ID_SEQUENCE d) (BOOT_COUNT d) (INITIALIZED d)
    (rng_reads d) (time_reads d).
Definition store_sequence (v : Z) (d : Device) : Device :=
  mkDevice (rtc d) (PACKET_ID_SESSION d) v (BOOT_COUNT d) (INITIALIZED d)
    (rng_reads d) (time_reads d).
Definition store_boot_count (v : Z) (d : Device) : Device :=
  mkDevice (rtc d) (PACKET_ID_SESSION d) (PACKET_ID_SEQUENCE d) v (INITIALIZED d)
    (rng_reads d) (time_reads d).
Definition store_initialized (v : bool) (d : Device) : Device :=
  mkDevice (rtc d) (PACKET_ID_SESSION d) (PACKET_ID_SEQUENCE d) (BOOT_COUNT d) v
    (rng_reads d) (time_reads d).

(** [PacketIdState]: the session object of the source. *)
Record PacketIdState := mkIdState { session_id : Z; sequence : Z; boot_count : Z }.

Definition PacketIdState_persist (self : PacketIdState) (d : Device) : Device :=
  rtc_write RTC_SLOT_SEQUENCE (sequence self) (rtc_write RTC_SLOT_SESSION_HI (session_id self) d).

Definition PacketIdState_to_u64 (self : PacketIdState) : Z :=
  (session_id self .<< 32) .| sequence self.

Section device.
(** The hardware: the [n]-th value of [random_u32] and of the time register. *)
Context (random_u32 rtc_time : nat -> Z).

Definition hw_rng_u32 (d : Device) : Device * Z :=
  (mkDevice (rtc d) (PACKET_ID_SESSION d) (PACKET_ID_SEQUENCE d) (BOOT_COUNT d) (INITIALIZED d)
     (S (rng_reads d)) (time_reads d), random_u32 (rng_reads d)).

Definition read_rtc_time (d : Device) : Device * Z :=
  (mkDevice (rtc d) (PACKET_ID_SESSION d) (PACKET_ID_SEQUENCE d) (BOOT_COUNT d) (INITIALIZED d)
     (rng_reads d) (S (time_reads d)), rtc_time (time_reads d)).

Definition generate_session_id (previous boot_count : Z) (d : Device) : Device * Z :=
  let '(d, hw_random1) := hw_rng_u32 d in
  let '(d, hw_random2) := hw_rng_u32 d in
  let boot_entropy := u32 (boot_count * 0x9E3779B9) in
  let '(d, timestamp) := read_rtc_time d in
  let mixed := hw_random1 .^ boot_entropy .^ timestamp .^ u32 (previous * 0x85EBCA6B) in
  let mixed := mix32 mixed in
  let mixed := mix32 (mixed .^ hw_random2) in
  if mixed =? 0 then let '(d, r) := hw_rng_u32 d in (d, mix32 r .| 1) else (d, mixed).

Definition PacketIdState_new_session (self : PacketIdState) (d : Device) : Device * PacketIdState :=
  let '(d, hw_random1) := hw_rng_u32 d in
  let '(d, hw_random2) := hw_rng_u32 d in
  let boot_entropy := u32 (boot_count self * 0x9E3779B9) in
  let '(d, timestamp) := read_rtc_time d in
  let mixed :=
    hw_random1 .^ boot_entropy .^ timestamp .^ u32 (session_id self * 0x85EBCA6B) in
  let mixed := mix32 mixed in
  let mixed := mix32 (mixed .^ hw_random2) in
  let '(d, sid) :=
    if mixed =? 0 then let '(d, r) := hw_rng_u32 d in (d, mix32 r .| 1) else (d, mixed) in
  let self := mkIdState sid 0 (boot_count self) in
  (rtc_write RTC_SLOT_SEQUENCE (sequence self)
     (rtc_write RTC_SLOT_SESSION_HI (session_id self) d), self).

Definition rotate_session_internal (d : Device) : Device :=
  let boot_count := BOOT_COUNT d in
  let old_session := PACKET_ID_SESSION d in
  let '(d, new_session) := generate_session_id old_session boot_count d in
  let d := store_session new_session d in
  let d := store_sequence 0 d in
  let d := rtc_write RTC_SLOT_SESSION_HI new_session d in
  rtc_write RTC_SLOT_SEQUENCE 0 d.

(** [init] run by one thread. *)
Definition init (d : Device) : Device :=
  if INITIALIZED d then d
  else
    let d := store_initialized true d in
    let magic := rtc_read d RTC_SLOT_MAGIC in
    let '(d, session_id, sequence, boot_count) :=
      if magic =? RTC_MAGIC then
        let stored_session := rtc_read d RTC_SLOT_SESSION_HI in
        let stored_sequence := rtc_read d RTC_SLOT_SEQUENCE in
        let stored_boot_count := rtc_read d RTC_SLOT_BOOT_COUNT in
        let boot_count := u32 (stored_boot_count + 1) in
        if MAX_SEQUENCE <=? stored_sequence then
          let '(d, new_session) := generate_session_id stored_session boot_count d in
          (d, new_session, 0, boot_count)
        else
          let new_sequence := u32 (stored_sequence + WAKE_SEQUENCE_SKIP) in
          let new_sequence :=
            if new_sequence <? stored_sequence then MAX_SEQUENCE else new_sequence in
          (d, stored_session, new_sequence, boot_count)
      else
        let '(d, new_session) := generate_session_id 0 0 d in
        let d := rtc_write RTC_SLOT_MAGIC RTC_MAGIC d in
        (d, new_session, 0, 0) in
    let d := store_boot_count boot_count d in
    let d := rtc_write RTC_SLOT_BOOT_COUNT boot_count d in
    let d := store_session session_id d in
    let d := store_sequence sequence d in
    let d := rtc_write RTC_SLOT_SESSION_HI session_id d in
    rtc_write RTC_SLOT_SEQUENCE sequence d.

Definition next_packet_id (d : Device) : Device * Z :=
  let d := init d in
  let sequence := PACKET_ID_SEQUENCE d in
  let d := store_sequence (u32 (sequence + 1)) d in
  let session_id := PACKET_ID_SESSION d in
  let d := if MAX_SEQUENCE <=? sequence then rotate_session_internal d else d in
  let d :=
    if sequence .& 0xFF =? 0 then
      rtc_write RTC_SLOT_SEQUENCE sequence (rtc_write RTC_SLOT_SESSION_HI session_id d)
    else d in
  (d, mix32 (session_id .^ u32 (sequence * 0x85EBCA6B))).

Definition rotate_session (d : Device) : Device := rotate_session_internal (init d).

Definition session_info (d : Device) : Device * (Z * Z * Z) :=
  let d := init d in (d, (PACKET_ID_SESSION d, PACKET_ID_SEQUENCE d, BOOT_COUNT d)).

Definition next_packet_id_64 (d : Device) : Device * Z :=
  let d := init d in
  let sequence := PACKET_ID_SEQUENCE d in
  let d := store_sequence (u32 (sequence + 1)) d in
  let session_id := PACKET_ID_SESSION d in
  let d := if MAX_SEQUENCE <=? sequence then rotate_session_internal d else d in
  (d, (session_id .<< 32) .| sequence).

Definition invalidate_rtc (d : Device) : Device := rtc_write RTC_SLOT_MAGIC 0 d.

(** Power loss or deep sleep: the RAM is lost, the RTC memory is not. *)
Definition reboot (d : Device) : Device :=
  mkDevice (rtc d) 0 0 0 false (rng_reads d) (time_reads d).

(** ** Runs

    The id handed out carries the session it belongs to: the number of session
    ids generated so far (each generation reads the time register once). *)
Inductive event := Next | Rotate | Info | Invalidate | Reboot.

Definition id_step (d : Device) (e : event) : Device * option (nat * Z) :=
  match e with
  | Next => let '(d', id) := next_packet_id d in (d', Some (time_reads (init d), id))
  | Rotate => (rotate_session d, None)
  | Info => ((session_info d).1, None)
  | Invalidate => (invalidate_rtc d, None)
  | Reboot => (reboot d, None)
  end.

Fixpoint id_run (d : Device) (es : list event) : list (nat * Z) :=
  match es with
  | [] => []
  | e :: es => let '(d, out) := id_step d e in option_list out ++ id_run d es
  end.
End device.

(** ** The mixing function is injective *)

Lemma fits_xorshift k x : 0 <= k <= 32 -> fits 32 x -> fits 32 (x .^ (x .>> k)).
Proof.
  intros Hk Hx. apply fits_lxor; [lia|done|].
  apply (fits_mono (32 - k)); [by apply fits_shiftr|lia].
Qed.

Lemma mix32_inj x y : fits 32 x -> fits 32 y -> mix32 x = mix32 y -> x = y.
Proof.
  intros Hx Hy. unfold mix32. cbv zeta. intros He.
  apply (xorshift_inj 16) in He; [|lia|apply fits_u32..].
  apply (mul_odd_inj 0xC2B2AE35 0x7ED1B41D) in He; [|done|apply fits_xorshift; [lia|apply fits_u32]..].
  apply (xorshift_inj 13) in He; [|lia|apply fits_u32..].
  apply (mul_odd_inj 0x85EBCA6B 0xA5CB9243) in He; [|done|apply fits_xorshift; [lia|done]..].
  apply (xorshift_inj 16) in He; [done|lia|apply Hx|apply Hy].
Qed.

(** The id of a sequence number within a session. *)
Definition packet_id (session seq : Z) : Z := mix32 (session .^ u32 (seq * 0x85EBCA6B)).

Lemma packet_id_inj session s1 s2 :
  fits 32 session -> fits 32 s1 -> fits 32 s2 ->
  packet_id session s1 = packet_id session s2 -> s1 = s2.
Proof.
  intros Hs H1 H2 He. apply mix32_inj in He; [|apply fits_lxor; [lia|done|apply fits_u32]..].
  apply (mul_odd_inj 0x85EBCA6B 0xA5CB9243); [done..|].
  apply (f_equal (Z.lxor session)) in He.
  by rewrite <- !Z.lxor_assoc, !Z.lxor_nilpotent, !Z.lxor_0_l in He.
Qed.

(** ** Uniqueness across sleep: the invariant *)

Lemma fits_mix32 x : fits 32 (mix32 x).
Proof. unfold mix32. cbv zeta. apply fits_xorshift; [lia|apply fits_u32]. Qed.

Section unique.
Context (random_u32 rtc_time : nat -> Z).
Local Abbreviation generate := (generate_session_id random_u32 rtc_time).
Local Abbreviation rotate := (rotate_session_internal random_u32 rtc_time).
Local Abbreviation initd := (init random_u32 rtc_time).

(** Generating a session id reads the hardware and changes nothing else. *)
Lemma generate_spec p b d : exists n sid,
  generate p b d
  = (mkDevice (rtc d) (PACKET_ID_SESSION d) (PACKET_ID_SEQUENCE d) (BOOT_COUNT d)
       (INITIALIZED d) n (S (time_reads d)), sid)
  /\ fits 32 sid.
Proof.
  unfold generate_session_id, hw_rng_u32, read_rtc_time. simpl.
  set (m := mix32 (mix32 _ .^ _)). destruct (m =? 0); do 2 eexists; (split; [reflexivity|]).
  - apply fits_lor; [lia|apply fits_mix32|done].
  - apply fits_mix32.
Qed.

(** The sequence number [init] resumes from when [stored] was persisted. *)
Definition wake_sequence (stored : Z) : Z :=
  let n := u32 (stored + WAKE_SEQUENCE_SKIP) in if n <? stored then MAX_SEQUENCE else n.

(** Every id of [log] in generation [g] is that of a sequence number below [u]. *)
Definition used_below (log : list (nat * Z)) (g : nat) (session u : Z) : Prop :=
  forall id, (g, id) ∈ log -> exists k, 0 <= k < u /\ id = packet_id session k.

(** Power is on: the RTC is at most one persist period behind. *)
Record live_inv (d : Device) (log : list (nat * Z)) : Prop := mk_live {
  live_session : rtc d RTC_SLOT_SESSION_HI = PACKET_ID_SESSION d;
  live_persist : 0 <= rtc d RTC_SLOT_SEQUENCE <= PACKET_ID_SEQUENCE d;
  live_period : 256 * ((PACKET_ID_SEQUENCE d - 1) / 256) <= rtc d RTC_SLOT_SEQUENCE;
  live_width : fits 32 (PACKET_ID_SEQUENCE d);
  live_max : PACKET_ID_SEQUENCE d <= MAX_SEQUENCE
             \/ rtc d RTC_SLOT_SEQUENCE = PACKET_ID_SEQUENCE d;
  live_used : used_below log (time_reads d) (PACKET_ID_SESSION d) (PACKET_ID_SEQUENCE d)
}.

(** Power was off: what the RTC holds resumes above everything used. *)
Definition asleep_inv (d : Device) (log : list (nat * Z)) : Prop :=
  rtc d RTC_SLOT_MAGIC = RTC_MAGIC -> rtc d RTC_SLOT_SEQUENCE < MAX_SEQUENCE ->
  used_below log (time_reads d) (rtc d RTC_SLOT_SESSION_HI)
    (wake_sequence (rtc d RTC_SLOT_SEQUENCE)).

Record id_inv (d : Device) (log : list (nat * Z)) : Prop := mk_id_inv {
  inv_session : fits 32 (rtc d RTC_SLOT_SESSION_HI);
  inv_sequence : fits 32 (rtc d RTC_SLOT_SEQUENCE);
  inv_nodup : NoDup log;
  inv_gen : forall g id, (g, id) ∈ log -> (g <= time_reads d)%nat;
  inv_state : if INITIALIZED d then live_inv d log else asleep_inv d log
}.

(** A new generation has used nothing yet. *)
Lemma used_below_new log g session u :
  (forall h id, (h, id) ∈ log -> (h < g)%nat) -> used_below log g session u.
Proof. intros Hg id Hin. apply Hg in Hin. lia. Qed.

Lemma inv_new_gen d log g : id_inv d log -> (time_reads d < g)%nat ->
  forall h id, (h, id) ∈ log -> (h < g)%nat.
Proof. intros Hi Hg h id Hin. pose proof (inv_gen d log Hi h id Hin). lia. Qed.

Lemma wake_sequence_spec p :
  fits 32 p -> p < MAX_SEQUENCE ->
  wake_sequence p = (if 2 ^ 32 <=? p + 256 then MAX_SEQUENCE else p + 256).
Proof.
  intros Hp Hm. unfold wake_sequence, WAKE_SEQUENCE_SKIP, MAX_SEQUENCE in *.
  destruct (Z.leb_spec (2 ^ 32) (p + 256)).
  - assert (u32 (p + 256) = p + 256 - 2 ^ 32) as -> by words_lia.
    destruct (Z.ltb_spec (p + 256 - 2 ^ 32) p); [done|lia].
  - rewrite u32_small by words_lia. destruct (Z.ltb_spec (p + 256) p); [lia|done].
Qed.

Lemma rotate_inv d log :
  id_inv d log -> INITIALIZED d = true -> id_inv (rotate d) log /\ INITIALIZED (rotate d) = true.
Proof.
  intros Hi Hd. unfold rotate_session_internal.
  destruct (generate_spec (PACKET_ID_SESSION d) (BOOT_COUNT d) d) as (n & sid & -> & Hsid).
  split; [|done]. pose proof (inv_new_gen d log (S (time_reads d)) Hi ltac:(lia)) as Hg.
  split; cbn; try done.
  - apply Hi.
  - intros g id Hin. specialize (Hg g id Hin). lia.
  - rewrite Hd. split; cbn; try done; [unfold MAX_SEQUENCE; lia|]. by apply used_below_new.
Qed.

Lemma init_inv d log :
  id_inv d log -> id_inv (initd d) log /\ INITIALIZED (initd d) = true.
Proof.
  intros Hi. unfold init. destruct (INITIALIZED d) eqn:Hd; [by rewrite Hd|].
  pose proof (inv_state d log Hi) as Hs. rewrite Hd in Hs.
  pose proof (inv_new_gen d log (S (time_reads d)) Hi ltac:(lia)) as Hg.
  pose proof (inv_session d log Hi) as Hs32. pose proof (inv_sequence d log Hi) as Hq32.
  unfold rtc_read. cbn [rtc store_initialized].
  destruct (Z.eqb_spec (rtc d RTC_SLOT_MAGIC) RTC_MAGIC) as [Hm|Hm].
  - destruct (Z.leb_spec MAX_SEQUENCE (rtc d RTC_SLOT_SEQUENCE)) as [Hq|Hq].
    + destruct (generate_spec (rtc d RTC_SLOT_SESSION_HI) (u32 (rtc d RTC_SLOT_BOOT_COUNT + 1))
                  (store_initialized true d)) as (n & sid & -> & Hsid).
      split; [|done]. split; cbn; try done.
      * apply Hi.
      * intros g id Hin. specialize (Hg g id Hin). lia.
      * split; cbn; try done; [unfold MAX_SEQUENCE; lia|]. by apply used_below_new.
    + fold (wake_sequence (rtc d RTC_SLOT_SEQUENCE)).
      specialize (Hs Hm Hq). set (w := wake_sequence _) in *.
      assert (fits 32 w /\ 0 <= w) as [Hw Hw0].
      { unfold w. rewrite wake_sequence_spec by done. unfold MAX_SEQUENCE.
        destruct (Z.leb_spec (2 ^ 32) (rtc d RTC_SLOT_SEQUENCE + 256)); words_lia. }
      split; [|done]. split; cbn; try done.
      * apply Hi.
      * apply Hi.
      * split; cbn; try done; [lia|div_lia].
  - destruct (generate_spec 0 0 (store_initialized true d)) as (n & sid & -> & Hsid).
    split; [|done]. split; cbn; try done.
    + apply Hi.
    + intros g id Hin. specialize (Hg g id Hin). lia.
    + split; cbn; try done; [unfold MAX_SEQUENCE; lia|]. by apply used_below_new.
Qed.

Lemma reboot_inv d log : id_inv d log -> id_inv (reboot d) log.
Proof.
  intros [Hs Hq Hn Hg Hst]. split; cbn; try done. unfold asleep_inv. cbn.
  destruct (INITIALIZED d); [|done]. intros Hm Hmax id Hin.
  destruct (live_used d log Hst id Hin) as (k & Hk & ->). exists k.
  rewrite (live_session d log Hst). split; [|done].
  rewrite wake_sequence_spec by done.
  pose proof (live_period d log Hst). pose proof (live_persist d log Hst).
  pose proof (live_max d log Hst). unfold MAX_SEQUENCE in *.
  destruct (Z.leb_spec (2 ^ 32) (rtc d RTC_SLOT_SEQUENCE + 256)); [lia|]. div_lia.
Qed.

Lemma invalidate_inv d log : id_inv d log -> id_inv (invalidate_rtc d) log.
Proof.
  intros [Hs Hq Hn Hg Hst]. split; cbn; try done.
  destruct (INITIALIZED d); [by destruct Hst|]. by intros ?.
Qed.

(** The id handed out is the sequence number's, which nothing used before. *)
Lemma next_live d log :
  id_inv d log -> INITIALIZED d = true ->
  let '(d', id) := next_packet_id random_u32 rtc_time d in
  id_inv d' ((time_reads d, id) :: log).
Proof.
  intros Hi Hd. unfold next_packet_id, init. rewrite Hd.
  pose proof (inv_state d log Hi) as Hst. rewrite Hd in Hst.
  destruct Hst as [Hses Hper Hmul Hwid Hmax Hused]. cbv zeta.
  fold (packet_id (PACKET_ID_SESSION d) (PACKET_ID_SEQUENCE d)).
  set (s := PACKET_ID_SEQUENCE d) in *. set (ses := PACKET_ID_SESSION d) in *.
  assert (fits 32 ses) as Hses32 by (rewrite <- Hses; apply Hi).
  assert ((time_reads d, packet_id ses s) ∉ log) as Hnew.
  { intros Hin. destruct (Hused _ Hin) as (k & Hk & He).
    apply packet_id_inj in He; [lia|done|done|words_lia]. }
  assert (NoDup ((time_reads d, packet_id ses s) :: log)) as Hnd
    by (apply NoDup_cons; split; [done|apply Hi]).
  assert (forall (g : nat) id, (g, id) ∈ (time_reads d, packet_id ses s) :: log -> (g <= time_reads d)%nat)
    as Hgen.
  { intros g id [[= -> _]|Hin]%elem_of_cons; [done|]. by apply (inv_gen d log Hi) in Hin. }
  change 0xFF with (Z.ones 8). rewrite Z.land_ones by lia.
  destruct (Z.leb_spec MAX_SEQUENCE s) as [Hrot|Hrot].
  - unfold rotate_session_internal.
    destruct (generate_spec (PACKET_ID_SESSION (store_sequence (u32 (s + 1)) d))
      (BOOT_COUNT (store_sequence (u32 (s + 1)) d)) (store_sequence (u32 (s + 1)) d))
      as (n & sid & -> & Hsid).
    destruct (Z.eqb_spec (s mod 2 ^ 8) 0) as [H0|_];
      [unfold MAX_SEQUENCE in Hrot; words_lia|].
    split; cbn; try done.
    + intros g id Hin. apply Hgen in Hin. lia.
    + rewrite Hd. split; cbn; try done; [unfold MAX_SEQUENCE; lia|].
      apply used_below_new. intros g id Hin. apply Hgen in Hin. lia.
  - assert (u32 (s + 1) = s + 1) as -> by (apply u32_small; unfold MAX_SEQUENCE in *; words_lia).
    assert (used_below ((time_reads d, packet_id ses s) :: log) (time_reads d) ses (s + 1)) as Hu.
    { intros id [[= ->]|Hin]%elem_of_cons; [exists s; split; [words_lia|done]|].
      destruct (Hused id Hin) as (k & Hk & ->). exists k. split; [lia|done]. }
    assert (fits 32 (s + 1)) as Hw1 by (unfold MAX_SEQUENCE in *; words_lia).
    destruct (Z.eqb_spec (s mod 2 ^ 8) 0) as [H0|H0].
    + split; cbn; try done. rewrite Hd. split; cbn; try done; [lia|div_lia|left; lia].
    + split; cbn; try done; [apply Hi|apply Hi|].
      rewrite Hd. split; cbn; try done; [lia|div_lia|left; lia].
Qed.

Lemma init_idem d : INITIALIZED d = true -> initd d = d.
Proof. intros Hd. unfold init. by rewrite Hd. Qed.

Lemma id_step_inv d log e :
  id_inv d log ->
  let '(d', out) := id_step random_u32 rtc_time d e in id_inv d' (option_list out ++ log).
Proof.
  intros Hi. destruct (init_inv d log Hi) as [Hi1 Hd1]. destruct e; cbn [id_step option_list].
  - pose proof (next_live (initd d) log Hi1 Hd1) as Hn.
    unfold next_packet_id in Hn |- *. rewrite init_idem in Hn by done. exact Hn.
  - by apply rotate_inv.
  - done.
  - by apply invalidate_inv.
  - by apply reboot_inv.
Qed.

Lemma id_run_nodup es d log :
  id_inv d log -> NoDup (id_run random_u32 rtc_time d es ++ log).
Proof.
  revert d log. induction es as [|e es IH]; intros d log Hi; cbn [id_run]; [apply Hi|].
  pose proof (id_step_inv d log e Hi) as Hs.
  destruct (id_step random_u32 rtc_time d e) as [d' out].
  specialize (IH d' _ Hs). revert IH. apply NoDup_Permutation_proper.
  rewrite <- app_assoc. by rewrite (Permutation_app_comm (option_list out)), <- app_assoc,
    (Permutation_app_comm log).
Qed.
End unique.

(** ** Without persistence: lemmas for [next_packet_id_64] *)

Definition nexts_64 (rng time : nat -> Z) (n : nat) (d : Device) : Device :=
  Nat.iter n (fun d => (next_packet_id_64 rng time d).1) d.

(** Below the limit each call only bumps the RAM counter. *)
Lemma nexts_64_eq rng time n d :
  INITIALIZED d = true -> 0 <= PACKET_ID_SEQUENCE d ->
  PACKET_ID_SEQUENCE d + Z.of_nat n <= MAX_SEQUENCE ->
  nexts_64 rng time n d = store_sequence (PACKET_ID_SEQUENCE d + Z.of_nat n) d.
Proof.
  intros Hd H0. induction n as [|n IH]; intros Hn.
  - destruct d. unfold store_sequence. cbn. by rewrite Z.add_0_r.
  - change (nexts_64 rng time (S n) d)
      with (next_packet_id_64 rng time (nexts_64 rng time n d)).1.
    rewrite IH by lia.
    unfold next_packet_id_64, init. cbn. rewrite Hd. cbn.
    destruct (Z.leb_spec MAX_SEQUENCE (PACKET_ID_SEQUENCE d + Z.of_nat n)); [lia|].
    unfold store_sequence. cbn. f_equal. rewrite u32_small; [lia|].
    unfold MAX_SEQUENCE in *. words_lia.
Qed.

(** ** Properties *)

(** C8. No id is handed out twice within a session, across any number of
    wake-ups: from any RTC content, over any sequence of [next_packet_id],
    [rotate_session], [session_info], [invalidate_rtc] and power losses, the ids
    that [next_packet_id] hands out under the same generated session id are
    pairwise distinct (persisting every 256 ids and skipping 256 on wake is
    enough, up to and including the end of the sequence range). *)
Theorem packet_ids_unique rng time d es
    (Hoff : INITIALIZED d = false)
    (Hs : fits 32 (rtc d RTC_SLOT_SESSION_HI)) (Hq : fits 32 (rtc d RTC_SLOT_SEQUENCE)) :
  NoDup (id_run rng time d es).
Proof.
  rewrite <- (app_nil_r (id_run _ _ _ _)). apply id_run_nodup. split; try done.
  - constructor.
  - intros g id Hin. by apply not_elem_of_nil in Hin.
  - rewrite Hoff. intros _ _ id Hin. by apply not_elem_of_nil in Hin.
Qed.

Lemma packet_ids_unique_witness :
  let d := mkDevice (fun _ => 0) 0 0 0 false 0 0 in
  let log := id_run (fun n => 17 * Z.of_nat n) (fun n => Z.of_nat n) d
               [Next; Next; Reboot; Next; Rotate; Next; Invalidate; Reboot; Next] in
  NoDup log /\ length log = 5%nat.
Proof. split; [by apply packet_ids_unique|vm_compute; reflexivity]. Defined.

(** Within a session different 32-bit sequence numbers have different ids:
    [mix32] is injective and the multiplier is odd, so the id handed out next
    differs from those of all other sequence numbers. *)
Theorem packet_id_injective rng time d seq
    (Hd : INITIALIZED d = true) (Hs : fits 32 (PACKET_ID_SESSION d))
    (Hq : fits 32 (PACKET_ID_SEQUENCE d)) (Hseq : fits 32 seq) :
  let id := (next_packet_id rng time d).2 in
  fits 32 id
  /\ (mix32 (PACKET_ID_SESSION d .^ u32 (seq * 0x85EBCA6B)) = id <-> seq = PACKET_ID_SEQUENCE d).
Proof.
  unfold next_packet_id. rewrite (init_idem rng time) by done. cbn [snd]. split.
  - apply fits_mix32.
  - split; [by apply packet_id_inj|by intros ->].
Qed.

Lemma packet_id_injective_witness :
  let d := mkDevice (fun _ => 0) 5 7 0 true 0 0 in
  fits 32 (next_packet_id (fun _ => 0) (fun _ => 0) d).2.
Proof. apply (packet_id_injective _ _ _ 7); [done|by vm_compute..]. Defined.

(** [next_packet_id_64] does repeat ids after a wake-up: it never writes the
    sequence to the RTC, so once 257 ids have been drawn since the last write,
    the first id after a power loss is one already drawn. *)
Theorem packet_ids_64_reused rng time d
    (Hd : INITIALIZED d = true)
    (Hm : rtc d RTC_SLOT_MAGIC = RTC_MAGIC)
    (Hs : rtc d RTC_SLOT_SESSION_HI = PACKET_ID_SESSION d)
    (Hq : rtc d RTC_SLOT_SEQUENCE = PACKET_ID_SEQUENCE d)
    (Hr : 0 <= PACKET_ID_SEQUENCE d < MAX_SEQUENCE - 512) :
  let drawn := (next_packet_id_64 rng time (nexts_64 rng time 256 d)).2 in
  let after := nexts_64 rng time 257 d in
  (next_packet_id_64 rng time (reboot after)).2 = drawn.
Proof.
  cbv zeta. rewrite !nexts_64_eq by (try done; lia).
  unfold next_packet_id_64. rewrite (init_idem rng time (store_sequence _ _)) by done. cbn [snd].
  unfold init. cbn [INITIALIZED reboot]. unfold rtc_read.
  cbn [rtc reboot store_initialized store_sequence]. rewrite Hm, Hs, Hq, Z.eqb_refl.
  destruct (Z.leb_spec MAX_SEQUENCE (PACKET_ID_SEQUENCE d)); [lia|].
  unfold WAKE_SEQUENCE_SKIP. rewrite (u32_small (PACKET_ID_SEQUENCE d + 256)) by
    (unfold MAX_SEQUENCE in *; words_lia).
  destruct (Z.ltb_spec (PACKET_ID_SEQUENCE d + 256) (PACKET_ID_SEQUENCE d)); [lia|].
  done.
Qed.

Lemma packet_ids_64_reused_witness :
  let rng n := 17 * Z.of_nat n in
  let time n := Z.of_nat n in
  let d := init rng time (mkDevice (fun _ => 0) 0 0 0 false 0 0) in
  (next_packet_id_64 rng time (reboot (nexts_64 rng time 257 d))).2
  = (next_packet_id_64 rng time (nexts_64 rng time 256 d)).2.
Proof. apply packet_ids_64_reused; [reflexivity..|by vm_compute]. Defined.
