(* ===== verification/Transport.v ===== *)
(** * Transport layer: lunarcore/lunar/transport.c

    Addresses derived from a public key, the wire packet, signal quality, protocol
    magic and the lookup table from protocol addresses to public keys. The hash is
    the extern [Sha256_hash]: a parameter, under the interface [Digest]. *)
From S2P Require Import Prelude Sha256.

(** ** Constants *)

Definition MAX_PACKET_SIZE : nat := 237.
Definition NODE_HINT_SIZE : nat := 2.
Definition SESSION_HINT_SIZE : nat := 4.
Definition AUTH_TAG_SIZE : nat := 16.
Definition FLAGS_SIZE : nat := 1.
Definition DATA_OVERHEAD : nat := FLAGS_SIZE + NODE_HINT_SIZE + SESSION_HINT_SIZE + AUTH_TAG_SIZE.
Definition DATA_MAX_PAYLOAD : nat := MAX_PACKET_SIZE - DATA_OVERHEAD.

(** ** Addresses *)

Record UniversalAddress := mkAddress {
  ua_did : list Z;
  ua_public_key : list Z;
  ua_meshcore_addr : Z;
  ua_meshtastic_id : Z;
  ua_reticulum_hash : list Z
}.

(** "yours.messaging" and "did:offgrid:z". *)
Definition app_str : list Z :=
  [121; 111; 117; 114; 115; 46; 109; 101; 115; 115; 97; 103; 105; 110; 103].
Definition did_prefix : list Z :=
  [100; 105; 100; 58; 111; 102; 102; 103; 114; 105; 100; 58; 122].

Section translator.
Context (Sha256_hash : list Z -> list Z).

Definition AddressTranslator_derive_meshcore_address (public_key : list Z) : Z :=
  let hash := Sha256_hash public_key in
  (hash.[0] .<< 8) .| hash.[1].

Definition AddressTranslator_derive_meshtastic_id (public_key : list Z) : Z :=
  let hash := Sha256_hash public_key in
  (hash.[0] .<< 24) .| (hash.[1] .<< 16) .| (hash.[2] .<< 8) .| hash.[3].

Definition AddressTranslator_derive_reticulum_hash (public_key app_name : list Z) : list Z :=
  let app_hash := Sha256_hash app_name in
  let combined := app_hash ++ public_key in
  take 16 (Sha256_hash combined).

Definition AddressTranslator_from_public_key (public_key : list Z) : UniversalAddress :=
  let pubkey_hash := Sha256_hash public_key in
  let meshcore_addr := (pubkey_hash.[0] .<< 8) .| pubkey_hash.[1] in
  let meshtastic_id :=
    (pubkey_hash.[0] .<< 24) .| (pubkey_hash.[1] .<< 16) .| (pubkey_hash.[2] .<< 8)
    .| pubkey_hash.[3] in
  let app_hash := Sha256_hash app_str in
  let combined := app_hash ++ public_key in
  let reticulum_full := Sha256_hash combined in
  mkAddress did_prefix public_key meshcore_addr meshtastic_id (take 16 reticulum_full).
End translator.

(** ** Wire packets *)

Inductive PacketType :=
  PacketType_Data | PacketType_Handshake | PacketType_Control | PacketType_Cover.

(** The enumerator's value, [(uint8_t)self->packet_type]. *)
Definition packet_type_value (t : PacketType) : Z :=
  match t with
  | PacketType_Data => 0 | PacketType_Handshake => 1
  | PacketType_Control => 2 | PacketType_Cover => 3
  end.

Definition PacketType_from_flags (flags : Z) : PacketType :=
  match (flags .>> 6) .& 0x03 with
  | 0 => PacketType_Data
  | 1 => PacketType_Handshake
  | 2 => PacketType_Control
  | 3 => PacketType_Cover
  | _ => PacketType_Data
  end.

Record WirePacket := mkWire {
  w_packet_type : PacketType;
  w_hop_count : Z;         (* uint8_t *)
  w_next_hop_hint : Z;     (* uint16_t *)
  w_session_hint : Z;      (* uint32_t *)
  w_payload : list Z       (* Vec214 *)
}.

Definition WirePacket_new_data (next_hop session : Z) (payload : list Z) : option WirePacket :=
  if (DATA_MAX_PAYLOAD <? length payload)%nat then None
  else Some (mkWire PacketType_Data 0 next_hop session payload).

Definition WirePacket_encode (self : WirePacket) : list Z :=
  let flags := u8 (u8 (packet_type_value (w_packet_type self) .<< 6) .| (w_hop_count self .& 0x0F)) in
  [flags; u8 (w_next_hop_hint self .>> 8); u8 (w_next_hop_hint self);
   u8 (w_session_hint self .>> 24); u8 (w_session_hint self .>> 16);
   u8 (w_session_hint self .>> 8); u8 (w_session_hint self)] ++ w_payload self.

Definition WirePacket_decode (data : list Z) : option WirePacket :=
  if (length data <? 7)%nat then None
  else
    let flags := data.[0] in
    let packet_type := PacketType_from_flags flags in
    let hop_count := flags .& 0x0F in
    let next_hop_hint := (data.[1] .<< 8) .| data.[2] in
    let session_hint :=
      (data.[3] .<< 24) .| (data.[4] .<< 16) .| (data.[5] .<< 8) .| data.[6] in
    let payload :=
      if (7 <? length data)%nat then
        let payload_len := (length data - 7)%nat in
        let payload_len := if (214 <? payload_len)%nat then 214%nat else payload_len in
        slice data 7 payload_len
      else [] in
    Some (mkWire packet_type hop_count next_hop_hint session_hint payload).

Definition WirePacket_increment_hop (self : WirePacket) : WirePacket * bool :=
  if w_hop_count self <? 15 then
    (mkWire (w_packet_type self) (u8 (w_hop_count self + 1)) (w_next_hop_hint self)
       (w_session_hint self) (w_payload self), true)
  else (self, false).

(** ** Signal quality *)

Record SignalQuality := mkQuality { sq_rssi : Z; sq_snr : Z; sq_quality : Z }.

Definition SignalQuality_new (rssi snr : Z) : SignalQuality :=
  let rssi_clamped := if rssi <? -120 then -120 else rssi in
  let rssi_clamped := if -50 <? rssi_clamped then -50 else rssi_clamped in
  let rssi_norm := u8 (u16 (rssi_clamped + 120) * 100 / 70) in
  let snr_clamped := if snr <? -20 then -20 else snr in
  let snr_clamped := if 10 <? snr_clamped then 10 else snr_clamped in
  let snr_norm := u8 (u16 (snr_clamped + 20) * 100 / 30) in
  mkQuality rssi snr (u8 ((rssi_norm + snr_norm) / 2)).

(** ** Protocol magic *)

Inductive Protocol := Protocol_MeshCore | Protocol_Meshtastic | Protocol_Reticulum.

Definition Protocol_magic_bytes (self : Protocol) : list Z :=
  match self with
  | Protocol_MeshCore => [0xAA; 0x55]
  | Protocol_Meshtastic => [0x94; 0xC3]
  | Protocol_Reticulum => [0xC0; 0x00]
  end.

Definition Protocol_detect (data : list Z) : option Protocol :=
  if (length data <? 2)%nat then None
  else if (data.[0] =? 0xAA) && (data.[1] =? 0x55) then Some Protocol_MeshCore
  else if (data.[0] =? 0x94) && (data.[1] =? 0xC3) then Some Protocol_Meshtastic
  else if data.[0] =? 0xC0 then Some Protocol_Reticulum
  else None.

(** ** AddressLookupTable *)

Definition MAX_KNOWN_ADDRESSES : nat := 64.

Inductive ProtocolAddress :=
  | ProtocolAddressType_MeshCore (meshcore : Z)
  | ProtocolAddressType_Meshtastic (meshtastic : Z)
  | ProtocolAddressType_Reticulum (reticulum : list Z).

(** One entry of an index; the three arrays differ in the type of the key. *)
Record slot (K : Type) := mkSlot { sl_key : K; sl_value : list Z; sl_occupied : bool }.
Arguments mkSlot {K} _ _ _.
Arguments sl_key {K} _.
Arguments sl_value {K} _.
Arguments sl_occupied {K} _.

Section index.
Context {K : Type} `{EqDecision K}.

(** [occupied && key == k]. *)
Definition slot_is (k : K) (s : slot K) : bool := sl_occupied s && bool_decide (sl_key s = k).

(** The registration loop: the first slot that is free or holds the key is
    written; [true] when it was free. *)
Fixpoint index_register (l : list (slot K)) (k : K) (v : list Z) : list (slot K) * bool :=
  match l with
  | [] => ([], false)
  | s :: l =>
      if negb (sl_occupied s) || bool_decide (sl_key s = k)
      then (mkSlot k v true :: l, negb (sl_occupied s))
      else let '(l, fresh) := index_register l k v in (s :: l, fresh)
  end.

(** The removal loop: the first match is marked free; [true] when there was one. *)
Fixpoint index_unregister (l : list (slot K)) (k : K) : list (slot K) * bool :=
  match l with
  | [] => ([], false)
  | s :: l =>
      if slot_is k s then (mkSlot (sl_key s) (sl_value s) false :: l, true)
      else let '(l, found) := index_unregister l k in (s :: l, found)
  end.

Definition index_lookup (l : list (slot K)) (k : K) : option (list Z) :=
  sl_value ∘ snd <$> find_first (slot_is k) l.
End index.

Record AddressLookupTable := mkTable {
  meshcore_index : list (slot Z);
  meshtastic_index : list (slot Z);
  reticulum_index : list (slot (list Z));
  table_count : Z            (* size_t, 32 bits on the target *)
}.

Definition AddressLookupTable_init : AddressLookupTable :=
  mkTable (replicate MAX_KNOWN_ADDRESSES (mkSlot 0 (replicate 32 0) false))
    (replicate MAX_KNOWN_ADDRESSES (mkSlot 0 (replicate 32 0) false))
    (replicate MAX_KNOWN_ADDRESSES (mkSlot (replicate 8 0) (replicate 32 0) false)) 0.

Section table.
Context (Sha256_hash : list Z -> list Z).

Definition AddressLookupTable_register (self : AddressLookupTable) (public_key : list Z)
    : AddressLookupTable :=
  let addr := AddressTranslator_from_public_key Sha256_hash public_key in
  let '(mc, fresh) := index_register (meshcore_index self) (ua_meshcore_addr addr) public_key in
  let count := if fresh then u32 (table_count self + 1) else table_count self in
  let mt := (index_register (meshtastic_index self) (ua_meshtastic_id addr) public_key).1 in
  let ret_key := take 8 (ua_reticulum_hash addr) in
  let rt := (index_register (reticulum_index self) ret_key public_key).1 in
  mkTable mc mt rt count.

Definition AddressLookupTable_unregister (self : AddressLookupTable) (public_key : list Z)
    : AddressLookupTable :=
  let addr := AddressTranslator_from_public_key Sha256_hash public_key in
  let '(mc, found) := index_unregister (meshcore_index self) (ua_meshcore_addr addr) in
  let count := if found then u32 (table_count self - 1) else table_count self in
  let mt := (index_unregister (meshtastic_index self) (ua_meshtastic_id addr)).1 in
  let ret_key := take 8 (ua_reticulum_hash addr) in
  let rt := (index_unregister (reticulum_index self) ret_key).1 in
  mkTable mc mt rt count.
End table.

Definition AddressLookupTable_lookup_meshcore (self : AddressLookupTable) (addr : Z)
    : option (list Z) := index_lookup (meshcore_index self) addr.
Definition AddressLookupTable_lookup_meshtastic (self : AddressLookupTable) (id : Z)
    : option (list Z) := index_lookup (meshtastic_index self) id.
Definition AddressLookupTable_lookup_reticulum (self : AddressLookupTable) (hash : list Z)
    : option (list Z) := index_lookup (reticulum_index self) (take 8 hash).

Definition AddressLookupTable_lookup (self : AddressLookupTable) (addr : ProtocolAddress)
    : option (list Z) :=
  match addr with
  | ProtocolAddressType_MeshCore a => AddressLookupTable_lookup_meshcore self a
  | ProtocolAddressType_Meshtastic id => AddressLookupTable_lookup_meshtastic self id
  | ProtocolAddressType_Reticulum h => AddressLookupTable_lookup_reticulum self h
  end.

Definition AddressLookupTable_len (self : AddressLookupTable) : Z := table_count self.
Definition AddressLookupTable_is_empty (self : AddressLookupTable) : bool := table_count self =? 0.

(** ** Wire packets: lemmas *)

(** The fields of a packet in range. *)
Definition wire_ok (p : WirePacket) : Prop :=
  fits 4 (w_hop_count p) /\ fits 16 (w_next_hop_hint p) /\ fits 32 (w_session_hint p)
  /\ bytes_ok (w_payload p) /\ (length (w_payload p) <= DATA_MAX_PAYLOAD)%nat.

#[global] Instance wire_ok_dec p : Decision (wire_ok p).
Proof. unfold wire_ok. apply _. Defined.

Definition wire_flags (t : PacketType) (hop : Z) : Z :=
  u8 (u8 (packet_type_value t .<< 6) .| (hop .& 0x0F)).

#[global] Instance PacketType_eq_dec : EqDecision PacketType.
Proof. solve_decision. Defined.

Definition wire_flags_ok (hop : Z) : bool :=
  forallb (fun t => bool_decide (PacketType_from_flags (wire_flags t hop) = t)
                    && (wire_flags t hop .& 0x0F =? hop))
    [PacketType_Data; PacketType_Handshake; PacketType_Control; PacketType_Cover].

Lemma wire_flags_fields t hop :
  fits 4 hop -> PacketType_from_flags (wire_flags t hop) = t /\ wire_flags t hop .& 0x0F = hop.
Proof.
  intros Hh. assert (wire_flags_ok hop = true) as HP
    by (apply (range_check 16 wire_flags_ok); [vm_compute; done|exact Hh]).
  unfold wire_flags_ok in HP. rewrite List.forallb_forall in HP. specialize (HP t).
  rewrite andb_true_iff, bool_decide_eq_true, Z.eqb_eq in HP. apply HP. destruct t; simpl; auto.
Qed.

(** The flag byte with its two unused bits cleared. *)
Lemma wire_flags_canonical b :
  byte_ok b -> wire_flags (PacketType_from_flags b) (b .& 0x0F) = b .& 0xCF.
Proof.
  intros Hb. apply Z.eqb_eq. revert b Hb.
  apply (range_check 256
    (fun b => wire_flags (PacketType_from_flags b) (b .& 0x0F) =? b .& 0xCF)).
  vm_compute. done.
Qed.

Lemma be16_read_write v : fits 16 v -> (u8 (v .>> 8) .<< 8) .| u8 v = v.
Proof.
  intros Hv. rewrite Z.lor_comm, (lor_shiftl_add 8), shiftr_8 by (lia || apply fits_u8).
  words_lia.
Qed.

Lemma be16_write_read b0 b1 :
  byte_ok b0 -> byte_ok b1 ->
  let v := (b0 .<< 8) .| b1 in fits 16 v /\ u8 (v .>> 8) = b0 /\ u8 v = b1.
Proof.
  intros H0 H1. cbv zeta. rewrite Z.lor_comm, (lor_shiftl_add 8), shiftr_8 by (lia || done).
  split_and!; words_lia.
Qed.

Lemma be32_read_write v :
  fits 32 v -> (u8 (v .>> 24) .<< 24) .| (u8 (v .>> 16) .<< 16) .| (u8 (v .>> 8) .<< 8) .| u8 v = v.
Proof.
  intros Hv. rewrite be32_eq by apply fits_u8. rewrite be32_wr_eq. by apply be_val_fits.
Qed.

Lemma be32_write_read b0 b1 b2 b3 :
  byte_ok b0 -> byte_ok b1 -> byte_ok b2 -> byte_ok b3 ->
  let v := (b0 .<< 24) .| (b1 .<< 16) .| (b2 .<< 8) .| b3 in
  fits 32 v /\ [u8 (v .>> 24); u8 (v .>> 16); u8 (v .>> 8); u8 v] = [b0; b1; b2; b3].
Proof.
  intros H0 H1 H2 H3. cbv zeta. rewrite be32_eq by done. rewrite be32_wr_eq.
  assert (bytes_ok [b3; b2; b1; b0]) as Hok by (repeat constructor; apply H0 || apply H1 || apply H2 || apply H3).
  split; [apply (le_val_bound [b3; b2; b1; b0] Hok)|].
  unfold be_bytes, be_val. change (reverse [b0; b1; b2; b3]) with [b3; b2; b1; b0].
  by rewrite (le_bytes_le_val _ Hok : le_bytes 4 _ = _).
Qed.

Lemma length_WirePacket_encode p : length (WirePacket_encode p) = (7 + length (w_payload p))%nat.
Proof. done. Qed.

Lemma decode_encode p :
  wire_ok p -> WirePacket_decode (WirePacket_encode p) = Some p.
Proof.
  intros (Hh & Hn & Hs & _ & Hp). unfold WirePacket_decode.
  rewrite length_WirePacket_encode. rewrite (proj2 (Nat.ltb_ge _ _)) by lia.
  destruct (wire_flags_fields (w_packet_type p) (w_hop_count p) Hh) as [Ht Hc].
  unfold WirePacket_encode. unfold arr. cbn [app lookup list_lookup default from_option id].
  fold (wire_flags (w_packet_type p) (w_hop_count p)). rewrite Ht, Hc.
  rewrite be16_read_write, be32_read_write by done. f_equal. destruct p as [t h n s d].
  cbn [w_packet_type w_hop_count w_next_hop_hint w_session_hint w_payload] in *. f_equal.
  destruct (Nat.ltb_spec 7 (7 + length d)).
  - rewrite (proj2 (Nat.ltb_ge _ _)) by (cbn in Hp; lia).
    unfold slice. cbn [drop]. apply take_ge. lia.
  - destruct d; [done|cbn in *; lia].
Qed.

(** ** Signal quality: lemmas *)

Lemma quality_value rssi snr :
  fits 16 (rssi + 2 ^ 15) -> fits 8 (snr + 2 ^ 7) ->
  sq_quality (SignalQuality_new rssi snr)
  = ((Z.max (-120) (Z.min (-50) rssi) + 120) * 100 / 70
     + (Z.max (-20) (Z.min 10 snr) + 20) * 100 / 30) / 2.
Proof.
  intros Hr Hs. unfold SignalQuality_new. cbn [sq_quality].
  assert ((if -50 <? (if rssi <? -120 then -120 else rssi) then -50
           else if rssi <? -120 then -120 else rssi) = Z.max (-120) (Z.min (-50) rssi)) as ->.
  { destruct (Z.ltb_spec rssi (-120)) as [|];
      [destruct (Z.ltb_spec (-50) (-120))|destruct (Z.ltb_spec (-50) rssi)]; lia. }
  assert ((if 10 <? (if snr <? -20 then -20 else snr) then 10
           else if snr <? -20 then -20 else snr) = Z.max (-20) (Z.min 10 snr)) as ->.
  { destruct (Z.ltb_spec snr (-20)) as [|];
      [destruct (Z.ltb_spec 10 (-20))|destruct (Z.ltb_spec 10 snr)]; lia. }
  set (a := Z.max (-120) _). set (b := Z.max (-20) _).
  assert (-120 <= a <= -50 /\ -20 <= b <= 10) as [Ha Hb] by lia. clearbody a b.
  rewrite (u16_small (a + 120)), (u16_small (b + 20)) by words_lia.
  rewrite (u8_small ((a + 120) * 100 / 70)) by words_lia.
  rewrite (u8_small ((b + 20) * 100 / 30)) by words_lia.
  apply u8_small. words_lia.
Qed.

(** ** The lookup table: lemmas *)

Section index_lemmas.
Context {K : Type} `{EqDecision K}.
Implicit Types (l : list (slot K)) (k : K).

(** A slot is available to [k]: free, or holding [k]. *)
Definition available k (s : slot K) : bool := negb (sl_occupied s) || bool_decide (sl_key s = k).

Lemma index_lookup_cons s l k :
  index_lookup (s :: l) k = if slot_is k s then Some (sl_value s) else index_lookup l k.
Proof.
  unfold index_lookup. cbn [find_first]. destruct (slot_is k s); [done|].
  by destruct (find_first (slot_is k) l) as [[i x]|].
Qed.

Lemma slot_is_new k k' v : slot_is k' (mkSlot k v true) = bool_decide (k = k').
Proof. done. Qed.

Lemma index_register_lookup l k v k' :
  index_lookup (index_register l k v).1 k'
  = if decide (k' = k) then if existsb (available k) l then Some v else None
    else index_lookup l k'.
Proof.
  induction l as [|s l IH]; cbn [index_register existsb]; [by case_decide|].
  fold (available k s). destruct (available k s) eqn:Ha; cbn [fst orb].
  - rewrite !index_lookup_cons, slot_is_new. cbn [sl_value].
    case_bool_decide; case_decide; try congruence.
    enough (slot_is k' s = false) as -> by done.
    unfold slot_is, available in *. destruct (sl_occupied s); [|done]. cbn in *.
    apply bool_decide_eq_true in Ha as <-. by apply bool_decide_eq_false_2.
  - destruct (index_register l k v) as [l' fresh]. cbn [fst] in *.
    rewrite !index_lookup_cons, IH. case_decide as Hk; [|done]. subst k'.
    enough (slot_is k s = false) as -> by done.
    unfold slot_is, available in *. apply orb_false_iff in Ha as [_ ->]. apply andb_false_r.
Qed.

(** The keys held. *)
Definition index_keys l : list K :=
  omap (fun s => if sl_occupied s then Some (sl_key s) else None) l.

Lemma index_keys_cons s l :
  index_keys (s :: l) = if sl_occupied s then sl_key s :: index_keys l else index_keys l.
Proof. unfold index_keys. cbn. by destruct (sl_occupied s). Qed.

Lemma index_lookup_None l k : index_lookup l k = None <-> k ∉ index_keys l.
Proof.
  induction l as [|s l IH]; [split; [intros _; apply not_elem_of_nil|done]|].
  rewrite index_lookup_cons. unfold slot_is, index_keys. cbn [omap list_omap].
  destruct (sl_occupied s); cbn [andb]; [|apply IH]. rewrite not_elem_of_cons.
  case_bool_decide as Hk; [split; [done|]; intros [? _]; congruence|].
  rewrite IH. unfold index_keys. split; [intros ?; split; [congruence|done]|tauto].
Qed.

Lemma index_unregister_lookup l k k' :
  NoDup (index_keys l) ->
  index_lookup (index_unregister l k).1 k' = if decide (k' = k) then None else index_lookup l k'.
Proof.
  induction l as [|s l IH]; cbn [index_unregister]; intros Hn; [by case_decide|].
  destruct (slot_is k s) eqn:Hs; cbn [fst].
  - rewrite !index_lookup_cons. cbn. unfold slot_is in *.
    apply andb_true_iff in Hs as [Ho Hk]. apply bool_decide_eq_true in Hk as <-.
    rewrite Ho. cbn. case_decide as Hd.
    + subst k'. apply index_lookup_None. unfold index_keys in Hn. cbn in Hn. rewrite Ho in Hn.
      by apply NoDup_cons in Hn as [? _].
    + by rewrite bool_decide_eq_false_2.
  - assert (NoDup (index_keys l)) as Hn'.
    { rewrite index_keys_cons in Hn. destruct (sl_occupied s); [by apply NoDup_cons in Hn as [_ Hn]|done]. }
    specialize (IH Hn'). destruct (index_unregister l k) as [l' found]. cbn [fst] in *.
    rewrite !index_lookup_cons, IH. case_decide as Hd; [|done]. subst k'. by rewrite Hs.
Qed.

(** The number of keys held follows the flags the loops report. *)
Lemma index_register_count l k v :
  length (index_keys (index_register l k v).1)
  = (length (index_keys l) + if (index_register l k v).2 then 1 else 0)%nat.
Proof.
  induction l as [|s l IH]; cbn [index_register]; [done|]. fold (available k s).
  unfold available. destruct (sl_occupied s) eqn:Ho; cbn [negb orb].
  - destruct (bool_decide (sl_key s = k)); cbn [fst snd].
    + rewrite !index_keys_cons, Ho. cbn. lia.
    + destruct (index_register l k v) as [l' fresh]. cbn [fst snd] in *.
      rewrite !index_keys_cons, Ho. cbn [length]. rewrite IH. lia.
  - cbn [fst snd]. rewrite !index_keys_cons, Ho. cbn. lia.
Qed.

Lemma index_unregister_count l k :
  length (index_keys l)
  = (length (index_keys (index_unregister l k).1) + if (index_unregister l k).2 then 1 else 0)%nat.
Proof.
  induction l as [|s l IH]; cbn [index_unregister]; [done|].
  destruct (slot_is k s) eqn:Hs; cbn [fst snd].
  - unfold slot_is in Hs. apply andb_true_iff in Hs as [Ho _].
    rewrite !index_keys_cons, Ho. cbn. lia.
  - destruct (index_unregister l k) as [l' found]. cbn [fst snd] in *.
    rewrite !index_keys_cons. destruct (sl_occupied s); cbn [length]; rewrite IH; lia.
Qed.

Lemma index_register_elem l k v x :
  x ∈ index_keys (index_register l k v).1 -> x = k \/ x ∈ index_keys l.
Proof.
  destruct (decide (x = k)) as [->|Hx]; [by left|]. intros Hin. right.
  destruct (decide (x ∈ index_keys l)) as [|Hn]; [done|]. exfalso.
  apply index_lookup_None in Hn. assert (index_lookup (index_register l k v).1 x = None) as He
    by (rewrite index_register_lookup; by rewrite decide_False by done).
  by apply index_lookup_None in He.
Qed.

Lemma length_index_register l k v : length (index_register l k v).1 = length l.
Proof.
  induction l as [|s l IH]; cbn [index_register]; [done|].
  destruct (negb _ || _); [done|]. destruct (index_register l k v). cbn in *. lia.
Qed.

Lemma length_index_unregister l k : length (index_unregister l k).1 = length l.
Proof.
  induction l as [|s l IH]; cbn [index_unregister]; [done|].
  destruct (slot_is k s); [done|]. destruct (index_unregister l k). cbn in *. lia.
Qed.

Lemma length_index_keys l : (length (index_keys l) <= length l)%nat.
Proof.
  induction l as [|s l IH]; [done|]. rewrite index_keys_cons. destruct (sl_occupied s); cbn; lia.
Qed.

(** A key that is not held enters once; a removal never adds one. *)
Lemma index_register_NoDup l k v :
  k ∉ index_keys l -> NoDup (index_keys l) -> NoDup (index_keys (index_register l k v).1).
Proof.
  induction l as [|s l IH]; cbn [index_register]; [done|]. fold (available k s).
  unfold available. rewrite index_keys_cons. intros Hk Hn.
  destruct (sl_occupied s) eqn:Ho; cbn [negb orb].
  - apply not_elem_of_cons in Hk as [Hne Hk]. apply NoDup_cons in Hn as [Hs Hn].
    rewrite bool_decide_eq_false_2 by done.
    specialize (IH Hk Hn). pose proof (index_register_elem l k v (sl_key s)) as Hel.
    destruct (index_register l k v) as [l' fresh]. cbn [fst] in *.
    rewrite index_keys_cons, Ho. apply NoDup_cons. split; [|done].
    intros Hin. destruct (Hel Hin); [by subst|done].
  - cbn [fst]. rewrite index_keys_cons. cbn. by apply NoDup_cons.
Qed.

Lemma index_unregister_sublist l k :
  index_keys (index_unregister l k).1 `sublist_of` index_keys l.
Proof.
  induction l as [|s l IH]; cbn [index_unregister]; [done|].
  destruct (slot_is k s) eqn:Hs; cbn [fst].
  - rewrite !index_keys_cons. cbn. destruct (sl_occupied s); [by apply sublist_cons|done].
  - destruct (index_unregister l k) as [l' found]. cbn [fst] in *.
    rewrite !index_keys_cons. destruct (sl_occupied s); [by apply sublist_skip|done].
Qed.
End index_lemmas.

(** ** Runs of the table *)

Inductive table_op := Register (public_key : list Z) | Unregister (public_key : list Z).

Definition table_step (H : list Z -> list Z) (t : AddressLookupTable) (o : table_op)
    : AddressLookupTable :=
  match o with
  | Register pk => AddressLookupTable_register H t pk
  | Unregister pk => AddressLookupTable_unregister H t pk
  end.

Definition table_inv (t : AddressLookupTable) : Prop :=
  length (meshcore_index t) = MAX_KNOWN_ADDRESSES
  /\ table_count t = Z.of_nat (length (index_keys (meshcore_index t))).

Lemma table_step_inv H t o : table_inv t -> table_inv (table_step H t o).
Proof.
  intros [Hl Hc]. pose proof (length_index_keys (meshcore_index t)) as Hk.
  unfold MAX_KNOWN_ADDRESSES in Hl. destruct o as [pk|pk]; cbn [table_step].
  - unfold AddressLookupTable_register. set (a := ua_meshcore_addr _).
    pose proof (index_register_count (meshcore_index t) a pk) as Hr.
    pose proof (length_index_register (meshcore_index t) a pk) as Hlr.
    destruct (index_register (meshcore_index t) a pk) as [mc fresh]. cbn in Hr, Hlr.
    pose proof (length_index_keys mc). split; cbn; [unfold MAX_KNOWN_ADDRESSES; lia|].
    destruct fresh; [rewrite u32_small; [lia|words_lia]|lia].
  - unfold AddressLookupTable_unregister. set (a := ua_meshcore_addr _).
    pose proof (index_unregister_count (meshcore_index t) a) as Hr.
    pose proof (length_index_unregister (meshcore_index t) a) as Hlr.
    destruct (index_unregister (meshcore_index t) a) as [mc found]. cbn in Hr, Hlr.
    split; cbn; [unfold MAX_KNOWN_ADDRESSES; lia|].
    destruct found; [rewrite u32_small; [lia|words_lia]|lia].
Qed.

(** ** Properties *)

(** Wire packets round-trip: a packet with its fields in range (hop count
    0..15, at most 214 payload bytes) encodes into at most 221 of the 237 bytes
    of the buffer and decodes to itself; conversely decoding fails exactly below
    7 bytes, always yields fields in range, and encoding again what was decoded
    from up to 221 bytes gives back the bytes with the two unused flag bits
    cleared. *)
Theorem wire_roundtrip :
  (forall p, wire_ok p ->
     WirePacket_decode (WirePacket_encode p) = Some p
     /\ bytes_ok (WirePacket_encode p)
     /\ (length (WirePacket_encode p) <= 221)%nat)
  /\ (forall d, WirePacket_decode d = None <-> (length d < 7)%nat)
  /\ (forall d p, bytes_ok d -> WirePacket_decode d = Some p ->
       wire_ok p
       /\ ((length d <= 221)%nat -> WirePacket_encode p = (d.[0] .& 0xCF) :: drop 1 d)).
Proof.
  split_and!.
  - intros p Hp. split_and!; [by apply decode_encode| |].
    + unfold WirePacket_encode. destruct Hp as (_ & _ & _ & Hb & _). by solve_bytes.
    + rewrite length_WirePacket_encode. destruct Hp as (_ & _ & _ & _ & Hl). cbn in Hl. lia.
  - intros d. unfold WirePacket_decode. destruct (Nat.ltb_spec (length d) 7); split; done || lia.
  - intros d p Hd. unfold WirePacket_decode.
    destruct (Nat.ltb_spec (length d) 7) as [|Hl]; [done|].
    do 7 (destruct d as [|? d]; [simpl in Hl; lia|]). clear Hl.
    do 7 (apply Forall_cons in Hd as [? Hd]).
    unfold arr. cbn [lookup list_lookup default from_option id].
    intros He. apply (inj Some) in He as <-.
    destruct (be16_write_read z0 z1) as (Hn & E0 & E1); [done..|].
    destruct (be32_write_read z2 z3 z4 z5) as (Hs & E2); [done..|].
    injection E2 as E2 E3 E4 E5.
    set (pl := if (7 <? _)%nat then _ else _).
    assert (pl = take 214 d) as ->.
    { unfold pl, slice. destruct (Nat.ltb_spec 7 (length (z :: z0 :: z1 :: z2 :: z3 :: z4 :: z5 :: d))) as [Hx|Hx];
        cbn [length drop] in *.
      - replace (S (S (S (S (S (S (S (length d))))))) - 7)%nat with (length d) by lia.
        destruct (Nat.ltb_spec 214 (length d)) as [|Hx2]; [done|]. rewrite (take_ge d 214 Hx2). by apply take_ge.
      - destruct d; [done|cbn in Hx; lia]. }
    split.
    + split_and!; cbn; try done.
      * change 0x0F with (Z.ones 4). rewrite Z.land_ones by lia. words_lia.
      * by apply Forall_take.
      * rewrite length_take. change DATA_MAX_PAYLOAD with 214%nat. lia.
    + cbn [length]. intros Hl. unfold WirePacket_encode.
      cbn [w_packet_type w_hop_count w_next_hop_hint w_session_hint w_payload drop].
      rewrite E0, E1, E2, E3, E4, E5, take_ge by lia.
      cbn [app]. f_equal. by rewrite <- wire_flags_canonical by done.
Qed.

(** The hop count saturates at 15: after [n] calls of
    [WirePacket_increment_hop] it is [min 15 (h + n)], a call reports success
    exactly while it is below 15, and the other fields stay, so the count survives
    encoding and decoding at every hop. *)
Theorem hop_count_saturates p n (Hp : wire_ok p) :
  let q := Nat.iter n (fun q => (WirePacket_increment_hop q).1) p in
  w_hop_count q = Z.min 15 (w_hop_count p + Z.of_nat n)
  /\ (WirePacket_increment_hop q).2 = (w_hop_count p + Z.of_nat n <? 15)
  /\ WirePacket_decode (WirePacket_encode q) = Some q
  /\ (w_packet_type q, w_next_hop_hint q, w_session_hint q, w_payload q)
     = (w_packet_type p, w_next_hop_hint p, w_session_hint p, w_payload p).
Proof.
  cbv zeta. set (q := Nat.iter _ _ _).
  assert (q = mkWire (w_packet_type p) (Z.min 15 (w_hop_count p + Z.of_nat n))
                (w_next_hop_hint p) (w_session_hint p) (w_payload p)) as ->.
  { unfold q. clear q. destruct Hp as [Hh _]. induction n as [|n IH].
    - destruct p as [t h x s d]. cbn in *. f_equal. words_lia.
    - cbn [Nat.iter nat_rect]. unfold Nat.iter in IH. rewrite IH.
      unfold WirePacket_increment_hop.
      cbn [w_packet_type w_hop_count w_next_hop_hint w_session_hint w_payload].
      destruct (Z.ltb_spec (Z.min 15 (w_hop_count p + Z.of_nat n)) 15); cbn [fst]; f_equal;
        words_lia. }
  split; [done|]. split; [|split; [|done]].
  - unfold WirePacket_increment_hop. cbn [w_hop_count].
    destruct (Z.ltb_spec (Z.min 15 (w_hop_count p + Z.of_nat n)) 15),
      (Z.ltb_spec (w_hop_count p + Z.of_nat n) 15); done || lia.
  - apply decode_encode. destruct Hp as (Hh & Hp). split; [cbn [w_hop_count]; words_lia|done].
Qed.

Lemma hop_count_saturates_witness :
  let p := mkWire PacketType_Data 14 0x1234 0xDEADBEEF [1; 2; 3] in
  wire_ok p /\ w_hop_count (Nat.iter 5 (fun q => (WirePacket_increment_hop q).1) p) = 15.
Proof.
  cbv zeta. set (p := mkWire _ _ _ _ _).
  assert (wire_ok p) as Hp by (apply (bool_decide_unpack _); vm_compute; exact I).
  split; [done|]. destruct (hop_count_saturates p 5 Hp) as [-> _]. reflexivity.
Defined.

(** Signal quality is a percentage: for every RSSI and SNR the code can be
    given it lies between 0 and 100 (no intermediate conversion wraps), never
    decreases when either improves, is 100 exactly from -50 dBm and 10 dB up, and
    is the value the clamped linear scales define. *)
Theorem signal_quality_bounds rssi snr rssi' snr'
    (Hr : fits 16 (rssi + 2 ^ 15)) (Hs : fits 8 (snr + 2 ^ 7))
    (Hr' : fits 16 (rssi' + 2 ^ 15)) (Hs' : fits 8 (snr' + 2 ^ 7)) :
  let q := sq_quality (SignalQuality_new rssi snr) in
  0 <= q <= 100
  /\ (rssi <= rssi' -> snr <= snr' -> q <= sq_quality (SignalQuality_new rssi' snr'))
  /\ (q = 100 <-> -50 <= rssi /\ 10 <= snr)
  /\ q = ((Z.max (-120) (Z.min (-50) rssi) + 120) * 100 / 70
          + (Z.max (-20) (Z.min 10 snr) + 20) * 100 / 30) / 2.
Proof.
  cbv zeta. rewrite !quality_value by done. clear Hr Hs Hr' Hs'.
  set (a := Z.max (-120) (Z.min (-50) rssi)). set (b := Z.max (-20) (Z.min 10 snr)).
  assert (-120 <= a <= -50 /\ -20 <= b <= 10) as [Ha Hb] by lia. split_and!.
  - words_lia.
  - words_lia.
  - intros Hra Hsb. apply Z.div_le_mono; [lia|].
    apply Z.add_le_mono; (apply Z.div_le_mono; [lia|]; lia).
  - split.
    + intros Hq. enough (a = -50 /\ b = 10) as [??] by lia. words_lia.
    + intros [??]. assert (a = -50) as -> by lia. assert (b = 10) as -> by lia. done.
  - done.
Qed.

Lemma signal_quality_bounds_witness :
  0 <= sq_quality (SignalQuality_new (-87) (-3)) <= 100.
Proof.
  apply (signal_quality_bounds (-87) (-3) (-87) (-3));
    apply (bool_decide_unpack _); vm_compute; exact I.
Defined.

(** The addresses of a key agree: [AddressTranslator_from_public_key]
    computes what the three [derive] functions compute (Reticulum for the
    application "yours.messaging"), the MeshCore address is the high half of the
    Meshtastic id, and all have their protocol's width. *)
Theorem addresses_agree H `{!Digest H} public_key :
  let a := AddressTranslator_from_public_key H public_key in
  ua_public_key a = public_key
  /\ ua_meshcore_addr a = AddressTranslator_derive_meshcore_address H public_key
  /\ ua_meshtastic_id a = AddressTranslator_derive_meshtastic_id H public_key
  /\ ua_reticulum_hash a = AddressTranslator_derive_reticulum_hash H public_key app_str
  /\ ua_meshcore_addr a = ua_meshtastic_id a .>> 16
  /\ fits 16 (ua_meshcore_addr a) /\ fits 32 (ua_meshtastic_id a)
  /\ length (ua_reticulum_hash a) = 16%nat.
Proof.
  cbv zeta. split_and!; try done; cbn.
  all: try (rewrite length_take, digest_length; done).
  all: pose proof (digest_length public_key) as Hl; pose proof (digest_ok public_key) as Hok.
  all: destruct (H public_key) as [|b0 [|b1 [|b2 [|b3 l]]]]; try discriminate Hl.
  all: do 4 (apply Forall_cons in Hok as [? Hok]).
  all: unfold arr; cbn [lookup list_lookup default from_option id].
  - apply Z.bits_inj'. intros i Hi. rewrite Z.shiftr_spec by done. rewrite !Z.lor_spec.
    rewrite !Z.shiftl_spec by lia.
    rewrite (fits_testbit 8 b3 (i + 16)), (fits_testbit 8 b2 (i + 16 - 8)) by (done || lia).
    rewrite !orb_false_r. replace (i + 16 - 24) with (i - 8) by lia.
    by replace (i + 16 - 16) with i by lia.
  - by apply be16_write_read.
  - by apply be32_write_read.
Qed.

Lemma addresses_agree_witness :
  let a := AddressTranslator_from_public_key sha256_hash (replicate 32 1) in
  ua_meshcore_addr a = ua_meshtastic_id a .>> 16 /\ length (ua_reticulum_hash a) = 16%nat.
Proof.
  destruct (addresses_agree sha256_hash (replicate 32 1)) as (_ & _ & _ & _ & E & _ & _ & L).
  split; [exact E|exact L].
Defined.

(** Registering makes a key found by each of its three addresses (unless
    all 64 slots of the index are taken by other addresses, when the index does
    not change), replaces another key with the same address, and leaves every
    other address as it was. *)
Theorem register_lookup H t public_key :
  let a := AddressTranslator_from_public_key H public_key in
  let t' := AddressLookupTable_register H t public_key in
  (forall x, AddressLookupTable_lookup_meshcore t' x
     = if decide (x = ua_meshcore_addr a)
       then if existsb (available x) (meshcore_index t) then Some public_key else None
       else AddressLookupTable_lookup_meshcore t x)
  /\ (forall x, AddressLookupTable_lookup_meshtastic t' x
       = if decide (x = ua_meshtastic_id a)
         then if existsb (available x) (meshtastic_index t) then Some public_key else None
         else AddressLookupTable_lookup_meshtastic t x)
  /\ (forall h, AddressLookupTable_lookup_reticulum t' h
       = if decide (take 8 h = take 8 (ua_reticulum_hash a))
         then if existsb (available (take 8 h)) (reticulum_index t) then Some public_key else None
         else AddressLookupTable_lookup_reticulum t h).
Proof.
  cbv zeta. unfold AddressLookupTable_register, AddressLookupTable_lookup_meshcore,
    AddressLookupTable_lookup_meshtastic, AddressLookupTable_lookup_reticulum.
  set (a := AddressTranslator_from_public_key H public_key).
  pose proof (index_register_lookup (meshcore_index t) (ua_meshcore_addr a) public_key) as Hm.
  destruct (index_register (meshcore_index t) _ _) as [mc fresh].
  cbn [meshcore_index meshtastic_index reticulum_index fst] in *. split_and!.
  - intros x. rewrite Hm. by case_decide; subst.
  - intros x. rewrite index_register_lookup. by case_decide; subst.
  - intros h. rewrite index_register_lookup. case_decide as Hd; [|done]. by rewrite <- Hd.
Qed.

(** Unregistering, on a table that holds no address twice: the three
    addresses of the key are gone and the others stay. The premise holds as long
    as no address is registered again while it is held. *)
Theorem unregister_lookup H t public_key
    (Hm : NoDup (index_keys (meshcore_index t))) (Ht : NoDup (index_keys (meshtastic_index t)))
    (Hr : NoDup (index_keys (reticulum_index t))) :
  let a := AddressTranslator_from_public_key H public_key in
  let t' := AddressLookupTable_unregister H t public_key in
  (forall x, AddressLookupTable_lookup_meshcore t' x
     = if decide (x = ua_meshcore_addr a) then None else AddressLookupTable_lookup_meshcore t x)
  /\ (forall x, AddressLookupTable_lookup_meshtastic t' x
       = if decide (x = ua_meshtastic_id a) then None
         else AddressLookupTable_lookup_meshtastic t x)
  /\ (forall h, AddressLookupTable_lookup_reticulum t' h
       = if decide (take 8 h = take 8 (ua_reticulum_hash a)) then None
         else AddressLookupTable_lookup_reticulum t h)
  /\ NoDup (index_keys (meshcore_index t'))
  /\ (ua_meshcore_addr a ∉ index_keys (meshcore_index t) ->
      NoDup (index_keys (meshcore_index (AddressLookupTable_register H t public_key)))).
Proof.
  cbv zeta. unfold AddressLookupTable_register, AddressLookupTable_unregister,
    AddressLookupTable_lookup_meshcore, AddressLookupTable_lookup_meshtastic,
    AddressLookupTable_lookup_reticulum.
  set (a := AddressTranslator_from_public_key H public_key).
  pose proof (index_unregister_lookup (meshcore_index t) (ua_meshcore_addr a)) as Hu.
  pose proof (index_unregister_sublist (meshcore_index t) (ua_meshcore_addr a)) as Hsub.
  pose proof (index_register_NoDup (meshcore_index t) (ua_meshcore_addr a) public_key) as Hreg.
  destruct (index_unregister (meshcore_index t) _) as [mc found].
  destruct (index_register (meshcore_index t) _ _) as [mc' fresh].
  cbn [meshcore_index meshtastic_index reticulum_index fst] in *. split_and!.
  - intros x. by apply Hu.
  - intros x. by apply index_unregister_lookup.
  - intros h. by apply index_unregister_lookup.
  - eapply sublist_NoDup; [exact Hm|exact Hsub].
  - auto.
Qed.

Lemma unregister_lookup_witness :
  let pk := replicate 32 7 in
  let t := AddressLookupTable_register sha256_hash AddressLookupTable_init pk in
  AddressLookupTable_lookup_meshcore (AddressLookupTable_unregister sha256_hash t pk)
    (AddressTranslator_derive_meshcore_address sha256_hash pk) = None.
Proof.
  cbv zeta. set (t := AddressLookupTable_register _ _ _).
  destruct (unregister_lookup sha256_hash t (replicate 32 7)) as [Hl _].
  1-3: apply (bool_decide_unpack _); vm_compute; exact I.
  rewrite Hl. vm_compute. reflexivity.
Defined.

(** The count is that of the MeshCore index: over any sequence of
    registrations and removals [AddressLookupTable_len] is the number of occupied
    slots, at most 64, and the table reports empty exactly when none is. *)
Theorem table_count_exact H ops :
  let t := foldl (table_step H) AddressLookupTable_init ops in
  AddressLookupTable_len t = Z.of_nat (length (index_keys (meshcore_index t)))
  /\ AddressLookupTable_len t <= 64
  /\ (AddressLookupTable_is_empty t = true <-> index_keys (meshcore_index t) = []).
Proof.
  cbv zeta. set (t := foldl _ _ _). assert (table_inv t) as [Hl Hc].
  { unfold t. assert (table_inv AddressLookupTable_init) as Hi by done. revert Hi.
    generalize AddressLookupTable_init. induction ops as [|o ops IH]; intros t0 Ht0; [done|].
    by apply IH, table_step_inv. }
  pose proof (length_index_keys (meshcore_index t)) as Hk. unfold MAX_KNOWN_ADDRESSES in Hl.
  unfold AddressLookupTable_len, AddressLookupTable_is_empty. rewrite Hc. split_and!; [done|lia|].
  rewrite Z.eqb_eq. destruct (index_keys (meshcore_index t)); [done|]. split; [cbn; lia|done].
Qed.

(** A stale entry survives: when a slot before an address's own has been
    freed, registering the address again stores it a second time, and the removal
    that follows clears only the first copy, so the key is still found. *)
Theorem unregister_leaves_stale_entry :
  exists a b, let t := foldl (table_step sha256_hash) AddressLookupTable_init
      [Register a; Register b; Unregister a; Register b; Unregister b] in
    AddressLookupTable_lookup_meshcore t (AddressTranslator_derive_meshcore_address sha256_hash b)
    = Some b /\ AddressLookupTable_len t = 1.
Proof. exists (replicate 32 1), (replicate 32 2). vm_compute. done. Qed.
