(* ===== verification/ChaCha20.v ===== *)
(** * ChaCha20: lunarcore/lunar/crypto/chacha20.c

    The block function, the keystream, XChaCha20. The state is the array of 16
    words; the key stream of the whole cipher is the specification. *)
From S2P Require Import Prelude.

(** ** Constants and state *)

Definition STATE_SIZE : nat := 16.
Definition BLOCK_SIZE : nat := 64.

Definition CHACHA20_CONSTANTS : list Z := [0x61707865; 0x3320646e; 0x79622d32; 0x6b206574].

(** [uint32_t state[STATE_SIZE]]. *)
Record ChaCha20 := mkChaCha { cc_state : list Z }.
Record XChaCha20 := mkXChaCha { xc_inner : ChaCha20 }.

(** ** Helpers *)

Definition u32_from_le_bytes (bytes : list Z) : Z :=
  bytes.[0] .| (bytes.[1] .<< 8) .| (bytes.[2] .<< 16) .| (bytes.[3] .<< 24).

Definition u32_to_le_bytes (value : Z) : list Z :=
  [u8 (value .& 0xFF); u8 ((value .>> 8) .& 0xFF);
   u8 ((value .>> 16) .& 0xFF); u8 ((value .>> 24) .& 0xFF)].

Definition rotate_left (value shift : Z) : Z := u32 ((value .<< shift) .| (value .>> (32 - shift))).

Definition wrapping_add (a b : Z) : Z := u32 (a + b).

Definition chacha20_drop (self : ChaCha20) : ChaCha20 := mkChaCha (replicate STATE_SIZE 0).

(** ** The cipher *)

Definition chacha20_new (key nonce : list Z) : ChaCha20 :=
  mkChaCha
    (CHACHA20_CONSTANTS
     ++ [u32_from_le_bytes (slice key 0 4); u32_from_le_bytes (slice key 4 4);
         u32_from_le_bytes (slice key 8 4); u32_from_le_bytes (slice key 12 4);
         u32_from_le_bytes (slice key 16 4); u32_from_le_bytes (slice key 20 4);
         u32_from_le_bytes (slice key 24 4); u32_from_le_bytes (slice key 28 4)]
     ++ [0; u32_from_le_bytes (slice nonce 0 4); u32_from_le_bytes (slice nonce 4 4);
         u32_from_le_bytes (slice nonce 8 4)]).

Definition chacha20_new_with_counter (key nonce : list Z) (counter : Z) : ChaCha20 :=
  mkChaCha (<[12%nat := counter]> (cc_state (chacha20_new key nonce))).

(** [state[i] = v], as a step of a sequence of assignments. *)
Definition quarter_round (state : list Z) (a b c d : nat) : list Z :=
  let state := <[a := wrapping_add state.[a] state.[b]]> state in
  let state := <[d := state.[d] .^ state.[a]]> state in
  let state := <[d := rotate_left state.[d] 16]> state in
  let state := <[c := wrapping_add state.[c] state.[d]]> state in
  let state := <[b := state.[b] .^ state.[c]]> state in
  let state := <[b := rotate_left state.[b] 12]> state in
  let state := <[a := wrapping_add state.[a] state.[b]]> state in
  let state := <[d := state.[d] .^ state.[a]]> state in
  let state := <[d := rotate_left state.[d] 8]> state in
  let state := <[c := wrapping_add state.[c] state.[d]]> state in
  let state := <[b := state.[b] .^ state.[c]]> state in
  <[b := rotate_left state.[b] 7]> state.

(** The body of the loop of ten double rounds. *)
Definition double_round (working : list Z) : list Z :=
  let working := quarter_round working 0 4 8 12 in
  let working := quarter_round working 1 5 9 13 in
  let working := quarter_round working 2 6 10 14 in
  let working := quarter_round working 3 7 11 15 in
  let working := quarter_round working 0 5 10 15 in
  let working := quarter_round working 1 6 11 12 in
  let working := quarter_round working 2 7 8 13 in
  quarter_round working 3 4 9 14.

Definition chacha20_block (self : ChaCha20) (counter : Z) : list Z :=
  let state := <[12%nat := counter]> (cc_state self) in
  let working := Nat.iter 10 double_round state in
  let working := zip_with wrapping_add working state in
  concat (u32_to_le_bytes <$> working).

(** [while (offset < data_len)]: one chunk of at most 64 bytes per turn. *)
Fixpoint apply_keystream_loop (fuel : nat) (self : ChaCha20) (counter : Z) (data : list Z) : list Z :=
  match fuel with
  | O => data
  | S fuel =>
      if (0 <? length data)%nat then
        let keystream := chacha20_block self counter in
        let chunk_len :=
          if (BLOCK_SIZE <? length data)%nat then BLOCK_SIZE else length data in
        xor_bytes (take chunk_len data) keystream
        ++ apply_keystream_loop fuel self (wrapping_add counter 1) (drop chunk_len data)
      else data
  end.

Definition chacha20_apply_keystream (self : ChaCha20) (data : list Z) : list Z :=
  apply_keystream_loop (length data) self (cc_state self).[12] data.

Definition chacha20_encrypt (self : ChaCha20) (data : list Z) : list Z :=
  chacha20_apply_keystream self data.
Definition chacha20_decrypt (self : ChaCha20) (data : list Z) : list Z :=
  chacha20_apply_keystream self data.

(** [while (remaining > 0)]: bytes past the 1024 of the buffer are dropped. *)
Fixpoint keystream_loop (fuel : nat) (self : ChaCha20) (counter : Z) (remaining : nat)
    (output : list Z) : list Z :=
  match fuel with
  | O => output
  | S fuel =>
      if (0 <? remaining)%nat then
        let block := chacha20_block self counter in
        let to_copy := if (BLOCK_SIZE <? remaining)%nat then BLOCK_SIZE else remaining in
        let output := output ++ take (1024 - length output) (take to_copy block) in
        keystream_loop fuel self (wrapping_add counter 1) (remaining - to_copy) output
      else output
  end.

Definition chacha20_keystream (self : ChaCha20) (len : nat) : list Z :=
  keystream_loop len self (cc_state self).[12] len [].

Definition hchacha20 (key nonce : list Z) : list Z :=
  let state :=
    [0x61707865; 0x3320646e; 0x79622d32; 0x6b206574]
    ++ ((fun i => u32_from_le_bytes (slice key (i * 4) 4)) <$> seq 0 8)
    ++ ((fun i => u32_from_le_bytes (slice nonce (i * 4) 4)) <$> seq 0 4) in
  let state := Nat.iter 10 double_round state in
  concat (u32_to_le_bytes <$> (take 4 state ++ slice state 12 4)).

Definition xchacha20_new (key nonce : list Z) : XChaCha20 :=
  let hnonce := take 16 nonce in
  let subkey := hchacha20 key hnonce in
  let chacha_nonce := replicate 4 0 ++ slice nonce 16 8 in
  mkXChaCha (chacha20_new subkey chacha_nonce).

Definition xchacha20_apply_keystream (self : XChaCha20) (data : list Z) : list Z :=
  chacha20_apply_keystream (xc_inner self) data.

(** ** Test vectors: RFC 8439 2.3.2, draft-irtf-cfrg-xchacha 2.2.1 *)

Example chacha20_rfc8439_block :
  chacha20_block (chacha20_new (range 32) [0; 0; 0; 9; 0; 0; 0; 0x4a; 0; 0; 0; 0]) 1
  = be_bytes 32 0x10f1e7e4d13b5915500fdd1fa32071c4c7d1f4c733c068030422aa9ac3d46c4e
    ++ be_bytes 32 0xd2826446079faa0914c2d705d98b02a2b5129cd1de164eb9cbd083e8a2503c4e.
Proof. vm_compute. reflexivity. Qed.

Example hchacha20_vector :
  hchacha20 (range 32) [0; 0; 0; 9; 0; 0; 0; 0x4a; 0; 0; 0; 0; 0x31; 0x41; 0x59; 0x27]
  = be_bytes 32 0x82413b4227b27bfed30e42508a877d73a0f9e4d58a74a853c12ec41326d3ecdc.
Proof. vm_compute. reflexivity. Qed.

(** ** The key stream *)

(** Bytes [0 .. 64 * n) of the stream that starts at block [counter]. *)
Fixpoint stream (self : ChaCha20) (counter : Z) (n : nat) : list Z :=
  match n with
  | O => []
  | S n => chacha20_block self counter ++ stream self (wrapping_add counter 1) n
  end.

(** The first [len] bytes of the cipher's stream. *)
Definition key_stream (self : ChaCha20) (len : nat) : list Z :=
  take len (stream self (cc_state self).[12] ((len + 63) / 64)).

Definition chacha_wf (self : ChaCha20) : Prop := length (cc_state self) = STATE_SIZE.

Lemma length_quarter_round s a b c d : length (quarter_round s a b c d) = length s.
Proof. unfold quarter_round. cbv zeta. by rewrite !length_insert. Qed.

Lemma length_double_rounds n s : length (Nat.iter n double_round s) = length s.
Proof.
  induction n as [|n IH]; [done|]. cbn [Nat.iter nat_rect]. unfold double_round at 1. cbv zeta.
  by rewrite !length_quarter_round.
Qed.

Lemma length_concat_le ws : length (concat (u32_to_le_bytes <$> ws)) = (4 * length ws)%nat.
Proof.
  induction ws as [|w ws IH]; [done|]. rewrite fmap_cons. cbn [concat].
  rewrite length_app, IH. simpl. lia.
Qed.

Lemma concat_le_ok ws : bytes_ok (concat (u32_to_le_bytes <$> ws)).
Proof. induction ws as [|w ws IH]; simpl; [constructor|]. by solve_bytes. Qed.

Lemma length_chacha20_block self counter :
  chacha_wf self -> length (chacha20_block self counter) = 64%nat.
Proof.
  intros Hw. unfold chacha20_block. cbv zeta.
  rewrite length_concat_le, length_zip_with, length_double_rounds, length_insert, Hw. done.
Qed.

Lemma chacha20_block_ok self counter : bytes_ok (chacha20_block self counter).
Proof. apply concat_le_ok. Qed.

Lemma length_stream self c n : chacha_wf self -> length (stream self c n) = (64 * n)%nat.
Proof.
  intros Hw. revert c. induction n as [|n IH]; intros c; [done|]. cbn [stream].
  rewrite length_app, IH, length_chacha20_block by done. lia.
Qed.

Lemma stream_add self c n m :
  fits 32 c ->
  stream self c (n + m) = stream self c n ++ stream self (u32 (c + Z.of_nat n)) m.
Proof.
  revert c. induction n as [|n IH]; intros c Hc.
  - by rewrite Z.add_0_r, u32_small.
  - cbn [stream Nat.add]. rewrite IH by apply fits_u32. rewrite <- app_assoc.
    do 3 f_equal. unfold wrapping_add. words_lia.
Qed.

Lemma length_key_stream self len : chacha_wf self -> length (key_stream self len) = len.
Proof. intros Hw. unfold key_stream. rewrite length_take, length_stream by done. div_lia. Qed.

Lemma take_xor_bytes n a b : xor_bytes (take n a) (take n b) = take n (xor_bytes a b).
Proof.
  revert a b. induction n as [|n IH]; intros [|x a] [|y b]; try done. cbn. f_equal. apply IH.
Qed.

Lemma xor_bytes_app a1 a2 b1 b2 :
  length a1 = length b1 -> xor_bytes (a1 ++ a2) (b1 ++ b2) = xor_bytes a1 b1 ++ xor_bytes a2 b2.
Proof. apply zip_with_app. Qed.

Lemma xor_bytes_take_r a b : xor_bytes a b = xor_bytes a (take (length a) b).
Proof. revert b. induction a as [|x a IH]; intros [|y b]; try done. cbn. f_equal. apply IH. Qed.

(** The loop XORs with the stream, whatever fuel beyond the length. *)
Lemma apply_loop_stream fuel self c data n :
  chacha_wf self -> (length data <= fuel)%nat -> (length data <= 64 * n)%nat ->
  apply_keystream_loop fuel self c data = xor_bytes data (stream self c n).
Proof.
  intros Hw. revert c data n. induction fuel as [|fuel IH]; intros c data n Hf Hn.
  - destruct data; [done|simpl in Hf; lia].
  - cbn [apply_keystream_loop]. destruct (Nat.ltb_spec 0 (length data)) as [H0|H0];
      [|destruct data; [done|simpl in H0; lia]].
    destruct n as [|n]; [lia|]. cbn [stream].
    pose proof (length_chacha20_block self c Hw) as Hb. unfold BLOCK_SIZE.
    destruct (Nat.ltb_spec 64 (length data)) as [Hl|Hl].
    + rewrite (IH _ _ n) by (rewrite length_drop; lia).
      rewrite <- (take_drop 64 data) at 3. rewrite xor_bytes_app; [done|].
      rewrite length_take, Hb. lia.
    + rewrite take_ge, drop_ge by done.
      assert (apply_keystream_loop fuel self (wrapping_add c 1) [] = []) as -> by (by destruct fuel).
      rewrite app_nil_r, (xor_bytes_take_r data (_ ++ _)), take_app_le by lia.
      apply xor_bytes_take_r.
Qed.

Lemma apply_keystream_spec self data :
  chacha_wf self ->
  chacha20_apply_keystream self data = xor_bytes data (key_stream self (length data)).
Proof.
  intros Hw. unfold chacha20_apply_keystream, key_stream.
  rewrite (apply_loop_stream _ _ _ _ ((length data + 63) / 64)) by (done || div_lia).
  apply xor_bytes_take_r.
Qed.

Lemma length_apply_keystream self d :
  chacha_wf self -> length (chacha20_apply_keystream self d) = length d.
Proof.
  intros Hw. rewrite apply_keystream_spec, length_xor_bytes, length_key_stream by done. lia.
Qed.

Lemma decrypt_encrypt self d :
  chacha_wf self -> chacha20_decrypt self (chacha20_encrypt self d) = d.
Proof.
  intros Hw. unfold chacha20_decrypt, chacha20_encrypt.
  rewrite (apply_keystream_spec self (chacha20_apply_keystream _ _)), length_apply_keystream by done.
  rewrite apply_keystream_spec by done. apply xor_bytes_involutive.
  by rewrite length_key_stream.
Qed.

Lemma chacha_wf_new key nonce : chacha_wf (chacha20_new key nonce).
Proof. done. Qed.

Lemma chacha_wf_new_with_counter key nonce c : chacha_wf (chacha20_new_with_counter key nonce c).
Proof. unfold chacha_wf, chacha20_new_with_counter. cbn [cc_state]. by rewrite length_insert. Qed.

Lemma keystream_loop_stream fuel self c remaining output n :
  chacha_wf self -> (remaining <= fuel)%nat -> (remaining <= 64 * n)%nat ->
  (length output <= 1024)%nat ->
  keystream_loop fuel self c remaining output
  = output ++ take (Nat.min remaining (1024 - length output)) (stream self c n).
Proof.
  intros Hw. revert c remaining output n.
  induction fuel as [|fuel IH]; intros c remaining output n Hf Hn Ho.
  - assert (remaining = 0)%nat as -> by lia. cbn. by rewrite app_nil_r.
  - cbn [keystream_loop]. destruct (Nat.ltb_spec 0 remaining) as [H0|H0];
      [|assert (remaining = 0)%nat as -> by lia; cbn; by rewrite app_nil_r].
    destruct n as [|n]; [lia|]. cbn [stream].
    pose proof (length_chacha20_block self c Hw) as Hb. unfold BLOCK_SIZE.
    set (k := if (64 <? remaining)%nat then 64%nat else remaining).
    assert (k = Nat.min 64 remaining) as Hk
      by (unfold k; destruct (Nat.ltb_spec 64 remaining); lia).
    clearbody k. rewrite take_take.
    rewrite (IH _ _ _ n) by (rewrite ?length_app, ?length_take, ?Hb; lia).
    rewrite <- app_assoc. f_equal. rewrite take_app, Hb. rewrite length_app, length_take, Hb.
    f_equal; [|f_equal; lia].
    destruct (decide (64 <= remaining /\ 64 <= 1024 - length output)%nat).
    + rewrite !take_ge by lia. done.
    + f_equal. lia.
Qed.

(** ** Properties *)

(** C38. The cipher is a stream cipher: encryption XORs the data with the key
    stream (the blocks for [state[12]], [state[12] + 1], ... modulo 2^32), keeps
    the length, decryption undoes it, and the stream can be entered at any block:
    what follows a whole number of blocks is the encryption with the counter
    advanced by as many; [chacha20_keystream] gives the same stream, cut at the
    1024 bytes of its buffer. *)
Theorem chacha20_is_stream_cipher self data rest len
    (Hw : chacha_wf self) (Hc : fits 32 (cc_state self).[12])
    (Hb : (length data mod 64 = 0)%nat) :
  chacha20_encrypt self rest = xor_bytes rest (key_stream self (length rest))
  /\ length (chacha20_encrypt self rest) = length rest
  /\ chacha20_decrypt self (chacha20_encrypt self rest) = rest
  /\ chacha20_encrypt self (data ++ rest)
     = chacha20_encrypt self data
       ++ chacha20_encrypt
            (mkChaCha (<[12%nat := u32 ((cc_state self).[12] + Z.of_nat (length data / 64))]>
                         (cc_state self))) rest
  /\ chacha20_keystream self len = key_stream self (Nat.min len 1024).
Proof.
  split_and!.
  - by apply apply_keystream_spec.
  - by apply length_apply_keystream.
  - by apply decrypt_encrypt.
  - set (n := (length data / 64)%nat). assert (length data = 64 * n)%nat as Hn by (unfold n; div_lia).
    clearbody n. set (self' := mkChaCha _).
    assert (chacha_wf self') as Hw' by (unfold chacha_wf, self'; cbn [cc_state]; by rewrite length_insert).
    assert ((cc_state self').[12] = u32 ((cc_state self).[12] + Z.of_nat n)) as Hc'.
    { unfold arr, self'. cbn [cc_state]. rewrite list_lookup_insert_eq; [done|]. rewrite Hw. unfold STATE_SIZE. lia. }
    assert (forall c k, stream self' c k = stream self c k) as Hs.
    { intros c k. revert c. induction k as [|k IH]; intros c; [done|]. cbn [stream].
      rewrite IH. f_equal. unfold chacha20_block, self'. cbn [cc_state]. by rewrite list_insert_insert_eq. }
    set (m := ((length rest + 63) / 64)%nat).
    unfold chacha20_encrypt, chacha20_apply_keystream.
    rewrite (apply_loop_stream _ self _ data n), (apply_loop_stream _ self' _ rest m)
      by (done || unfold m; div_lia).
    rewrite (apply_loop_stream _ self _ _ (n + m)) by
      (try done; rewrite length_app; unfold m; div_lia).
    rewrite Hc', Hs, stream_add by done. apply xor_bytes_app.
    rewrite length_stream by done. lia.
  - unfold chacha20_keystream, key_stream.
    rewrite (keystream_loop_stream _ _ _ _ _ ((len + 63) / 64)) by (try done; cbn [length]; div_lia).
    cbn [app length]. rewrite Nat.sub_0_r.
    destruct (decide (len <= 1024)%nat); [by rewrite Nat.min_l by lia|].
    rewrite !Nat.min_r by lia. change ((1024 + 63) / 64)%nat with 16%nat.
    assert ((len + 63) / 64 = 16 + ((len + 63) / 64 - 16))%nat as -> by div_lia.
    rewrite stream_add by done. apply take_app_le. rewrite length_stream by done. lia.
Qed.

Lemma chacha20_is_stream_cipher_witness :
  let c := chacha20_new_with_counter (range 32) (replicate 12 7) 1 in
  chacha20_decrypt c (chacha20_encrypt c [104; 105]) = [104; 105].
Proof.
  cbv zeta. set (c := chacha20_new_with_counter _ _ _).
  destruct (chacha20_is_stream_cipher c [] [104; 105] 0) as (_ & _ & Hd & _).
  - reflexivity.
  - apply (bool_decide_unpack _). vm_compute. exact I.
  - reflexivity.
  - exact Hd.
Defined.
