(* ===== verification/Poly1305.v ===== *)
(** * Poly1305 and the AEAD: lunarcore/lunar/crypto/poly1305.c

    The accumulator in five 26-bit limbs with its machine-width arithmetic, the
    streaming MAC and the seal and open operations, against the polynomial of
    RFC 8439. The arrays of constant index are records of their elements. *)
From S2P Require Import Prelude Blocks ChaCha20.

(** ** State *)

Definition TAG_SIZE : nat := 16.
Definition KEY_SIZE : nat := 32.

(** [uint32_t r[5]], [h[5]]: the limbs from the least significant. *)
Record limbs := mkLimbs { l0 : Z; l1 : Z; l2 : Z; l3 : Z; l4 : Z }.
(** [uint32_t s[4]]. *)
Record words := mkWords { w0 : Z; w1 : Z; w2 : Z; w3 : Z }.

Record Poly1305 := mkPoly {
  poly_r : limbs;
  poly_s : words;
  poly_h : limbs;
  poly_buffer : list Z        (* buffer[0 .. buffer_len) *)
}.

Definition MASK26 : Z := 0x03ffffff.

Definition bytes_to_u32_le (bytes : list Z) : Z :=
  bytes.[0] .| (bytes.[1] .<< 8) .| (bytes.[2] .<< 16) .| (bytes.[3] .<< 24).

Definition u32_to_bytes_le (val : Z) : list Z :=
  [u8 (val .& 0xff); u8 ((val .>> 8) .& 0xff); u8 ((val .>> 16) .& 0xff); u8 ((val .>> 24) .& 0xff)].

Definition u64_to_bytes_le (val : Z) : list Z :=
  [u8 (val .& 0xff); u8 ((val .>> 8) .& 0xff); u8 ((val .>> 16) .& 0xff); u8 ((val .>> 24) .& 0xff);
   u8 ((val .>> 32) .& 0xff); u8 ((val .>> 40) .& 0xff); u8 ((val .>> 48) .& 0xff);
   u8 ((val .>> 56) .& 0xff)].

Definition poly1305_new (key : list Z) : Poly1305 :=
  let r0 := bytes_to_u32_le (slice key 0 4) .& 0x0fffffff in
  let r1 := bytes_to_u32_le (slice key 4 4) .& 0x0ffffffc in
  let r2 := bytes_to_u32_le (slice key 8 4) .& 0x0ffffffc in
  let r3 := bytes_to_u32_le (slice key 12 4) .& 0x0ffffffc in
  mkPoly
    (mkLimbs (r0 .& MASK26)
       (((r0 .>> 26) .| u32 (r1 .<< 6)) .& MASK26)
       (((r1 .>> 20) .| u32 (r2 .<< 12)) .& MASK26)
       (((r2 .>> 14) .| u32 (r3 .<< 18)) .& MASK26)
       (r3 .>> 8))
    (mkWords (bytes_to_u32_le (slice key 16 4)) (bytes_to_u32_le (slice key 20 4))
       (bytes_to_u32_le (slice key 24 4)) (bytes_to_u32_le (slice key 28 4)))
    (mkLimbs 0 0 0 0 0) [].

(** ** One block *)

(** [h += block]: the five additions at the start of [poly1305_process_block]. *)
Definition add_block (h : limbs) (block : list Z) (final_block : bool) : limbs :=
  let t0 := bytes_to_u32_le (slice block 0 4) in
  let t1 := bytes_to_u32_le (slice block 4 4) in
  let t2 := bytes_to_u32_le (slice block 8 4) in
  let t3 := bytes_to_u32_le (slice block 12 4) in
  let hibit := if final_block then 0 else 1 .<< 24 in
  mkLimbs (u32 (l0 h + (t0 .& MASK26)))
    (u32 (l1 h + (((t0 .>> 26) .| u32 (t1 .<< 6)) .& MASK26)))
    (u32 (l2 h + (((t1 .>> 20) .| u32 (t2 .<< 12)) .& MASK26)))
    (u32 (l3 h + (((t2 .>> 14) .| u32 (t3 .<< 18)) .& MASK26)))
    (u32 (l4 h + ((t3 .>> 8) .| hibit))).

(** [h *= r] and the carry chain after it. *)
Definition mul_reduce (h r : limbs) : limbs :=
  let s1 := u64 (l1 r * 5) in
  let s2 := u64 (l2 r * 5) in
  let s3 := u64 (l3 r * 5) in
  let s4 := u64 (l4 r * 5) in
  let d0 := u64 (l0 h * l0 r + l1 h * s4 + l2 h * s3 + l3 h * s2 + l4 h * s1) in
  let d1 := u64 (l0 h * l1 r + l1 h * l0 r + l2 h * s4 + l3 h * s3 + l4 h * s2) in
  let d2 := u64 (l0 h * l2 r + l1 h * l1 r + l2 h * l0 r + l3 h * s4 + l4 h * s3) in
  let d3 := u64 (l0 h * l3 r + l1 h * l2 r + l2 h * l1 r + l3 h * l0 r + l4 h * s4) in
  let d4 := u64 (l0 h * l4 r + l1 h * l3 r + l2 h * l2 r + l3 h * l1 r + l4 h * l0 r) in
  let c := d0 .>> 26 in
  let h0 := u32 (d0 .& MASK26) in
  let d1 := u64 (d1 + c) in
  let c := d1 .>> 26 in
  let h1 := u32 (d1 .& MASK26) in
  let d2 := u64 (d2 + c) in
  let c := d2 .>> 26 in
  let h2 := u32 (d2 .& MASK26) in
  let d3 := u64 (d3 + c) in
  let c := d3 .>> 26 in
  let h3 := u32 (d3 .& MASK26) in
  let d4 := u64 (d4 + c) in
  let c := d4 .>> 26 in
  let h4 := u32 (d4 .& MASK26) in
  let h0 := u32 (h0 + u32 (u64 (c * 5))) in
  let c := h0 .>> 26 in
  let h0 := h0 .& MASK26 in
  let h1 := u32 (h1 + u32 c) in
  mkLimbs h0 h1 h2 h3 h4.

Definition poly1305_process_block (poly : Poly1305) (block : list Z) (final_block : bool) : Poly1305 :=
  mkPoly (poly_r poly) (poly_s poly)
    (mul_reduce (add_block (poly_h poly) block final_block) (poly_r poly)) (poly_buffer poly).

(** ** Streaming *)

Definition poly1305_update (poly : Poly1305) (data : list Z) : Poly1305 :=
  let set_buffer p b := mkPoly (poly_r p) (poly_s p) (poly_h p) b in
  let loop := process_blocks 16 (fun p b => poly1305_process_block p b false) (length data) in
  let needed := (16 - length (poly_buffer poly))%nat in
  if (0 <? length (poly_buffer poly))%nat then
    if (needed <=? length data)%nat then
      let poly' := poly1305_process_block poly (poly_buffer poly ++ take needed data) false in
      let '(poly', rest) := loop poly' (drop needed data) in
      set_buffer poly' rest
    else set_buffer poly (poly_buffer poly ++ data)
  else
    let '(poly', rest) := loop poly data in
    set_buffer poly' rest.

(** [h] fully carried. *)
Definition carry_full (h : limbs) : limbs :=
  let c := l1 h .>> 26 in
  let h1 := l1 h .& MASK26 in
  let h2 := u32 (l2 h + c) in
  let c := h2 .>> 26 in
  let h2 := h2 .& MASK26 in
  let h3 := u32 (l3 h + c) in
  let c := h3 .>> 26 in
  let h3 := h3 .& MASK26 in
  let h4 := u32 (l4 h + c) in
  let c := h4 .>> 26 in
  let h4 := h4 .& MASK26 in
  let h0 := u32 (l0 h + u32 (c * 5)) in
  let c := h0 .>> 26 in
  let h0 := h0 .& MASK26 in
  let h1 := u32 (h1 + c) in
  mkLimbs h0 h1 h2 h3 h4.

(** The selection between [h] and [h + 5 - 2^130]; [h[4]] stays. *)
Definition select_reduced (h : limbs) : limbs :=
  let g0 := u32 (l0 h + 5) in
  let c := g0 .>> 26 in
  let g0 := g0 .& MASK26 in
  let g1 := u32 (l1 h + c) in
  let c := g1 .>> 26 in
  let g1 := g1 .& MASK26 in
  let g2 := u32 (l2 h + c) in
  let c := g2 .>> 26 in
  let g2 := g2 .& MASK26 in
  let g3 := u32 (l3 h + c) in
  let c := g3 .>> 26 in
  let g3 := g3 .& MASK26 in
  let g4 := u32 (l4 h + c - (1 .<< 26)) in
  let mask := u32 ((g4 .>> 31) - 1) in
  let g0 := g0 .& mask in
  let g1 := g1 .& mask in
  let g2 := g2 .& mask in
  let g3 := g3 .& mask in
  let mask := u32 (Z.lnot mask) in
  mkLimbs ((l0 h .& mask) .| g0) ((l1 h .& mask) .| g1) ((l2 h .& mask) .| g2)
    ((l3 h .& mask) .| g3) (l4 h).

(** The 32-bit words of [h], plus [s], as 16 bytes. *)
Definition tag_of (h : limbs) (s : words) : list Z :=
  let h0 := l0 h .| u32 (l1 h .<< 26) in
  let h1 := (l1 h .>> 6) .| u32 (l2 h .<< 20) in
  let h2 := (l2 h .>> 12) .| u32 (l3 h .<< 14) in
  let h3 := (l3 h .>> 18) .| u32 (l4 h .<< 8) in
  let f := u64 (h0 + w0 s) in
  let t0 := u32 f in
  let f := u64 (h1 + w1 s + (f .>> 32)) in
  let t1 := u32 f in
  let f := u64 (h2 + w2 s + (f .>> 32)) in
  let t2 := u32 f in
  let f := u64 (h3 + w3 s + (f .>> 32)) in
  let t3 := u32 f in
  u32_to_bytes_le t0 ++ u32_to_bytes_le t1 ++ u32_to_bytes_le t2 ++ u32_to_bytes_le t3.

Definition poly1305_finalize (poly : Poly1305) : Poly1305 * list Z :=
  let poly :=
    if (0 <? length (poly_buffer poly))%nat then
      let block := poly_buffer poly ++ [1] ++ replicate (16 - (length (poly_buffer poly) + 1)) 0 in
      poly1305_process_block poly block true
    else poly in
  let h := select_reduced (carry_full (poly_h poly)) in
  (mkPoly (poly_r poly) (poly_s poly) h (poly_buffer poly), tag_of h (poly_s poly)).

Definition poly1305_mac (key data : list Z) : list Z :=
  (poly1305_finalize (poly1305_update (poly1305_new key) data)).2.

Definition poly1305_verify (key data expected : list Z) : bool :=
  constant_time_eq (poly1305_mac key data) expected.

(** ** AEAD *)

(** The updates shared by seal and open: AAD, padding, ciphertext, padding, the
    two lengths. *)
Definition aead_authenticate (poly : Poly1305) (aad ciphertext : list Z) : Poly1305 :=
  let poly := poly1305_update poly aad in
  let aad_pad := ((16 - (length aad mod 16)) mod 16)%nat in
  let poly := if (0 <? aad_pad)%nat then poly1305_update poly (replicate aad_pad 0) else poly in
  let poly := poly1305_update poly ciphertext in
  let ct_pad := ((16 - (length ciphertext mod 16)) mod 16)%nat in
  let poly := if (0 <? ct_pad)%nat then poly1305_update poly (replicate ct_pad 0) else poly in
  let poly := poly1305_update poly (u64_to_bytes_le (Z.of_nat (length aad))) in
  poly1305_update poly (u64_to_bytes_le (Z.of_nat (length ciphertext))).

(** Ciphertext and tag; [None] is the failed assertion on the output buffer. *)
Definition chacha20poly1305_seal (key nonce aad plaintext : list Z) (ciphertext_len : nat)
    : option (list Z * list Z) :=
  if (length plaintext <=? ciphertext_len)%nat then
    let poly_key := chacha20_keystream (chacha20_new key nonce) 32 in
    let ciphertext := chacha20_encrypt (chacha20_new_with_counter key nonce 1) plaintext in
    let poly := aead_authenticate (poly1305_new poly_key) aad ciphertext in
    Some (ciphertext, (poly1305_finalize poly).2)
  else None.

(** The plaintext when the tag matches; the outer [None] is the failed
    assertion. *)
Definition chacha20poly1305_open (key nonce aad ciphertext tag : list Z) (plaintext_len : nat)
    : option (option (list Z)) :=
  if (length ciphertext <=? plaintext_len)%nat then
    let poly_key := chacha20_keystream (chacha20_new key nonce) 32 in
    let poly := aead_authenticate (poly1305_new poly_key) aad ciphertext in
    let computed_tag := (poly1305_finalize poly).2 in
    if negb (constant_time_eq computed_tag tag) then Some None
    else Some (Some (chacha20_decrypt (chacha20_new_with_counter key nonce 1) ciphertext))
  else None.

(** ** Test vectors: RFC 8439 2.5.2 and the reduction edge *)

Definition rfc_poly_key : list Z :=
  be_bytes 32 0x85d6be7857556d337f4452fe42d506a80103808afb0db2fd4abff6af4149f51b.

Example poly1305_rfc8439 :
  poly1305_mac rfc_poly_key
    [67; 114; 121; 112; 116; 111; 103; 114; 97; 112; 104; 105; 99; 32; 70; 111; 114; 117; 109; 32;
     82; 101; 115; 101; 97; 114; 99; 104; 32; 71; 114; 111; 117; 112]
  = be_bytes 16 0xa8061dc1305136c6c22b8baf0c0127a9.
Proof. vm_compute. reflexivity. Qed.

(** ** Limbs as numbers *)

Definition limb_val (h : limbs) : Z :=
  l0 h + 2 ^ 26 * l1 h + 2 ^ 52 * l2 h + 2 ^ 78 * l3 h + 2 ^ 104 * l4 h.

Definition word_val (s : words) : Z := w0 s + 2 ^ 32 * w1 s + 2 ^ 64 * w2 s + 2 ^ 96 * w3 s.

Definition P1305 : Z := 2 ^ 130 - 5.

(** All limbs below [b], the second below [b1]. *)
Definition limbs_below (b b1 : Z) (h : limbs) : Prop :=
  0 <= l0 h < b /\ 0 <= l1 h < b1 /\ 0 <= l2 h < b /\ 0 <= l3 h < b /\ 0 <= l4 h < b.

(** Between blocks; fully carried; within a block; the multiplier. *)
Abbreviation limbs_ok := (limbs_below (2 ^ 26) (2 ^ 26 + 64)).
Abbreviation limbs_full := (limbs_below (2 ^ 26) (2 ^ 26)).
Abbreviation limbs_sum := (limbs_below (2 ^ 27) (2 ^ 27 + 64)).

Definition words_ok (s : words) : Prop := fits 32 (w0 s) /\ fits 32 (w1 s) /\ fits 32 (w2 s) /\ fits 32 (w3 s).

Lemma land_mask26 x : x .& MASK26 = x mod 2 ^ 26.
Proof. change MASK26 with (Z.ones 26). by apply Z.land_ones. Qed.

(** [(a >> s) | (b << sh)] with [s + sh = 32], then masked: the top of [a] and
    the bottom of [b]. *)
Lemma pack_word s sh a b :
  0 <= s -> 0 <= sh -> s + sh = 32 -> fits 32 a -> 0 <= b ->
  (a .>> s) .| u32 (b .<< sh) = a / 2 ^ s + 2 ^ sh * (b mod 2 ^ s).
Proof.
  intros Hs Hsh Hsum Ha Hb.
  assert (u32 (b .<< sh) = (b mod 2 ^ s) .<< sh) as ->.
  { unfold u32. rewrite !Z.shiftl_mul_pow2 by done.
    change 0x100000000 with (2 ^ 32). rewrite <- Hsum, Z.pow_add_r by done.
    apply Z.mul_mod_distr_r; apply Z.pow_nonzero; lia. }
  rewrite lor_shiftl_add; [by rewrite Z.shiftr_div_pow2|done|].
  replace sh with (32 - s) by lia. apply fits_shiftr; [lia|done].
Qed.

Lemma pack_limb s sh a b :
  0 <= s -> 0 <= sh <= 26 -> s + sh = 32 -> fits 32 a -> 0 <= b ->
  ((a .>> s) .| u32 (b .<< sh)) .& MASK26 = a / 2 ^ s + 2 ^ sh * (b mod 2 ^ (26 - sh)).
Proof.
  intros Hs Hsh Hsum Ha Hb. rewrite pack_word, land_mask26 by lia || done.
  assert (0 <= a / 2 ^ s < 2 ^ sh) as Hq.
  { replace sh with (32 - s) by lia. rewrite <- Z.shiftr_div_pow2 by done.
    apply fits_shiftr; [lia|done]. }
  pose proof (Z.pow_pos_nonneg 2 sh ltac:(lia) ltac:(lia)) as Hp.
  pose proof (Z.pow_pos_nonneg 2 (26 - sh) ltac:(lia) ltac:(lia)) as Hp'.
  assert (2 ^ 26 = 2 ^ sh * 2 ^ (26 - sh)) as H26 by (rewrite <- Z.pow_add_r by lia; f_equal; lia).
  assert (2 ^ s = 2 ^ (26 - sh) * 2 ^ 6) as Hs6 by (rewrite <- Z.pow_add_r by lia; f_equal; lia).
  rewrite H26, Z.rem_mul_r by lia.
  rewrite (Z.mul_comm (2 ^ sh) (b mod _)), Z.mod_add, Z.div_add by lia.
  rewrite (Z.mod_small (a / 2 ^ s)), (Z.div_small (a / 2 ^ s)) by done.
  rewrite Z.add_0_l. f_equal. f_equal.
  rewrite Hs6, Z.rem_mul_r, Z.mul_comm, Z.mod_add, Z.mod_mod by lia. done.
Qed.

(** ** Reading a block *)

Lemma bytes_to_u32_le_val bs :
  length bs = 4%nat -> bytes_ok bs -> bytes_to_u32_le bs = le_val bs /\ fits 32 (le_val bs).
Proof.
  intros Hl Hok. pose proof (le_val_bound bs Hok) as Hb. rewrite Hl in Hb. split; [|done].
  do 5 (destruct bs as [|? bs]; try discriminate Hl). clear Hl.
  do 4 (apply Forall_cons in Hok as [? Hok]). by apply le32_eq.
Qed.

Lemma le_val_zeros n : le_val (replicate n 0) = 0.
Proof. induction n as [|n IH]; [done|]. simpl. by rewrite IH. Qed.

(** The four words of a block and its value. *)
Lemma block_words block :
  length block = 16%nat -> bytes_ok block ->
  exists t0 t1 t2 t3,
    bytes_to_u32_le (slice block 0 4) = t0 /\ bytes_to_u32_le (slice block 4 4) = t1
    /\ bytes_to_u32_le (slice block 8 4) = t2 /\ bytes_to_u32_le (slice block 12 4) = t3
    /\ fits 32 t0 /\ fits 32 t1 /\ fits 32 t2 /\ fits 32 t3
    /\ le_val block = t0 + 2 ^ 32 * t1 + 2 ^ 64 * t2 + 2 ^ 96 * t3.
Proof.
  intros Hl Hok.
  assert (forall k, (k + 4 <= 16)%nat ->
    bytes_to_u32_le (slice block k 4) = le_val (slice block k 4) /\ fits 32 (le_val (slice block k 4)))
    as Hw by (intros k Hk; apply bytes_to_u32_le_val; [apply length_slice; lia|by apply slice_ok]).
  destruct (Hw 0%nat), (Hw 4%nat), (Hw 8%nat), (Hw 12%nat); try lia.
  do 4 eexists. do 4 (split; [done|]). do 4 (split; [done|]).
  assert (block = slice block 0 4 ++ slice block 4 4 ++ slice block 8 4 ++ slice block 12 4) as Hb.
  { do 17 (destruct block as [|? block]; try discriminate Hl). done. }
  rewrite Hb at 1. rewrite !le_val_app, !length_slice by lia.
  change (8 * Z.of_nat 4) with 32. ring.
Qed.

Lemma add_block_val h block final :
  limbs_ok h -> length block = 16%nat -> bytes_ok block ->
  limbs_sum (add_block h block final)
  /\ limb_val (add_block h block final) = limb_val h + le_val block + (if final then 0 else 2 ^ 128).
Proof.
  intros (H0 & H1 & H2 & H3 & H4) Hl Hok.
  destruct (block_words block Hl Hok) as (t0 & t1 & t2 & t3 & E0 & E1 & E2 & E3 & ? & ? & ? & ? & ->).
  unfold add_block. rewrite E0, E1, E2, E3.
  rewrite !pack_limb by (done || lia || words_lia).
  rewrite land_mask26.
  assert ((t3 .>> 8) .| (if final then 0 else 1 .<< 24) = t3 / 2 ^ 8 + (if final then 0 else 2 ^ 24)) as ->.
  { destruct final; [rewrite Z.lor_0_r, Z.shiftr_div_pow2 by lia; lia|].
    rewrite lor_shiftl_add; [|lia|apply (fits_shiftr 32 8); [lia|done]].
    rewrite Z.shiftr_div_pow2 by lia. lia. }
  cbv zeta. unfold limb_val, limbs_below. cbn [l0 l1 l2 l3 l4].
  change (26 - 6) with 20. change (26 - 12) with 14. change (26 - 18) with 8.
  rewrite !u32_small by (destruct final; words_lia).
  split; [destruct final; words_lia|]. destruct final; words_lia.
Qed.

(** ** Multiplication *)

Lemma prod_bound a b x y : 0 <= x < a -> 0 <= y < b -> 0 <= x * y < a * b.
Proof. nia. Qed.

(** The five column sums: the product modulo [2^130 = 5]. *)
Record columns := mkCols { c0 : Z; c1 : Z; c2 : Z; c3 : Z; c4 : Z }.

Definition product_columns (h r : limbs) : columns :=
  mkCols
    (l0 h * l0 r + l1 h * (l4 r * 5) + l2 h * (l3 r * 5) + l3 h * (l2 r * 5) + l4 h * (l1 r * 5))
    (l0 h * l1 r + l1 h * l0 r + l2 h * (l4 r * 5) + l3 h * (l3 r * 5) + l4 h * (l2 r * 5))
    (l0 h * l2 r + l1 h * l1 r + l2 h * l0 r + l3 h * (l4 r * 5) + l4 h * (l3 r * 5))
    (l0 h * l3 r + l1 h * l2 r + l2 h * l1 r + l3 h * l0 r + l4 h * (l4 r * 5))
    (l0 h * l4 r + l1 h * l3 r + l2 h * l2 r + l3 h * l1 r + l4 h * l0 r).

Definition column_val (d : columns) : Z :=
  c0 d + 2 ^ 26 * c1 d + 2 ^ 52 * c2 d + 2 ^ 78 * c3 d + 2 ^ 104 * c4 d.

Lemma product_columns_val h r :
  exists k, limb_val h * limb_val r = column_val (product_columns h r) + k * P1305.
Proof.
  exists (l1 h * l4 r + l2 h * l3 r + l3 h * l2 r + l4 h * l1 r
          + 2 ^ 26 * (l2 h * l4 r + l3 h * l3 r + l4 h * l2 r)
          + 2 ^ 52 * (l3 h * l4 r + l4 h * l3 r) + 2 ^ 78 * (l4 h * l4 r)).
  unfold limb_val, column_val, product_columns, P1305. cbn [c0 c1 c2 c3 c4]. ring.
Qed.

(** No column reaches [2^60], the last not [2^56]. *)
Lemma product_columns_bound h r :
  limbs_sum h -> limbs_full r ->
  let d := product_columns h r in
  0 <= c0 d < 2 ^ 60 /\ 0 <= c1 d < 2 ^ 60 /\ 0 <= c2 d < 2 ^ 60 /\ 0 <= c3 d < 2 ^ 60
  /\ 0 <= c4 d < 5 * (2 ^ 53 + 2 ^ 32).
Proof.
  intros (H0 & H1 & H2 & H3 & H4) (R0 & R1 & R2 & R3 & R4).
  assert (forall x y, 0 <= x < 2 ^ 27 + 64 -> 0 <= y < 2 ^ 26 -> 0 <= x * y < 2 ^ 53 + 2 ^ 32) as Hp.
  { intros x y Hx Hy. pose proof (prod_bound _ _ x y Hx Hy). lia. }
  unfold product_columns. cbn [c0 c1 c2 c3 c4].
  pose proof (Hp (l0 h)) as P0. pose proof (Hp (l1 h)) as P1. pose proof (Hp (l2 h)) as P2.
  pose proof (Hp (l3 h)) as P3. pose proof (Hp (l4 h)) as P4. clear Hp.
  rewrite !(Z.mul_assoc _ _ 5).
  split_and!;
    repeat match goal with
    | P : forall y, _ -> _ -> 0 <= ?x * y < _ |- context [?x * ?z] =>
        lazymatch goal with
        | _ : 0 <= x * z < 2 ^ 53 + 2 ^ 32 |- _ => fail
        | _ => pose proof (P z ltac:(lia) ltac:(lia))
        end
    end; lia.
Qed.

(** The carry chain over given columns. *)
Definition carry_chain (d : columns) : limbs :=
  let c := c0 d .>> 26 in
  let h0 := u32 (c0 d .& MASK26) in
  let d1 := u64 (c1 d + c) in
  let c := d1 .>> 26 in
  let h1 := u32 (d1 .& MASK26) in
  let d2 := u64 (c2 d + c) in
  let c := d2 .>> 26 in
  let h2 := u32 (d2 .& MASK26) in
  let d3 := u64 (c3 d + c) in
  let c := d3 .>> 26 in
  let h3 := u32 (d3 .& MASK26) in
  let d4 := u64 (c4 d + c) in
  let c := d4 .>> 26 in
  let h4 := u32 (d4 .& MASK26) in
  let h0 := u32 (h0 + u32 (u64 (c * 5))) in
  let c := h0 .>> 26 in
  let h0 := h0 .& MASK26 in
  let h1 := u32 (h1 + u32 c) in
  mkLimbs h0 h1 h2 h3 h4.

Lemma mul_reduce_chain h r :
  limbs_sum h -> limbs_full r -> mul_reduce h r = carry_chain (product_columns h r).
Proof.
  intros Hh Hr. pose proof (product_columns_bound h r Hh Hr) as Hb.
  destruct Hr as (R0 & R1 & R2 & R3 & R4). unfold mul_reduce, carry_chain.
  rewrite (u64_small (l1 r * 5)), (u64_small (l2 r * 5)), (u64_small (l3 r * 5)),
    (u64_small (l4 r * 5)) by (unfold fits; lia).
  unfold product_columns in *. cbn [c0 c1 c2 c3 c4] in *. cbv zeta in Hb.
  set (D0 := l0 h * l0 r + _ + _ + _ + _) in *. set (D1 := l0 h * l1 r + _ + _ + _ + _) in *.
  set (D2 := l0 h * l2 r + _ + _ + _ + _) in *. set (D3 := l0 h * l3 r + _ + _ + _ + _) in *.
  set (D4 := l0 h * l4 r + _ + _ + _ + _) in *. clearbody D0 D1 D2 D3 D4.
  rewrite !u64_small with (x := D0), !u64_small with (x := D1), !u64_small with (x := D2),
    !u64_small with (x := D3), !u64_small with (x := D4) by (unfold fits; lia).
  done.
Qed.

Lemma carry_chain_val d :
  0 <= c0 d < 2 ^ 60 -> 0 <= c1 d < 2 ^ 60 -> 0 <= c2 d < 2 ^ 60 -> 0 <= c3 d < 2 ^ 60 ->
  0 <= c4 d < 5 * (2 ^ 53 + 2 ^ 32) ->
  limbs_ok (carry_chain d) /\ exists k, limb_val (carry_chain d) = column_val d + k * P1305.
Proof.
  intros B0 B1 B2 B3 B4. destruct d as [d0 d1 d2 d3 d4]. unfold carry_chain, column_val.
  cbn [c0 c1 c2 c3 c4] in *. rewrite !land_mask26.
  assert (forall x, x .>> 26 = x / 2 ^ 26) as Hs by (intros x; by apply Z.shiftr_div_pow2).
  cbv zeta. rewrite !Hs.
  set (q0 := d0 / 2 ^ 26). assert (0 <= q0 < 2 ^ 34) by words_lia.
  rewrite (u64_small (d1 + q0)) by (unfold fits; lia).
  set (q1 := (d1 + q0) / 2 ^ 26). assert (0 <= q1 < 2 ^ 35) by words_lia.
  rewrite (u64_small (d2 + q1)) by (unfold fits; lia).
  set (q2 := (d2 + q1) / 2 ^ 26). assert (0 <= q2 < 2 ^ 35) by words_lia.
  rewrite (u64_small (d3 + q2)) by (unfold fits; lia).
  set (q3 := (d3 + q2) / 2 ^ 26). assert (0 <= q3 < 2 ^ 35) by words_lia.
  rewrite (u64_small (d4 + q3)) by (unfold fits; lia).
  set (q4 := (d4 + q3) / 2 ^ 26). assert (0 <= q4 < 5 * 2 ^ 27 + 2 ^ 13) by words_lia.
  rewrite (u64_small (q4 * 5)), (u32_small (q4 * 5)) by (unfold fits; lia).
  assert (forall x, u32 (x mod 2 ^ 26) = x mod 2 ^ 26) as Hm by (intros x; words_lia).
  rewrite !Hm.
  set (m0 := d0 mod 2 ^ 26). assert (0 <= m0 < 2 ^ 26 /\ d0 = 2 ^ 26 * q0 + m0) as [? ?] by words_lia.
  set (m1 := (d1 + q0) mod 2 ^ 26).
  assert (0 <= m1 < 2 ^ 26 /\ d1 + q0 = 2 ^ 26 * q1 + m1) as [? ?] by words_lia.
  set (m2 := (d2 + q1) mod 2 ^ 26).
  assert (0 <= m2 < 2 ^ 26 /\ d2 + q1 = 2 ^ 26 * q2 + m2) as [? ?] by words_lia.
  set (m3 := (d3 + q2) mod 2 ^ 26).
  assert (0 <= m3 < 2 ^ 26 /\ d3 + q2 = 2 ^ 26 * q3 + m3) as [? ?] by words_lia.
  set (m4 := (d4 + q3) mod 2 ^ 26).
  assert (0 <= m4 < 2 ^ 26 /\ d4 + q3 = 2 ^ 26 * q4 + m4) as [? ?] by words_lia.
  clearbody m0 m1 m2 m3 m4 q0 q1 q2 q3 q4.
  rewrite (u32_small (m0 + q4 * 5)) by (unfold fits; lia).
  set (q := (m0 + q4 * 5) / 2 ^ 26). set (m := (m0 + q4 * 5) mod 2 ^ 26).
  assert (0 <= m < 2 ^ 26 /\ 0 <= q < 64 /\ m0 + q4 * 5 = 2 ^ 26 * q + m) as (? & ? & ?) by words_lia.
  clearbody m q. rewrite (u32_small q), (u32_small (m1 + q)) by (unfold fits; lia).
  split; [unfold limbs_below; cbn [l0 l1 l2 l3 l4]; lia|].
  exists (- q4). unfold limb_val, P1305. cbn [l0 l1 l2 l3 l4]. lia.
Qed.

Lemma mul_reduce_val h r :
  limbs_sum h -> limbs_full r ->
  limbs_ok (mul_reduce h r)
  /\ limb_val (mul_reduce h r) mod P1305 = (limb_val h * limb_val r) mod P1305.
Proof.
  intros Hh Hr. rewrite mul_reduce_chain by done.
  destruct (product_columns_bound h r Hh Hr) as (B0 & B1 & B2 & B3 & B4).
  destruct (carry_chain_val _ B0 B1 B2 B3 B4) as [Hok [k ->]]. split; [done|].
  destruct (product_columns_val h r) as [k' ->]. by rewrite !Z.mod_add by done.
Qed.

(** ** The key *)

(** The clamped multiplier of RFC 8439 and the addend. *)
Definition rfc_r (key : list Z) : Z := le_val (take 16 key) .& 0x0ffffffc0ffffffc0ffffffc0fffffff.
Definition rfc_s (key : list Z) : Z := le_val (slice key 16 16).

(** Masking a number word by word. *)
Lemma land_split n a b x y :
  0 <= n -> fits n a -> fits n x -> (a + 2 ^ n * b) .& (x + 2 ^ n * y) = (a .& x) + 2 ^ n * (b .& y).
Proof.
  intros Hn Ha Hx.
  rewrite <- (lor_shiftl_add n a b), <- (lor_shiftl_add n x y) by done.
  rewrite <- (lor_shiftl_add n (a .& x)) by
    first [done | apply fits_land; [done|done|unfold fits in Hx; lia]].
  apply Z.bits_inj'. intros i Hi.
  rewrite !Z.land_spec, !Z.lor_spec, Z.land_spec.
  destruct (decide (i < n)).
  - rewrite !Z.shiftl_spec_low by done. by rewrite !orb_false_r.
  - rewrite !Z.shiftl_spec by lia. rewrite Z.land_spec.
    rewrite (fits_testbit n a), (fits_testbit n x) by (done || lia). done.
Qed.

Lemma poly1305_new_spec key :
  length key = 32%nat -> bytes_ok key ->
  limbs_full (poly_r (poly1305_new key)) /\ limb_val (poly_r (poly1305_new key)) = rfc_r key
  /\ words_ok (poly_s (poly1305_new key)) /\ word_val (poly_s (poly1305_new key)) = rfc_s key.
Proof.
  intros Hl Hok.
  destruct (block_words (take 16 key)) as (t0 & t1 & t2 & t3 & E0 & E1 & E2 & E3 & F0 & F1 & F2 & F3 & Ev);
    [rewrite length_take; lia|by apply Forall_take|].
  destruct (block_words (slice key 16 16)) as (u0 & u1 & u2 & u3 & G0 & G1 & G2 & G3 & S0 & S1 & S2 & S3 & Eu);
    [apply length_slice; lia|by apply slice_ok|].
  assert (forall k, (k + 4 <= 16)%nat -> slice (take 16 key) k 4 = slice key k 4) as Ht.
  { intros k Hk. unfold slice. rewrite skipn_firstn_comm, take_take. f_equal. lia. }
  assert (forall k, (k + 4 <= 16)%nat -> slice (slice key 16 16) k 4 = slice key (16 + k) 4) as Hs.
  { intros k Hk. unfold slice. rewrite skipn_firstn_comm, take_take, drop_drop. f_equal. lia. }
  rewrite Ht in E0, E1, E2, E3 by lia. rewrite Hs in G0, G1, G2, G3 by lia. cbn [Nat.add] in *.
  unfold poly1305_new. rewrite E0, E1, E2, E3, G0, G1, G2, G3. cbn [poly_r poly_s].
  split; [|split; [|split; [by unfold words_ok|by unfold rfc_s, word_val; cbn; rewrite Eu]]].
  all: set (r0 := t0 .& 0x0fffffff); set (r1 := t1 .& 0x0ffffffc);
       set (r2 := t2 .& 0x0ffffffc); set (r3 := t3 .& 0x0ffffffc).
  all: assert (fits 28 r0 /\ fits 28 r1 /\ fits 28 r2 /\ fits 28 r3) as (? & ? & ? & ?)
    by (unfold r0, r1, r2, r3; split_and!; rewrite Z.land_comm; apply fits_land; unfold fits in *; lia).
  all: rewrite !pack_limb, land_mask26, Z.shiftr_div_pow2 by (lia || words_lia).
  all: change (26 - 6) with 20; change (26 - 12) with 14; change (26 - 18) with 8.
  - unfold limbs_below. cbn [l0 l1 l2 l3 l4]. clearbody r0 r1 r2 r3. words_lia.
  - unfold rfc_r. rewrite Ev.
    change 0x0ffffffc0ffffffc0ffffffc0fffffff
      with (0x0fffffff + 2 ^ 32 * (0x0ffffffc + 2 ^ 32 * (0x0ffffffc + 2 ^ 32 * 0x0ffffffc))).
    replace (t0 + 2 ^ 32 * t1 + 2 ^ 64 * t2 + 2 ^ 96 * t3)
      with (t0 + 2 ^ 32 * (t1 + 2 ^ 32 * (t2 + 2 ^ 32 * t3))) by ring.
    rewrite !land_split by (done || lia). fold r0 r1 r2 r3.
    unfold limb_val. cbn [l0 l1 l2 l3 l4]. clearbody r0 r1 r2 r3. words_lia.
Qed.

(** ** Specification: RFC 8439, 2.5 *)

Definition rfc_step (r a : Z) (block : list Z) : Z := ((a + le_val (block ++ [1])) * r) mod P1305.

(** The accumulator after the whole message, the last block possibly short. *)
Definition rfc_acc (r : Z) (msg : list Z) : Z :=
  let n := (length msg / 16)%nat in
  let a := compress 16 (rfc_step r) n 0 msg in
  let rest := drop (16 * n) msg in
  if decide (rest = []) then a else rfc_step r a rest.

Definition rfc_poly1305 (key msg : list Z) : list Z :=
  le_bytes 16 (rfc_acc (rfc_r key) msg + rfc_s key).

(** ** The accumulator *)

Definition acc_rel (h : limbs) (a : Z) : Prop := limbs_ok h /\ limb_val h mod P1305 = a.

(** One block, full or padded. *)
Lemma acc_step h r a block final bytes :
  limbs_full r -> acc_rel h a -> length block = 16%nat -> bytes_ok block ->
  le_val block + (if final : bool then 0 else 2 ^ 128) = le_val (bytes ++ [1]) ->
  acc_rel (mul_reduce (add_block h block final) r) (rfc_step (limb_val r) a bytes).
Proof.
  intros Hr [Hh Ha] Hl Hok Hv.
  destruct (add_block_val h block final Hh Hl Hok) as [Hs Hval].
  destruct (mul_reduce_val _ r Hs Hr) as [Hok' Hm]. split; [done|].
  rewrite Hm, Hval. unfold rfc_step. rewrite <- Ha, <- Hv.
  rewrite <- Z.add_assoc. rewrite Z.mul_mod, (Z.mul_mod (_ mod _ + _)) by done.
  f_equal. f_equal. by rewrite Z.add_mod_idemp_l.
Qed.

Lemma acc_full r h a block :
  limbs_full r -> acc_rel h a -> length block = 16%nat -> bytes_ok block ->
  acc_rel (mul_reduce (add_block h block false) r) (rfc_step (limb_val r) a block).
Proof.
  intros Hr Ha Hl Hok. apply acc_step; [done..|].
  rewrite le_val_app, Hl. cbn [le_val]. lia.
Qed.

Lemma acc_final r h a buffer :
  limbs_full r -> acc_rel h a -> (length buffer < 16)%nat -> bytes_ok buffer ->
  acc_rel (mul_reduce (add_block h (buffer ++ [1] ++ replicate (16 - (length buffer + 1)) 0) true) r)
    (rfc_step (limb_val r) a buffer).
Proof.
  intros Hr Ha Hl Hok. apply acc_step; [done|done| | |].
  - rewrite !length_app, length_replicate. cbn [length]. lia.
  - solve_bytes. by apply Forall_replicate.
  - rewrite app_assoc, le_val_app, le_val_zeros. lia.
Qed.

(** ** Streaming *)

(** The block function on the accumulator alone. *)
Definition acc_block (r h : limbs) (b : list Z) : limbs := mul_reduce (add_block h b false) r.

Lemma process_blocks_poly fuel poly data :
  process_blocks 16 (fun p b => poly1305_process_block p b false) fuel poly data
  = let '(h, rest) := process_blocks 16 (acc_block (poly_r poly)) fuel (poly_h poly) data in
    (mkPoly (poly_r poly) (poly_s poly) h (poly_buffer poly), rest).
Proof.
  revert poly data. induction fuel as [|fuel IH]; intros [r s h b] data; [done|].
  cbn [process_blocks]. destruct (16 <=? length data)%nat; [|done]. rewrite IH. done.
Qed.

Lemma poly1305_update_absorb poly data :
  (length (poly_buffer poly) < 16)%nat ->
  poly1305_update poly data
  = let '(h, rest) := absorb 16 (acc_block (poly_r poly)) (poly_h poly) (poly_buffer poly ++ data) in
    mkPoly (poly_r poly) (poly_s poly) h rest.
Proof.
  intros Hb. rewrite <- buffered_update_absorb by (done || lia).
  unfold poly1305_update, buffered_update.
  destruct (0 <? length (poly_buffer poly))%nat.
  - destruct (16 - length (poly_buffer poly) <=? length data)%nat; [|done].
    rewrite process_blocks_poly. cbn [poly_r poly_h poly1305_process_block].
    unfold acc_block at 2. by destruct (process_blocks _ _ _ _ _).
  - rewrite process_blocks_poly. by destruct (process_blocks _ _ _ _ _).
Qed.

(** A MAC object fed with [msg] under [key]. *)
Record poly_repr (poly : Poly1305) (key msg : list Z) : Prop := mk_poly_repr {
  poly_repr_r : poly_r poly = poly_r (poly1305_new key);
  poly_repr_s : poly_s poly = poly_s (poly1305_new key);
  poly_repr_h :
    absorb 16 (acc_block (poly_r (poly1305_new key))) (mkLimbs 0 0 0 0 0) msg
    = (poly_h poly, poly_buffer poly)
}.

Lemma poly_repr_new key : poly_repr (poly1305_new key) key [].
Proof. by split. Qed.

(** The bytes fed determine the object. *)
Lemma poly_repr_fun p q key msg : poly_repr p key msg -> poly_repr q key msg -> p = q.
Proof.
  intros [Pr Ps Ph] [Qr Qs Qh]. destruct p, q. cbn in *. rewrite Ph in Qh.
  apply (f_equal fst) in Qh as Q1. apply (f_equal snd) in Qh as Q2. cbn in Q1, Q2. by subst.
Qed.

Lemma poly_repr_buffer poly key msg :
  poly_repr poly key msg -> (length (poly_buffer poly) < 16)%nat.
Proof.
  intros [_ _ Hh]. pose proof (length_absorb_rest 16 (acc_block (poly_r (poly1305_new key)))
    ltac:(lia) (mkLimbs 0 0 0 0 0) msg) as Hl.
  rewrite Hh in Hl. cbn [snd] in Hl. rewrite Hl. apply Nat.mod_upper_bound. lia.
Qed.

Lemma poly_repr_update poly key msg data :
  poly_repr poly key msg -> poly_repr (poly1305_update poly data) key (msg ++ data).
Proof.
  intros Hp. rewrite poly1305_update_absorb by (by eapply poly_repr_buffer).
  destruct Hp as [Hr Hs Hh]. rewrite Hr, Hs.
  destruct (absorb 16 _ (poly_h poly) (poly_buffer poly ++ data)) as [h rest] eqn:E.
  split; [done..|]. rewrite absorb_app by lia. by rewrite Hh.
Qed.

Lemma poly_repr_updates poly key msg pieces :
  poly_repr poly key msg -> poly_repr (foldl poly1305_update poly pieces) key (msg ++ concat pieces).
Proof.
  revert poly msg. induction pieces as [|d l IH]; intros poly msg Hp; simpl; [by rewrite app_nil_r|].
  rewrite app_assoc. by apply IH, poly_repr_update.
Qed.

(** ** Finalisation *)

Lemma shiftr26 x : x .>> 26 = x / 2 ^ 26.
Proof. by apply Z.shiftr_div_pow2. Qed.

Lemma carry_full_val h :
  limbs_ok h ->
  limbs_full (carry_full h) /\ limb_val (carry_full h) mod P1305 = limb_val h mod P1305.
Proof.
  intros (H0 & H1 & H2 & H3 & H4). destruct h as [h0 h1 h2 h3 h4]. cbn [l0 l1 l2 l3 l4] in *.
  unfold carry_full. cbn [l0 l1 l2 l3 l4]. rewrite !land_mask26, !shiftr26. cbv zeta.
  set (q1 := h1 / 2 ^ 26). set (m1 := h1 mod 2 ^ 26).
  assert (0 <= q1 <= 1 /\ 0 <= m1 < 2 ^ 26 /\ h1 = 2 ^ 26 * q1 + m1) as (? & ? & ?) by words_lia.
  rewrite (u32_small (h2 + q1)) by (unfold fits; lia).
  set (q2 := (h2 + q1) / 2 ^ 26). set (m2 := (h2 + q1) mod 2 ^ 26).
  assert (0 <= q2 <= 1 /\ 0 <= m2 < 2 ^ 26 /\ h2 + q1 = 2 ^ 26 * q2 + m2) as (? & ? & ?) by words_lia.
  rewrite (u32_small (h3 + q2)) by (unfold fits; lia).
  set (q3 := (h3 + q2) / 2 ^ 26). set (m3 := (h3 + q2) mod 2 ^ 26).
  assert (0 <= q3 <= 1 /\ 0 <= m3 < 2 ^ 26 /\ h3 + q2 = 2 ^ 26 * q3 + m3) as (? & ? & ?) by words_lia.
  rewrite (u32_small (h4 + q3)) by (unfold fits; lia).
  set (q4 := (h4 + q3) / 2 ^ 26). set (m4 := (h4 + q3) mod 2 ^ 26).
  assert (0 <= q4 <= 1 /\ 0 <= m4 < 2 ^ 26 /\ h4 + q3 = 2 ^ 26 * q4 + m4) as (? & ? & ?) by words_lia.
  rewrite (u32_small (q4 * 5)), (u32_small (h0 + q4 * 5)) by (unfold fits; lia).
  set (q0 := (h0 + q4 * 5) / 2 ^ 26). set (m0 := (h0 + q4 * 5) mod 2 ^ 26).
  assert (0 <= q0 <= 1 /\ 0 <= m0 < 2 ^ 26 /\ h0 + q4 * 5 = 2 ^ 26 * q0 + m0) as (? & ? & ?) by words_lia.
  clearbody q0 q1 q2 q3 q4 m0 m1 m2 m3 m4.
  rewrite (u32_small (m1 + q0)) by (unfold fits; lia). split.
  - unfold limbs_below. cbn [l0 l1 l2 l3 l4]. lia.
  - unfold limb_val. cbn [l0 l1 l2 l3 l4].
    rewrite <- (Z.mod_add (_ + _) q4 P1305) by done. f_equal. unfold P1305. lia.
Qed.

Lemma land_ones32 x : 0 <= x < 2 ^ 26 -> x .& (2 ^ 32 - 1) = x.
Proof.
  intros Hx. change (2 ^ 32 - 1) with (Z.ones 32). rewrite Z.land_ones by lia.
  apply Z.mod_small. lia.
Qed.

(** The selection: right below [P1305]; at or above it the low four limbs are
    reduced and the fifth is not. *)
Lemma select_reduced_val h :
  limbs_full h ->
  limbs_full (select_reduced h)
  /\ limb_val (select_reduced h)
     = if limb_val h <? P1305 then limb_val h
       else limb_val h - P1305 + 2 ^ 104 * (2 ^ 26 - 1).
Proof.
  intros (H0 & H1 & H2 & H3 & H4). destruct h as [h0 h1 h2 h3 h4]. cbn [l0 l1 l2 l3 l4] in *.
  unfold select_reduced. cbn [l0 l1 l2 l3 l4]. rewrite !land_mask26, !shiftr26. cbv zeta.
  rewrite (u32_small (h0 + 5)) by (unfold fits; lia).
  set (q0 := (h0 + 5) / 2 ^ 26). set (m0 := (h0 + 5) mod 2 ^ 26).
  assert (0 <= q0 <= 1 /\ 0 <= m0 < 2 ^ 26 /\ h0 + 5 = 2 ^ 26 * q0 + m0) as (? & ? & ?) by words_lia.
  rewrite (u32_small (h1 + q0)) by (unfold fits; lia).
  set (q1 := (h1 + q0) / 2 ^ 26). set (m1 := (h1 + q0) mod 2 ^ 26).
  assert (0 <= q1 <= 1 /\ 0 <= m1 < 2 ^ 26 /\ h1 + q0 = 2 ^ 26 * q1 + m1) as (? & ? & ?) by words_lia.
  rewrite (u32_small (h2 + q1)) by (unfold fits; lia).
  set (q2 := (h2 + q1) / 2 ^ 26). set (m2 := (h2 + q1) mod 2 ^ 26).
  assert (0 <= q2 <= 1 /\ 0 <= m2 < 2 ^ 26 /\ h2 + q1 = 2 ^ 26 * q2 + m2) as (? & ? & ?) by words_lia.
  rewrite (u32_small (h3 + q2)) by (unfold fits; lia).
  set (q3 := (h3 + q2) / 2 ^ 26). set (m3 := (h3 + q2) mod 2 ^ 26).
  assert (0 <= q3 <= 1 /\ 0 <= m3 < 2 ^ 26 /\ h3 + q2 = 2 ^ 26 * q3 + m3) as (? & ? & ?) by words_lia.
  clearbody q0 q1 q2 q3 m0 m1 m2 m3.
  change (1 .<< 26) with (2 ^ 26). rewrite (shiftr_div 31 (2 ^ 31)) by lia || done.
  unfold limb_val, P1305. cbn [l0 l1 l2 l3 l4].
  destruct (decide (2 ^ 26 <= h4 + q3)) as [Hge|Hlt].
  - assert (u32 (h4 + q3 - 2 ^ 26) / 2 ^ 31 = 0) as -> by words_lia.
    change (u32 (0 - 1)) with (2 ^ 32 - 1). change (u32 (Z.lnot (2 ^ 32 - 1))) with 0.
    rewrite !Z.land_0_r, !Z.lor_0_l, !land_ones32 by done.
    split; [unfold limbs_below; cbn [l0 l1 l2 l3 l4]; lia|].
    destruct (Z.ltb_spec (h0 + 2 ^ 26 * h1 + 2 ^ 52 * h2 + 2 ^ 78 * h3 + 2 ^ 104 * h4) (2 ^ 130 - 5)); lia.
  - assert (u32 (h4 + q3 - 2 ^ 26) / 2 ^ 31 = 1) as -> by words_lia.
    change (u32 (1 - 1)) with 0. change (u32 (Z.lnot 0)) with (2 ^ 32 - 1).
    rewrite !Z.land_0_r, !Z.lor_0_r, !land_ones32 by done.
    split; [unfold limbs_below; cbn [l0 l1 l2 l3 l4]; lia|].
    destruct (Z.ltb_spec (h0 + 2 ^ 26 * h1 + 2 ^ 52 * h2 + 2 ^ 78 * h3 + 2 ^ 104 * h4) (2 ^ 130 - 5)); lia.
Qed.

Lemma u32_to_bytes_le_bytes v : u32_to_bytes_le v = le_bytes 4 v.
Proof. apply wr32_eq. Qed.

Lemma le_bytes_app n m v :
  le_bytes (n + m) v = le_bytes n v ++ le_bytes m (v / 2 ^ (8 * Z.of_nat n)).
Proof.
  revert v. induction n as [|n IH]; intros v; [by rewrite Z.div_1_r|].
  cbn [Nat.add le_bytes app]. rewrite IH, pow8_S. do 3 f_equal.
  rewrite Z.div_div by lia. done.
Qed.

Lemma le_bytes_mod n v w : v mod 2 ^ (8 * Z.of_nat n) = w mod 2 ^ (8 * Z.of_nat n) ->
  le_bytes n v = le_bytes n w.
Proof.
  intros H. apply le_val_inj; [apply le_bytes_ok..|by rewrite !length_le_bytes|].
  by rewrite !le_val_le_bytes.
Qed.

(** [a | (b << sh)] in 32 bits, [a] below [2^sh]. *)
Lemma pack_or sh a b :
  0 <= sh <= 32 -> fits sh a -> 0 <= b -> a .| u32 (b .<< sh) = a + 2 ^ sh * (b mod 2 ^ (32 - sh)).
Proof.
  intros Hsh Ha Hb. rewrite <- (lor_shiftl_add sh) by (lia || done). f_equal.
  unfold u32. rewrite !Z.shiftl_mul_pow2 by lia. change 0x100000000 with (2 ^ 32).
  replace 32 with ((32 - sh) + sh) at 1 by lia. rewrite Z.pow_add_r by lia.
  apply Z.mul_mod_distr_r; apply Z.pow_nonzero; lia.
Qed.

Lemma le_val_4words t0 t1 t2 t3 :
  fits 32 t0 -> fits 32 t1 -> fits 32 t2 -> fits 32 t3 ->
  le_val (le_bytes 4 t0 ++ le_bytes 4 t1 ++ le_bytes 4 t2 ++ le_bytes 4 t3)
  = t0 + 2 ^ 32 * t1 + 2 ^ 64 * t2 + 2 ^ 96 * t3.
Proof.
  intros. rewrite !le_val_app, !length_le_bytes, !le_val_fits by done.
  change (8 * Z.of_nat 4) with 32. ring.
Qed.

(** The tag is [h + s] modulo 2^128. *)
Lemma tag_of_val h s :
  limbs_full h -> words_ok s -> tag_of h s = le_bytes 16 (limb_val h + word_val s).
Proof.
  destruct h as [h0 h1 h2 h3 h4], s as [s0 s1 s2 s3].
  intros (H0 & H1 & H2 & H3 & H4) (S0 & S1 & S2 & S3). cbn [l0 l1 l2 l3 l4 w0 w1 w2 w3] in *.
  unfold tag_of. rewrite !u32_to_bytes_le_bytes. cbn [l0 l1 l2 l3 l4 w0 w1 w2 w3].
  rewrite (shiftr_div 6 (2 ^ 6)), (shiftr_div 12 (2 ^ 12)), (shiftr_div 18 (2 ^ 18)) by lia || done.
  rewrite !pack_or by (lia || words_lia).
  change (32 - 26) with 6. change (32 - 20) with 12. change (32 - 14) with 18. change (32 - 8) with 24.
  set (x0 := h0 + _ * _). set (x1 := h1 / 2 ^ 6 + _). set (x2 := h2 / 2 ^ 12 + _).
  set (x3 := h3 / 2 ^ 18 + _).
  assert (fits 32 x0 /\ fits 32 x1 /\ fits 32 x2 /\ fits 32 x3
    /\ limb_val (mkLimbs h0 h1 h2 h3 h4)
       = x0 + 2 ^ 32 * x1 + 2 ^ 64 * x2 + 2 ^ 96 * x3 + 2 ^ 128 * (h4 / 2 ^ 24))
    as (X0 & X1 & X2 & X3 & ->).
  { unfold x0, x1, x2, x3, limb_val. cbn [l0 l1 l2 l3 l4]. split_and!; words_lia. }
  clearbody x0 x1 x2 x3. unfold word_val. cbn [w0 w1 w2 w3]. cbv zeta.
  assert (forall x, x .>> 32 = x / 2 ^ 32) as Hs by (intros x; by apply Z.shiftr_div_pow2).
  rewrite !Hs. unfold u64.
  rewrite (Z.mod_small (x0 + s0)) by words_lia. set (q0 := (x0 + s0) / 2 ^ 32).
  assert (0 <= q0 <= 1) by words_lia.
  rewrite (Z.mod_small (x1 + s1 + q0)) by words_lia. set (q1 := (x1 + s1 + q0) / 2 ^ 32).
  assert (0 <= q1 <= 1) by words_lia.
  rewrite (Z.mod_small (x2 + s2 + q1)) by words_lia. set (q2 := (x2 + s2 + q1) / 2 ^ 32).
  assert (0 <= q2 <= 1) by words_lia.
  rewrite (Z.mod_small (x3 + s3 + q2)) by words_lia.
  apply le_val_inj;
    [repeat apply Forall_app_2; apply le_bytes_ok|apply le_bytes_ok|done|].
  rewrite le_val_4words, le_val_le_bytes by apply fits_u32.
  apply (Z.mod_unique_pos _ _ (h4 / 2 ^ 24 + (x3 + s3 + q2) / 2 ^ 32)); [words_lia|].
  change (8 * Z.of_nat 16) with 128. unfold u32, q2, q1, q0.
  words_lia.
Qed.

(** ** The whole MAC *)

(** What [select_reduced] makes of a fully carried value. *)
Definition selected (v : Z) : Z := if v <? P1305 then v else v - P1305 + 2 ^ 104 * (2 ^ 26 - 1).

Lemma poly_finalize_val poly key msg :
  poly_repr poly key msg -> length key = 32%nat -> bytes_ok key -> bytes_ok msg ->
  exists v, 0 <= v < 2 ^ 130 /\ v mod P1305 = rfc_acc (rfc_r key) msg
    /\ (poly1305_finalize poly).2 = le_bytes 16 (selected v + rfc_s key).
Proof.
  intros Hp Hl Hok Hmsg. pose proof (poly_repr_buffer _ _ _ Hp) as Hbuf.
  destruct (poly1305_new_spec key Hl Hok) as (Hr & Hrv & Hs & Hsv).
  destruct Hp as [Er Es Eh]. rewrite <- Er in Hr, Hrv, Eh. rewrite <- Es in Hs, Hsv.
  apply absorb_inv in Eh as [Eh Eb].
  assert (16 * (length msg / 16) <= length msg)%nat as Hn by apply (blocks_bound 16 ltac:(lia)).
  assert (acc_rel (poly_h poly)
    (compress 16 (rfc_step (limb_val (poly_r poly))) (length msg / 16) 0 msg)) as Hacc.
  { rewrite <- Eh. apply (compress_rel 16 _ _ acc_rel); [|done|done|done].
    intros h a b Hha Hb Hbok. by apply acc_full. }
  assert (bytes_ok (poly_buffer poly)) as Hbok by (rewrite <- Eb; by apply Forall_drop).
  assert (exists h, acc_rel h (rfc_acc (rfc_r key) msg)
    /\ (poly1305_finalize poly).2 = tag_of (select_reduced (carry_full h)) (poly_s poly)) as (h & Hh & ->).
  { unfold rfc_acc, poly1305_finalize. rewrite Eb, <- Hrv.
    destruct (poly_buffer poly) as [|b0 bs] eqn:Ebuf; cbn [length Nat.ltb Nat.leb].
    - eexists. split; [|reflexivity]. by rewrite decide_True by done.
    - eexists. split; [|reflexivity]. rewrite decide_False by done.
      apply (acc_final (poly_r poly) (poly_h poly) _ (b0 :: bs)); done. }
  destruct Hh as [Hlok Hval]. destruct (carry_full_val h Hlok) as [Hfull Hcv].
  destruct (select_reduced_val _ Hfull) as [Hsf Hsel].
  exists (limb_val (carry_full h)). split_and!.
  - destruct Hfull as (? & ? & ? & ? & ?). unfold limb_val. lia.
  - destruct Hfull as (? & ? & ? & ? & ?). unfold limb_val. lia.
  - by rewrite Hcv.
  - rewrite tag_of_val by done. by rewrite Hsel, Hsv.
Qed.

Lemma rfc_acc_bound r msg : 0 <= rfc_acc r msg < P1305.
Proof.
  unfold rfc_acc. case_decide; [|by apply Z.mod_pos_bound].
  enough (forall n a d, 0 <= a < P1305 -> 0 <= compress 16 (rfc_step r) n a d < P1305) as He
    by (by apply He).
  intros n. induction n as [|n IH]; intros a d Ha; [done|]. cbn [compress].
  apply IH. by apply Z.mod_pos_bound.
Qed.

Lemma poly_finalize_rfc poly key msg :
  poly_repr poly key msg -> length key = 32%nat -> bytes_ok key -> bytes_ok msg ->
  5 <= rfc_acc (rfc_r key) msg ->
  (poly1305_finalize poly).2 = rfc_poly1305 key msg.
Proof.
  intros Hp Hl Hok Hmsg H5.
  destruct (poly_finalize_val poly key msg Hp Hl Hok Hmsg) as (v & Hv & Hmod & ->).
  pose proof (Z.div_mod v P1305 ltac:(done)) as Hdm. rewrite Hmod in Hdm.
  pose proof (rfc_acc_bound (rfc_r key) msg).
  assert (v = rfc_acc (rfc_r key) msg) as ->.
  { assert (0 <= v / P1305 <= 1) by (split; [apply Z.div_pos; done || lia|];
      apply Z.div_le_upper_bound; unfold P1305 in *; lia). unfold P1305 in *. lia. }
  unfold rfc_poly1305, selected. by rewrite (proj2 (Z.ltb_lt _ _)) by lia.
Qed.

(** ** The AEAD: lemmas *)

(** The authenticated string of RFC 8439, 2.8. *)
Definition aead_data (aad ciphertext : list Z) : list Z :=
  let pad d := replicate ((16 - (length d mod 16)) mod 16) 0 in
  aad ++ pad aad ++ ciphertext ++ pad ciphertext
  ++ le_bytes 8 (Z.of_nat (length aad)) ++ le_bytes 8 (Z.of_nat (length ciphertext)).

Lemma poly_repr_pad poly key msg n :
  poly_repr poly key msg ->
  poly_repr (if (0 <? n)%nat then poly1305_update poly (replicate n 0) else poly) key
    (msg ++ replicate n 0).
Proof.
  intros Hp. destruct n; [by rewrite app_nil_r|]. by apply poly_repr_update.
Qed.

Lemma aead_authenticate_repr key aad ct :
  poly_repr (aead_authenticate (poly1305_new key) aad ct) key (aead_data aad ct).
Proof.
  unfold aead_authenticate, aead_data. cbv zeta.
  rewrite <- !(wr64_eq (Z.of_nat _)). rewrite !(assoc_L (++)).
  apply poly_repr_update, poly_repr_update, poly_repr_pad, poly_repr_update, poly_repr_pad.
  apply (poly_repr_update _ key []), poly_repr_new.
Qed.

(** What seal and open compute, for any size of the output buffer that is enough. *)
Lemma aead_tag key nonce aad d (poly_key := chacha20_keystream (chacha20_new key nonce) 32) :
  (poly1305_finalize (aead_authenticate (poly1305_new poly_key) aad d)).2 = poly1305_mac poly_key (aead_data aad d).
Proof.
  unfold poly1305_mac. do 2 f_equal. eapply poly_repr_fun; [apply aead_authenticate_repr|].
  apply (poly_repr_update _ _ []), poly_repr_new.
Qed.

Lemma seal_spec key nonce aad plaintext n
    (poly_key := chacha20_keystream (chacha20_new key nonce) 32)
    (c := chacha20_encrypt (chacha20_new_with_counter key nonce 1) plaintext) :
  (length plaintext <= n)%nat ->
  chacha20poly1305_seal key nonce aad plaintext n = Some (c, poly1305_mac poly_key (aead_data aad c)).
Proof.
  intros Hl. unfold chacha20poly1305_seal. rewrite (proj2 (Nat.leb_le _ _)) by done. by rewrite aead_tag.
Qed.

Lemma open_spec key nonce aad ct tag n (poly_key := chacha20_keystream (chacha20_new key nonce) 32) :
  (length ct <= n)%nat ->
  chacha20poly1305_open key nonce aad ct tag n
  = Some (if decide (tag = poly1305_mac poly_key (aead_data aad ct))
          then Some (chacha20_decrypt (chacha20_new_with_counter key nonce 1) ct) else None).
Proof.
  intros Hl. unfold chacha20poly1305_open. rewrite (proj2 (Nat.leb_le _ _)), aead_tag by done. fold poly_key.
  pose proof (constant_time_eq_spec (poly1305_mac poly_key (aead_data aad ct)) tag) as Hc.
  destruct (constant_time_eq _ _); cbn [negb].
  - by rewrite decide_True by (symmetry; by apply Hc).
  - rewrite decide_False; [done|]. intros ->. by assert (false = true) by (by apply Hc).
Qed.

Lemma aead_opens_sealed key nonce plaintext (cipher := chacha20_new_with_counter key nonce 1) :
  chacha20_decrypt cipher (chacha20_encrypt cipher plaintext) = plaintext
  /\ length (chacha20_encrypt cipher plaintext) = length plaintext.
Proof.
  assert (chacha_wf cipher) as Hw by apply chacha_wf_new_with_counter. split; [by apply decrypt_encrypt|].
  unfold chacha20_encrypt. by apply length_apply_keystream.
Qed.

(** ** Properties *)

(** C5. Poly1305 refines RFC 8439: for any split of the message into updates
    the tag is [(acc + s) mod 2^128], with [acc] the value of the polynomial
    modulo [2^130 - 5] and the clamped [r] of the key, as long as [acc >= 5];
    no machine word overflows on the way (the limbs stay within their 26 bits
    and their carries). *)
Theorem poly1305_refines_rfc8439 key pieces
    (Hl : length key = KEY_SIZE) (Hok : bytes_ok key) (Hmsg : bytes_ok (concat pieces))
    (H5 : 5 <= rfc_acc (rfc_r key) (concat pieces)) :
  let poly := foldl poly1305_update (poly1305_new key) pieces in
  (poly1305_finalize poly).2 = rfc_poly1305 key (concat pieces)
  /\ poly1305_mac key (concat pieces) = rfc_poly1305 key (concat pieces)
  /\ limbs_ok (poly_h poly).
Proof.
  cbv zeta. pose proof (poly_repr_updates _ _ _ pieces (poly_repr_new key)) as Hp. cbn [app] in Hp.
  split; [by apply poly_finalize_rfc|]. split.
  - apply poly_finalize_rfc; try done. apply (poly_repr_update _ _ []), poly_repr_new.
  - destruct Hp as [_ _ Hh]. apply absorb_inv in Hh as [<- _].
    destruct (poly1305_new_spec key Hl Hok) as (Hr & _).
    set (R := poly_r (poly1305_new key)) in *. set (d := concat pieces) in *.
    assert (16 * (length d / 16) <= length d)%nat as Hn by (apply (blocks_bound 16); lia).
    apply (compress_rel 16 (acc_block R) (rfc_step (limb_val R)) acc_rel
             ltac:(intros; by apply acc_full) (length d / 16) (mkLimbs 0 0 0 0 0) 0 d); done.
Qed.

Lemma poly1305_refines_rfc8439_witness :
  poly1305_mac rfc_poly_key (concat [[1; 2; 3]; [4; 5]])
  = rfc_poly1305 rfc_poly_key (concat [[1; 2; 3]; [4; 5]]).
Proof.
  apply (poly1305_refines_rfc8439 rfc_poly_key [[1; 2; 3]; [4; 5]]).
  - reflexivity.
  - apply (bool_decide_unpack _). vm_compute. exact I.
  - apply (bool_decide_unpack _). vm_compute. exact I.
  - vm_compute. discriminate.
Defined.

(** The final reduction forgets the top limb: when the carried accumulator
    lies in [[2^130 - 5, 2^130)] the tag is wrong; the key with [r = 1, s = 0] and
    32 bytes 0xff are such a case. *)
Theorem poly1305_wrong_tag :
  exists key msg, length key = KEY_SIZE /\ bytes_ok key /\ bytes_ok msg
    /\ rfc_poly1305 key msg = le_bytes 16 3
    /\ poly1305_mac key msg = le_bytes 16 (3 + 2 ^ 104 * (2 ^ 24 - 1)).
Proof.
  exists (1 :: replicate 31 0), (replicate 32 255).
  split; [done|]. split; [apply (bool_decide_unpack _); vm_compute; exact I|].
  split; [apply (bool_decide_unpack _); vm_compute; exact I|].
  split; vm_compute; reflexivity.
Qed.

(** C37. The AEAD is sound: what was sealed opens to the plaintext under the same
    key, nonce and AAD; the tag is the MAC, under the one-time key, of AAD and
    ciphertext padded to 16 bytes and followed by their lengths; and opening
    yields a plaintext exactly when the tag given is that MAC, so a ciphertext
    with any other tag is refused before it is decrypted. *)
Theorem aead_seal_open key nonce aad plaintext ct tag :
  let poly_key := chacha20_keystream (chacha20_new key nonce) 32 in
  let cipher := chacha20_new_with_counter key nonce 1 in
  let n := length plaintext in
  let c := chacha20_encrypt cipher plaintext in
  chacha20poly1305_seal key nonce aad plaintext n
  = Some (c, poly1305_mac poly_key (aead_data aad c))
  /\ chacha20poly1305_open key nonce aad c (poly1305_mac poly_key (aead_data aad c)) n
     = Some (Some plaintext)
  /\ chacha20poly1305_open key nonce aad ct tag (length ct)
     = Some (if decide (tag = poly1305_mac poly_key (aead_data aad ct))
             then Some (chacha20_decrypt cipher ct) else None).
Proof.
  cbv zeta. destruct (aead_opens_sealed key nonce plaintext) as [Hd Hl].
  split; [by apply seal_spec|]. split; [|by apply open_spec].
  rewrite open_spec by (by rewrite Hl). rewrite decide_True by done. by rewrite Hd.
Qed.
