(* ===== verification/Gf256.v ===== *)
(** * The byte field of AES: lunarcore/lunar/crypto/aes.c, tables and helpers

    GF(2^8) multiplication in the table-free and the plain version, the affine maps, the
    computed S-boxes and the tables. The specification is FIPS 197: polynomial product
    modulo x^8 + x^4 + x^3 + x + 1, inverse and affine map. *)
From Stdlib Require Import Btauto.
From S2P Require Import Prelude.

(** [SBOX] and [INV_SBOX], read as [SBOX[b]]. *)
Definition SBOX : list Z :=
  [ 0x63; 0x7c; 0x77; 0x7b; 0xf2; 0x6b; 0x6f; 0xc5; 0x30; 0x01; 0x67; 0x2b; 0xfe; 0xd7; 0xab; 0x76;
    0xca; 0x82; 0xc9; 0x7d; 0xfa; 0x59; 0x47; 0xf0; 0xad; 0xd4; 0xa2; 0xaf; 0x9c; 0xa4; 0x72; 0xc0;
    0xb7; 0xfd; 0x93; 0x26; 0x36; 0x3f; 0xf7; 0xcc; 0x34; 0xa5; 0xe5; 0xf1; 0x71; 0xd8; 0x31; 0x15;
    0x04; 0xc7; 0x23; 0xc3; 0x18; 0x96; 0x05; 0x9a; 0x07; 0x12; 0x80; 0xe2; 0xeb; 0x27; 0xb2; 0x75;
    0x09; 0x83; 0x2c; 0x1a; 0x1b; 0x6e; 0x5a; 0xa0; 0x52; 0x3b; 0xd6; 0xb3; 0x29; 0xe3; 0x2f; 0x84;
    0x53; 0xd1; 0x00; 0xed; 0x20; 0xfc; 0xb1; 0x5b; 0x6a; 0xcb; 0xbe; 0x39; 0x4a; 0x4c; 0x58; 0xcf;
    0xd0; 0xef; 0xaa; 0xfb; 0x43; 0x4d; 0x33; 0x85; 0x45; 0xf9; 0x02; 0x7f; 0x50; 0x3c; 0x9f; 0xa8;
    0x51; 0xa3; 0x40; 0x8f; 0x92; 0x9d; 0x38; 0xf5; 0xbc; 0xb6; 0xda; 0x21; 0x10; 0xff; 0xf3; 0xd2;
    0xcd; 0x0c; 0x13; 0xec; 0x5f; 0x97; 0x44; 0x17; 0xc4; 0xa7; 0x7e; 0x3d; 0x64; 0x5d; 0x19; 0x73;
    0x60; 0x81; 0x4f; 0xdc; 0x22; 0x2a; 0x90; 0x88; 0x46; 0xee; 0xb8; 0x14; 0xde; 0x5e; 0x0b; 0xdb;
    0xe0; 0x32; 0x3a; 0x0a; 0x49; 0x06; 0x24; 0x5c; 0xc2; 0xd3; 0xac; 0x62; 0x91; 0x95; 0xe4; 0x79;
    0xe7; 0xc8; 0x37; 0x6d; 0x8d; 0xd5; 0x4e; 0xa9; 0x6c; 0x56; 0xf4; 0xea; 0x65; 0x7a; 0xae; 0x08;
    0xba; 0x78; 0x25; 0x2e; 0x1c; 0xa6; 0xb4; 0xc6; 0xe8; 0xdd; 0x74; 0x1f; 0x4b; 0xbd; 0x8b; 0x8a;
    0x70; 0x3e; 0xb5; 0x66; 0x48; 0x03; 0xf6; 0x0e; 0x61; 0x35; 0x57; 0xb9; 0x86; 0xc1; 0x1d; 0x9e;
    0xe1; 0xf8; 0x98; 0x11; 0x69; 0xd9; 0x8e; 0x94; 0x9b; 0x1e; 0x87; 0xe9; 0xce; 0x55; 0x28; 0xdf;
    0x8c; 0xa1; 0x89; 0x0d; 0xbf; 0xe6; 0x42; 0x68; 0x41; 0x99; 0x2d; 0x0f; 0xb0; 0x54; 0xbb; 0x16 ].

Definition INV_SBOX : list Z :=
  [ 0x52; 0x09; 0x6a; 0xd5; 0x30; 0x36; 0xa5; 0x38; 0xbf; 0x40; 0xa3; 0x9e; 0x81; 0xf3; 0xd7; 0xfb;
    0x7c; 0xe3; 0x39; 0x82; 0x9b; 0x2f; 0xff; 0x87; 0x34; 0x8e; 0x43; 0x44; 0xc4; 0xde; 0xe9; 0xcb;
    0x54; 0x7b; 0x94; 0x32; 0xa6; 0xc2; 0x23; 0x3d; 0xee; 0x4c; 0x95; 0x0b; 0x42; 0xfa; 0xc3; 0x4e;
    0x08; 0x2e; 0xa1; 0x66; 0x28; 0xd9; 0x24; 0xb2; 0x76; 0x5b; 0xa2; 0x49; 0x6d; 0x8b; 0xd1; 0x25;
    0x72; 0xf8; 0xf6; 0x64; 0x86; 0x68; 0x98; 0x16; 0xd4; 0xa4; 0x5c; 0xcc; 0x5d; 0x65; 0xb6; 0x92;
    0x6c; 0x70; 0x48; 0x50; 0xfd; 0xed; 0xb9; 0xda; 0x5e; 0x15; 0x46; 0x57; 0xa7; 0x8d; 0x9d; 0x84;
    0x90; 0xd8; 0xab; 0x00; 0x8c; 0xbc; 0xd3; 0x0a; 0xf7; 0xe4; 0x58; 0x05; 0xb8; 0xb3; 0x45; 0x06;
    0xd0; 0x2c; 0x1e; 0x8f; 0xca; 0x3f; 0x0f; 0x02; 0xc1; 0xaf; 0xbd; 0x03; 0x01; 0x13; 0x8a; 0x6b;
    0x3a; 0x91; 0x11; 0x41; 0x4f; 0x67; 0xdc; 0xea; 0x97; 0xf2; 0xcf; 0xce; 0xf0; 0xb4; 0xe6; 0x73;
    0x96; 0xac; 0x74; 0x22; 0xe7; 0xad; 0x35; 0x85; 0xe2; 0xf9; 0x37; 0xe8; 0x1c; 0x75; 0xdf; 0x6e;
    0x47; 0xf1; 0x1a; 0x71; 0x1d; 0x29; 0xc5; 0x89; 0x6f; 0xb7; 0x62; 0x0e; 0xaa; 0x18; 0xbe; 0x1b;
    0xfc; 0x56; 0x3e; 0x4b; 0xc6; 0xd2; 0x79; 0x20; 0x9a; 0xdb; 0xc0; 0xfe; 0x78; 0xcd; 0x5a; 0xf4;
    0x1f; 0xdd; 0xa8; 0x33; 0x88; 0x07; 0xc7; 0x31; 0xb1; 0x12; 0x10; 0x59; 0x27; 0x80; 0xec; 0x5f;
    0x60; 0x51; 0x7f; 0xa9; 0x19; 0xb5; 0x4a; 0x0d; 0x2d; 0xe5; 0x7a; 0x9f; 0x93; 0xc9; 0x9c; 0xef;
    0xa0; 0xe0; 0x3b; 0x4d; 0xae; 0x2a; 0xf5; 0xb0; 0xc8; 0xeb; 0xbb; 0x3c; 0x83; 0x53; 0x99; 0x61;
    0x17; 0x2b; 0x04; 0x7e; 0xba; 0x77; 0xd6; 0x26; 0xe1; 0x69; 0x14; 0x63; 0x55; 0x21; 0x0c; 0x7d ].

Definition RCON : list Z :=
  [0x00; 0x01; 0x02; 0x04; 0x08; 0x10; 0x20; 0x40; 0x80; 0x1b; 0x36].

Definition parity (x : Z) : Z :=
  let x := x .^ (x .>> 4) in
  let x := x .^ (x .>> 2) in
  let x := x .^ (x .>> 1) in
  x .& 1.

(** [(uint8_t)-(int8_t)x]. *)
Definition mask_of (x : Z) : Z := u8 (- i8 x).

(** One of the seven repetitions: reduce and double [aa], then add it if bit [k] of [b] is set. *)
Definition gf_mul_ct_step (b : Z) (st : Z * Z) (k : Z) : Z * Z :=
  let '(aa, result) := st in
  let mask := mask_of (aa .>> 7) in
  let aa := u8 ((aa .<< 1) .^ (0x1b .& mask)) in
  (aa, result .^ (aa .& mask_of ((b .>> k) .& 0x01))).

Definition gf_mul_ct (a b : Z) : Z :=
  let result := 0 .^ (a .& mask_of (b .& 0x01)) in
  (foldl (gf_mul_ct_step b) (a, result) [1; 2; 3; 4; 5; 6; 7]).2.

Definition gf_square (x : Z) : Z := gf_mul_ct x x.

Definition affine_transform (x : Z) : Z :=
  let result := 0 .| ((parity (x .& 0xF1) .^ 1) .<< 0) in
  let result := result .| ((parity (x .& 0xE3) .^ 1) .<< 1) in
  let result := result .| ((parity (x .& 0xC7) .^ 0) .<< 2) in
  let result := result .| ((parity (x .& 0x8F) .^ 0) .<< 3) in
  let result := result .| ((parity (x .& 0x1F) .^ 0) .<< 4) in
  let result := result .| ((parity (x .& 0x3E) .^ 1) .<< 5) in
  let result := result .| ((parity (x .& 0x7C) .^ 1) .<< 6) in
  result .| ((parity (x .& 0xF8) .^ 0) .<< 7).

Definition inv_affine_transform (x : Z) : Z :=
  let y := x .^ 0x63 in
  let result := 0 .| (parity (y .& 0xA4) .<< 0) in
  let result := result .| (parity (y .& 0x49) .<< 1) in
  let result := result .| (parity (y .& 0x92) .<< 2) in
  let result := result .| (parity (y .& 0x25) .<< 3) in
  let result := result .| (parity (y .& 0x4A) .<< 4) in
  let result := result .| (parity (y .& 0x94) .<< 5) in
  let result := result .| (parity (y .& 0x29) .<< 6) in
  result .| (parity (y .& 0x52) .<< 7).

Definition sbox_ct (input : Z) : Z :=
  let x := input in
  let x2 := gf_square x in
  let x4 := gf_square x2 in
  let x8 := gf_square x4 in
  let x16 := gf_square x8 in
  let x32 := gf_square x16 in
  let x64 := gf_square x32 in
  let x128 := gf_square x64 in
  let inv := gf_mul_ct x2 x4 in
  let inv := gf_mul_ct inv x8 in
  let inv := gf_mul_ct inv x16 in
  let inv := gf_mul_ct inv x32 in
  let inv := gf_mul_ct inv x64 in
  let inv := gf_mul_ct inv x128 in
  affine_transform inv.

Definition inv_sbox_ct (input : Z) : Z :=
  let x := inv_affine_transform input in
  let x2 := gf_square x in
  let x4 := gf_square x2 in
  let x8 := gf_square x4 in
  let x16 := gf_square x8 in
  let x32 := gf_square x16 in
  let x64 := gf_square x32 in
  let x128 := gf_square x64 in
  let inv := gf_mul_ct x2 x4 in
  let inv := gf_mul_ct inv x8 in
  let inv := gf_mul_ct inv x16 in
  let inv := gf_mul_ct inv x32 in
  let inv := gf_mul_ct inv x64 in
  gf_mul_ct inv x128.

(** [while (b != 0)]: [b] is a byte and is halved each time, so 8 rounds are enough. *)
Fixpoint gf_mul_loop (fuel : nat) (a b result : Z) : Z :=
  match fuel with
  | O => result
  | S fuel =>
      if b =? 0 then result else
      let result := if b .& 1 =? 0 then result else result .^ a in
      let high_bit := a .& 0x80 in
      let a := u8 (a .<< 1) in
      let a := if high_bit =? 0 then a else a .^ 0x1b in
      gf_mul_loop fuel a (b .>> 1) result
  end.

Definition gf_mul (a b : Z) : Z := gf_mul_loop 8 a b 0.

(** [SBOX[b]] and [INV_SBOX[b]] for a byte [b]. *)
Definition sub_byte (b : Z) : Z := SBOX.[Z.to_nat b].
Definition inv_sub_byte (b : Z) : Z := INV_SBOX.[Z.to_nat b].

(** ** FIPS 197 *)

(** The product of polynomials over GF(2), coefficients as bits. *)
Definition poly_mul (a b : Z) : Z :=
  foldr (fun k r => (if Z.testbit b k then a .<< k else 0) .^ r) 0 (range 8).

(** The remainder modulo x^8 + x^4 + x^3 + x + 1 of a polynomial of degree below 15. *)
Definition poly_mod (a : Z) : Z :=
  foldl (fun a k => if Z.testbit a (8 + k) then a .^ (0x11b .<< k) else a) a [6; 5; 4; 3; 2; 1; 0].

Definition fips_mul (a b : Z) : Z := poly_mod (poly_mul a b).

(** The inverse as the power 254, zero for zero. *)
Definition fips_inverse (a : Z) : Z := Nat.iter 254 (fips_mul a) 1.

(** Bit [i] of the affine map of the S-box (FIPS 197, 5.1.1). *)
Definition fips_affine (b : Z) : Z :=
  foldr (fun i r =>
    let bit k := Z.b2z (Z.testbit b (k mod 8)) in
    ((bit i .^ bit (i + 4) .^ bit (i + 5) .^ bit (i + 6) .^ bit (i + 7)
      .^ Z.b2z (Z.testbit 0x63 i)) .<< i) .| r) 0 (range 8).

Definition fips_sbox (b : Z) : Z := fips_affine (fips_inverse b).

(** ** Facts checked on all 256 bytes *)

(** Decides an equation of byte functions by evaluating both on every byte. *)
Ltac byte_cases b Hb :=
  let f := fresh "f" in
  match goal with |- ?l = ?r =>
    let P := eval pattern b in (l =? r) in
    match P with ?f b =>
      apply Z.eqb_eq; refine (range_check 256 f _ b Hb); vm_compute; reflexivity
    end
  end.

Lemma sub_byte_fips b : byte_ok b -> sub_byte b = fips_sbox b.
Proof. intros Hb. byte_cases b Hb. Qed.

Lemma sbox_ct_table b : byte_ok b -> sbox_ct b = sub_byte b.
Proof. intros Hb. byte_cases b Hb. Qed.

Lemma inv_sbox_ct_table b : byte_ok b -> inv_sbox_ct b = inv_sub_byte b.
Proof. intros Hb. byte_cases b Hb. Qed.

Lemma inv_sub_sub_byte b : byte_ok b -> inv_sub_byte (sub_byte b) = b.
Proof. intros Hb. byte_cases b Hb. Qed.

Lemma sub_inv_sub_byte b : byte_ok b -> sub_byte (inv_sub_byte b) = b.
Proof. intros Hb. byte_cases b Hb. Qed.

Lemma inv_affine_affine b : byte_ok b -> inv_affine_transform (affine_transform b) = b.
Proof. intros Hb. byte_cases b Hb. Qed.

(** The power 254 is the inverse of FIPS 197. *)
Lemma fips_inverse_correct b : byte_ok b -> b <> 0 -> fips_mul b (fips_inverse b) = 1.
Proof.
  intros Hb Hn. assert ((if b =? 0 then 1 else fips_mul b (fips_inverse b)) = 1) as E
    by byte_cases b Hb.
  destruct (Z.eqb_spec b 0); [done|exact E].
Qed.

Lemma table_ok (t : list Z) b : bytes_ok t -> byte_ok (t.[Z.to_nat b]).
Proof.
  intros Ht. unfold arr. destruct (t !! Z.to_nat b) as [x|] eqn:E; [|cbn; unfold fits; lia].
  exact (Forall_lookup_1 _ _ _ _ Ht E).
Qed.

Lemma sub_byte_ok b : byte_ok (sub_byte b).
Proof. apply table_ok. apply (bool_decide_unpack _). vm_compute. exact I. Qed.
Lemma inv_sub_byte_ok b : byte_ok (inv_sub_byte b).
Proof. apply table_ok. apply (bool_decide_unpack _). vm_compute. exact I. Qed.

(** ** Multiplication as repeated doubling *)

Definition xtime (a : Z) : Z := u8 (a .<< 1) .^ (if Z.testbit a 7 then 0x1b else 0).

(** The products MixColumns and its inverse need, for any of the multiplications. *)
Record mix_products (mul : Z -> Z -> Z) : Prop := {
  mul_2 : forall a, byte_ok a -> mul a 2 = xtime a;
  mul_3 : forall a, byte_ok a -> mul a 3 = a .^ xtime a;
  mul_9 : forall a, byte_ok a -> mul a 0x09 = a .^ xtime (xtime (xtime a));
  mul_b : forall a, byte_ok a -> mul a 0x0b = a .^ xtime a .^ xtime (xtime (xtime a));
  mul_d : forall a, byte_ok a -> mul a 0x0d = a .^ xtime (xtime a) .^ xtime (xtime (xtime a));
  mul_e : forall a, byte_ok a -> mul a 0x0e = xtime a .^ xtime (xtime a) .^ xtime (xtime (xtime a))
}.

Lemma gf_mul_products : mix_products gf_mul.
Proof. split; intros b Hb; byte_cases b Hb. Qed.
Lemma gf_mul_ct_products : mix_products gf_mul_ct.
Proof. split; intros b Hb; byte_cases b Hb. Qed.
Lemma fips_mul_products : mix_products fips_mul.
Proof. split; intros b Hb; byte_cases b Hb. Qed.

Lemma xtime_ok a : byte_ok (xtime a).
Proof. unfold xtime. apply fits_lxor; [lia|apply fits_u8|]. destruct (Z.testbit a 7); unfold fits; lia. Qed.

Lemma xtime_lxor a b : xtime (a .^ b) = xtime a .^ xtime b.
Proof.
  unfold xtime. rewrite <- !land_ff, Z.shiftl_lxor, Z.lxor_spec.
  apply Z.bits_inj'. intros n _. rewrite !Z.lxor_spec, !Z.land_spec, Z.lxor_spec.
  destruct (Z.testbit a 7), (Z.testbit b 7); cbn [xorb]; rewrite ?Z.testbit_0_l; btauto.
Qed.
