(* ===== verification/Ctr.v ===== *)
(** * Counter mode

    The counter-mode loop that aes.c, session.c and encryption.c repeat: one key stream
    block per chunk, xored into the data, the last chunk cut short. Generic in the counter
    state [next] steps through and in the block function. *)
From S2P Require Import Prelude.

Lemma xor_bytes_split d k n :
  (n <= length k)%nat ->
  xor_bytes d k = xor_bytes (take n d) (take n k) ++ xor_bytes (drop n d) (drop n k).
Proof.
  unfold xor_bytes. revert d k. induction n as [|n IH]; intros d k Hn; [by rewrite !drop_0|].
  destruct k as [|y k]; simpl in Hn; [lia|]. destruct d as [|x d]; simpl; [done|].
  f_equal. apply IH. lia.
Qed.

Section ctr.
Context {S : Type} (bs : nat) (block : S -> list Z) (next : S -> S).

(** [for (offset = 0; offset < len; offset += bs)]; a chunk per unit of [fuel]. *)
Fixpoint ctr_loop (fuel : nat) (st : S) (data : list Z) : list Z :=
  match fuel with
  | O => data
  | Datatypes.S fuel =>
      if (length data =? 0)%nat then data
      else xor_bytes (take bs data) (block st) ++ ctr_loop fuel (next st) (drop bs data)
  end.

(** The key stream: the blocks of the successive states. *)
Fixpoint ctr_stream (n : nat) (st : S) : list Z :=
  match n with
  | O => []
  | Datatypes.S n => block st ++ ctr_stream n (next st)
  end.

(** The counters the loop meets satisfy [P], and their blocks are full. *)
Context (P : S -> Prop) (Hbs : (0 < bs)%nat) (Hnext : forall st, P st -> P (next st))
        (Hblock : forall st, P st -> length (block st) = bs).

Lemma length_ctr_stream n st : P st -> length (ctr_stream n st) = (bs * n)%nat.
Proof using All.
  revert st. induction n as [|n IH]; intros st Hst; simpl; [lia|].
  rewrite length_app, Hblock, IH by auto. lia.
Qed.

(** The loop xors the data with any long enough piece of the key stream. *)
Lemma ctr_loop_stream_ge fuel st data n :
  P st -> (length data <= fuel)%nat -> (length data <= n)%nat ->
  ctr_loop fuel st data = xor_bytes data (ctr_stream n st).
Proof using All.
  revert st data n. induction fuel as [|fuel IH]; intros st data n Hst Hf Hn.
  { destruct data; [done|simpl in Hf; lia]. }
  cbn [ctr_loop]. destruct (Nat.eqb_spec (length data) 0) as [->%nil_length_inv|Hd]; [done|].
  destruct n as [|n]; [lia|]. cbn [ctr_stream].
  rewrite (xor_bytes_split data _ bs) by (rewrite length_app, Hblock by done; lia).
  rewrite take_app_length', drop_app_length' by (symmetry; auto). f_equal.
  apply IH; [auto|rewrite length_drop; lia..].
Qed.

Lemma ctr_loop_stream fuel st data :
  P st -> (length data <= fuel)%nat ->
  ctr_loop fuel st data = xor_bytes data (ctr_stream (length data) st).
Proof using All. intros. by apply ctr_loop_stream_ge. Qed.

Lemma length_ctr_loop fuel st data :
  P st -> (length data <= fuel)%nat -> length (ctr_loop fuel st data) = length data.
Proof using All.
  intros Hst Hf. rewrite ctr_loop_stream, length_xor_bytes, length_ctr_stream by done. nia.
Qed.

(** A second pass with the same counter undoes the first. *)
Lemma ctr_loop_involutive fuel st data :
  P st -> (length data <= fuel)%nat -> ctr_loop fuel st (ctr_loop fuel st data) = data.
Proof using All.
  intros Hst Hf. pose proof (length_ctr_loop fuel st data Hst Hf) as Hl.
  rewrite (ctr_loop_stream fuel st (ctr_loop _ _ _)), Hl by (done || lia).
  rewrite (ctr_loop_stream _ _ data) by done.
  apply xor_bytes_involutive. rewrite length_ctr_stream by done. nia.
Qed.
End ctr.
