(* ===== verification/Aes.v ===== *)
(** * AES: lunarcore/lunar/crypto/aes.c, first part

    AES-128, AES-256 and the AES-128 with the computed S-box, as aes.c has them up to the
    line of slashes: key expansion, block encryption and decryption, counter mode and CBC. A
    cipher is its array of round keys, a block a list of 16 bytes in the order of the C array.
    The second, shorter AES that follows in the same source file is in AesMin.v. *)
From Stdlib Require Import Btauto.
From S2P Require Import Prelude Gf256 Ctr.

Definition BLOCK_SIZE : nat := 16.

Inductive AesMode := AES_MODE_ECB | AES_MODE_CTR | AES_MODE_CBC.

(** The values [i] of [while (i < ...) { ...; i += 4; }]: [n] of them from [start] on. *)
Definition every4 (start n : nat) : list nat := (fun k => start + 4 * k)%nat <$> seq 0 n.

(** [for (i = 15; i >= 0; i--)] of the counter increments: [n] is [i + 1]. *)
Fixpoint increment_from (n : nat) (counter : list Z) : list Z :=
  match n with
  | O => counter
  | S i =>
      let counter := <[i := u8 (counter.[i] + 1)]> counter in
      if negb (counter.[i] =? 0) then counter else increment_from i counter
  end.

(** ** AES-128 *)

Definition aes128_sub_bytes (state : list Z) : list Z := sub_byte <$> state.

Definition aes128_inv_sub_bytes (state : list Z) : list Z := inv_sub_byte <$> state.

Definition aes128_shift_rows (state : list Z) : list Z :=
  let temp := state.[1] in
  let state := <[1%nat := state.[5]]> state in
  let state := <[5%nat := state.[9]]> state in
  let state := <[9%nat := state.[13]]> state in
  let state := <[13%nat := temp]> state in
  let temp0 := state.[2] in
  let temp1 := state.[6] in
  let state := <[2%nat := state.[10]]> state in
  let state := <[6%nat := state.[14]]> state in
  let state := <[10%nat := temp0]> state in
  let state := <[14%nat := temp1]> state in
  let temp := state.[15] in
  let state := <[15%nat := state.[11]]> state in
  let state := <[11%nat := state.[7]]> state in
  let state := <[7%nat := state.[3]]> state in
  <[3%nat := temp]> state.

Definition aes128_inv_shift_rows (state : list Z) : list Z :=
  let temp := state.[13] in
  let state := <[13%nat := state.[9]]> state in
  let state := <[9%nat := state.[5]]> state in
  let state := <[5%nat := state.[1]]> state in
  let state := <[1%nat := temp]> state in
  let temp0 := state.[2] in
  let temp1 := state.[6] in
  let state := <[2%nat := state.[10]]> state in
  let state := <[6%nat := state.[14]]> state in
  let state := <[10%nat := temp0]> state in
  let state := <[14%nat := temp1]> state in
  let temp := state.[3] in
  let state := <[3%nat := state.[7]]> state in
  let state := <[7%nat := state.[11]]> state in
  let state := <[11%nat := state.[15]]> state in
  <[15%nat := temp]> state.

Definition aes128_mix_columns (state : list Z) : list Z :=
  foldl (fun state col =>
    let i := (col * 4)%nat in
    let s0 := state.[i] in
    let s1 := state.[i + 1] in
    let s2 := state.[i + 2] in
    let s3 := state.[i + 3] in
    let state := <[i := gf_mul s0 2 .^ gf_mul s1 3 .^ s2 .^ s3]> state in
    let state := <[(i + 1)%nat := s0 .^ gf_mul s1 2 .^ gf_mul s2 3 .^ s3]> state in
    let state := <[(i + 2)%nat := s0 .^ s1 .^ gf_mul s2 2 .^ gf_mul s3 3]> state in
    <[(i + 3)%nat := gf_mul s0 3 .^ s1 .^ s2 .^ gf_mul s3 2]> state) state [0; 1; 2; 3]%nat.

Definition aes128_inv_mix_columns (state : list Z) : list Z :=
  foldl (fun state col =>
    let i := (col * 4)%nat in
    let s0 := state.[i] in
    let s1 := state.[i + 1] in
    let s2 := state.[i + 2] in
    let s3 := state.[i + 3] in
    let state := <[i := gf_mul s0 0x0e .^ gf_mul s1 0x0b .^ gf_mul s2 0x0d .^ gf_mul s3 0x09]> state in
    let state := <[(i + 1)%nat := gf_mul s0 0x09 .^ gf_mul s1 0x0e .^ gf_mul s2 0x0b .^ gf_mul s3 0x0d]> state in
    let state := <[(i + 2)%nat := gf_mul s0 0x0d .^ gf_mul s1 0x09 .^ gf_mul s2 0x0e .^ gf_mul s3 0x0b]> state in
    <[(i + 3)%nat := gf_mul s0 0x0b .^ gf_mul s1 0x0d .^ gf_mul s2 0x09 .^ gf_mul s3 0x0e]> state) state [0; 1; 2; 3]%nat.

Definition aes128_add_round_key (state round_keys : list Z) (off : nat) : list Z :=
  xor_bytes state (slice round_keys off 16).

Definition aes128_increment_counter (counter : list Z) : list Z := increment_from 16 counter.

Definition aes128_key_step (st : list Z * nat) (i : nat) : list Z * nat :=
  let '(round_keys, rcon_idx) := st in
  let temp := slice round_keys (i - 4) 4 in
  let '(temp, rcon_idx) :=
    if (i mod 16 =? 0)%nat then
      let temp := [temp.[1]; temp.[2]; temp.[3]; temp.[0]] in
      let temp := sub_byte <$> temp in
      (<[0%nat := temp.[0] .^ RCON.[rcon_idx]]> temp, S rcon_idx)
    else (temp, rcon_idx) in
  (round_keys ++ xor_bytes (slice round_keys (i - 16) 4) temp, rcon_idx).

Definition aes128_key_expansion (key : list Z) : list Z :=
  (foldl aes128_key_step (key, 1%nat) (every4 16 40)).1.

Definition aes128_new (key : list Z) : list Z := aes128_key_expansion key.

Definition aes128_drop (cipher : list Z) : list Z := replicate 176 0.

Definition aes128_encrypt_block (cipher block : list Z) : list Z :=
  let state := aes128_add_round_key block cipher 0 in
  let state := foldl (fun state round =>
    let state := aes128_sub_bytes state in
    let state := aes128_shift_rows state in
    let state := aes128_mix_columns state in
    aes128_add_round_key state cipher (round * 16)) state (seq 1 9) in
  let state := aes128_sub_bytes state in
  let state := aes128_shift_rows state in
  aes128_add_round_key state cipher 160.

Definition aes128_decrypt_block (cipher block : list Z) : list Z :=
  let state := aes128_add_round_key block cipher 160 in
  let state := foldl (fun state round =>
    let state := aes128_inv_shift_rows state in
    let state := aes128_inv_sub_bytes state in
    let state := aes128_add_round_key state cipher (round * 16) in
    aes128_inv_mix_columns state) state (reverse (seq 1 9)) in
  let state := aes128_inv_shift_rows state in
  let state := aes128_inv_sub_bytes state in
  aes128_add_round_key state cipher 0.

Definition aes128_encrypt_ctr (cipher nonce data : list Z) : list Z :=
  ctr_loop 16 (aes128_encrypt_block cipher) aes128_increment_counter (length data) nonce data.

Definition aes128_decrypt_ctr (cipher nonce data : list Z) : list Z :=
  aes128_encrypt_ctr cipher nonce data.

(** One iteration of the CBC loops: the data written so far and [prev]. *)
Definition cbc_encrypt_step (cipher : list Z) (st : list Z * list Z) (chunk : list Z) : list Z * list Z :=
  let '(done_, prev) := st in
  let block := aes128_encrypt_block cipher (xor_bytes chunk prev) in
  (done_ ++ block, block).

Definition cbc_decrypt_step (cipher : list Z) (st : list Z * list Z) (chunk : list Z) : list Z * list Z :=
  let '(done_, prev) := st in
  let saved := chunk in
  let block := xor_bytes (aes128_decrypt_block cipher chunk) prev in
  (done_ ++ block, saved).

(** The chunks [&data[offset]] of 16 bytes for [offset = 0, 16, ...]. *)
Definition chunks16 (data : list Z) : list (list Z) :=
  (fun i => slice data (16 * i) 16) <$> seq 0 (length data / 16).

(** [None] where the assertion on the length stops the program. *)
Definition aes128_encrypt_cbc (cipher iv data : list Z) : option (list Z) :=
  if (length data mod 16 =? 0)%nat
  then Some (foldl (cbc_encrypt_step cipher) ([], iv) (chunks16 data)).1 else None.

Definition aes128_decrypt_cbc (cipher iv data : list Z) : option (list Z) :=
  if (length data mod 16 =? 0)%nat
  then Some (foldl (cbc_decrypt_step cipher) ([], iv) (chunks16 data)).1 else None.

(** ** AES-256 *)

Definition sub_bytes_256 (state : list Z) : list Z := sub_byte <$> state.

Definition inv_sub_bytes_256 (state : list Z) : list Z := inv_sub_byte <$> state.

Definition shift_rows_256 (state : list Z) : list Z :=
  let temp := state.[1] in
  let state := <[1%nat := state.[5]]> state in
  let state := <[5%nat := state.[9]]> state in
  let state := <[9%nat := state.[13]]> state in
  let state := <[13%nat := temp]> state in
  let temp0 := state.[2] in
  let temp1 := state.[6] in
  let state := <[2%nat := state.[10]]> state in
  let state := <[6%nat := state.[14]]> state in
  let state := <[10%nat := temp0]> state in
  let state := <[14%nat := temp1]> state in
  let temp := state.[15] in
  let state := <[15%nat := state.[11]]> state in
  let state := <[11%nat := state.[7]]> state in
  let state := <[7%nat := state.[3]]> state in
  <[3%nat := temp]> state.

Definition inv_shift_rows_256 (state : list Z) : list Z :=
  let temp := state.[13] in
  let state := <[13%nat := state.[9]]> state in
  let state := <[9%nat := state.[5]]> state in
  let state := <[5%nat := state.[1]]> state in
  let state := <[1%nat := temp]> state in
  let temp0 := state.[2] in
  let temp1 := state.[6] in
  let state := <[2%nat := state.[10]]> state in
  let state := <[6%nat := state.[14]]> state in
  let state := <[10%nat := temp0]> state in
  let state := <[14%nat := temp1]> state in
  let temp := state.[3] in
  let state := <[3%nat := state.[7]]> state in
  let state := <[7%nat := state.[11]]> state in
  let state := <[11%nat := state.[15]]> state in
  <[15%nat := temp]> state.

Definition mix_columns_256 (state : list Z) : list Z :=
  foldl (fun state col =>
    let i := (col * 4)%nat in
    let s0 := state.[i] in
    let s1 := state.[i + 1] in
    let s2 := state.[i + 2] in
    let s3 := state.[i + 3] in
    let state := <[i := gf_mul s0 2 .^ gf_mul s1 3 .^ s2 .^ s3]> state in
    let state := <[(i + 1)%nat := s0 .^ gf_mul s1 2 .^ gf_mul s2 3 .^ s3]> state in
    let state := <[(i + 2)%nat := s0 .^ s1 .^ gf_mul s2 2 .^ gf_mul s3 3]> state in
    <[(i + 3)%nat := gf_mul s0 3 .^ s1 .^ s2 .^ gf_mul s3 2]> state) state [0; 1; 2; 3]%nat.

Definition inv_mix_columns_256 (state : list Z) : list Z :=
  foldl (fun state col =>
    let i := (col * 4)%nat in
    let s0 := state.[i] in
    let s1 := state.[i + 1] in
    let s2 := state.[i + 2] in
    let s3 := state.[i + 3] in
    let state := <[i := gf_mul s0 0x0e .^ gf_mul s1 0x0b .^ gf_mul s2 0x0d .^ gf_mul s3 0x09]> state in
    let state := <[(i + 1)%nat := gf_mul s0 0x09 .^ gf_mul s1 0x0e .^ gf_mul s2 0x0b .^ gf_mul s3 0x0d]> state in
    let state := <[(i + 2)%nat := gf_mul s0 0x0d .^ gf_mul s1 0x09 .^ gf_mul s2 0x0e .^ gf_mul s3 0x0b]> state in
    <[(i + 3)%nat := gf_mul s0 0x0b .^ gf_mul s1 0x0d .^ gf_mul s2 0x09 .^ gf_mul s3 0x0e]> state) state [0; 1; 2; 3]%nat.

Definition add_round_key_256 (state round_keys : list Z) (off : nat) : list Z :=
  xor_bytes state (slice round_keys off 16).

Definition increment_counter_256 (counter : list Z) : list Z := increment_from 16 counter.

Definition aes256_key_step (st : list Z * nat) (i : nat) : list Z * nat :=
  let '(round_keys, rcon_idx) := st in
  let temp := slice round_keys (i - 4) 4 in
  let '(temp, rcon_idx) :=
    if (i mod 32 =? 0)%nat then
      let temp := [temp.[1]; temp.[2]; temp.[3]; temp.[0]] in
      let temp := sub_byte <$> temp in
      (<[0%nat := temp.[0] .^ RCON.[rcon_idx]]> temp, S rcon_idx)
    else if (i mod 32 =? 16)%nat then (sub_byte <$> temp, rcon_idx)
    else (temp, rcon_idx) in
  (round_keys ++ xor_bytes (slice round_keys (i - 32) 4) temp, rcon_idx).

Definition aes256_key_expansion (key : list Z) : list Z :=
  (foldl aes256_key_step (key, 1%nat) (every4 32 52)).1.

Definition aes256_new (key : list Z) : list Z := aes256_key_expansion key.

Definition aes256_drop (cipher : list Z) : list Z := replicate 240 0.

Definition aes256_encrypt_block (cipher block : list Z) : list Z :=
  let state := add_round_key_256 block cipher 0 in
  let state := foldl (fun state round =>
    let state := sub_bytes_256 state in
    let state := shift_rows_256 state in
    let state := mix_columns_256 state in
    add_round_key_256 state cipher (round * 16)) state (seq 1 13) in
  let state := sub_bytes_256 state in
  let state := shift_rows_256 state in
  add_round_key_256 state cipher 224.

Definition aes256_decrypt_block (cipher block : list Z) : list Z :=
  let state := add_round_key_256 block cipher 224 in
  let state := foldl (fun state round =>
    let state := inv_shift_rows_256 state in
    let state := inv_sub_bytes_256 state in
    let state := add_round_key_256 state cipher (round * 16) in
    inv_mix_columns_256 state) state (reverse (seq 1 13)) in
  let state := inv_shift_rows_256 state in
  let state := inv_sub_bytes_256 state in
  add_round_key_256 state cipher 0.

Definition aes256_encrypt_ctr (cipher nonce data : list Z) : list Z :=
  ctr_loop 16 (aes256_encrypt_block cipher) increment_counter_256 (length data) nonce data.

Definition aes256_decrypt_ctr (cipher nonce data : list Z) : list Z :=
  aes256_encrypt_ctr cipher nonce data.

(** ** AES-128 with the computed S-box *)

Definition aes128ct_sub_bytes_ct (state : list Z) : list Z := sbox_ct <$> state.

Definition aes128ct_inv_sub_bytes_ct (state : list Z) : list Z := inv_sbox_ct <$> state.

Definition aes128ct_shift_rows (state : list Z) : list Z :=
  let temp := state.[1] in
  let state := <[1%nat := state.[5]]> state in
  let state := <[5%nat := state.[9]]> state in
  let state := <[9%nat := state.[13]]> state in
  let state := <[13%nat := temp]> state in
  let temp0 := state.[2] in
  let temp1 := state.[6] in
  let state := <[2%nat := state.[10]]> state in
  let state := <[6%nat := state.[14]]> state in
  let state := <[10%nat := temp0]> state in
  let state := <[14%nat := temp1]> state in
  let temp := state.[15] in
  let state := <[15%nat := state.[11]]> state in
  let state := <[11%nat := state.[7]]> state in
  let state := <[7%nat := state.[3]]> state in
  <[3%nat := temp]> state.

Definition aes128ct_inv_shift_rows (state : list Z) : list Z :=
  let temp := state.[13] in
  let state := <[13%nat := state.[9]]> state in
  let state := <[9%nat := state.[5]]> state in
  let state := <[5%nat := state.[1]]> state in
  let state := <[1%nat := temp]> state in
  let temp0 := state.[2] in
  let temp1 := state.[6] in
  let state := <[2%nat := state.[10]]> state in
  let state := <[6%nat := state.[14]]> state in
  let state := <[10%nat := temp0]> state in
  let state := <[14%nat := temp1]> state in
  let temp := state.[3] in
  let state := <[3%nat := state.[7]]> state in
  let state := <[7%nat := state.[11]]> state in
  let state := <[11%nat := state.[15]]> state in
  <[15%nat := temp]> state.

Definition aes128ct_mix_columns (state : list Z) : list Z :=
  foldl (fun state col =>
    let i := (col * 4)%nat in
    let s0 := state.[i] in
    let s1 := state.[i + 1] in
    let s2 := state.[i + 2] in
    let s3 := state.[i + 3] in
    let state := <[i := gf_mul s0 2 .^ gf_mul s1 3 .^ s2 .^ s3]> state in
    let state := <[(i + 1)%nat := s0 .^ gf_mul s1 2 .^ gf_mul s2 3 .^ s3]> state in
    let state := <[(i + 2)%nat := s0 .^ s1 .^ gf_mul s2 2 .^ gf_mul s3 3]> state in
    <[(i + 3)%nat := gf_mul s0 3 .^ s1 .^ s2 .^ gf_mul s3 2]> state) state [0; 1; 2; 3]%nat.

Definition aes128ct_inv_mix_columns (state : list Z) : list Z :=
  foldl (fun state col =>
    let i := (col * 4)%nat in
    let s0 := state.[i] in
    let s1 := state.[i + 1] in
    let s2 := state.[i + 2] in
    let s3 := state.[i + 3] in
    let state := <[i := gf_mul s0 0x0e .^ gf_mul s1 0x0b .^ gf_mul s2 0x0d .^ gf_mul s3 0x09]> state in
    let state := <[(i + 1)%nat := gf_mul s0 0x09 .^ gf_mul s1 0x0e .^ gf_mul s2 0x0b .^ gf_mul s3 0x0d]> state in
    let state := <[(i + 2)%nat := gf_mul s0 0x0d .^ gf_mul s1 0x09 .^ gf_mul s2 0x0e .^ gf_mul s3 0x0b]> state in
    <[(i + 3)%nat := gf_mul s0 0x0b .^ gf_mul s1 0x0d .^ gf_mul s2 0x09 .^ gf_mul s3 0x0e]> state) state [0; 1; 2; 3]%nat.

Definition aes128ct_add_round_key (state round_keys : list Z) (off : nat) : list Z :=
  xor_bytes state (slice round_keys off 16).

Definition aes128ct_increment_counter (counter : list Z) : list Z := increment_from 16 counter.

Definition aes128ct_key_step (st : list Z * nat) (i : nat) : list Z * nat :=
  let '(round_keys, rcon_idx) := st in
  let temp := slice round_keys (i - 4) 4 in
  let '(temp, rcon_idx) :=
    if (i mod 16 =? 0)%nat then
      let temp := [temp.[1]; temp.[2]; temp.[3]; temp.[0]] in
      let temp := sbox_ct <$> temp in
      (<[0%nat := temp.[0] .^ RCON.[rcon_idx]]> temp, S rcon_idx)
    else (temp, rcon_idx) in
  (round_keys ++ xor_bytes (slice round_keys (i - 16) 4) temp, rcon_idx).

Definition aes128ct_key_expansion (key : list Z) : list Z :=
  (foldl aes128ct_key_step (key, 1%nat) (every4 16 40)).1.

Definition aes128ct_new (key : list Z) : list Z := aes128ct_key_expansion key.

Definition aes128ct_drop (cipher : list Z) : list Z := replicate 176 0.

Definition aes128ct_encrypt_block (cipher block : list Z) : list Z :=
  let state := aes128ct_add_round_key block cipher 0 in
  let state := foldl (fun state round =>
    let state := aes128ct_sub_bytes_ct state in
    let state := aes128ct_shift_rows state in
    let state := aes128ct_mix_columns state in
    aes128ct_add_round_key state cipher (round * 16)) state (seq 1 9) in
  let state := aes128ct_sub_bytes_ct state in
  let state := aes128ct_shift_rows state in
  aes128ct_add_round_key state cipher 160.

Definition aes128ct_decrypt_block (cipher block : list Z) : list Z :=
  let state := aes128ct_add_round_key block cipher 160 in
  let state := foldl (fun state round =>
    let state := aes128ct_inv_shift_rows state in
    let state := aes128ct_inv_sub_bytes_ct state in
    let state := aes128ct_add_round_key state cipher (round * 16) in
    aes128ct_inv_mix_columns state) state (reverse (seq 1 9)) in
  let state := aes128ct_inv_shift_rows state in
  let state := aes128ct_inv_sub_bytes_ct state in
  aes128ct_add_round_key state cipher 0.

Definition aes128ct_encrypt_ctr (cipher nonce data : list Z) : list Z :=
  ctr_loop 16 (aes128ct_encrypt_block cipher) aes128ct_increment_counter (length data) nonce data.

Definition aes128ct_decrypt_ctr (cipher nonce data : list Z) : list Z :=
  aes128ct_encrypt_ctr cipher nonce data.

(** ** FIPS 197

    The state of the standard is a 4 by 4 matrix; byte [r + 4 c] of the block is its entry
    in row [r], column [c]. *)
Definition entry (s : list Z) (r c : nat) : Z := s.[r + 4 * c].
Definition matrix (f : nat -> nat -> Z) : list Z :=
  (fun i => f (i mod 4) (i / 4))%nat <$> seq 0 16.

Definition fips_sub_bytes (s : list Z) : list Z := matrix (fun r c => fips_sbox (entry s r c)).
Definition fips_shift_rows (s : list Z) : list Z := matrix (fun r c => entry s r ((c + r) mod 4)).

(** The matrix product with the circulant of 02 03 01 01. *)
Definition fips_mix_columns (s : list Z) : list Z :=
  matrix (fun r c => foldr (fun k z => fips_mul (entry s k c) ([2; 3; 1; 1].[(4 + k - r) mod 4]) .^ z)
                       0 (seq 0 4)).

Definition fips_add_round_key (s : list Z) (w : list (list Z)) (round : nat) : list Z :=
  matrix (fun r c => entry s r c .^ (default [] (w !! (4 * round + c)%nat)).[r]).

(** KeyExpansion (5.2): the words [w_0 ... w_(n-1)] for a key of [nk] words. *)
Definition fips_rcon (j : nat) : Z := Nat.iter (j - 1) (fips_mul 2) 1.
Definition fips_rot_word (t : list Z) : list Z := drop 1 t ++ take 1 t.

Definition fips_next_word (nk : nat) (w : list (list Z)) : list Z :=
  let i := length w in
  let word j := default [] (w !! j) in
  let temp := word (i - 1)%nat in
  let temp :=
    if (i mod nk =? 0)%nat
    then xor_bytes (fips_sbox <$> fips_rot_word temp) [fips_rcon (i / nk); 0; 0; 0]
    else if (6 <? nk)%nat && (i mod nk =? 4)%nat then fips_sbox <$> temp
    else temp in
  xor_bytes (word (i - nk)%nat) temp.

Definition key_words (nk : nat) (key : list Z) : list (list Z) :=
  (fun i => slice key (4 * i) 4) <$> seq 0 nk.

Definition fips_key_expansion (nk n : nat) (key : list Z) : list (list Z) :=
  Nat.iter n (fun w => w ++ [fips_next_word nk w]) (key_words nk key).

(** Cipher (5.1) with [nr] rounds. *)
Definition fips_cipher (nk nr : nat) (key block : list Z) : list Z :=
  let w := fips_key_expansion nk (4 * (nr + 1) - nk) key in
  let s := fips_add_round_key block w 0 in
  let s := foldl (fun s round =>
    fips_add_round_key (fips_mix_columns (fips_shift_rows (fips_sub_bytes s))) w round)
    s (seq 1 (nr - 1)) in
  fips_add_round_key (fips_shift_rows (fips_sub_bytes s)) w nr.

(** ** The transformations on blocks of 16 bytes *)

Definition block_ok (s : list Z) : Prop := length s = 16%nat /\ bytes_ok s.

(** A block by its bytes. *)
Ltac destruct_block s Hs :=
  let Hl := fresh "Hl" in let Hb := fresh "Hb" in
  destruct Hs as [Hl Hb]; do 16 (destruct s as [|? s]; [discriminate Hl|]);
  destruct s; [|discriminate Hl]; clear Hl; rewrite !Forall_cons in Hb; destruct_and! Hb.

Lemma fmap_block f s : (forall b, byte_ok (f b)) -> block_ok s -> block_ok (f <$> s).
Proof.
  intros Hf [Hl _]. split; [by rewrite length_fmap|]. by apply Forall_fmap, Forall_true.
Qed.

Lemma sub_bytes_eq s : block_ok s -> aes128_sub_bytes s = fips_sub_bytes s.
Proof.
  intros [Hl Hs]. transitivity (fips_sbox <$> s).
  - apply list_fmap_ext. intros i b Hb. apply sub_byte_fips. exact (Forall_lookup_1 _ _ _ _ Hs Hb).
  - clear Hs. do 16 (destruct s as [|? s]; [done|]). by destruct s.
Qed.

Lemma sub_bytes_ct_eq s : bytes_ok s -> aes128ct_sub_bytes_ct s = aes128_sub_bytes s.
Proof. intros Hs. apply list_fmap_ext. intros i b Hb. apply sbox_ct_table. exact (Forall_lookup_1 _ _ _ _ Hs Hb). Qed.

Lemma inv_sub_sub s : block_ok s -> aes128_inv_sub_bytes (aes128_sub_bytes s) = s.
Proof.
  intros [_ Hs]. unfold aes128_inv_sub_bytes, aes128_sub_bytes. rewrite <- list_fmap_compose.
  rewrite <- (list_fmap_id s) at 2. apply list_fmap_ext. intros i b Hb. apply inv_sub_sub_byte.
  exact (Forall_lookup_1 _ _ _ _ Hs Hb).
Qed.

Lemma shift_rows_eq s : length s = 16%nat -> aes128_shift_rows s = fips_shift_rows s.
Proof. intros Hl. do 16 (destruct s as [|? s]; [done|]). by destruct s. Qed.

Lemma inv_shift_shift s : length s = 16%nat -> aes128_inv_shift_rows (aes128_shift_rows s) = s.
Proof. intros Hl. do 16 (destruct s as [|? s]; [done|]). by destruct s. Qed.

Lemma shift_rows_ok s : block_ok s -> block_ok (aes128_shift_rows s).
Proof.
  intros Hs. destruct_block s Hs. split; [done|].
  cbv [aes128_shift_rows]. cbn [insert list_insert arr lookup list_lookup].
  repeat (apply Forall_cons; split; [done|]). apply Forall_nil_2.
Qed.

(** One column of MixColumns and of its inverse. *)
Definition mix_column (mul : Z -> Z -> Z) (s0 s1 s2 s3 : Z) : list Z :=
  [mul s0 2 .^ mul s1 3 .^ s2 .^ s3; s0 .^ mul s1 2 .^ mul s2 3 .^ s3;
   s0 .^ s1 .^ mul s2 2 .^ mul s3 3; mul s0 3 .^ s1 .^ s2 .^ mul s3 2].

Definition inv_mix_column (mul : Z -> Z -> Z) (s0 s1 s2 s3 : Z) : list Z :=
  [mul s0 0x0e .^ mul s1 0x0b .^ mul s2 0x0d .^ mul s3 0x09;
   mul s0 0x09 .^ mul s1 0x0e .^ mul s2 0x0b .^ mul s3 0x0d;
   mul s0 0x0d .^ mul s1 0x09 .^ mul s2 0x0e .^ mul s3 0x0b;
   mul s0 0x0b .^ mul s1 0x0d .^ mul s2 0x09 .^ mul s3 0x0e].

(** The columns of a block, each through [f]. *)
Definition by_columns (f : Z -> Z -> Z -> Z -> list Z) (s : list Z) : list Z :=
  f (s.[0]) (s.[1]) (s.[2]) (s.[3]) ++ f (s.[4]) (s.[5]) (s.[6]) (s.[7])
  ++ f (s.[8]) (s.[9]) (s.[10]) (s.[11]) ++ f (s.[12]) (s.[13]) (s.[14]) (s.[15]).

Lemma mix_columns_form s :
  length s = 16%nat -> aes128_mix_columns s = by_columns (mix_column gf_mul) s.
Proof. intros Hl. do 16 (destruct s as [|? s]; [done|]). by destruct s. Qed.

Lemma inv_mix_columns_form s :
  length s = 16%nat -> aes128_inv_mix_columns s = by_columns (inv_mix_column gf_mul) s.
Proof. intros Hl. do 16 (destruct s as [|? s]; [done|]). by destruct s. Qed.

(** Normalises sums of products by powers of [xtime]. *)
Ltac xor_solve := apply Z.bits_inj'; intros ? _; rewrite !Z.lxor_spec; btauto.

Section columns.
Context (mul : Z -> Z -> Z) (Hmul : mix_products mul).

Lemma mix_column_products s0 s1 s2 s3 :
  bytes_ok [s0; s1; s2; s3] -> mix_column mul s0 s1 s2 s3 = mix_column fips_mul s0 s1 s2 s3.
Proof.
  rewrite !Forall_cons. intros Hb. destruct_and! Hb. unfold mix_column.
  pose proof fips_mul_products.
  by rewrite !(mul_2 mul), !(mul_3 mul), !(mul_2 fips_mul), !(mul_3 fips_mul).
Qed.

Lemma mix_column_ok s0 s1 s2 s3 :
  bytes_ok [s0; s1; s2; s3] -> bytes_ok (mix_column mul s0 s1 s2 s3).
Proof.
  rewrite !Forall_cons. intros Hb. destruct_and! Hb. unfold mix_column.
  rewrite !(mul_2 mul), !(mul_3 mul) by done.
  repeat (apply Forall_cons; split); try apply Forall_nil_2;
    repeat first [assumption | apply xtime_ok | apply fits_lxor; [lia|..]].
Qed.

(** The two matrices are inverse to each other. *)
Lemma inv_mix_mix_column s0 s1 s2 s3 (m := mix_column mul s0 s1 s2 s3) :
  bytes_ok [s0; s1; s2; s3] ->
  inv_mix_column mul (m.[0]) (m.[1]) (m.[2]) (m.[3]) = [s0; s1; s2; s3].
Proof.
  intros Hb. pose proof (mix_column_ok _ _ _ _ Hb) as Hm. fold m in Hm.
  assert (forall i, byte_ok (m.[i])) as Hi.
  { intros i. unfold arr. destruct (m !! i) as [x|] eqn:E; [|cbn; unfold fits; lia].
    exact (Forall_lookup_1 _ _ _ _ Hm E). }
  rewrite !Forall_cons in Hb. destruct_and! Hb. unfold inv_mix_column.
  rewrite !(mul_e mul), !(mul_b mul), !(mul_d mul), !(mul_9 mul) by (done || apply Hi).
  subst m. clear Hi Hm. unfold mix_column, arr. cbn [lookup list_lookup default from_option id].
  rewrite !(mul_2 mul), !(mul_3 mul) by done. rewrite !xtime_lxor.
  f_equal; [xor_solve|f_equal; [xor_solve|f_equal; [xor_solve|f_equal; xor_solve]]].
Qed.
End columns.

(** Bytes of a block, for the lemmas on columns. *)
Lemma four_bytes s i j k l : bytes_ok s -> bytes_ok [s.[i]; s.[j]; s.[k]; s.[l]].
Proof. intros Hs. repeat (apply Forall_cons; split); try apply Forall_nil_2; by apply arr_byte. Qed.

Lemma block_bytes s : length s = 16%nat ->
  s = [s.[0]; s.[1]; s.[2]; s.[3]] ++ [s.[4]; s.[5]; s.[6]; s.[7]]
      ++ [s.[8]; s.[9]; s.[10]; s.[11]] ++ [s.[12]; s.[13]; s.[14]; s.[15]].
Proof. intros Hl. do 16 (destruct s as [|? s]; [done|]). by destruct s. Qed.

Lemma by_columns_ok f s :
  (forall a b c d, bytes_ok [a; b; c; d] -> length (f a b c d) = 4%nat /\ bytes_ok (f a b c d)) ->
  block_ok s -> block_ok (by_columns f s).
Proof.
  intros Hf [_ Hs]. unfold by_columns.
  destruct (Hf (s.[0]) (s.[1]) (s.[2]) (s.[3])) as [L0 B0]; [by apply four_bytes|].
  destruct (Hf (s.[4]) (s.[5]) (s.[6]) (s.[7])) as [L1 B1]; [by apply four_bytes|].
  destruct (Hf (s.[8]) (s.[9]) (s.[10]) (s.[11])) as [L2 B2]; [by apply four_bytes|].
  destruct (Hf (s.[12]) (s.[13]) (s.[14]) (s.[15])) as [L3 B3]; [by apply four_bytes|].
  split; [by rewrite !length_app, L0, L1, L2, L3|]. by rewrite !Forall_app.
Qed.

Lemma by_columns_inverse mul s :
  mix_products mul -> block_ok s ->
  by_columns (inv_mix_column mul) (by_columns (mix_column mul) s) = s.
Proof.
  intros Hm [Hl Hs]. rewrite (block_bytes s Hl) at 2.
  rewrite <- (inv_mix_mix_column mul Hm (s.[0]) (s.[1]) (s.[2]) (s.[3])) by by apply four_bytes.
  rewrite <- (inv_mix_mix_column mul Hm (s.[4]) (s.[5]) (s.[6]) (s.[7])) by by apply four_bytes.
  rewrite <- (inv_mix_mix_column mul Hm (s.[8]) (s.[9]) (s.[10]) (s.[11])) by by apply four_bytes.
  rewrite <- (inv_mix_mix_column mul Hm (s.[12]) (s.[13]) (s.[14]) (s.[15])) by by apply four_bytes.
  reflexivity.
Qed.

Lemma mix_columns_ok s : block_ok s -> block_ok (aes128_mix_columns s).
Proof.
  intros Hs. rewrite mix_columns_form by apply Hs. apply by_columns_ok; [|done].
  intros a b c d Hb. split; [done|]. by apply (mix_column_ok _ gf_mul_products).
Qed.

Lemma inv_mix_mix s : block_ok s -> aes128_inv_mix_columns (aes128_mix_columns s) = s.
Proof.
  intros Hs. rewrite inv_mix_columns_form by by apply mix_columns_ok.
  rewrite mix_columns_form by apply Hs. apply by_columns_inverse; [apply gf_mul_products|done].
Qed.

Lemma fips_mul_1 b : byte_ok b -> fips_mul b 1 = b.
Proof. intros Hb. byte_cases b Hb. Qed.

Lemma mix_columns_eq s : block_ok s -> aes128_mix_columns s = fips_mix_columns s.
Proof.
  intros Hs. rewrite mix_columns_form by apply Hs. pose proof Hs as [Hl Hb].
  transitivity (by_columns (mix_column fips_mul) s).
  - unfold by_columns. by rewrite !(mix_column_products gf_mul gf_mul_products) by by apply four_bytes.
  - assert (forall i, fips_mul (s.[i]) 1 = s.[i]) as H1 by (intros i; by apply fips_mul_1, arr_byte).
    unfold fips_mix_columns, matrix, entry. cbn -[arr fips_mul].
    unfold by_columns, mix_column. cbn [app]. change ([2; 3; 1; 1].[0]) with 2.
    change ([2; 3; 1; 1].[1]) with 3. change ([2; 3; 1; 1].[2]) with 1. change ([2; 3; 1; 1].[3]) with 1.
    by rewrite !H1, !Z.lxor_0_r, !Z.lxor_assoc.
Qed.

Lemma sub_bytes_ok s : block_ok s -> block_ok (aes128_sub_bytes s).
Proof. apply fmap_block, sub_byte_ok. Qed.

(** ** The inverse cipher, for any number of rounds *)

Section rounds.
Context (sub isub shift ishift mix imix : list Z -> list Z) (ark : list Z -> nat -> list Z) (nr : nat).
Context (sub_ok : forall s, block_ok s -> block_ok (sub s))
        (shift_ok : forall s, block_ok s -> block_ok (shift s))
        (mix_ok : forall s, block_ok s -> block_ok (mix s))
        (ark_ok : forall s r, (r <= nr)%nat -> block_ok s -> block_ok (ark s r))
        (isub_sub : forall s, block_ok s -> isub (sub s) = s)
        (ishift_shift : forall s, block_ok s -> ishift (shift s) = s)
        (imix_mix : forall s, block_ok s -> imix (mix s) = s)
        (ark_ark : forall s r, (r <= nr)%nat -> block_ok s -> ark (ark s r) r = s).

Definition enc_round (s : list Z) (r : nat) : list Z := ark (mix (shift (sub s))) r.
Definition dec_round (s : list Z) (r : nat) : list Z := imix (ark (isub (ishift s)) r).

Lemma enc_rounds_ok n s :
  (n <= nr)%nat -> block_ok s -> block_ok (foldl enc_round s (seq 1 n)).
Proof using sub_ok shift_ok mix_ok ark_ok.
  intros Hn Hs. induction n as [|n IH]; [done|]. rewrite seq_S, foldl_app. cbn [foldl]. unfold enc_round at 1.
  apply ark_ok; [lia|]. auto with lia.
Qed.

(** The decryption rounds take the state back to the one before the first round. *)
Lemma dec_enc_rounds n s :
  (n <= nr)%nat -> block_ok s ->
  foldl dec_round (shift (sub (foldl enc_round s (seq 1 n)))) (reverse (seq 1 n)) = shift (sub s).
Proof using All.
  intros Hn Hs. induction n as [|n IH]; [done|].
  rewrite seq_S, reverse_snoc, foldl_app. cbn [foldl]. rewrite <- IH by lia. f_equal.
  pose proof (enc_rounds_ok n s ltac:(lia) Hs) as Ho.
  set (t := foldl enc_round s (seq 1 n)) in *. unfold dec_round, enc_round.
  assert (block_ok (mix (shift (sub t)))) as Hm by auto. clearbody t.
  assert (block_ok (ark (mix (shift (sub t))) (1 + n))) as Ha by (apply ark_ok; [lia|done]).
  by rewrite ishift_shift, isub_sub, ark_ark, imix_mix by (lia || auto).
Qed.

Definition encrypt_rounds (s : list Z) : list Z :=
  ark (shift (sub (foldl enc_round (ark s 0) (seq 1 (nr - 1))))) nr.
Definition decrypt_rounds (s : list Z) : list Z :=
  ark (isub (ishift (foldl dec_round (ark s nr) (reverse (seq 1 (nr - 1)))))) 0.

Lemma encrypt_rounds_ok s : block_ok s -> block_ok (encrypt_rounds s).
Proof using sub_ok shift_ok mix_ok ark_ok.
  intros Hs. apply ark_ok; [lia|]. apply shift_ok, sub_ok, enc_rounds_ok; [lia|]. apply ark_ok; [lia|done].
Qed.

Lemma decrypt_encrypt_rounds s : block_ok s -> decrypt_rounds (encrypt_rounds s) = s.
Proof using All.
  intros Hs. unfold decrypt_rounds, encrypt_rounds.
  assert (block_ok (ark s 0)) as H0 by (apply ark_ok; [lia|done]).
  assert (block_ok (foldl enc_round (ark s 0) (seq 1 (nr - 1)))) as H1 by (apply enc_rounds_ok; [lia|done]).
  rewrite (ark_ark (shift (sub _)) nr), dec_enc_rounds by (lia || auto).
  rewrite ishift_shift, isub_sub by auto. apply ark_ark; [lia|done].
Qed.
End rounds.

(** Steps that agree on blocks make the same cipher. *)
Lemma encrypt_rounds_ext sub shift mix sub' shift' mix' ark nr s :
  (forall s, block_ok s -> block_ok (sub s)) -> (forall s, block_ok s -> block_ok (shift s)) ->
  (forall s, block_ok s -> block_ok (mix s)) ->
  (forall s r, (r <= nr)%nat -> block_ok s -> block_ok (ark s r)) ->
  (forall s, block_ok s -> sub' s = sub s) -> (forall s, block_ok s -> shift' s = shift s) ->
  (forall s, block_ok s -> mix' s = mix s) -> block_ok s ->
  encrypt_rounds sub' shift' mix' ark nr s = encrypt_rounds sub shift mix ark nr s.
Proof.
  intros Hsub Hshift Hmix Hark Es Eh Em Hs. unfold encrypt_rounds.
  assert (forall n t, (n <= nr)%nat -> block_ok t ->
    foldl (enc_round sub' shift' mix' ark) t (seq 1 n) = foldl (enc_round sub shift mix ark) t (seq 1 n)) as E.
  { intros n t Hn Ht. induction n as [|n IH]; [done|]. rewrite seq_S, !foldl_app, IH by lia. cbn [foldl].
    assert (block_ok (foldl (enc_round sub shift mix ark) t (seq 1 n))) as Ho
      by (apply (enc_rounds_ok _ _ _ _ nr); [done..|lia|done]).
    unfold enc_round at 1 3. by rewrite Es, Eh, Em by auto. }
  assert (block_ok (ark s 0%nat)) as H0 by (apply Hark; [lia|done]).
  rewrite E by (done || lia).
  assert (block_ok (foldl (enc_round sub shift mix ark) (ark s 0%nat) (seq 1 (nr - 1)))) as Ho
    by (apply (enc_rounds_ok _ _ _ _ nr); [done..|lia|done]).
  by rewrite Es, Eh by auto.
Qed.

(** ** Round keys and AddRoundKey *)

Lemma add_round_key_ok s rk off :
  bytes_ok rk -> (off + 16 <= length rk)%nat -> block_ok s -> block_ok (aes128_add_round_key s rk off).
Proof.
  intros Hr Hl [Hs Hb]. unfold aes128_add_round_key. split.
  - rewrite length_xor_bytes, length_slice by done. lia.
  - apply xor_bytes_ok; [done|]. by apply slice_ok.
Qed.

Lemma add_round_key_twice s rk off :
  (off + 16 <= length rk)%nat -> length s = 16%nat ->
  aes128_add_round_key (aes128_add_round_key s rk off) rk off = s.
Proof. intros Hl Hs. apply xor_bytes_involutive. rewrite length_slice by done. lia. Qed.

(** A key schedule for [nr] rounds. *)
Definition schedule_ok (nr : nat) (rk : list Z) : Prop := length rk = (16 * (nr + 1))%nat /\ bytes_ok rk.

Lemma ark_rounds nr cipher :
  schedule_ok nr cipher ->
  (forall s r, (r <= nr)%nat -> block_ok s -> block_ok (aes128_add_round_key s cipher (r * 16)))
  /\ (forall s r, (r <= nr)%nat -> block_ok s ->
      aes128_add_round_key (aes128_add_round_key s cipher (r * 16)) cipher (r * 16) = s).
Proof.
  intros [Hl Hc]. split; intros s r Hr Hs.
  - by apply add_round_key_ok; [..|lia|].
  - apply add_round_key_twice; [lia|apply Hs].
Qed.

(** The AES-256 steps are those of AES-128. *)
Lemma steps_256 :
  add_round_key_256 = aes128_add_round_key /\ sub_bytes_256 = aes128_sub_bytes
  /\ shift_rows_256 = aes128_shift_rows /\ mix_columns_256 = aes128_mix_columns.
Proof. split_and!; reflexivity. Qed.

Lemma inverse_steps_256 :
  add_round_key_256 = aes128_add_round_key /\ inv_sub_bytes_256 = aes128_inv_sub_bytes
  /\ inv_shift_rows_256 = aes128_inv_shift_rows /\ inv_mix_columns_256 = aes128_inv_mix_columns.
Proof. split_and!; reflexivity. Qed.

Lemma inverse_steps_ct :
  aes128ct_add_round_key = aes128_add_round_key
  /\ aes128ct_inv_shift_rows = aes128_inv_shift_rows
  /\ aes128ct_inv_mix_columns = aes128_inv_mix_columns.
Proof. split_and!; reflexivity. Qed.

(** The block functions are the generic rounds. *)
Ltac by_rounds :=
  cbv beta zeta delta [aes128_encrypt_block aes128_decrypt_block aes256_encrypt_block
    aes256_decrypt_block aes128ct_decrypt_block
    encrypt_rounds decrypt_rounds enc_round dec_round];
  cbn [Nat.sub Nat.mul Nat.add];
  reflexivity.

Abbreviation ark cipher := (fun s r => aes128_add_round_key s cipher (r * 16)).
Abbreviation enc nr cipher :=
  (encrypt_rounds aes128_sub_bytes aes128_shift_rows aes128_mix_columns (ark cipher) nr).

Lemma aes128_encrypt_rounds cipher block : aes128_encrypt_block cipher block = enc 10 cipher block.
Proof. by_rounds. Qed.
Lemma aes256_encrypt_rounds cipher block : aes256_encrypt_block cipher block = enc 14 cipher block.
Proof.
  unfold aes256_encrypt_block. destruct steps_256 as (-> & -> & -> & ->). by_rounds.
Qed.
Lemma aes128_decrypt_rounds cipher block :
  aes128_decrypt_block cipher block =
  decrypt_rounds aes128_inv_sub_bytes aes128_inv_shift_rows aes128_inv_mix_columns (ark cipher) 10 block.
Proof. by_rounds. Qed.

Lemma aes256_decrypt_rounds cipher block :
  aes256_decrypt_block cipher block =
  decrypt_rounds aes128_inv_sub_bytes aes128_inv_shift_rows aes128_inv_mix_columns (ark cipher) 14 block.
Proof. unfold aes256_decrypt_block. destruct inverse_steps_256 as (-> & -> & -> & ->). by_rounds. Qed.
Lemma aes128ct_decrypt_rounds cipher block :
  aes128ct_decrypt_block cipher block =
  decrypt_rounds aes128ct_inv_sub_bytes_ct aes128_inv_shift_rows aes128_inv_mix_columns (ark cipher) 10 block.
Proof. unfold aes128ct_decrypt_block. destruct inverse_steps_ct as (-> & -> & ->). by_rounds. Qed.

(** Decryption inverts encryption for any inverse substitution that agrees with the table. *)
Lemma decrypt_enc isub nr cipher block :
  (forall s, block_ok s -> isub s = aes128_inv_sub_bytes s) -> schedule_ok nr cipher -> block_ok block ->
  decrypt_rounds isub aes128_inv_shift_rows aes128_inv_mix_columns (ark cipher) nr
    (enc nr cipher block) = block.
Proof.
  intros Hi [Hok Htwice]%ark_rounds Hb. apply decrypt_encrypt_rounds; try done.
  - apply sub_bytes_ok.
  - apply shift_rows_ok.
  - apply mix_columns_ok.
  - intros s Hs. rewrite Hi by by apply sub_bytes_ok. by apply inv_sub_sub.
  - intros s [Hs _]. by apply inv_shift_shift.
  - apply inv_mix_mix.
Qed.

Lemma inv_sub_bytes_ct_eq s : block_ok s -> aes128ct_inv_sub_bytes_ct s = aes128_inv_sub_bytes s.
Proof.
  intros [_ Hs]. apply list_fmap_ext. intros i b Hb. apply inv_sbox_ct_table.
  exact (Forall_lookup_1 _ _ _ _ Hs Hb).
Qed.

Lemma aes128_decrypt_encrypt cipher block :
  schedule_ok 10 cipher -> block_ok block ->
  aes128_decrypt_block cipher (aes128_encrypt_block cipher block) = block.
Proof. rewrite aes128_encrypt_rounds, aes128_decrypt_rounds. by apply decrypt_enc. Qed.

Lemma enc_ok nr cipher block :
  schedule_ok nr cipher -> block_ok block -> block_ok (enc nr cipher block).
Proof.
  intros [Hok _]%ark_rounds Hb. apply encrypt_rounds_ok; [..|done].
  - apply sub_bytes_ok.
  - apply shift_rows_ok.
  - apply mix_columns_ok.
  - done.
Qed.

(** ** Key expansion *)

Definition word_ok (t : list Z) : Prop := length t = 4%nat /\ bytes_ok t.
Abbreviation word w j := (default [] (w !! j)).

Ltac destruct_word t Ht :=
  let Hl := fresh "Hl" in let Hb := fresh "Hb" in
  destruct Ht as [Hl Hb]; do 4 (destruct t as [|? t]; [discriminate Hl|]);
  destruct t; [|discriminate Hl]; clear Hl.

Lemma word_lookup w j : Forall word_ok w -> (j < length w)%nat -> w !! j = Some (word w j) /\ word_ok (word w j).
Proof.
  intros Hw Hj. destruct (lookup_lt_is_Some_2 w j Hj) as [t Ht]. rewrite Ht. split; [done|].
  exact (Forall_lookup_1 _ _ _ _ Hw Ht).
Qed.

Lemma length_words w : Forall word_ok w -> length (concat w) = (4 * length w)%nat.
Proof. induction 1 as [|t w [Ht _] _ IH]; [done|]. cbn [concat length]. rewrite length_app, IH. lia. Qed.

Lemma bytes_ok_words w : Forall word_ok w -> bytes_ok (concat w).
Proof. induction 1 as [|t w [_ Ht] _ IH]; [constructor|]. cbn [concat]. by apply Forall_app. Qed.

(** Word [j] of the round keys. *)
Lemma slice_word w j :
  Forall word_ok w -> (j < length w)%nat -> slice (concat w) (4 * j) 4 = word w j.
Proof.
  intros Hw. revert j. induction Hw as [|t w [Ht _] _ IH]; intros j Hj; cbn [length] in Hj; [lia|].
  cbn [concat]. destruct j as [|j].
  - unfold slice. cbn [lookup list_lookup default from_option]. change (4 * 0)%nat with 0%nat.
    rewrite drop_0. by apply take_app_length'.
  - cbn [lookup list_lookup]. rewrite slice_app_r by lia. rewrite <- IH by lia. f_equal; lia.
Qed.

Lemma slice_round w r :
  Forall word_ok w -> (4 * r + 4 <= length w)%nat ->
  slice (concat w) (r * 16) 16 =
  word w (4 * r + 0)%nat ++ word w (4 * r + 1)%nat ++ word w (4 * r + 2)%nat ++ word w (4 * r + 3)%nat.
Proof.
  intros Hw Hl. rewrite <- !slice_word by (done || lia).
  assert (forall l off a b, slice l off (a + b) = slice l off a ++ slice l (off + a) b) as Hs.
  { intros l off a b. unfold slice. by rewrite <- (drop_drop l a off), take_take_drop. }
  change 16%nat with (4 + (4 + (4 + 4)))%nat at 2. rewrite !Hs.
  repeat apply (f_equal2 app); f_equal; lia.
Qed.

Lemma sub_word t : word_ok t -> sub_byte <$> t = fips_sbox <$> t.
Proof.
  intros [_ Ht]. apply list_fmap_ext. intros i b Hb. apply sub_byte_fips. exact (Forall_lookup_1 _ _ _ _ Ht Hb).
Qed.

Lemma sub_word_ok t : word_ok t -> word_ok (sub_byte <$> t).
Proof. intros [Hl _]. split; [by rewrite length_fmap|]. apply Forall_fmap, Forall_true, sub_byte_ok. Qed.

Lemma xor_word_ok s t : word_ok s -> word_ok t -> word_ok (xor_bytes s t).
Proof. intros [Hs Hs'] [Ht Ht']. split; [rewrite length_xor_bytes; lia|by apply xor_bytes_ok]. Qed.

Lemma rot_word_ok t : word_ok t -> word_ok (fips_rot_word t).
Proof.
  intros Ht. destruct_word t Ht. rewrite !Forall_cons in Hb. destruct_and! Hb. split; [done|].
  by repeat (apply Forall_cons; split); try apply Forall_nil_2.
Qed.

(** RotWord, SubWord and the round constant. *)
Lemma rot_sub_word t rc (temp := sub_byte <$> [t.[1]; t.[2]; t.[3]; t.[0]]) :
  word_ok t -> <[0%nat := temp.[0] .^ rc]> temp = xor_bytes (fips_sbox <$> fips_rot_word t) [rc; 0; 0; 0].
Proof.
  intros Ht. rewrite <- sub_word by by apply rot_word_ok. subst temp. destruct_word t Ht. clear Hb.
  cbn -[sub_byte]. by rewrite !Z.lxor_0_r.
Qed.

Lemma rcon_fips j : (1 <= j <= 10)%nat -> RCON.[j] = fips_rcon j.
Proof.
  intros Hj. assert (forall j, j ∈ seq 1 10 -> RCON.[j] = fips_rcon j) as H.
  { apply Forall_forall. apply (bool_decide_unpack _). vm_compute. exact I. }
  apply H, elem_of_seq. lia.
Qed.

Lemma every4_S start n : every4 start (S n) = start :: every4 (start + 4) n.
Proof.
  unfold every4. rewrite <- cons_seq. cbn [fmap list_fmap]. f_equal; [lia|].
  rewrite <- fmap_S_seq, <- list_fmap_compose. apply list_fmap_ext. intros i x _. cbn. lia.
Qed.

Lemma rcon_ok j : (1 <= j <= 10)%nat -> word_ok [fips_rcon j; 0; 0; 0].
Proof.
  intros Hj. rewrite <- rcon_fips by done. split; [done|].
  apply Forall_cons; split; [apply arr_byte|]; apply (bool_decide_unpack _); vm_compute; exact I.
Qed.

(** The index of the round constant of word [i]. *)
Lemma rcon_index nk i : (0 < nk <= i)%nat -> (i mod nk = 0)%nat -> (1 <= i / nk)%nat.
Proof. intros Hn Hi. pose proof (Nat.div_mod_eq i nk). nia. Qed.

Lemma fips_next_word_ok nk w :
  Forall word_ok w -> (0 < nk <= length w)%nat -> (length w / nk <= 10)%nat -> word_ok (fips_next_word nk w).
Proof.
  intros Hw Hn Hr. unfold fips_next_word.
  destruct (word_lookup w (length w - 1)%nat) as [_ H1]; [done|lia|].
  destruct (word_lookup w (length w - nk)%nat) as [_ H2]; [done|lia|].
  apply xor_word_ok; [done|]. destruct (Nat.eqb_spec (length w mod nk) 0) as [E|E].
  - apply xor_word_ok; [|apply rcon_ok; split; [by apply rcon_index|done]].
    rewrite <- sub_word by by apply rot_word_ok. by apply sub_word_ok, rot_word_ok.
  - destruct (_ && _); [|done]. rewrite <- sub_word by done. by apply sub_word_ok.
Qed.

Lemma fips_words_ok nk n w :
  Forall word_ok w -> (0 < nk <= length w)%nat -> ((length w + n - 1) / nk <= 10 \/ n = 0)%nat ->
  Forall word_ok (Nat.iter n (fun w => w ++ [fips_next_word nk w]) w)
  /\ length (Nat.iter n (fun w => w ++ [fips_next_word nk w]) w) = (length w + n)%nat.
Proof.
  intros Hw Hn. induction n as [|n IH]; intros Hr; [split; [done|cbn; lia]|].
  destruct IH as [Ho Hl].
  { left. destruct Hr as [Hr|]; [|done]. etransitivity; [|exact Hr]. apply Nat.Div0.div_le_mono. lia. }
  rewrite Nat.iter_succ, length_app, Hl. split; [|cbn; lia].
  apply Forall_app. split; [done|]. apply Forall_singleton, fips_next_word_ok; [done|lia|].
  rewrite Hl. destruct Hr as [Hr|]; [|done]. etransitivity; [|exact Hr]. apply Nat.Div0.div_le_mono. lia.
Qed.

(** One pass of the expansion loop of AES-128 appends one word. *)
Lemma aes128_key_step_word w :
  Forall word_ok w -> (4 <= length w < 44)%nat ->
  aes128_key_step (concat w, ((length w + 3) / 4)%nat) (4 * length w) =
  (concat (w ++ [fips_next_word 4 w]), ((length w + 1 + 3) / 4)%nat).
Proof.
  intros Hw Hl. unfold aes128_key_step, fips_next_word.
  replace (4 * length w - 4)%nat with (4 * (length w - 1))%nat by lia.
  replace (4 * length w - 16)%nat with (4 * (length w - 4))%nat by lia.
  rewrite !slice_word by (done || lia). rewrite concat_app. cbn [concat]. rewrite app_nil_r.
  destruct (word_lookup w (length w - 1)%nat) as [_ H1]; [done|lia|].
  replace ((4 * length w) mod 16)%nat with (4 * (length w mod 4))%nat by div_lia.
  change (6 <? 4)%nat with false. cbn [andb].
  destruct (Nat.eqb_spec (length w mod 4) 0) as [E|E].
  - rewrite E. cbn [Nat.eqb Nat.mul]. rewrite rot_sub_word by done.
    replace ((length w + 3) / 4)%nat with (length w / 4)%nat by div_lia.
    rewrite rcon_fips by div_lia. f_equal. div_lia.
  - rewrite (proj2 (Nat.eqb_neq (4 * (length w mod 4)) 0)) by lia. f_equal. div_lia.
Qed.

Lemma aes256_key_step_word w :
  Forall word_ok w -> (8 <= length w < 60)%nat ->
  aes256_key_step (concat w, ((length w + 7) / 8)%nat) (4 * length w) =
  (concat (w ++ [fips_next_word 8 w]), ((length w + 1 + 7) / 8)%nat).
Proof.
  intros Hw Hl. unfold aes256_key_step, fips_next_word.
  replace (4 * length w - 4)%nat with (4 * (length w - 1))%nat by lia.
  replace (4 * length w - 32)%nat with (4 * (length w - 8))%nat by lia.
  rewrite !slice_word by (done || lia). rewrite concat_app. cbn [concat]. rewrite app_nil_r.
  destruct (word_lookup w (length w - 1)%nat) as [_ H1]; [done|lia|].
  replace ((4 * length w) mod 32)%nat with (4 * (length w mod 8))%nat by div_lia.
  change (6 <? 8)%nat with true. cbn [andb].
  destruct (Nat.eqb_spec (length w mod 8) 0) as [E|E].
  - rewrite E. cbn [Nat.eqb Nat.mul]. rewrite rot_sub_word by done.
    replace ((length w + 7) / 8)%nat with (length w / 8)%nat by div_lia.
    rewrite rcon_fips by div_lia. f_equal. div_lia.
  - rewrite (proj2 (Nat.eqb_neq (4 * (length w mod 8)) 0)) by lia.
    replace (4 * (length w mod 8) =? 16)%nat with (length w mod 8 =? 4)%nat
      by (destruct (Nat.eqb_spec (length w mod 8) 4), (Nat.eqb_spec (4 * (length w mod 8)) 16); lia).
    destruct (length w mod 8 =? 4)%nat; [rewrite sub_word by done|]; f_equal; div_lia.
Qed.

(** The expansion loops build the words of the standard. *)
Lemma expansion_loop nk max (step : list Z * nat -> nat -> list Z * nat) n w :
  (forall w, Forall word_ok w -> (nk <= length w < max)%nat ->
     step (concat w, ((length w + (nk - 1)) / nk)%nat) (4 * length w)%nat =
     (concat (w ++ [fips_next_word nk w]), ((length w + 1 + (nk - 1)) / nk)%nat)) ->
  (0 < nk)%nat -> ((max - 1) / nk <= 10)%nat ->
  Forall word_ok w -> (nk <= length w)%nat -> (length w + n <= max)%nat ->
  (foldl step (concat w, ((length w + (nk - 1)) / nk)%nat) (every4 (4 * length w) n)).1
  = concat (Nat.iter n (fun w => w ++ [fips_next_word nk w]) w).
Proof.
  intros Hstep H0 Hm. revert w. induction n as [|n IH]; intros w Hw Hk Hl; [done|].
  rewrite every4_S. cbn [foldl]. rewrite Hstep by (done || lia). rewrite Nat.iter_succ_r.
  rewrite <- IH.
  - rewrite length_app. cbn [length]. do 2 f_equal; f_equal; lia.
  - apply Forall_app. split; [done|]. apply Forall_singleton, fips_next_word_ok; [done|lia|].
    etransitivity; [|exact Hm]. apply Nat.Div0.div_le_mono. lia.
  - rewrite length_app. cbn. lia.
  - rewrite length_app. cbn. lia.
Qed.

Lemma key_words_ok nk key :
  length key = (4 * nk)%nat -> bytes_ok key ->
  Forall word_ok (key_words nk key) /\ length (key_words nk key) = nk /\ concat (key_words nk key) = key.
Proof.
  intros Hl Hk. split_and!.
  - apply Forall_fmap, Forall_forall. intros i [_ Hi]%elem_of_seq.
    change (word_ok (slice key (4 * i) 4)).
    split; [apply length_slice; lia|by apply slice_ok].
  - unfold key_words. by rewrite length_fmap, length_seq.
  - unfold key_words. clear Hk. revert key Hl. induction nk as [|nk IH]; intros key Hl; [by destruct key|].
    rewrite <- cons_seq. cbn [fmap list_fmap concat]. rewrite <- fmap_S_seq, <- list_fmap_compose.
    transitivity (take 4 key ++ drop 4 key); [|apply take_drop]. f_equal.
    transitivity (concat ((fun i => slice (drop 4 key) (4 * i) 4) <$> seq 0 nk));
      [|apply IH; rewrite length_drop; lia]. f_equal.
    apply list_fmap_ext. intros i x _. cbn [compose]. unfold slice. rewrite drop_drop. do 2 f_equal. lia.
Qed.

Lemma fips_expansion_ok nk n key :
  length key = (4 * nk)%nat -> bytes_ok key -> (0 < nk)%nat -> ((nk + n - 1) / nk <= 10)%nat ->
  Forall word_ok (fips_key_expansion nk n key) /\ length (fips_key_expansion nk n key) = (nk + n)%nat.
Proof.
  intros Hl Hk H0 Hm. destruct (key_words_ok nk key) as (Hw & Hn & _); [done..|].
  unfold fips_key_expansion. destruct (fips_words_ok nk n (key_words nk key)) as [Ho ->];
    [done|lia|left; by rewrite Hn|by rewrite Hn].
Qed.

Lemma aes128_expansion key :
  length key = 16%nat -> bytes_ok key ->
  aes128_new key = concat (fips_key_expansion 4 40 key)
  /\ Forall word_ok (fips_key_expansion 4 40 key) /\ length (fips_key_expansion 4 40 key) = 44%nat.
Proof.
  intros Hl Hk. destruct (key_words_ok 4 key) as (Hw & Hn & Hc); [lia|done|].
  split; [|apply fips_expansion_ok; [lia|done|lia|cbn; lia]].
  unfold aes128_new, aes128_key_expansion, fips_key_expansion.
  rewrite <- (expansion_loop 4 44 aes128_key_step); [|apply aes128_key_step_word|lia|cbn; lia|done|lia|lia].
  by rewrite Hn, Hc.
Qed.

Lemma aes256_expansion key :
  length key = 32%nat -> bytes_ok key ->
  aes256_new key = concat (fips_key_expansion 8 52 key)
  /\ Forall word_ok (fips_key_expansion 8 52 key) /\ length (fips_key_expansion 8 52 key) = 60%nat.
Proof.
  intros Hl Hk. destruct (key_words_ok 8 key) as (Hw & Hn & Hc); [lia|done|].
  split; [|apply fips_expansion_ok; [lia|done|lia|cbn; lia]].
  unfold aes256_new, aes256_key_expansion, fips_key_expansion.
  rewrite <- (expansion_loop 8 60 aes256_key_step); [|apply aes256_key_step_word|lia|cbn; lia|done|lia|lia].
  by rewrite Hn, Hc.
Qed.

Lemma words_schedule nr w :
  Forall word_ok w -> length w = (4 * (nr + 1))%nat -> schedule_ok nr (concat w).
Proof. intros Hw Hl. split; [rewrite length_words by done; lia|by apply bytes_ok_words]. Qed.

(** The computed S-box changes nothing. *)
Lemma ct_key_step st i :
  bytes_ok st.1 -> aes128ct_key_step st i = aes128_key_step st i.
Proof.
  destruct st as [rk rcon]. cbn [fst]. intros Hrk. unfold aes128ct_key_step, aes128_key_step.
  destruct (i mod 16 =? 0)%nat; [|done]. do 2 f_equal; f_equal.
  assert (sbox_ct <$> [(slice rk (i - 4) 4).[1]; (slice rk (i - 4) 4).[2]; (slice rk (i - 4) 4).[3]; (slice rk (i - 4) 4).[0]]
    = sub_byte <$> [(slice rk (i - 4) 4).[1]; (slice rk (i - 4) 4).[2]; (slice rk (i - 4) 4).[3]; (slice rk (i - 4) 4).[0]]) as ->; [|done].
  apply sub_bytes_ct_eq, four_bytes. by apply slice_ok.
Qed.

Lemma aes128ct_key_step_word w :
  Forall word_ok w -> (4 <= length w < 44)%nat ->
  aes128ct_key_step (concat w, ((length w + 3) / 4)%nat) (4 * length w) =
  (concat (w ++ [fips_next_word 4 w]), ((length w + 1 + 3) / 4)%nat).
Proof. intros Hw Hl. rewrite ct_key_step by by apply bytes_ok_words. by apply aes128_key_step_word. Qed.

Lemma aes128ct_expansion key : length key = 16%nat -> bytes_ok key -> aes128ct_new key = aes128_new key.
Proof.
  intros Hl Hk. destruct (aes128_expansion key) as [-> _]; [done..|].
  destruct (key_words_ok 4 key) as (Hw & Hn & Hc); [lia|done|].
  unfold aes128ct_new, aes128ct_key_expansion, fips_key_expansion.
  rewrite <- (expansion_loop 4 44 aes128ct_key_step); [|apply aes128ct_key_step_word|lia|cbn; lia|done|lia|lia].
  by rewrite Hn, Hc.
Qed.

(** ** The ciphers are those of the standard *)

Lemma add_round_key_eq s w r :
  Forall word_ok w -> (4 * r + 4 <= length w)%nat -> length s = 16%nat ->
  aes128_add_round_key s (concat w) (r * 16) = fips_add_round_key s w r.
Proof.
  intros Hw Hl Hs. unfold aes128_add_round_key, fips_add_round_key. rewrite slice_round by done.
  destruct (word_lookup w (4 * r + 0)%nat) as [_ [H0 _]]; [done|lia|].
  destruct (word_lookup w (4 * r + 1)%nat) as [_ [H1 _]]; [done|lia|].
  destruct (word_lookup w (4 * r + 2)%nat) as [_ [H2 _]]; [done|lia|].
  destruct (word_lookup w (4 * r + 3)%nat) as [_ [H3 _]]; [done|lia|].
  unfold matrix. cbn [fmap list_fmap seq]. cbn [Nat.modulo Nat.div Nat.divmod Nat.sub fst snd].
  generalize dependent (word w (4 * r + 0)%nat). generalize dependent (word w (4 * r + 1)%nat).
  generalize dependent (word w (4 * r + 2)%nat). generalize dependent (word w (4 * r + 3)%nat).
  intros w3 H3 w2 H2 w1 H1 w0 H0.
  do 4 (destruct w0 as [|? w0]; [done|]). destruct w0; [|done].
  do 4 (destruct w1 as [|? w1]; [done|]). destruct w1; [|done].
  do 4 (destruct w2 as [|? w2]; [done|]). destruct w2; [|done].
  do 4 (destruct w3 as [|? w3]; [done|]). destruct w3; [|done].
  do 16 (destruct s as [|? s]; [done|]). by destruct s.
Qed.

Lemma enc_fips nr w block :
  Forall word_ok w -> length w = (4 * (nr + 1))%nat -> (0 < nr)%nat -> block_ok block ->
  enc nr (concat w) block =
  fips_add_round_key (fips_shift_rows (fips_sub_bytes
    (foldl (fun s round =>
       fips_add_round_key (fips_mix_columns (fips_shift_rows (fips_sub_bytes s))) w round)
       (fips_add_round_key block w 0) (seq 1 (nr - 1))))) w nr.
Proof.
  intros Hw Hl Hn Hb. pose proof (words_schedule nr w Hw Hl) as [Hok _]%ark_rounds.
  assert (forall s r, (r <= nr)%nat -> block_ok s ->
    aes128_add_round_key s (concat w) (r * 16) = fips_add_round_key s w r) as Ha
    by (intros s r Hr [Hs _]; apply add_round_key_eq; [done|lia|done]).
  set (fips_round s round :=
    fips_add_round_key (fips_mix_columns (fips_shift_rows (fips_sub_bytes s))) w round).
  assert (forall n s, (n < nr)%nat -> block_ok s ->
    foldl (enc_round aes128_sub_bytes aes128_shift_rows aes128_mix_columns (ark (concat w))) s (seq 1 n)
    = foldl fips_round s (seq 1 n) /\ block_ok (foldl fips_round s (seq 1 n))) as Hr.
  { intros n s Hlt Hs. induction n as [|n IH]; [done|].
    rewrite seq_S, !foldl_app. cbn [foldl]. destruct IH as [-> Ho]; [lia|].
    set (t := foldl fips_round s (seq 1 n)) in *. clearbody t. unfold enc_round, fips_round.
    pose proof (sub_bytes_ok _ Ho) as H1. pose proof (shift_rows_ok _ H1) as H2.
    pose proof (mix_columns_ok _ H2) as H3.
    rewrite <- (sub_bytes_eq _ Ho), <- (shift_rows_eq _ (proj1 H1)), <- (mix_columns_eq _ H2), <- Ha
      by (done || lia).
    split; [done|]. apply Hok; [lia|done]. }
  unfold encrypt_rounds. rewrite (Ha block 0%nat) by (lia || done).
  destruct (Hr (nr - 1)%nat (fips_add_round_key block w 0)) as [-> Ho]; [lia| |].
  { rewrite <- Ha by (lia || done). apply Hok; [lia|done]. }
  set (t := foldl fips_round _ _) in *. clearbody t.
  pose proof (sub_bytes_ok _ Ho) as H1. pose proof (shift_rows_ok _ H1) as H2.
  by rewrite <- (sub_bytes_eq _ Ho), <- (shift_rows_eq _ (proj1 H1)), <- Ha by (done || lia).
Qed.

Lemma enc_fips_cipher nk nr key block (w := fips_key_expansion nk (4 * (nr + 1) - nk) key) :
  Forall word_ok w -> length w = (4 * (nr + 1))%nat -> (0 < nr)%nat -> block_ok block ->
  enc nr (concat w) block = fips_cipher nk nr key block.
Proof. apply enc_fips. Qed.

Lemma steps_ct :
  aes128ct_add_round_key = aes128_add_round_key /\ aes128ct_shift_rows = aes128_shift_rows
  /\ aes128ct_mix_columns = aes128_mix_columns.
Proof. split_and!; reflexivity. Qed.

Lemma aes128ct_encrypt_aes128 cipher block :
  schedule_ok 10 cipher -> block_ok block ->
  aes128ct_encrypt_block cipher block = aes128_encrypt_block cipher block.
Proof.
  intros [Hok _]%ark_rounds Hb. rewrite aes128_encrypt_rounds.
  unfold aes128ct_encrypt_block. destruct steps_ct as (-> & -> & ->).
  transitivity (encrypt_rounds aes128ct_sub_bytes_ct aes128_shift_rows aes128_mix_columns (ark cipher) 10 block);
    [by_rounds|].
  apply encrypt_rounds_ext; try done.
  - apply sub_bytes_ok.
  - apply shift_rows_ok.
  - apply mix_columns_ok.
  - intros s [_ Hs]. by apply sub_bytes_ct_eq.
Qed.

(** ** Counters *)

Lemma be_val_snoc l x : be_val (l ++ [x]) = x + 256 * be_val l.
Proof. unfold be_val. by rewrite reverse_snoc. Qed.

Lemma be_bytes_S n v : be_bytes (S n) v = be_bytes n (v / 256) ++ [u8 v].
Proof. unfold be_bytes. cbn [le_bytes]. by rewrite reverse_cons. Qed.

(** The increment loops add one to the big-endian counter, modulo its width. *)
Lemma increment_from_be n c rest :
  length c = n -> bytes_ok c ->
  increment_from n (c ++ rest) = be_bytes n (be_val c + 1) ++ rest.
Proof.
  revert c rest. induction n as [|n IH]; intros c rest Hl Hc; [by destruct c|].
  destruct c as [|x c _] using rev_ind; [done|]. rewrite length_app in Hl. cbn [length] in Hl.
  apply Forall_app in Hc as [Hc [Hx _]%Forall_cons]. assert (length c = n) as Hn by lia.
  cbn [increment_from]. rewrite <- app_assoc. cbn [app].
  rewrite (arr_cut c x rest (c ++ x :: rest) n) by done.
  rewrite insert_app_r_alt, Hn, Nat.sub_diag by lia. cbn [insert list_insert].
  rewrite (arr_cut c (u8 (x + 1)) rest (c ++ u8 (x + 1) :: rest) n) by done.
  rewrite be_val_snoc, be_bytes_S. rewrite <- app_assoc. cbn [app].
  pose proof (fits_u8 (x + 1)). destruct (Z.eqb_spec (u8 (x + 1)) 0) as [E|E]; cbn [negb].
  - rewrite E, IH by done. f_equal; [f_equal|f_equal]; words_lia.
  - assert ((x + 256 * be_val c + 1) / 256 = be_val c) as -> by words_lia.
    assert (u8 (x + 256 * be_val c + 1) = u8 (x + 1)) as -> by words_lia. f_equal.
    rewrite <- Hn. unfold be_bytes, be_val. rewrite <- (length_reverse c), le_bytes_le_val by by apply Forall_reverse.
    by rewrite reverse_involutive.
Qed.

Lemma increment_counter_be c :
  block_ok c -> aes128_increment_counter c = be_bytes 16 (be_val c + 1).
Proof.
  intros [Hl Hc]. pose proof (increment_from_be 16 c [] Hl Hc) as Hi.
  by rewrite !app_nil_r in Hi.
Qed.

Lemma be_bytes_block v : block_ok (be_bytes 16 v).
Proof. split; [apply length_be_bytes|apply be_bytes_ok]. Qed.

(** The key stream of counter mode: the encryptions of the counters [v], [v + 1], ... *)
Definition counter_stream (encrypt : list Z -> list Z) (v : Z) (n : nat) : list Z :=
  concat ((fun i => encrypt (be_bytes 16 (v + Z.of_nat i))) <$> seq 0 n).

Lemma be_val_be_bytes n v : be_val (be_bytes n v) = v mod 2 ^ (8 * Z.of_nat n).
Proof. unfold be_val, be_bytes. by rewrite reverse_involutive, le_val_le_bytes. Qed.

Lemma increment_be_bytes v : aes128_increment_counter (be_bytes 16 v) = be_bytes 16 (v + 1).
Proof.
  rewrite increment_counter_be, be_val_be_bytes by apply be_bytes_block.
  rewrite <- be_bytes_mod, Zplus_mod_idemp_l. apply be_bytes_mod.
Qed.

Lemma ctr_stream_counters encrypt n v :
  ctr_stream encrypt aes128_increment_counter n (be_bytes 16 v) = counter_stream encrypt v n.
Proof.
  unfold counter_stream. revert v. induction n as [|n IH]; intros v; [done|].
  rewrite <- cons_seq. cbn [ctr_stream fmap list_fmap concat]. rewrite Z.add_0_r. f_equal.
  rewrite increment_be_bytes, IH, <- fmap_S_seq, <- list_fmap_compose. f_equal.
  apply list_fmap_ext. intros i x _. cbn [compose]. f_equal. f_equal. lia.
Qed.

Lemma be_bytes_be_val c : bytes_ok c -> be_bytes (length c) (be_val c) = c.
Proof.
  intros Hc. unfold be_bytes, be_val. rewrite <- (length_reverse c), le_bytes_le_val by by apply Forall_reverse.
  apply reverse_involutive.
Qed.

Lemma increment_ok c : block_ok c -> block_ok (aes128_increment_counter c).
Proof. intros Hc. rewrite increment_counter_be by done. apply be_bytes_block. Qed.

(** Counter mode over any block function. *)
Lemma ctr_mode encrypt nonce data
    (f := fun data => ctr_loop 16 encrypt aes128_increment_counter (length data) nonce data) :
  (forall c, block_ok c -> length (encrypt c) = 16%nat) -> block_ok nonce ->
  f data = xor_bytes data (counter_stream encrypt (be_val nonce) (length data)) /\ f (f data) = data.
Proof.
  intros He Hn. subst f. cbn beta. rewrite (length_ctr_loop 16 encrypt _ block_ok) by (auto using increment_ok || lia).
  split; [|apply (ctr_loop_involutive 16 encrypt _ block_ok); auto using increment_ok; lia].
  rewrite (ctr_loop_stream 16 encrypt _ block_ok) by (auto using increment_ok || lia). f_equal.
  rewrite <- ctr_stream_counters. f_equal. destruct Hn as [Hl Hb].
  rewrite <- (be_bytes_be_val nonce) at 1 by done. by rewrite Hl.
Qed.

(** ** CBC *)

Lemma chunks16_cons b data : length b = 16%nat -> chunks16 (b ++ data) = b :: chunks16 data.
Proof.
  intros Hb. unfold chunks16. rewrite length_app, Hb.
  replace ((16 + length data) / 16)%nat with (S (length data / 16)) by div_lia.
  rewrite <- cons_seq. cbn [fmap list_fmap]. f_equal.
  - unfold slice. by apply take_app_length'.
  - rewrite <- fmap_S_seq, <- list_fmap_compose. apply list_fmap_ext. intros i x _. cbn [compose].
    rewrite slice_app_r by lia. f_equal. lia.
Qed.

(** Data made of whole blocks. *)
Lemma blocks_ind (P : list Z -> Prop) :
  P [] -> (forall b data, block_ok b -> bytes_ok data -> (length data mod 16 = 0)%nat -> P data -> P (b ++ data)) ->
  forall data, bytes_ok data -> (length data mod 16 = 0)%nat -> P data.
Proof.
  intros H0 HS data. remember (length data / 16)%nat as n eqn:Hn. revert data Hn.
  induction n as [|n IH]; intros data Hn Hd Hm.
  - destruct data; [done|]. cbn [length] in *. div_lia.
  - assert (16 <= length data)%nat as Hl by div_lia. rewrite <- (take_drop 16 data) in Hd |- *.
    apply Forall_app in Hd as [Hd1 Hd2].
    assert (length (take 16 data) = 16%nat) as Ht by (rewrite length_take; lia).
    assert (length (drop 16 data) = length data - 16)%nat as Hld by by rewrite length_drop.
    apply HS; [done|done|rewrite Hld; div_lia|]. apply IH; [rewrite Hld; div_lia|done|rewrite Hld; div_lia].
Qed.

Lemma cbc_loops cipher (Hc : schedule_ok 10 cipher) data :
  bytes_ok data -> (length data mod 16 = 0)%nat ->
  forall out out' prev, block_ok prev ->
  let enc := foldl (cbc_encrypt_step cipher) (out, prev) (chunks16 data) in
  exists ct, enc.1 = out ++ ct /\ length ct = length data /\ bytes_ok ct
  /\ (foldl (cbc_decrypt_step cipher) (out', prev) (chunks16 ct)).1 = out' ++ data.
Proof.
  revert data. refine (blocks_ind _ _ _).
  - intros out out' prev _. exists []. by rewrite !app_nil_r.
  - intros b data Hb Hd Hm IH out out' prev Hp. cbn zeta. rewrite chunks16_cons by apply Hb. cbn [foldl].
    unfold cbc_encrypt_step at 2. set (c := aes128_encrypt_block cipher (xor_bytes b prev)).
    assert (block_ok (xor_bytes b prev)) as Hx.
    { destruct Hb, Hp. split; [rewrite length_xor_bytes; lia|by apply xor_bytes_ok]. }
    assert (block_ok c) as Hcb.
    { unfold c. rewrite aes128_encrypt_rounds. by apply enc_ok. }
    assert (aes128_decrypt_block cipher c = xor_bytes b prev) as Ec by by apply aes128_decrypt_encrypt.
    destruct (IH (out ++ c) (out' ++ b) c Hcb) as (ct & E & El & Eb & Ed). exists (c ++ ct).
    rewrite E, app_assoc, !length_app, El, chunks16_cons by apply Hcb. cbn [foldl].
    unfold cbc_decrypt_step at 2. rewrite Ec, xor_bytes_involutive by (destruct Hb, Hp; lia). rewrite Ed, app_assoc.
    destruct Hb as [-> Hb], Hcb as [-> Hcb]. split_and!; [done|done|by apply Forall_app|done].
Qed.

Lemma aes128_new_ok key : length key = 16%nat -> bytes_ok key -> schedule_ok 10 (aes128_new key).
Proof. intros Hl Hk. destruct (aes128_expansion key) as (-> & Hw & Hn); [done..|]. by apply words_schedule. Qed.

Lemma aes256_new_ok key : length key = 32%nat -> bytes_ok key -> schedule_ok 14 (aes256_new key).
Proof. intros Hl Hk. destruct (aes256_expansion key) as (-> & Hw & Hn); [done..|]. by apply words_schedule. Qed.

Lemma aes128_encrypt_length key (Hl : length key = 16%nat) (Hk : bytes_ok key) c :
  block_ok c -> length (aes128_encrypt_block (aes128_new key) c) = 16%nat.
Proof. intros Hc. rewrite aes128_encrypt_rounds. by apply enc_ok; [apply aes128_new_ok|]. Qed.

Lemma aes256_encrypt_length key (Hl : length key = 32%nat) (Hk : bytes_ok key) c :
  block_ok c -> length (aes256_encrypt_block (aes256_new key) c) = 16%nat.
Proof. intros Hc. rewrite aes256_encrypt_rounds. by apply enc_ok; [apply aes256_new_ok|]. Qed.

Lemma increment_256 : increment_counter_256 = aes128_increment_counter.
Proof. reflexivity. Qed.

(** ** Test vectors (FIPS 197, appendix C; SP 800-38A, F.2.1 and F.5.1) *)

Definition fips_plaintext : list Z := (fun i => 0x11 * i) <$> range 16.

Example aes128_fips197 :
  aes128_encrypt_block (aes128_new (range 16)) fips_plaintext =
  [0x69; 0xc4; 0xe0; 0xd8; 0x6a; 0x7b; 0x04; 0x30; 0xd8; 0xcd; 0xb7; 0x80; 0x70; 0xb4; 0xc5; 0x5a].
Proof. vm_compute. reflexivity. Qed.

Example aes256_fips197 :
  aes256_encrypt_block (aes256_new (range 32)) fips_plaintext =
  [0x8e; 0xa2; 0xb7; 0xca; 0x51; 0x67; 0x45; 0xbf; 0xea; 0xfc; 0x49; 0x90; 0x4b; 0x49; 0x60; 0x89].
Proof. vm_compute. reflexivity. Qed.

(** ** Decryption of each cipher *)

Lemma aes256_decrypt_encrypt cipher block :
  schedule_ok 14 cipher -> block_ok block ->
  aes256_decrypt_block cipher (aes256_encrypt_block cipher block) = block.
Proof. rewrite aes256_encrypt_rounds, aes256_decrypt_rounds. by apply decrypt_enc. Qed.

Lemma aes128ct_decrypt_encrypt cipher block :
  schedule_ok 10 cipher -> block_ok block ->
  aes128ct_decrypt_block cipher (aes128ct_encrypt_block cipher block) = block.
Proof.
  intros Hc Hb. rewrite aes128ct_encrypt_aes128, aes128_encrypt_rounds, aes128ct_decrypt_rounds by done.
  apply decrypt_enc; [apply inv_sub_bytes_ct_eq|done|done].
Qed.

(** ** The ciphers and the standard *)

Lemma aes128_ciphers key block :
  bytes_ok key -> block_ok block -> length key = 16%nat ->
  aes128_encrypt_block (aes128_new key) block = fips_cipher 4 10 key block
  /\ aes128ct_encrypt_block (aes128ct_new key) block = fips_cipher 4 10 key block.
Proof.
  intros Hk Hb Hl. destruct (aes128_expansion key) as (E & Hw & Hn); [done..|].
  rewrite aes128ct_expansion, aes128ct_encrypt_aes128, aes128_encrypt_rounds by auto using aes128_new_ok.
  rewrite E. split; exact (enc_fips_cipher 4 10 key block Hw Hn ltac:(lia) Hb).
Qed.

Lemma aes256_cipher key block :
  bytes_ok key -> block_ok block -> length key = 32%nat ->
  aes256_encrypt_block (aes256_new key) block = fips_cipher 8 14 key block.
Proof.
  intros Hk Hb Hl. destruct (aes256_expansion key) as (E & Hw & Hn); [done..|].
  rewrite aes256_encrypt_rounds, E. exact (enc_fips_cipher 8 14 key block Hw Hn ltac:(lia) Hb).
Qed.

(** ** Properties *)

(** C3. The three ciphers compute AES as FIPS 197 defines it: key expansion, S-box by inversion
    in the field and affine map, ShiftRows, MixColumns and AddRoundKey, for every key and
    block. The version with the computed S-box agrees with the tables. *)
Theorem aes_refines_fips197 (key block : list Z) :
  bytes_ok key -> block_ok block ->
  (length key = 16%nat ->
     aes128_encrypt_block (aes128_new key) block = fips_cipher 4 10 key block
     /\ aes128ct_encrypt_block (aes128ct_new key) block = fips_cipher 4 10 key block)
  /\ (length key = 32%nat ->
     aes256_encrypt_block (aes256_new key) block = fips_cipher 8 14 key block).
Proof.
  intros Hk Hb. split; intros Hl; [by apply aes128_ciphers|by apply aes256_cipher].
Qed.

Lemma aes_refines_fips197_witness :
  aes128_encrypt_block (aes128_new (range 16)) fips_plaintext = fips_cipher 4 10 (range 16) fips_plaintext
  /\ aes128ct_encrypt_block (aes128ct_new (range 16)) fips_plaintext = fips_cipher 4 10 (range 16) fips_plaintext.
Proof.
  apply (aes_refines_fips197 (range 16) fips_plaintext); [|split; [reflexivity|]|reflexivity];
    apply (bool_decide_unpack _); vm_compute; exact I.
Defined.

(** AES-128 decryption inverts encryption: on blocks, and in CBC mode on any data of whole
    blocks; data of any other length stops at the assertion in both directions. *)
Theorem aes128_cbc_roundtrip (key iv data : list Z) (cipher := aes128_new key) :
  length key = 16%nat -> bytes_ok key -> block_ok iv -> bytes_ok data ->
  (forall block, block_ok block ->
     aes128_decrypt_block cipher (aes128_encrypt_block cipher block) = block)
  /\ (if decide (length data mod 16 = 0)%nat
      then exists ct, aes128_encrypt_cbc cipher iv data = Some ct /\ length ct = length data
           /\ aes128_decrypt_cbc cipher iv ct = Some data
      else aes128_encrypt_cbc cipher iv data = None /\ aes128_decrypt_cbc cipher iv data = None).
Proof.
  intros Hl Hk Hi Hd. pose proof (aes128_new_ok key Hl Hk) as Hc. fold cipher in Hc. clearbody cipher.
  split; [intros block Hb; by apply aes128_decrypt_encrypt|].
  unfold aes128_encrypt_cbc, aes128_decrypt_cbc. destruct (decide _) as [E|E].
  - destruct (cbc_loops cipher Hc data Hd E [] [] iv Hi) as (ct & Ee & El & _ & Ed).
    exists ct. rewrite Ee, El, E, Ed. done.
  - by rewrite (proj2 (Nat.eqb_neq _ _) E).
Qed.

Lemma aes128_cbc_roundtrip_witness :
  exists ct, aes128_encrypt_cbc (aes128_new (range 16)) fips_plaintext (range 48) = Some ct
  /\ length ct = 48%nat /\ aes128_decrypt_cbc (aes128_new (range 16)) fips_plaintext ct = Some (range 48).
Proof.
  apply (aes128_cbc_roundtrip (range 16) fips_plaintext (range 48));
    [reflexivity| |split; [reflexivity|]|]; apply (bool_decide_unpack _); vm_compute; exact I.
Defined.

(** Counter mode xors the data with the encryptions of the nonce, read as a 128-bit
    big-endian number and counted up with wrap-around; decryption is the same function and
    restores the data. For AES-128 and AES-256. *)
Theorem aes_ctr_keystream (key nonce data : list Z) :
  bytes_ok key -> block_ok nonce ->
  (length key = 16%nat -> let cipher := aes128_new key in
     aes128_encrypt_ctr cipher nonce data
     = xor_bytes data (counter_stream (aes128_encrypt_block cipher) (be_val nonce) (length data))
     /\ aes128_decrypt_ctr cipher nonce (aes128_encrypt_ctr cipher nonce data) = data)
  /\ (length key = 32%nat -> let cipher := aes256_new key in
     aes256_encrypt_ctr cipher nonce data
     = xor_bytes data (counter_stream (aes256_encrypt_block cipher) (be_val nonce) (length data))
     /\ aes256_decrypt_ctr cipher nonce (aes256_encrypt_ctr cipher nonce data) = data).
Proof.
  intros Hk Hn. split; intros Hl; cbn zeta.
  - exact (ctr_mode _ nonce data (aes128_encrypt_length key Hl Hk) Hn).
  - unfold aes256_decrypt_ctr, aes256_encrypt_ctr. rewrite increment_256.
    exact (ctr_mode _ nonce data (aes256_encrypt_length key Hl Hk) Hn).
Qed.

Lemma aes_ctr_keystream_witness :
  let cipher := aes256_new (range 32) in
  let nonce := replicate 16 0xff in
  aes256_encrypt_ctr cipher nonce (range 40)
  = xor_bytes (range 40) (counter_stream (aes256_encrypt_block cipher) (be_val nonce) 40)
  /\ aes256_decrypt_ctr cipher nonce (aes256_encrypt_ctr cipher nonce (range 40)) = range 40.
Proof.
  apply (aes_ctr_keystream (range 32) (replicate 16 0xff) (range 40)); [|split; [reflexivity|]|reflexivity];
    apply (bool_decide_unpack _); vm_compute; exact I.
Defined.

(** C36. Decryption inverts encryption: the block decryption of each of the three ciphers
    (AES-128 and AES-256 with the table of inverse substitution, AES-128 with the computed
    one) returns every block from its FIPS 197 encryption under every key, and so from what
    the encryption of the same cipher makes of it. *)
Theorem aes_decrypts (key block : list Z) :
  bytes_ok key -> block_ok block ->
  (length key = 16%nat ->
     aes128_decrypt_block (aes128_new key) (fips_cipher 4 10 key block) = block
     /\ aes128ct_decrypt_block (aes128ct_new key) (fips_cipher 4 10 key block) = block
     /\ aes128_decrypt_block (aes128_new key) (aes128_encrypt_block (aes128_new key) block) = block
     /\ aes128ct_decrypt_block (aes128ct_new key) (aes128ct_encrypt_block (aes128ct_new key) block) = block)
  /\ (length key = 32%nat ->
     aes256_decrypt_block (aes256_new key) (fips_cipher 8 14 key block) = block
     /\ aes256_decrypt_block (aes256_new key) (aes256_encrypt_block (aes256_new key) block) = block).
Proof.
  intros Hk Hb. split; intros Hl.
  - pose proof (aes128_new_ok key Hl Hk) as Hs. destruct (aes128_ciphers key block Hk Hb Hl) as [E1 E2].
    assert (schedule_ok 10 (aes128ct_new key)) as Hct by by rewrite aes128ct_expansion.
    pose proof (aes128_decrypt_encrypt _ block Hs Hb) as D1.
    pose proof (aes128ct_decrypt_encrypt _ block Hct Hb) as D2.
    split_and!; [by rewrite <- E1|by rewrite <- E2|exact D1|exact D2].
  - pose proof (aes256_decrypt_encrypt _ block (aes256_new_ok key Hl Hk) Hb) as D.
    split; [by rewrite <- (aes256_cipher key block Hk Hb Hl)|exact D].
Qed.

Lemma aes_decrypts_witness :
  aes256_decrypt_block (aes256_new (range 32)) (fips_cipher 8 14 (range 32) fips_plaintext) = fips_plaintext.
Proof.
  assert (bytes_ok (range 32)) as Hk by (apply (bool_decide_unpack _); vm_compute; exact I).
  assert (bytes_ok fips_plaintext) as Hb by (apply (bool_decide_unpack _); vm_compute; exact I).
  exact (proj1 (proj2 (aes_decrypts (range 32) fips_plaintext Hk (conj eq_refl Hb)) eq_refl)).
Defined.
