(* ===== verification/AesMin.v ===== *)
(** * The second AES: lunarcore/lunar/crypto/aes.c, after the line of slashes

    aes.c contains a second, shorter AES under the names of the first: table S-boxes, one set
    of steps for both key sizes, a key expansion on 32-bit words. The word view of the round
    keys is the little-endian one of the targets (ESP32, ARM). *)
From S2P Require Import Prelude Gf256 Ctr Aes.

(** One round of the loop: [mask], [hi_bit] are 0 or 255. *)
Fixpoint gf_mul_ct_loop (n : nat) (a b p : Z) : Z :=
  match n with
  | O => p
  | S n =>
      let mask := u8 (- (b .& 1)) in
      let p := p .^ (a .& mask) in
      let hi_bit := u8 (- (a .>> 7)) in
      let a := u8 ((a .<< 1) .^ (0x1b .& hi_bit)) in
      gf_mul_ct_loop n a (b .>> 1) p
  end.

Definition gf_mul_ct (a b : Z) : Z := gf_mul_ct_loop 8 a b 0.

Fixpoint gf_mul_bits (n : nat) (a b p : Z) : Z :=
  match n with
  | O => p
  | S n =>
      let p := if b .& 1 =? 0 then p else p .^ a in
      let hi_bit := a .& 0x80 in
      let a := u8 (a .<< 1) in
      let a := if hi_bit =? 0 then a else a .^ 0x1b in
      gf_mul_bits n a (b .>> 1) p
  end.

Definition gf_mul (a b : Z) : Z := gf_mul_bits 8 a b 0.

Definition sbox_ct (b : Z) : Z := SBOX.[Z.to_nat b].
Definition inv_sbox_ct (b : Z) : Z := INV_SBOX.[Z.to_nat b].

Definition sub_bytes_ct (state : list Z) : list Z := sbox_ct <$> state.
Definition inv_sub_bytes_ct (state : list Z) : list Z := inv_sbox_ct <$> state.

Definition shift_rows (state : list Z) : list Z :=
  let temp := state.[1] in
  let state := <[1%nat := state.[5]]> state in
  let state := <[5%nat := state.[9]]> state in
  let state := <[9%nat := state.[13]]> state in
  let state := <[13%nat := temp]> state in
  let temp0 := state.[2] in
  let temp1 := state.[6] in
  let state := <[2%nat := state.[10]]> state in
  let state := <[6%nat := state.[14]]> state in
  let state := <[10%nat := temp0]> state in
  let state := <[14%nat := temp1]> state in
  let temp := state.[15] in
  let state := <[15%nat := state.[11]]> state in
  let state := <[11%nat := state.[7]]> state in
  let state := <[7%nat := state.[3]]> state in
  <[3%nat := temp]> state.

Definition inv_shift_rows (state : list Z) : list Z :=
  let temp := state.[13] in
  let state := <[13%nat := state.[9]]> state in
  let state := <[9%nat := state.[5]]> state in
  let state := <[5%nat := state.[1]]> state in
  let state := <[1%nat := temp]> state in
  let temp0 := state.[2] in
  let temp1 := state.[6] in
  let state := <[2%nat := state.[10]]> state in
  let state := <[6%nat := state.[14]]> state in
  let state := <[10%nat := temp0]> state in
  let state := <[14%nat := temp1]> state in
  let temp := state.[3] in
  let state := <[3%nat := state.[7]]> state in
  let state := <[7%nat := state.[11]]> state in
  let state := <[11%nat := state.[15]]> state in
  <[15%nat := temp]> state.

Definition mix_columns (state : list Z) : list Z :=
  foldl (fun state col =>
    let i := (col * 4)%nat in
    let s0 := state.[i] in
    let s1 := state.[i + 1] in
    let s2 := state.[i + 2] in
    let s3 := state.[i + 3] in
    let state := <[i := gf_mul_ct s0 2 .^ gf_mul_ct s1 3 .^ s2 .^ s3]> state in
    let state := <[(i + 1)%nat := s0 .^ gf_mul_ct s1 2 .^ gf_mul_ct s2 3 .^ s3]> state in
    let state := <[(i + 2)%nat := s0 .^ s1 .^ gf_mul_ct s2 2 .^ gf_mul_ct s3 3]> state in
    <[(i + 3)%nat := gf_mul_ct s0 3 .^ s1 .^ s2 .^ gf_mul_ct s3 2]> state) state [0; 1; 2; 3]%nat.

Definition inv_mix_columns (state : list Z) : list Z :=
  foldl (fun state col =>
    let i := (col * 4)%nat in
    let s0 := state.[i] in
    let s1 := state.[i + 1] in
    let s2 := state.[i + 2] in
    let s3 := state.[i + 3] in
    let state := <[i := gf_mul_ct s0 0x0e .^ gf_mul_ct s1 0x0b .^ gf_mul_ct s2 0x0d .^ gf_mul_ct s3 0x09]> state in
    let state := <[(i + 1)%nat := gf_mul_ct s0 0x09 .^ gf_mul_ct s1 0x0e .^ gf_mul_ct s2 0x0b .^ gf_mul_ct s3 0x0d]> state in
    let state := <[(i + 2)%nat := gf_mul_ct s0 0x0d .^ gf_mul_ct s1 0x09 .^ gf_mul_ct s2 0x0e .^ gf_mul_ct s3 0x0b]> state in
    <[(i + 3)%nat := gf_mul_ct s0 0x0b .^ gf_mul_ct s1 0x0d .^ gf_mul_ct s2 0x09 .^ gf_mul_ct s3 0x0e]> state) state [0; 1; 2; 3]%nat.

Definition add_round_key (state round_key : list Z) (off : nat) : list Z :=
  xor_bytes state (slice round_key off 16).

Definition increment_counter (counter : list Z) : list Z := increment_from 16 counter.

Definition rcons : list Z := [0x01; 0x02; 0x04; 0x08; 0x10; 0x20; 0x40; 0x80; 0x1B; 0x36].

(** The loop over the bytes [b[0] ... b[3]] of [temp]. *)
Definition sub_word_bytes (temp : Z) : Z := le_val (sbox_ct <$> le_bytes 4 temp).

(** One iteration; [b[3]] is the most significant byte of the word. *)
Definition key_expand_step (n : nat) (rk : list Z) (i : nat) : list Z :=
  let temp := rk.[i - 1] in
  let temp :=
    if (i mod n =? 0)%nat then
      let temp := u32 (temp .<< 24) .| (temp .>> 8) in
      let temp := sub_word_bytes temp in
      temp .^ (rcons.[i / n - 1] .<< 24)
    else if (6 <? n)%nat && (i mod n =? 4)%nat then sub_word_bytes temp
    else temp in
  rk ++ [rk.[i - n] .^ temp].

Definition aes_key_expand (key : list Z) (key_len rounds : nat) : list Z :=
  let n := (key_len / 4)%nat in
  let total_words := ((rounds + 1) * 4)%nat in
  let k := (fun i => le_val (slice key (4 * i) 4)) <$> seq 0 n in
  let rk := foldl (key_expand_step n) k (seq n (total_words - n)) in
  concat (le_bytes 4 <$> rk).

Definition aes128_new (key : list Z) : list Z := aes_key_expand key 16 10.

Definition aes128_encrypt_block (self block : list Z) : list Z :=
  let block := add_round_key block self 0 in
  let block := foldl (fun block r =>
    let block := sub_bytes_ct block in
    let block := shift_rows block in
    let block := mix_columns block in
    add_round_key block self (r * 16)) block (seq 1 9) in
  let block := sub_bytes_ct block in
  let block := shift_rows block in
  add_round_key block self 160.

Definition aes128_decrypt_block (self block : list Z) : list Z :=
  let block := add_round_key block self 160 in
  let block := inv_shift_rows block in
  let block := inv_sub_bytes_ct block in
  let block := foldl (fun block r =>
    let block := add_round_key block self (r * 16) in
    let block := inv_mix_columns block in
    let block := inv_shift_rows block in
    inv_sub_bytes_ct block) block (reverse (seq 1 9)) in
  add_round_key block self 0.

Definition aes128_encrypt_ctr (self nonce data : list Z) : list Z :=
  ctr_loop 16 (aes128_encrypt_block self) increment_counter (length data) nonce data.

Definition aes128_decrypt_ctr (self nonce data : list Z) : list Z := aes128_encrypt_ctr self nonce data.

Definition aes128ct_new (key : list Z) : list Z := aes_key_expand key 16 10.
Definition aes128ct_encrypt_block (self block : list Z) : list Z := aes128_encrypt_block self block.
Definition aes128ct_decrypt_block (self block : list Z) : list Z := aes128_decrypt_block self block.
Definition aes128ct_encrypt_ctr (self nonce data : list Z) : list Z := aes128_encrypt_ctr self nonce data.
Definition aes128ct_decrypt_ctr (self nonce data : list Z) : list Z := aes128_decrypt_ctr self nonce data.

Definition aes256_new (key : list Z) : list Z := aes_key_expand key 32 14.

Definition aes256_encrypt_block (self block : list Z) : list Z :=
  let block := add_round_key block self 0 in
  let block := foldl (fun block r =>
    let block := sub_bytes_ct block in
    let block := shift_rows block in
    let block := mix_columns block in
    add_round_key block self (r * 16)) block (seq 1 13) in
  let block := sub_bytes_ct block in
  let block := shift_rows block in
  add_round_key block self 224.

Definition aes256_decrypt_block (self block : list Z) : list Z :=
  let block := add_round_key block self 224 in
  let block := inv_shift_rows block in
  let block := inv_sub_bytes_ct block in
  let block := foldl (fun block r =>
    let block := add_round_key block self (r * 16) in
    let block := inv_mix_columns block in
    let block := inv_shift_rows block in
    inv_sub_bytes_ct block) block (reverse (seq 1 13)) in
  add_round_key block self 0.

(** ** The steps are those of the first AES *)

Lemma min_gf_mul_products : mix_products gf_mul_ct.
Proof. split; intros b Hb; byte_cases b Hb. Qed.
Lemma min_gf_mul_plain_products : mix_products gf_mul.
Proof. split; intros b Hb; byte_cases b Hb. Qed.

Lemma steps_min :
  sub_bytes_ct = Aes.aes128_sub_bytes /\ inv_sub_bytes_ct = Aes.aes128_inv_sub_bytes
  /\ shift_rows = Aes.aes128_shift_rows /\ inv_shift_rows = Aes.aes128_inv_shift_rows
  /\ add_round_key = Aes.aes128_add_round_key.
Proof. split_and!; reflexivity. Qed.

Lemma min_mix_form s : length s = 16%nat -> mix_columns s = by_columns (mix_column gf_mul_ct) s.
Proof. intros Hl. do 16 (destruct s as [|? s]; [done|]). by destruct s. Qed.
Lemma min_inv_mix_form s : length s = 16%nat -> inv_mix_columns s = by_columns (inv_mix_column gf_mul_ct) s.
Proof. intros Hl. do 16 (destruct s as [|? s]; [done|]). by destruct s. Qed.

Lemma min_mix_eq s : block_ok s -> mix_columns s = Aes.aes128_mix_columns s.
Proof.
  intros [Hl Hb]. rewrite min_mix_form, mix_columns_form by done. unfold by_columns.
  by rewrite !(mix_column_products _ min_gf_mul_products), !(mix_column_products _ gf_mul_products)
    by by apply four_bytes.
Qed.

Lemma min_inv_mix_mix s : block_ok s -> inv_mix_columns (mix_columns s) = s.
Proof.
  intros Hs. pose proof (mix_columns_ok s Hs) as Ho. rewrite <- min_mix_eq in Ho by done.
  rewrite min_inv_mix_form, min_mix_form by (apply Hs || apply Ho).
  by apply by_columns_inverse; [apply min_gf_mul_products|].
Qed.

Abbreviation min_enc nr self :=
  (encrypt_rounds Aes.aes128_sub_bytes Aes.aes128_shift_rows mix_columns (ark self) nr).
Abbreviation min_dec nr self :=
  (decrypt_rounds Aes.aes128_inv_sub_bytes Aes.aes128_inv_shift_rows inv_mix_columns (ark self) nr).

Lemma min_enc_eq nr self block :
  schedule_ok nr self -> block_ok block -> min_enc nr self block = enc nr self block.
Proof.
  intros [Hok _]%ark_rounds Hb. apply encrypt_rounds_ext; try done.
  - apply sub_bytes_ok.
  - apply shift_rows_ok.
  - apply mix_columns_ok.
  - apply min_mix_eq.
Qed.

Lemma min_dec_enc nr self block :
  schedule_ok nr self -> block_ok block -> min_dec nr self (enc nr self block) = block.
Proof.
  intros Hs Hb. rewrite <- min_enc_eq by done. apply ark_rounds in Hs as [Hok Htwice].
  apply decrypt_encrypt_rounds; try done.
  - apply sub_bytes_ok.
  - apply shift_rows_ok.
  - intros s Ho. rewrite min_mix_eq by done. by apply mix_columns_ok.
  - apply inv_sub_sub.
  - intros s [Ho _]. by apply inv_shift_shift.
  - apply min_inv_mix_mix.
Qed.

(** The decryption here keeps the inverse steps of a round in one iteration of the loop. *)
Lemma dec_loop isub ishift imix ark' (l : list nat) (s : list Z) :
  foldl (fun s r => isub (ishift (imix (ark' s r)))) (isub (ishift s)) l
  = isub (ishift (foldl (dec_round isub ishift imix ark') s l)).
Proof. revert s. induction l as [|r l IH]; intros s; [done|]. cbn [foldl]. rewrite IH. reflexivity. Qed.

Lemma min_encrypt_128 self block : aes128_encrypt_block self block = min_enc 10 self block.
Proof.
  unfold aes128_encrypt_block. destruct steps_min as (-> & _ & -> & _ & ->). cbn zeta.
  unfold encrypt_rounds, enc_round. cbn [Nat.sub Nat.mul Nat.add]. reflexivity.
Qed.
Lemma min_encrypt_256 self block : aes256_encrypt_block self block = min_enc 14 self block.
Proof.
  unfold aes256_encrypt_block. destruct steps_min as (-> & _ & -> & _ & ->). cbn zeta.
  unfold encrypt_rounds, enc_round. cbn [Nat.sub Nat.mul Nat.add]. reflexivity.
Qed.
Lemma min_decrypt_128 self block : aes128_decrypt_block self block = min_dec 10 self block.
Proof.
  unfold aes128_decrypt_block. destruct steps_min as (_ & -> & _ & -> & ->). cbn zeta.
  pose proof (dec_loop Aes.aes128_inv_sub_bytes Aes.aes128_inv_shift_rows inv_mix_columns (ark self)) as E.
  cbn beta in E. rewrite E. unfold decrypt_rounds. cbn [Nat.sub Nat.mul Nat.add]. reflexivity.
Qed.
Lemma min_decrypt_256 self block : aes256_decrypt_block self block = min_dec 14 self block.
Proof.
  unfold aes256_decrypt_block. destruct steps_min as (_ & -> & _ & -> & ->). cbn zeta.
  pose proof (dec_loop Aes.aes128_inv_sub_bytes Aes.aes128_inv_shift_rows inv_mix_columns (ark self)) as E.
  cbn beta in E. rewrite E. unfold decrypt_rounds. cbn [Nat.sub Nat.mul Nat.add]. reflexivity.
Qed.

(** ** The key expansion

    The one of FIPS 197 but for the round constant, which goes into the last byte of the
    word instead of the first. *)
Definition last_byte_word (nk : nat) (w : list (list Z)) : list Z :=
  let i := length w in
  let word j := default [] (w !! j) in
  let temp := word (i - 1)%nat in
  let temp :=
    if (i mod nk =? 0)%nat
    then xor_bytes (fips_sbox <$> fips_rot_word temp) [0; 0; 0; fips_rcon (i / nk)]
    else if (6 <? nk)%nat && (i mod nk =? 4)%nat then fips_sbox <$> temp
    else temp in
  xor_bytes (word (i - nk)%nat) temp.

Definition last_byte_expansion (nk n : nat) (key : list Z) : list (list Z) :=
  Nat.iter n (fun w => w ++ [last_byte_word nk w]) (key_words nk key).

Lemma add_256_lxor x y : byte_ok x -> x + 256 * y = x .^ (y .<< 8).
Proof.
  intros Hx. rewrite <- Z.add_nocarry_lxor; [rewrite Z.shiftl_mul_pow2 by lia; lia|].
  apply Z.bits_inj'. intros n Hn. rewrite Z.land_spec, Z.testbit_0_l.
  destruct (Z.ltb_spec n 8); [rewrite (Z.shiftl_spec_low y 8 n) by lia; apply andb_false_r|].
  by rewrite (fits_testbit 8 x n) by (done || lia).
Qed.

Lemma le_val_xor s t :
  bytes_ok s -> bytes_ok t -> length s = length t -> le_val (xor_bytes s t) = le_val s .^ le_val t.
Proof.
  intros Hs. revert t. induction Hs as [|x s Hx Hs IH]; intros t Ht Hl; destruct Ht as [|y t Hy Ht]; try done.
  cbn [length] in Hl. change (xor_bytes (x :: s) (y :: t)) with ((x .^ y) :: xor_bytes s t).
  cbn [le_val]. rewrite IH by (done || lia).
  rewrite !add_256_lxor by (done || (apply fits_lxor; [lia|done|done])). rewrite Z.shiftl_lxor.
  xor_solve.
Qed.

Lemma rot_word_le t : word_ok t -> u32 (le_val t .<< 24) .| (le_val t .>> 8) = le_val (fips_rot_word t).
Proof.
  intros Ht. destruct_word t Ht. rewrite !Forall_cons in Hb. destruct_and! Hb.
  match goal with |- context [le_val [?x; ?y; ?u; ?v]] => rename x into b0, y into b1, u into b2, v into b3 end.
  change (fips_rot_word [b0; b1; b2; b3]) with [b1; b2; b3; b0].
  rewrite Z.lor_comm, (shiftr_div 8 256) by done. cbn [le_val].
  assert (u32 ((b0 + 256 * (b1 + 256 * (b2 + 256 * (b3 + 256 * 0)))) .<< 24) = b0 .<< 24) as ->.
  { rewrite !Z.shiftl_mul_pow2 by lia. words_lia. }
  assert ((b0 + 256 * (b1 + 256 * (b2 + 256 * (b3 + 256 * 0)))) / 256 = b1 + 256 * (b2 + 256 * b3)) as ->
    by words_lia.
  rewrite (lor_shiftl_add 24) by (unfold fits in *; lia). lia.
Qed.

Lemma le_bytes_word t : word_ok t -> le_bytes 4 (le_val t) = t.
Proof. intros [Hl Ht]. rewrite <- Hl. by apply le_bytes_le_val. Qed.

Lemma sub_word_le t : word_ok t -> sub_word_bytes (le_val t) = le_val (fips_sbox <$> t).
Proof. intros Ht. unfold sub_word_bytes. rewrite le_bytes_word by done. f_equal. by apply sub_word. Qed.

Lemma rcon_last j : (1 <= j <= 10)%nat ->
  rcons.[j - 1] .<< 24 = le_val [0; 0; 0; fips_rcon j] /\ word_ok [0; 0; 0; fips_rcon j].
Proof.
  intros Hj. assert (forall j, j ∈ seq 1 10 -> rcons.[j - 1] .<< 24 = le_val [0; 0; 0; fips_rcon j]
    /\ length [0; 0; 0; fips_rcon j] = 4%nat /\ bytes_ok [0; 0; 0; fips_rcon j]) as H.
  { apply Forall_forall. apply (bool_decide_unpack _). vm_compute. exact I. }
  apply H, elem_of_seq. lia.
Qed.

Lemma last_byte_word_ok nk w :
  Forall word_ok w -> (0 < nk <= length w)%nat -> (length w / nk <= 10)%nat -> word_ok (last_byte_word nk w).
Proof.
  intros Hw Hn Hr. unfold last_byte_word.
  destruct (word_lookup w (length w - 1)%nat) as [_ H1]; [done|lia|].
  destruct (word_lookup w (length w - nk)%nat) as [_ H2]; [done|lia|].
  apply xor_word_ok; [done|]. destruct (Nat.eqb_spec (length w mod nk) 0) as [E|E].
  - apply xor_word_ok; [|apply rcon_last; split; [by apply rcon_index|done]].
    rewrite <- sub_word by by apply rot_word_ok. by apply sub_word_ok, rot_word_ok.
  - destruct (_ && _); [|done]. rewrite <- sub_word by done. by apply sub_word_ok.
Qed.

Lemma arr_words w j : (j < length w)%nat -> (le_val <$> w).[j] = le_val (word w j).
Proof.
  intros Hj. unfold arr. rewrite list_lookup_fmap.
  destruct (lookup_lt_is_Some_2 w j Hj) as [t ->]. done.
Qed.

Lemma le_val_xor_word s t : word_ok s -> word_ok t -> le_val (xor_bytes s t) = le_val s .^ le_val t.
Proof. intros [Hs Hs'] [Ht Ht']. apply le_val_xor; [done..|lia]. Qed.

(** One iteration of the loop on words. *)
Lemma key_expand_step_word nk w :
  Forall word_ok w -> (0 < nk <= length w)%nat -> (length w / nk <= 10)%nat ->
  key_expand_step nk (le_val <$> w) (length w) = le_val <$> (w ++ [last_byte_word nk w]).
Proof.
  intros Hw Hn Hr. unfold key_expand_step, last_byte_word. rewrite fmap_app. cbn [fmap list_fmap]. do 2 f_equal.
  destruct (word_lookup w (length w - 1)%nat) as [_ H1]; [done|lia|].
  destruct (word_lookup w (length w - nk)%nat) as [_ H2]; [done|lia|].
  rewrite !arr_words by lia. pose proof (rot_word_ok _ H1) as Hrot.
  destruct (Nat.eqb_spec (length w mod nk) 0) as [E|E].
  - pose proof (rcon_index nk (length w) Hn E). destruct (rcon_last (length w / nk)) as [-> Hc]; [lia|].
    rewrite rot_word_le, sub_word_le by done.
    assert (word_ok (fips_sbox <$> fips_rot_word (word w (length w - 1)%nat))) as Hs
      by (rewrite <- sub_word by done; by apply sub_word_ok).
    rewrite !le_val_xor_word by (done || by apply xor_word_ok). done.
  - destruct (_ && _); [|by rewrite le_val_xor_word].
    rewrite sub_word_le by done. rewrite le_val_xor_word; [done..|].
    rewrite <- sub_word by done. by apply sub_word_ok.
Qed.

Lemma last_byte_words nk n w :
  Forall word_ok w -> (0 < nk <= length w)%nat -> ((length w + n - 1) / nk <= 10)%nat ->
  foldl (key_expand_step nk) (le_val <$> w) (seq (length w) n)
  = le_val <$> Nat.iter n (fun w => w ++ [last_byte_word nk w]) w
  /\ Forall word_ok (Nat.iter n (fun w => w ++ [last_byte_word nk w]) w)
  /\ length (Nat.iter n (fun w => w ++ [last_byte_word nk w]) w) = (length w + n)%nat.
Proof.
  revert w. induction n as [|n IH]; intros w Hw Hn Hr; [split_and!; [done|done|cbn; lia]|].
  assert (length w / nk <= 10)%nat as Hl by (etransitivity; [|exact Hr]; apply Nat.Div0.div_le_mono; lia).
  rewrite Nat.iter_succ_r. cbn [seq foldl]. rewrite key_expand_step_word by done.
  destruct (IH (w ++ [last_byte_word nk w])) as (E & Ho & Hn'); rewrite ?length_app; cbn [length]; try lia.
  - apply Forall_app. split; [done|]. by apply Forall_singleton, last_byte_word_ok.
  - by replace (length w + 1 + n - 1)%nat with (length w + S n - 1)%nat by lia.
  - rewrite length_app in E, Hn'. cbn [length] in E, Hn'. rewrite <- E. split_and!; [f_equal; f_equal; lia|done|lia].
Qed.

Lemma words_back w : Forall word_ok w -> le_bytes 4 <$> (le_val <$> w) = w.
Proof.
  induction 1 as [|t w Ht _ IH]; [done|]. cbn [fmap list_fmap]. by rewrite le_bytes_word, IH.
Qed.

Lemma aes_key_expand_words nk rounds key (n := (4 * (rounds + 1) - nk)%nat) :
  length key = (4 * nk)%nat -> bytes_ok key -> (0 < nk <= 4 * (rounds + 1))%nat ->
  ((4 * (rounds + 1) - 1) / nk <= 10)%nat ->
  aes_key_expand key (4 * nk) rounds = concat (last_byte_expansion nk n key)
  /\ Forall word_ok (last_byte_expansion nk n key)
  /\ length (last_byte_expansion nk n key) = (4 * (rounds + 1))%nat.
Proof.
  intros Hl Hk Hn Hr. destruct (key_words_ok nk key Hl Hk) as (Hw & Hkw & _).
  destruct (last_byte_words nk n (key_words nk key)) as (E & Ho & Hln); [done|lia| |].
  { rewrite Hkw. by replace (nk + n - 1)%nat with (4 * (rounds + 1) - 1)%nat by lia. }
  unfold last_byte_expansion. split_and!; [|done|lia].
  unfold aes_key_expand. replace (4 * nk / 4)%nat with nk by div_lia.
  replace ((rounds + 1) * 4 - nk)%nat with n by lia. rewrite Hkw in E.
  change (key_words nk key) with ((fun i => slice key (4 * i) 4) <$> seq 0 nk) in E.
  rewrite <- list_fmap_compose in E. cbn zeta. unfold compose in E. rewrite E. f_equal.
  by apply words_back.
Qed.

Lemma min128_words key :
  length key = 16%nat -> bytes_ok key ->
  aes128_new key = concat (last_byte_expansion 4 40 key) /\ Forall word_ok (last_byte_expansion 4 40 key)
  /\ schedule_ok 10 (aes128_new key).
Proof.
  intros Hl Hk. destruct (aes_key_expand_words 4 10 key) as (E & Hw & Hn); [done|done|lia|cbn; lia|].
  split; [exact E|]. split; [exact Hw|]. unfold aes128_new. change 16%nat with (4 * 4)%nat. rewrite E. by apply words_schedule.
Qed.

Lemma min256_words key :
  length key = 32%nat -> bytes_ok key ->
  aes256_new key = concat (last_byte_expansion 8 52 key) /\ Forall word_ok (last_byte_expansion 8 52 key)
  /\ schedule_ok 14 (aes256_new key).
Proof.
  intros Hl Hk. destruct (aes_key_expand_words 8 14 key) as (E & Hw & Hn); [done|done|lia|cbn; lia|].
  split; [exact E|]. split; [exact Hw|]. unfold aes256_new. change 32%nat with (4 * 8)%nat. rewrite E. by apply words_schedule.
Qed.

(** The first derived words of the two expansions. *)
Lemma first_word_differs nk w :
  Forall word_ok w -> length w = nk -> (0 < nk)%nat ->
  last_byte_word nk w = xor_bytes (fips_next_word nk w) [1; 0; 0; 1].
Proof.
  intros Hw Hl Hn. unfold last_byte_word, fips_next_word. rewrite Hl, Nat.Div0.mod_same.
  cbn [Nat.eqb]. rewrite Nat.div_same by lia. change (fips_rcon 1) with 1.
  destruct (word_lookup w (nk - 1)%nat) as [_ H1]; [done|lia|].
  destruct (word_lookup w (nk - nk)%nat) as [_ H2]; [done|lia|].
  generalize dependent (word w (nk - nk)%nat). intros t Ht. destruct_word t Ht. clear Hb.
  assert (length (fips_sbox <$> fips_rot_word (word w (nk - 1)%nat)) = 4%nat) as Hs
    by (rewrite length_fmap; apply (rot_word_ok _ H1)).
  generalize dependent (fips_sbox <$> fips_rot_word (word w (nk - 1)%nat)). intros u Hu.
  do 4 (destruct u as [|? u]; [done|]). destruct u; [|done].
  cbn [xor_bytes zip_with]. rewrite !Z.lxor_0_r, !Z.lxor_assoc.
  by rewrite Z.lxor_nilpotent, !Z.lxor_0_r.
Qed.

Lemma iter_prefix (f : list (list Z) -> list Z) n w :
  w `prefix_of` Nat.iter n (fun w => w ++ [f w]) w.
Proof.
  induction n as [|n IH]; [done|]. rewrite Nat.iter_succ. etransitivity; [exact IH|]. by apply prefix_app_r.
Qed.

(** Word [nk] of an expansion of at least one step. *)
Lemma iter_first_word (f : list (list Z) -> list Z) n w (e := Nat.iter (S n) (fun w => w ++ [f w]) w) :
  Forall word_ok e -> slice (concat e) (4 * length w) 4 = f w.
Proof.
  intros He. assert (e = Nat.iter n (fun w => w ++ [f w]) (w ++ [f w])) as Ee
    by exact (Nat.iter_succ_r n _ (fun w => w ++ [f w]) w).
  destruct (iter_prefix f n (w ++ [f w])) as [k Hk]. rewrite <- Ee in Hk.
  rewrite slice_word; [|done|rewrite Hk, !length_app; cbn; lia].
  by rewrite Hk, <- app_assoc, lookup_app_r, Nat.sub_diag by lia.
Qed.

Lemma last_byte_first nk n key (e := last_byte_expansion nk (S n) key) :
  Forall word_ok e -> slice (concat e) (4 * length (key_words nk key)) 4 = last_byte_word nk (key_words nk key).
Proof. apply iter_first_word. Qed.

Lemma fips_first nk n key (e := fips_key_expansion nk (S n) key) :
  Forall word_ok e -> slice (concat e) (4 * length (key_words nk key)) 4 = fips_next_word nk (key_words nk key).
Proof. apply iter_first_word. Qed.

(** The comparison of the two key expansions. *)
Lemma schedules_differ nk n key :
  length key = (4 * nk)%nat -> bytes_ok key -> (0 < nk)%nat -> 
  Forall word_ok (last_byte_expansion nk (S n) key) -> Forall word_ok (fips_key_expansion nk (S n) key) ->
  slice (concat (last_byte_expansion nk (S n) key)) (4 * nk) 4
    = xor_bytes (slice (concat (fips_key_expansion nk (S n) key)) (4 * nk) 4) [1; 0; 0; 1]
  /\ concat (last_byte_expansion nk (S n) key) <> concat (fips_key_expansion nk (S n) key).
Proof.
  intros Hl Hk Hn Hs Hw. destruct (key_words_ok nk key Hl Hk) as (Hkw & Hkl & _).
  pose proof (last_byte_first nk n key Hs) as E1. pose proof (fips_first nk n key Hw) as E2.
  rewrite Hkl in E1, E2. rewrite first_word_differs, <- E2 in E1 by done. split; [done|].
  intros Eq. rewrite Eq in E1.
  assert (length (slice (concat (fips_key_expansion nk (S n) key)) (4 * nk) 4) = 4%nat) as Ht.
  { rewrite E2. apply fips_next_word_ok; [done|lia|]. rewrite Hkl, Nat.div_same by lia. lia. }
  clear -E1 Ht. generalize dependent (slice (concat (fips_key_expansion nk (S n) key)) (4 * nk) 4).
  intros t E Ht. do 4 (destruct t as [|? t]; [done|]). destruct t; [|done]. injection E as E _ _ _.
  apply (f_equal (fun x => x .^ z)) in E.
  by rewrite Z.lxor_nilpotent, (Z.lxor_comm z 1), Z.lxor_assoc, Z.lxor_nilpotent in E.
Qed.

(** ** Properties *)

(** In the second AES block decryption inverts block encryption for every key, for both key
    sizes; with the round keys of the first AES it computes the same ciphertext. *)
Theorem second_aes_decrypts (key block : list Z) :
  bytes_ok key -> block_ok block ->
  (length key = 16%nat ->
     aes128_decrypt_block (aes128_new key) (aes128_encrypt_block (aes128_new key) block) = block
     /\ aes128_encrypt_block (Aes.aes128_new key) block = Aes.aes128_encrypt_block (Aes.aes128_new key) block)
  /\ (length key = 32%nat ->
     aes256_decrypt_block (aes256_new key) (aes256_encrypt_block (aes256_new key) block) = block
     /\ aes256_encrypt_block (Aes.aes256_new key) block = Aes.aes256_encrypt_block (Aes.aes256_new key) block).
Proof.
  intros Hk Hb. split; intros Hl.
  - destruct (min128_words key) as (_ & _ & Hs); [done..|]. pose proof (aes128_new_ok key Hl Hk) as Ha.
    rewrite min_decrypt_128, !min_encrypt_128, !min_enc_eq, aes128_encrypt_rounds by done.
    split; [by apply min_dec_enc|reflexivity].
  - destruct (min256_words key) as (_ & _ & Hs); [done..|]. pose proof (aes256_new_ok key Hl Hk) as Ha.
    rewrite min_decrypt_256, !min_encrypt_256, !min_enc_eq, aes256_encrypt_rounds by done.
    split; [by apply min_dec_enc|reflexivity].
Qed.

Lemma second_aes_decrypts_witness :
  aes256_decrypt_block (aes256_new (range 32)) (aes256_encrypt_block (aes256_new (range 32)) (range 16)) = range 16.
Proof.
  refine (proj1 (proj2 (second_aes_decrypts (range 32) (range 16) _ _) eq_refl)); [|split; [reflexivity|]];
    apply (bool_decide_unpack _); vm_compute; exact I.
Defined.

(** The key expansion of the second AES is that of FIPS 197 with the round constant in the
    last byte of the word instead of the first, so its first derived word differs for every
    key: the round keys are never those of AES. *)
Theorem second_aes_schedule (key : list Z) :
  bytes_ok key ->
  (length key = 16%nat ->
     aes128_new key = concat (last_byte_expansion 4 40 key)
     /\ slice (aes128_new key) 16 4 = xor_bytes (slice (Aes.aes128_new key) 16 4) [1; 0; 0; 1]
     /\ aes128_new key <> Aes.aes128_new key)
  /\ (length key = 32%nat ->
     aes256_new key = concat (last_byte_expansion 8 52 key)
     /\ slice (aes256_new key) 32 4 = xor_bytes (slice (Aes.aes256_new key) 32 4) [1; 0; 0; 1]
     /\ aes256_new key <> Aes.aes256_new key).
Proof.
  intros Hk. split; intros Hl.
  - destruct (min128_words key) as (-> & Hs & _); [done..|].
    destruct (aes128_expansion key) as (-> & Hw & _); [done..|].
    split; [done|]. exact (schedules_differ 4 39 key Hl Hk ltac:(lia) Hs Hw).
  - destruct (min256_words key) as (-> & Hs & _); [done..|].
    destruct (aes256_expansion key) as (-> & Hw & _); [done..|].
    split; [done|]. exact (schedules_differ 8 51 key Hl Hk ltac:(lia) Hs Hw).
Qed.

Lemma second_aes_schedule_witness :
  aes128_new (range 16) = concat (last_byte_expansion 4 40 (range 16))
  /\ slice (aes128_new (range 16)) 16 4 = xor_bytes (slice (Aes.aes128_new (range 16)) 16 4) [1; 0; 0; 1]
  /\ aes128_new (range 16) <> Aes.aes128_new (range 16).
Proof.
  refine (proj1 (second_aes_schedule (range 16) _) eq_refl). apply (bool_decide_unpack _); vm_compute; exact I.
Defined.
