(* ===== verification/Keyed.v ===== *)
(** * Keys and ciphers as sessions and onion packets use them

    What session.c and onion.c share: the key derivation call, the interface of the block
    cipher (both AES of aes.c implement it), and the hand-written HMAC pads. *)
From S2P Require Import Prelude Sha256 Hmac Aes AesMin.

(** session.c and onion.c declare [hkdf_derive] with other parameter names than hkdf.c has:
    [hkdf_derive] with its arguments in the order of the calls; the lengths asked
    for (at most 32) are never refused. *)
Definition kdf (input salt info : list Z) (n : nat) : list Z :=
  default (replicate n 0) (hkdf_derive input salt info n).

(** What session.c and onion.c need of the block cipher. *)
Class BlockCipher (cipher : list Z -> list Z -> list Z) : Prop := {
  cipher_length : forall key block,
    length key = 32%nat -> bytes_ok key -> block_ok block -> length (cipher key block) = 16%nat
}.

#[export] Instance aes_cipher :
  BlockCipher (fun key block => Aes.aes256_encrypt_block (Aes.aes256_new key) block).
Proof. split. intros key block Hl Hk Hb. by apply aes256_encrypt_length. Qed.

#[export] Instance second_aes_cipher :
  BlockCipher (fun key block => AesMin.aes256_encrypt_block (AesMin.aes256_new key) block).
Proof.
  split. intros key block Hl Hk Hb. destruct (min256_words key Hl Hk) as (_ & _ & Hs).
  rewrite min_encrypt_256, min_enc_eq by done. by apply enc_ok.
Qed.

Lemma rfc_blocks_ok prk info prev i n : bytes_ok (rfc_blocks sha256_hash prk info prev i n).
Proof.
  revert prev i. induction n as [|n IH]; intros prev i; [constructor|].
  cbn [rfc_blocks]. apply Forall_app. split; [unfold rfc_hmac; apply digest_ok|apply IH].
Qed.

Lemma kdf_ok a b info n : (n <= 255 * 32)%nat -> length (kdf a b info n) = n /\ bytes_ok (kdf a b info n).
Proof.
  intros Hn. unfold kdf. rewrite hkdf_derive_rfc by done. cbn [default from_option id]. split.
  - apply length_rfc_expand, _.
  - unfold rfc_expand. apply Forall_take, rfc_blocks_ok.
Qed.

Lemma xor_bytes_comm a b : xor_bytes a b = xor_bytes b a.
Proof.
  unfold xor_bytes. revert b. induction a as [|x a IH]; intros [|y b]; cbn; try done.
  by rewrite Z.lxor_comm, IH.
Qed.

(** A pad of [compute_tag] in session.c is the padded key of RFC 2104 under the pad byte. *)
Lemma tag_pad key c :
  length key = 32%nat ->
  zip_with Z.lxor (take 32 (replicate 64 c)) key ++ replicate 32 c
  = xor_bytes (rfc_key sha256_hash key) (replicate 64 c).
Proof.
  intros Hk. unfold rfc_key. rewrite Hk. cbn [Nat.ltb Nat.leb]. rewrite Hk. cbn [Nat.sub].
  change (replicate 64 c) with (replicate 32 c ++ replicate 32 c) at 2. unfold xor_bytes.
  rewrite zip_with_app by (by rewrite length_replicate). f_equal.
  rewrite take_replicate. cbn [Nat.min]. apply (xor_bytes_comm (replicate 32 c) key).
Qed.

