(* ===== verification/Onion.v ===== *)
(** * Onion routing: lunarcore/lunar/onion.h and onion.c

    Routes of three to seven hops, the layers [onion_router_wrap] puts around a payload, the
    two functions that take a layer off, and the route builder. HKDF and SHA-256 are those
    of Hmac.v and Sha256.v; the block cipher is used under [BlockCipher] and X25519 is an
    argument. *)
From S2P Require Import Prelude Sha256 Hmac Ctr Aes Keyed.

(** ** Constants and data *)

Definition NODE_HINT_SIZE : nat := 2.
Definition AUTH_TAG_SIZE : nat := 16.
Definition MAX_HOPS : nat := 7.
Definition MIN_HOPS : nat := 3.
Definition HOP_OVERHEAD : nat := NODE_HINT_SIZE + AUTH_TAG_SIZE.

(** "lunarpunk-onion-key-v1", "lunarpunk-onion-blind-v1" *)
Definition ONION_KEY_INFO : list Z :=
  [108; 117; 110; 97; 114; 112; 117; 110; 107; 45; 111; 110; 105; 111; 110; 45; 107; 101; 121; 45; 118; 49].
Definition ONION_BLIND_INFO : list Z :=
  [108; 117; 110; 97; 114; 112; 117; 110; 107; 45; 111; 110; 105; 111; 110; 45; 98; 108; 105; 110; 100; 45;
   118; 49].

Record RouteHop := mkHop {
  hint : Z;                    (* uint16_t *)
  public_key : list Z          (* uint8_t[32] *)
}.

Record OnionRoute := mkRoute { hops : list RouteHop }.

Record OnionPacket := mkPacket {
  data : list Z;               (* HeaplessVec_u8_256 *)
  num_layers : Z               (* uint8_t *)
}.

Inductive OnionError :=
  | ONION_ERROR_INVALID_ROUTE
  | ONION_ERROR_PACKET_TOO_LARGE
  | ONION_ERROR_AUTHENTICATION_FAILED
  | ONION_ERROR_DECRYPTION_FAILED
  | ONION_ERROR_NO_MORE_LAYERS.

Record OnionRouter := mkRouter {
  our_private : list Z;
  our_public : list Z;
  our_hint : Z                 (* uint16_t *)
}.

Record RouteBuilder := mkBuilder { relays : list RouteHop }.

#[global] Instance RouteHop_eq_dec : EqDecision RouteHop.
Proof. solve_decision. Defined.
#[global] Instance OnionPacket_eq_dec : EqDecision OnionPacket.
Proof. solve_decision. Defined.
#[global] Instance OnionError_eq_dec : EqDecision OnionError.
Proof. solve_decision. Defined.

(** ** Vectors *)

Definition heapless_vec_u8_256_push (vec : list Z) (val : Z) : option (list Z) := vec_push 256 vec val.

Definition heapless_vec_u8_256_extend_from_slice (vec data : list Z) : option (list Z) :=
  vec_extend 256 vec data.

Definition heapless_vec_u8_320_extend_from_slice (vec data : list Z) : option (list Z) :=
  vec_extend 320 vec data.

Definition heapless_vec_routehop_push (vec : list RouteHop) (hop : RouteHop) : option (list RouteHop) :=
  if (MAX_HOPS <=? length vec)%nat then None else Some (vec ++ [hop]).

Definition heapless_vec_routehop_first (vec : list RouteHop) : option RouteHop :=
  if (length vec =? 0)%nat then None else vec !! 0%nat.

Definition heapless_vec_routehop_last (vec : list RouteHop) : option RouteHop :=
  if (length vec =? 0)%nat then None else vec !! (length vec - 1)%nat.

Definition heapless_vec_routehop_32_push (vec : list RouteHop) (hop : RouteHop) : option (list RouteHop) :=
  if (32 <=? length vec)%nat then None else Some (vec ++ [hop]).

(** ** Routes *)

(** [for (i = 0; i < hops_len; i++) push]. *)
Definition push_hops (vec hops : list RouteHop) : option (list RouteHop) :=
  foldl (fun acc hop => v ← acc; heapless_vec_routehop_push v hop) (Some vec) hops.

Definition onion_route_new (hops : list RouteHop) : option OnionRoute :=
  if (length hops <? MIN_HOPS)%nat || (MAX_HOPS <? length hops)%nat then None
  else mkRoute <$> push_hops [] hops.

Definition onion_route_len (route : OnionRoute) : nat := length (hops route).

Definition onion_route_is_empty (route : OnionRoute) : bool := (length (hops route) =? 0)%nat.

Definition onion_route_entry_hint (route : OnionRoute) : Z :=
  match heapless_vec_routehop_first (hops route) with Some first => hint first | None => 0 end.

Definition onion_route_exit_hint (route : OnionRoute) : Z :=
  match heapless_vec_routehop_last (hops route) with Some last => hint last | None => 0 end.

Definition onion_route_overhead (route : OnionRoute) : nat := length (hops route) * HOP_OVERHEAD.

(** ** The route builder *)

Definition route_builder_new : RouteBuilder := mkBuilder [].

Definition route_builder_add_relay (builder : RouteBuilder) (hint : Z) (public_key : list Z)
    : RouteBuilder * bool :=
  match heapless_vec_routehop_32_push (relays builder) (mkHop hint public_key) with
  | Some relays => (mkBuilder relays, true)
  | None => (builder, false)
  end.

Definition route_builder_build_route (builder : RouteBuilder) (destination : RouteHop) (num_hops : nat)
    : option OnionRoute :=
  if (num_hops <? MIN_HOPS)%nat || (MAX_HOPS <? num_hops)%nat then None else
  let relay_count := (num_hops - 1)%nat in
  if (length (relays builder) <? relay_count)%nat then None else
  hops ← foldl (fun acc i =>
      v ← acc;
      relay ← relays builder !! (i mod length (relays builder))%nat;
      heapless_vec_routehop_push v relay) (Some []) (seq 0 relay_count);
  hops ← heapless_vec_routehop_push hops destination;
  Some (mkRoute hops).

Definition route_builder_relay_count (builder : RouteBuilder) : nat := length (relays builder).

Definition route_builder_default : RouteBuilder := route_builder_new.

(** ** The router *)

(** HMAC-SHA-256 cut to 16 bytes; data that does not fit into [inner_input] is left out. *)
Definition onion_router_compute_tag (key data : list Z) : list Z :=
  let inner := zip_with Z.lxor (take 32 (replicate 64 0x36)) key ++ replicate 32 0x36 in
  let outer := zip_with Z.lxor (take 32 (replicate 64 0x5c)) key ++ replicate 32 0x5c in
  let inner_input := default [] (heapless_vec_u8_320_extend_from_slice [] inner) in
  let inner_input := default inner_input (heapless_vec_u8_320_extend_from_slice inner_input data) in
  let inner_hash := sha256_hash inner_input in
  take 16 (sha256_hash (outer ++ inner_hash)).

(** The key of a layer from the shared secret and the layer's index. *)
Definition derive_layer_key (shared : list Z) (layer_index : Z) : list Z :=
  kdf (shared ++ [layer_index]) [layer_index] ONION_KEY_INFO 32.

Definition onion_router_our_hint (router : OnionRouter) : Z := our_hint router.
Definition onion_router_our_public (router : OnionRouter) : list Z := our_public router.

Definition onion_router_derive_blinded_hint (router : OnionRouter) (epoch : Z) : Z :=
  let input := our_public router ++ le_bytes 8 epoch in
  let blinded := kdf input (le_bytes 8 epoch) ONION_BLIND_INFO 2 in
  (blinded.[0] .<< 8) .| blinded.[1].

Section router.
Context (aes256 : list Z -> list Z -> list Z)      (* aes256_new, aes256_encrypt_block *)
        (x25519 : list Z -> list Z -> list Z)      (* scalar, point *)
        (x25519_base : list Z -> list Z).

Definition onion_router_new (private_key : list Z) : OnionRouter :=
  let public := x25519_base private_key in
  let hint_hash := sha256_hash public in
  mkRouter private_key public ((hint_hash.[0] .<< 8) .| hint_hash.[1]).

(** The key stream block: eight zero bytes, then the block number. *)
Definition keystream_block (key : list Z) (block_num : Z) : list Z :=
  aes256 key (replicate 8 0 ++ le_bytes 8 block_num).

Definition onion_router_encrypt_layer (key data : list Z) : option (list Z) :=
  output ← heapless_vec_u8_256_extend_from_slice [] data;
  Some (ctr_loop 16 (keystream_block key) (fun n => u64 (n + 1)) (length output) 0 output).

Definition onion_router_decrypt_layer (key data : list Z) : option (list Z) :=
  onion_router_encrypt_layer key data.

(** The layer of hop [i] around [current]; every failure is PACKET_TOO_LARGE. *)
Definition wrap_layer (self : OnionRouter) (route : list RouteHop) (i : nat) (current : list Z)
    : option (list Z) :=
  hop ← route !! i;
  let shared := x25519 (our_private self) (public_key hop) in
  let layer_index := u8 (Z.of_nat (length route - 1 - i)) in
  let layer_key := derive_layer_key shared layer_index in
  encrypted ← onion_router_encrypt_layer layer_key current;
  let tag := onion_router_compute_tag layer_key encrypted in
  let next_hint :=
    if (i =? length route - 1)%nat then 0
    else match route !! S i with Some next => hint next | None => 0 end in
  new_layer ← heapless_vec_u8_256_push [] (u8 (next_hint .>> 8));
  new_layer ← heapless_vec_u8_256_push new_layer (u8 next_hint);
  new_layer ← heapless_vec_u8_256_extend_from_slice new_layer tag;
  heapless_vec_u8_256_extend_from_slice new_layer encrypted.

(** [for (i = len - 1; i >= 0; i--)]: the layers of hops [n - 1] down to [0]. *)
Fixpoint wrap_loop (self : OnionRouter) (route : list RouteHop) (n : nat) (current : list Z)
    : option (list Z) :=
  match n with
  | O => Some current
  | S i => current ← wrap_layer self route i current; wrap_loop self route i current
  end.

Definition onion_router_wrap (self : OnionRouter) (payload : list Z) (route : OnionRoute)
    : OnionError + OnionPacket :=
  if (length (hops route) <? MIN_HOPS)%nat || (MAX_HOPS <? length (hops route))%nat
  then inl ONION_ERROR_INVALID_ROUTE else
  let total_overhead := onion_route_overhead route in
  if (256 <? length payload + total_overhead)%nat then inl ONION_ERROR_PACKET_TOO_LARGE else
  match heapless_vec_u8_256_extend_from_slice [] payload with
  | None => inl ONION_ERROR_PACKET_TOO_LARGE
  | Some current =>
      match wrap_loop self (hops route) (length (hops route)) current with
      | None => inl ONION_ERROR_PACKET_TOO_LARGE
      | Some current => inr (mkPacket current (u8 (Z.of_nat (length (hops route)))))
      end
  end.

(** What [onion_router_unwrap] and [onion_router_unwrap_final] do alike: the key of the
    outer layer, the tag check and the decryption. *)
Definition open_layer (self : OnionRouter) (packet : OnionPacket) (sender_public : list Z)
    : OnionError + list Z :=
  if (length (data packet) <? HOP_OVERHEAD)%nat then inl ONION_ERROR_DECRYPTION_FAILED else
  let tag := slice (data packet) 2 16 in
  let encrypted := drop 18 (data packet) in
  let shared := x25519 (our_private self) sender_public in
  let layer_index := if 0 <? num_layers packet then num_layers packet - 1 else 0 in
  let layer_key := derive_layer_key shared layer_index in
  let expected_tag := onion_router_compute_tag layer_key encrypted in
  if negb (constant_time_eq tag expected_tag) then inl ONION_ERROR_AUTHENTICATION_FAILED else
  match onion_router_decrypt_layer layer_key encrypted with
  | None => inl ONION_ERROR_DECRYPTION_FAILED
  | Some inner => inr inner
  end.

(** The next hop and the packet for it. *)
Definition onion_router_unwrap (self : OnionRouter) (packet : OnionPacket) (sender_public : list Z)
    : OnionError + Z * OnionPacket :=
  match open_layer self packet sender_public with
  | inl error => inl error
  | inr inner =>
      let next_hint := (((data packet).[0]) .<< 8) .| ((data packet).[1]) in
      if next_hint =? 0 then inl ONION_ERROR_NO_MORE_LAYERS
      else inr (next_hint,
                mkPacket inner (if 0 <? num_layers packet then num_layers packet - 1 else 0))
  end.

Definition onion_router_unwrap_final (self : OnionRouter) (packet : OnionPacket) (sender_public : list Z)
    : OnionError + list Z :=
  open_layer self packet sender_public.

(** A packet carried along a route: every node takes its layer off and hands the rest to
    the node the hint names; the last one takes the payload. The result is the hints read
    on the way and the payload. *)
Fixpoint carry (sender_public : list Z) (nodes : list OnionRouter) (packet : OnionPacket)
    : option (list Z * list Z) :=
  match nodes with
  | [] => None
  | node :: nodes =>
      match onion_router_unwrap node packet sender_public with
      | inr (next_hint, inner) => prod_map (cons next_hint) id <$> carry sender_public nodes inner
      | inl ONION_ERROR_NO_MORE_LAYERS =>
          match onion_router_unwrap_final node packet sender_public with
          | inr payload => if (length nodes =? 0)%nat then Some ([], payload) else None
          | inl _ => None
          end
      | inl _ => None
      end
  end.
End router.

(** ** Layers *)

#[local] Opaque kdf hkdf_derive sha256_hash.

Lemma layer_key_ok shared i :
  length (derive_layer_key shared i) = 32%nat /\ bytes_ok (derive_layer_key shared i).
Proof. unfold derive_layer_key. apply kdf_ok. lia. Qed.

(** The tag is HMAC-SHA-256 cut to 16 bytes, for any data a packet can hold. *)
Lemma onion_tag_hmac key data :
  length key = 32%nat -> (length data <= 256)%nat ->
  onion_router_compute_tag key data = take 16 (hmac_sha256_mac key data).
Proof.
  intros Hk Hd. unfold onion_router_compute_tag, heapless_vec_u8_320_extend_from_slice. cbn zeta.
  rewrite !tag_pad by done.
  assert (forall c, length (xor_bytes (rfc_key sha256_hash key) (replicate 64 c)) = 64%nat) as Hp.
  { intros c. rewrite length_xor_bytes, length_replicate. unfold rfc_key. rewrite Hk. cbn [Nat.ltb Nat.leb].
    rewrite length_app, length_replicate. lia. }
  rewrite vec_extend_Some by (rewrite Hp; cbn; lia). cbn [default from_option id].
  rewrite vec_extend_Some by (rewrite length_app, Hp; cbn; lia). cbn [default from_option id].
  by rewrite hmac_sha256_mac_rfc.
Qed.

Lemma length_onion_tag key data : length (onion_router_compute_tag key data) = 16%nat.
Proof. unfold onion_router_compute_tag. rewrite length_take, digest_length. done. Qed.

#[local] Opaque derive_layer_key onion_router_compute_tag.

Section layers.
Context (aes256 : list Z -> list Z -> list Z) `{!BlockCipher aes256}.

(** The key stream of a layer, longer than any packet. *)
Definition layer_stream (key : list Z) : list Z :=
  ctr_stream (keystream_block aes256 key) (fun n => u64 (n + 1)) 256 0.

Lemma keystream_block_length key n :
  length key = 32%nat -> bytes_ok key -> length (keystream_block aes256 key n) = 16%nat.
Proof.
  intros Hl Hk. unfold keystream_block. apply cipher_length; [done..|].
  split; [by rewrite length_app, length_replicate, length_le_bytes|].
  apply Forall_app. split; [|apply le_bytes_ok]. apply Forall_replicate. words_lia.
Qed.

Lemma length_layer_stream key :
  length key = 32%nat -> bytes_ok key -> length (layer_stream key) = (16 * 256)%nat.
Proof.
  intros Hl Hk. unfold layer_stream.
  rewrite (length_ctr_stream 16 _ _ (fun _ => True)) by (done || lia || (intros; by apply keystream_block_length)).
  done.
Qed.

Lemma encrypt_layer_stream key d :
  length key = 32%nat -> bytes_ok key -> (length d <= 256)%nat ->
  onion_router_encrypt_layer aes256 key d = Some (xor_bytes d (layer_stream key)).
Proof.
  intros Hl Hk Hd. unfold onion_router_encrypt_layer, heapless_vec_u8_256_extend_from_slice.
  rewrite vec_extend_Some by (cbn; lia). cbn [mbind option_bind app]. f_equal.
  apply (ctr_loop_stream_ge 16 _ _ (fun _ => True)); try (done || lia).
  intros; by apply keystream_block_length.
Qed.

Lemma encrypt_layer_None key d :
  (256 < length d)%nat -> onion_router_encrypt_layer aes256 key d = None.
Proof.
  intros Hd. unfold onion_router_encrypt_layer, heapless_vec_u8_256_extend_from_slice.
  rewrite vec_extend_None by (cbn; lia). done.
Qed.

(** The layer a hop adds: the hint of the next one, the tag, the encrypted rest. *)
Definition layer (key : list Z) (next : Z) (current : list Z) : list Z :=
  let encrypted := xor_bytes current (layer_stream key) in
  [u8 (next .>> 8); u8 next] ++ onion_router_compute_tag key encrypted ++ encrypted.

Lemma length_layer key next current :
  length key = 32%nat -> bytes_ok key -> (length current <= 256)%nat ->
  length (layer key next current) = (length current + 18)%nat.
Proof.
  intros Hl Hk Hc. unfold layer. rewrite !length_app, length_onion_tag, length_xor_bytes, length_layer_stream by done.
  cbn [length]. lia.
Qed.

Context (x25519 : list Z -> list Z -> list Z).

Definition next_hint (route : list RouteHop) : Z :=
  match route with [] => 0 | hop :: _ => hint hop end.

Definition hop_key (self : OnionRouter) (hop : RouteHop) (rest : list RouteHop) : list Z :=
  derive_layer_key (x25519 (our_private self) (public_key hop)) (u8 (Z.of_nat (length rest))).

(** The packet for a route, one layer per hop, the first one outside. *)
Fixpoint onion (self : OnionRouter) (route : list RouteHop) (payload : list Z) : list Z :=
  match route with
  | [] => payload
  | hop :: rest => layer (hop_key self hop rest) (next_hint rest) (onion self rest payload)
  end.

Lemma length_onion self route payload :
  (length payload + 18 * length route <= 256)%nat ->
  length (onion self route payload) = (length payload + 18 * length route)%nat.
Proof.
  induction route as [|hop rest IH]; intros Hl; cbn [onion length] in *; [lia|].
  assert (length (onion self rest payload) = length payload + 18 * length rest)%nat as Hr by (apply IH; lia).
  rewrite length_layer; try apply layer_key_ok; lia.
Qed.

(** Writing a layer into its buffer, for any key, tag and hint. *)
Lemma write_layer (tag encrypted : list Z) next :
  length tag = 16%nat -> (length encrypted + 18 <= 256)%nat ->
  (new_layer ← heapless_vec_u8_256_push [] (u8 (next .>> 8));
   new_layer ← heapless_vec_u8_256_push new_layer (u8 next);
   new_layer ← heapless_vec_u8_256_extend_from_slice new_layer tag;
   heapless_vec_u8_256_extend_from_slice new_layer encrypted)
  = Some ([u8 (next .>> 8); u8 next] ++ tag ++ encrypted).
Proof.
  intros Ht Hc. unfold heapless_vec_u8_256_push, heapless_vec_u8_256_extend_from_slice.
  rewrite vec_push_Some by (cbn; lia). cbn [mbind option_bind app].
  rewrite vec_push_Some by (cbn; lia). cbn [mbind option_bind app].
  rewrite vec_extend_Some by (rewrite Ht; cbn; lia). cbn [mbind option_bind].
  rewrite vec_extend_Some by (rewrite !length_app, Ht; cbn; lia). done.
Qed.

Lemma wrap_layer_eq self route i hop rest current :
  drop i route = hop :: rest -> (length current + 18 <= 256)%nat ->
  wrap_layer aes256 x25519 self route i current = Some (layer (hop_key self hop rest) (next_hint rest) current).
Proof.
  intros Hd Hc.
  assert (route !! i = Some hop) as Hi by by rewrite <- (Nat.add_0_r i), <- lookup_drop, Hd.
  assert (route !! S i = head rest) as HSi.
  { rewrite <- (Nat.add_1_r i), <- lookup_drop, Hd. by destruct rest. }
  assert (length route - i = S (length rest))%nat as Hlen by by rewrite <- length_drop, Hd.
  unfold wrap_layer, hop_key. rewrite Hi. cbn [mbind option_bind].
  replace (length route - 1 - i)%nat with (length rest) by lia.
  destruct (layer_key_ok (x25519 (our_private self) (public_key hop)) (u8 (Z.of_nat (length rest)))) as [Kl Kb].
  revert Kl Kb. generalize (derive_layer_key (x25519 (our_private self) (public_key hop)) (u8 (Z.of_nat (length rest)))).
  intros key Kl Kb. rewrite encrypt_layer_stream by (done || lia). cbn [mbind option_bind].
  assert ((if (i =? length route - 1)%nat then 0 else
             match route !! S i with Some next => hint next | None => 0 end) = next_hint rest) as ->.
  { rewrite HSi. destruct rest; cbn [head next_hint length] in *; [by case_match|].
    destruct (Nat.eqb_spec i (length route - 1)); [lia|done]. }
  apply write_layer; [apply length_onion_tag|]. rewrite length_xor_bytes, length_layer_stream by done. lia.
Qed.

Lemma wrap_loop_onion self route payload n :
  (n <= length route)%nat -> (length payload + 18 * length route <= 256)%nat ->
  wrap_loop aes256 x25519 self route n (onion self (drop n route) payload) = Some (onion self route payload).
Proof.
  intros Hn Hl. induction n as [|i IH]; [done|]. cbn [wrap_loop].
  destruct (lookup_lt_is_Some_2 route i) as [hop Hi]; [lia|].
  pose proof (drop_S _ _ _ Hi) as Hd.
  rewrite (wrap_layer_eq _ _ _ hop (drop (S i) route)) by
    (done || (rewrite length_onion; rewrite length_drop; lia)).
  cbn [mbind option_bind]. rewrite Hd in IH. apply IH. lia.
Qed.

(** Wrapping gives the layered packet whenever the route is valid and the payload fits. *)
Lemma wrap_onion self payload route :
  (MIN_HOPS <= length route <= MAX_HOPS)%nat -> (length payload + 18 * length route <= 256)%nat ->
  onion_router_wrap aes256 x25519 self payload (mkRoute route)
  = inr (mkPacket (onion self route payload) (Z.of_nat (length route))).
Proof.
  unfold MIN_HOPS, MAX_HOPS. intros Hr Hl. unfold onion_router_wrap, onion_route_overhead, HOP_OVERHEAD,
    NODE_HINT_SIZE, AUTH_TAG_SIZE, MIN_HOPS, MAX_HOPS. cbn [hops].
  destruct (Nat.ltb_spec (length route) 3); [lia|]. destruct (Nat.ltb_spec 7 (length route)); [lia|]. cbn [orb].
  destruct (Nat.ltb_spec 256 (length payload + length route * (2 + 16))); [lia|].
  unfold heapless_vec_u8_256_extend_from_slice. rewrite vec_extend_Some by (cbn; lia). cbn [app].
  pose proof (wrap_loop_onion self route payload (length route) (Nat.le_refl _) Hl) as Hw.
  rewrite drop_all in Hw. cbn [onion] in Hw. rewrite Hw. rewrite u8_small by words_lia. done.
Qed.
Lemma wrap_valid self payload route p :
  onion_router_wrap aes256 x25519 self payload (mkRoute route) = inr p ->
  (MIN_HOPS <= length route <= MAX_HOPS)%nat /\ (length payload + 18 * length route <= 256)%nat.
Proof.
  unfold onion_router_wrap, onion_route_overhead. cbn [hops]. change HOP_OVERHEAD with 18%nat.
  repeat match goal with |- context [(?a <? ?b)%nat] => destruct (Nat.ltb_spec a b) end; cbn [orb]; try done.
  intros _. lia.
Qed.

(** ** Taking a layer off *)

Lemma hint_bytes h : fits 16 h -> (u8 (h .>> 8) .<< 8) .| u8 h = h.
Proof.
  intros Hh. rewrite Z.lor_comm, lor_shiftl_add, shiftr_8 by (done || apply fits_u8). words_lia.
Qed.

(** The key with which a node opens a packet. *)
Definition opening_key (node : OnionRouter) (sender_public : list Z) (layers : Z) : list Z :=
  derive_layer_key (x25519 (our_private node) sender_public) (if 0 <? layers then layers - 1 else 0).

(** Every outcome: only the tag of the encrypted part decides. *)
Lemma open_layer_spec node p pub (key := opening_key node pub (num_layers p)) :
  (length (data p) <= 256)%nat ->
  open_layer aes256 x25519 node p pub =
  if (length (data p) <? 18)%nat then inl ONION_ERROR_DECRYPTION_FAILED
  else if bool_decide (slice (data p) 2 16 = onion_router_compute_tag key (drop 18 (data p)))
  then inr (xor_bytes (drop 18 (data p)) (layer_stream key)) else inl ONION_ERROR_AUTHENTICATION_FAILED.
Proof.
  intros Hl. subst key. unfold open_layer, opening_key. change HOP_OVERHEAD with 18%nat.
  destruct (layer_key_ok (x25519 (our_private node) pub) (if 0 <? num_layers p then num_layers p - 1 else 0)) as [Kl Kb].
  revert Kl Kb. generalize (derive_layer_key (x25519 (our_private node) pub) (if 0 <? num_layers p then num_layers p - 1 else 0)).
  intros key Kl Kb. destruct (length (data p) <? 18)%nat; [done|].
  generalize (onion_router_compute_tag key (drop 18 (data p))). intros tag.
  case_bool_decide as Ht.
  - rewrite (proj2 (constant_time_eq_spec _ _) Ht). cbn [negb]. unfold onion_router_decrypt_layer.
    rewrite encrypt_layer_stream by (done || (rewrite length_drop; lia)). done.
  - destruct (constant_time_eq _ _) eqn:E; [by apply constant_time_eq_spec in E|done].
Qed.

(** The first two bytes do not matter to it. *)
Lemma open_layer_hint node p pub h1 h2 d :
  (length (data p) <= 256)%nat -> open_layer aes256 x25519 node p pub = inr d ->
  open_layer aes256 x25519 node (mkPacket ([h1; h2] ++ drop 2 (data p)) (num_layers p)) pub = inr d.
Proof.
  intros Hl Ho. rewrite open_layer_spec in Ho by done.
  destruct (Nat.ltb_spec (length (data p)) 18) as [|H18]; [done|].
  assert (length ([h1; h2] ++ drop 2 (data p)) = length (data p)) as Hlen by (rewrite length_app, length_drop; cbn; lia).
  rewrite open_layer_spec; cbn [data num_layers]; rewrite Hlen; [|done].
  destruct (Nat.ltb_spec (length (data p)) 18); [lia|].
  replace (drop 18 ([h1; h2] ++ drop 2 (data p))) with (drop 18 (data p))
    by (change 18%nat with (2 + 16)%nat; by rewrite <- !drop_drop).
  replace (slice ([h1; h2] ++ drop 2 (data p)) 2 16) with (slice (data p) 2 16) by done.
  exact Ho.
Qed.

(** The parts of a buffer that holds a layer. *)
Lemma layer_parts (h1 h2 : Z) (tag enc : list Z) :
  length tag = 16%nat ->
  slice ([h1; h2] ++ tag ++ enc) 2 16 = tag /\ drop 18 ([h1; h2] ++ tag ++ enc) = enc.
Proof.
  intros Ht. split; [by apply (slice_cut [h1; h2] tag enc)|].
  rewrite app_assoc. apply drop_app_length'. by rewrite length_app, Ht.
Qed.

(** A node that shares a secret with the sender takes the sender's layer off. *)
Lemma open_layer_layer node pub sh i next current n :
  x25519 (our_private node) pub = sh -> 0 <= i -> n = i + 1 -> (length current + 18 <= 256)%nat ->
  open_layer aes256 x25519 node (mkPacket (layer (derive_layer_key sh i) next current) n) pub = inr current.
Proof.
  intros Hsh Hi -> Hc. destruct (layer_key_ok sh i) as [Kl Kb].
  rewrite open_layer_spec; cbn [data num_layers]; [|rewrite length_layer by (done || lia); lia].
  rewrite length_layer by (done || lia). destruct (Nat.ltb_spec (length current + 18) 18); [lia|].
  unfold opening_key. rewrite Hsh, (proj2 (Z.ltb_lt 0 (i + 1))), Z.add_simpl_r by lia.
  revert Kl Kb. generalize (derive_layer_key sh i). intros key Kl Kb.
  destruct (layer_parts (u8 (next .>> 8)) (u8 next)
    (onion_router_compute_tag key (xor_bytes current (layer_stream key))) (xor_bytes current (layer_stream key))
    (length_onion_tag _ _)) as [Hs Hd].
  unfold layer. cbn zeta. rewrite Hs, Hd, bool_decide_true by reflexivity. f_equal.
  apply xor_bytes_involutive. rewrite length_layer_stream by done. lia.
Qed.

Lemma unwrap_layer node pub sh i next current n :
  x25519 (our_private node) pub = sh -> 0 <= i -> n = i + 1 -> (length current + 18 <= 256)%nat -> fits 16 next ->
  onion_router_unwrap aes256 x25519 node (mkPacket (layer (derive_layer_key sh i) next current) n) pub
  = if next =? 0 then inl ONION_ERROR_NO_MORE_LAYERS else inr (next, mkPacket current i).
Proof.
  intros Hsh Hi Hn Hc Hx. unfold onion_router_unwrap.
  rewrite (open_layer_layer node pub sh i next current n Hsh Hi Hn Hc). cbn [data num_layers].
  change ((layer (derive_layer_key sh i) next current).[0]) with (u8 (next .>> 8)).
  change ((layer (derive_layer_key sh i) next current).[1]) with (u8 next).
  rewrite hint_bytes by done. rewrite Hn, (proj2 (Z.ltb_lt 0 (i + 1))), Z.add_simpl_r by lia. done.
Qed.
(** ** Delivery along a route *)

(** The node computes the secret the sender computed with the hop's public key. *)
Definition shares (self : OnionRouter) (hop : RouteHop) (node : OnionRouter) : Prop :=
  x25519 (our_private node) (our_public self) = x25519 (our_private self) (public_key hop).

Lemma carry_onion self payload hop route node nodes :
  (length payload + 18 * S (length route) <= 256)%nat -> (length route < 256)%nat ->
  Forall (fun h => fits 16 h /\ h <> 0) (hint <$> route) ->
  shares self hop node -> Forall2 (shares self) route nodes ->
  carry aes256 x25519 (our_public self) (node :: nodes)
    (mkPacket (onion self (hop :: route) payload) (Z.of_nat (S (length route))))
  = Some (hint <$> route, payload).
Proof.
  intros Hl Hr Hh Hn Hs. revert hop node Hn Hl Hr.
  induction Hs as [|hop' node' route nodes Hn' Hs IH]; intros hop node Hn Hl Hr; cbn [carry onion].
  - unfold hop_key. cbn [length next_hint] in *.
    rewrite (unwrap_layer _ _ _ _ _ _ _ Hn) by (words_lia || done). cbn [Z.eqb].
    unfold onion_router_unwrap_final.
    rewrite (open_layer_layer _ _ _ _ _ _ _ Hn) by (words_lia || done). done.
  - rewrite fmap_cons, Forall_cons in Hh. destruct Hh as [[H16 H0] Hh]. cbn [length next_hint] in *.
    assert (u8 (Z.of_nat (S (length route))) = Z.of_nat (S (length route))) as Hu by (apply u8_small; words_lia).
    unfold hop_key at 1. cbn [length].
    change (layer (hop_key self hop' route) (next_hint route) (onion self route payload)) with (onion self (hop' :: route) payload).
    rewrite (unwrap_layer _ _ _ _ _ _ _ Hn) by
      (done || words_lia || (rewrite length_onion; cbn [length]; lia)).
    rewrite (proj2 (Z.eqb_neq _ _) H0), Hu.
    specialize (IH Hh hop' node' Hn' ltac:(lia) ltac:(lia)). cbn [carry] in IH. rewrite IH. done.
Qed.

(** C16. A payload wrapped for a route of three to seven hops that fits the buffer reaches the
    last hop unchanged: every node on the way takes its layer off, reads the hint of the
    next hop and hands on a packet 18 bytes shorter, and only the last one gets the payload.
    It takes nodes that share a secret with the sender and hints other than 0, the mark of
    the last layer. *)
Theorem onion_delivery (self : OnionRouter) (payload : list Z) (route : list RouteHop) (nodes : list OnionRouter) :
  (MIN_HOPS <= length route <= MAX_HOPS)%nat ->
  (length payload + length route * HOP_OVERHEAD <= 256)%nat ->
  Forall (fun h => fits 16 h /\ h <> 0) (hint <$> tail route) ->
  Forall2 (shares self) route nodes ->
  exists packet, onion_router_wrap aes256 x25519 self payload (mkRoute route) = inr packet
    /\ length (data packet) = (length payload + length route * HOP_OVERHEAD)%nat
    /\ num_layers packet = Z.of_nat (length route)
    /\ carry aes256 x25519 (our_public self) nodes packet = Some (hint <$> tail route, payload).
Proof.
  change HOP_OVERHEAD with 18%nat. intros Hr Hl Hh Hs. exists (mkPacket (onion self route payload) (Z.of_nat (length route))).
  rewrite wrap_onion by (done || lia). cbn [data num_layers]. rewrite length_onion by lia. repeat split; [lia|].
  unfold MIN_HOPS, MAX_HOPS in Hr. inversion Hs as [|hop node route' nodes' Hn Hs']; subst; [cbn in Hr; lia|].
  cbn [length tail] in *. apply carry_onion; (done || lia).
Qed.

(** ** Key streams *)

Lemma drop_xor_bytes m (a k : list Z) : drop m (xor_bytes a k) = xor_bytes (drop m a) (drop m k).
Proof. apply zip_with_drop. Qed.

(** Two texts under one key stream: their difference is that of the plaintexts. *)
Lemma xor_two_streams (a b k : list Z) :
  (length a <= length k)%nat -> (length b <= length k)%nat ->
  xor_bytes (xor_bytes a k) (xor_bytes b k) = xor_bytes a b.
Proof.
  revert b k. induction a as [|x a IH]; intros [|y b] [|z k] Ha Hb; simpl in *; try done; try lia.
  f_equal; [|apply IH; lia].
  rewrite (Z.lxor_comm y z), Z.lxor_assoc, <- (Z.lxor_assoc z z), Z.lxor_nilpotent, Z.lxor_0_l. done.
Qed.

Lemma onion_difference self route a b :
  (length a + 18 * length route <= 256)%nat -> (length b + 18 * length route <= 256)%nat ->
  xor_bytes (drop (18 * length route) (onion self route a)) (drop (18 * length route) (onion self route b))
  = xor_bytes a b.
Proof.
  induction route as [|hop rest IH]; intros Ha Hb; [by rewrite !drop_0|]. cbn [onion length].
  replace (18 * S (length rest))%nat with (18 + 18 * length rest)%nat by lia. rewrite <- !drop_drop.
  cbn [length] in Ha, Hb. rewrite <- IH by lia. unfold hop_key.
  destruct (layer_key_ok (x25519 (our_private self) (public_key hop)) (u8 (Z.of_nat (length rest)))) as [Kl Kb].
  revert Kl Kb. generalize (derive_layer_key (x25519 (our_private self) (public_key hop)) (u8 (Z.of_nat (length rest)))).
  intros key Kl Kb. unfold layer. cbn zeta. rewrite !(fun h1 h2 t e Ht => proj2 (layer_parts h1 h2 t e Ht)) by apply length_onion_tag.
  rewrite !drop_xor_bytes. apply xor_two_streams; rewrite !length_drop, length_onion, length_layer_stream by (done || lia); lia.
Qed.

(** C26. The key of a layer depends on the two parties and the layer alone, and its counter
    starts at 0 in every packet: two packets one sender wraps for one route differ, in the
    bytes of the payload, by the difference of the two payloads. Whoever hears both on the
    first hop reads it off without any key. *)
Theorem onion_two_time_pad (self : OnionRouter) (a b : list Z) (route : list RouteHop) (p q : OnionPacket)
    (n := (length route * HOP_OVERHEAD)%nat) :
  onion_router_wrap aes256 x25519 self a (mkRoute route) = inr p ->
  onion_router_wrap aes256 x25519 self b (mkRoute route) = inr q ->
  xor_bytes (drop n (data p)) (drop n (data q)) = xor_bytes a b.
Proof.
  subst n. change HOP_OVERHEAD with 18%nat. intros Ha Hb.
  destruct (wrap_valid _ _ _ _ Ha) as [Hr Hla]. destruct (wrap_valid _ _ _ _ Hb) as [_ Hlb].
  rewrite wrap_onion in Ha, Hb by done. simplify_eq. cbn [data].
  rewrite Nat.mul_comm. by apply onion_difference.
Qed.

(** The tag covers the encrypted part only. Whatever a node accepts it accepts with every
    other hint in the first two bytes as well: it hands the same inner packet to the hop an
    attacker names, and a hint of 0 makes it take the inner packet for a payload of its
    own. *)
Theorem onion_hint_malleable (node : OnionRouter) (p inner : OnionPacket) (sender_public : list Z) (h h' : Z)
    (forged := mkPacket ([u8 (h' .>> 8); u8 h'] ++ drop 2 (data p)) (num_layers p)) :
  (length (data p) <= 256)%nat -> fits 16 h' ->
  onion_router_unwrap aes256 x25519 node p sender_public = inr (h, inner) ->
  (h' <> 0 -> onion_router_unwrap aes256 x25519 node forged sender_public = inr (h', inner))
  /\ (h' = 0 -> onion_router_unwrap aes256 x25519 node forged sender_public = inl ONION_ERROR_NO_MORE_LAYERS
      /\ onion_router_unwrap_final aes256 x25519 node forged sender_public = inr (data inner)).
Proof.
  intros Hl H16 Hu. unfold onion_router_unwrap in Hu.
  destruct (open_layer aes256 x25519 node p sender_public) as [|d] eqn:Ho; [done|].
  assert (open_layer aes256 x25519 node forged sender_public = inr d) as Hf.
  { by apply open_layer_hint. }
  destruct (_ =? 0); [done|]. injection Hu as _ <-. unfold onion_router_unwrap, onion_router_unwrap_final.
  rewrite Hf. change ((data forged).[0]) with (u8 (h' .>> 8)). change ((data forged).[1]) with (u8 h').
  rewrite hint_bytes by done. split; intros Hh.
  - by rewrite (proj2 (Z.eqb_neq _ _) Hh).
  - subst h'. done.
Qed.

(** [onion_router_wrap] refuses routes of fewer than three or more than seven hops, then
    payloads that with the layers exceed 256 bytes, and nothing else. *)
Theorem onion_wrap_outcome (self : OnionRouter) (payload : list Z) (route : OnionRoute)
    (n := onion_route_len route) (size := (length payload + onion_route_overhead route)%nat) :
  onion_router_wrap aes256 x25519 self payload route =
   (if (n <? MIN_HOPS)%nat || (MAX_HOPS <? n)%nat then inl ONION_ERROR_INVALID_ROUTE
    else if (256 <? size)%nat then inl ONION_ERROR_PACKET_TOO_LARGE
    else inr (mkPacket (onion self (hops route) payload) (Z.of_nat n)))
  /\ ((size <= 256)%nat -> length (onion self (hops route) payload) = size).
Proof.
  subst n size. destruct route as [route]. unfold onion_route_len, onion_route_overhead. cbn [hops].
  change HOP_OVERHEAD with 18%nat. split; [|intros; rewrite length_onion; lia].
  destruct (Nat.ltb_spec (length route) MIN_HOPS), (Nat.ltb_spec MAX_HOPS (length route)),
    (Nat.ltb_spec 256 (length payload + length route * 18)); cbn [orb];
    try (apply wrap_onion; lia); unfold onion_router_wrap, onion_route_overhead; cbn [hops]; change HOP_OVERHEAD with 18%nat.
  all: repeat match goal with |- context [(?a <? ?b)%nat] => destruct (Nat.ltb_spec a b); try lia end; done.
Qed.
End layers.

(** ** The route builder *)

Definition add_relays (builder : RouteBuilder) (rs : list RouteHop) : RouteBuilder :=
  foldl (fun b r => (route_builder_add_relay b (hint r) (public_key r)).1) builder rs.

Lemma add_relays_take rs builder :
  (length (relays builder) <= 32)%nat -> relays (add_relays builder rs) = take 32 (relays builder ++ rs).
Proof.
  revert builder. induction rs as [|[h k] rs IH]; intros [v] Hv; cbn [relays] in *.
  - by rewrite app_nil_r, take_ge.
  - unfold add_relays. cbn [foldl]. fold (add_relays (route_builder_add_relay (mkBuilder v) h k).1 rs).
    unfold route_builder_add_relay, heapless_vec_routehop_32_push. cbn [relays hint public_key].
    destruct (Nat.leb_spec 32 (length v)); cbn [fst].
    + rewrite IH by done. cbn [relays]. by rewrite !take_app_le, !take_ge by lia.
    + rewrite IH by (cbn [relays]; rewrite length_app; cbn; lia). cbn [relays]. by rewrite <- app_assoc.
Qed.

Lemma pick_relays (rs : list RouteHop) n (v : list RouteHop) :
  (n <= length rs)%nat -> (length v + n <= MAX_HOPS)%nat -> forall start, (start + n <= length rs)%nat ->
  foldl (fun acc i =>
      v ← acc; relay ← rs !! (i mod length rs)%nat; heapless_vec_routehop_push v relay) (Some v) (seq start n)
  = Some (v ++ take n (drop start rs)).
Proof.
  intros Hn. revert v. induction n as [|n IH]; intros v Hv start Hs; [by rewrite app_nil_r|].
  cbn [seq foldl mbind option_bind]. rewrite Nat.mod_small by lia.
  destruct (lookup_lt_is_Some_2 rs start) as [r Hr]; [lia|]. rewrite Hr. cbn [mbind option_bind].
  unfold heapless_vec_routehop_push at 2. destruct (Nat.leb_spec MAX_HOPS (length v)); [lia|].
  rewrite IH by (rewrite ?length_app; cbn; lia). f_equal. rewrite <- app_assoc. f_equal.
  by rewrite (drop_S _ _ _ Hr).
Qed.
Lemma push_hops_all route v :
  (length v + length route <= MAX_HOPS)%nat -> push_hops v route = Some (v ++ route).
Proof.
  revert v. induction route as [|h route IH]; intros v Hl; [by rewrite app_nil_r|]. cbn [length] in Hl.
  unfold push_hops. cbn [foldl mbind option_bind]. unfold heapless_vec_routehop_push at 2.
  destruct (Nat.leb_spec MAX_HOPS (length v)); [lia|].
  fold (push_hops (v ++ [h]) route). rewrite IH by (rewrite length_app; cbn; lia). by rewrite <- app_assoc.
Qed.

(** A builder keeps the first 32 relays in the order they are added. A route of three to
    seven hops exists as soon as there are relays for all hops but the last: the first ones
    of the builder, every time, then the destination; it is a route [onion_route_new]
    accepts. *)
Theorem route_builder_routes (rs : list RouteHop) (destination : RouteHop) (n : nat)
    (builder := add_relays route_builder_new rs) (route := take (n - 1) rs ++ [destination]) :
  route_builder_relay_count builder = (length rs `min` 32)%nat
  /\ route_builder_build_route builder destination n =
     (if (MIN_HOPS <=? n)%nat && (n <=? MAX_HOPS)%nat && (n <=? S (length rs))%nat
      then onion_route_new route else None)
  /\ ((MIN_HOPS <= n <= MAX_HOPS)%nat -> (n <= S (length rs))%nat ->
     onion_route_new route = Some (mkRoute route) /\ length route = n
     /\ onion_route_exit_hint (mkRoute route) = hint destination).
Proof.
  assert (relays builder = take 32 rs) as Hb by (apply (add_relays_take rs route_builder_new); cbn; lia).
  assert ((n <= S (length rs))%nat -> length route = (n - 1 + 1)%nat) as Hl.
  { intros. unfold route. rewrite length_app, length_take. cbn. lia. }
  assert ((MIN_HOPS <= n <= MAX_HOPS)%nat -> (n <= S (length rs))%nat -> onion_route_new route = Some (mkRoute route)) as Hnew.
  { unfold MIN_HOPS, MAX_HOPS. intros Hn Hle. unfold onion_route_new, MIN_HOPS. rewrite Hl by done.
    rewrite push_hops_all by (cbn [length]; rewrite Hl by done; unfold MAX_HOPS; lia).
    unfold MAX_HOPS. destruct (Nat.ltb_spec (n - 1 + 1) 3), (Nat.ltb_spec 7 (n - 1 + 1)); try lia. done. }
  split; [unfold route_builder_relay_count; rewrite Hb, length_take; lia|]. split.
  - unfold route_builder_build_route. rewrite Hb, length_take. unfold MIN_HOPS, MAX_HOPS in *.
    destruct (Nat.ltb_spec n 3), (Nat.ltb_spec 7 n), (Nat.leb_spec 3 n), (Nat.leb_spec n 7); try lia; cbn [orb andb]; try done.
    destruct (Nat.ltb_spec (32 `min` length rs) (n - 1)), (Nat.leb_spec n (S (length rs))); try lia; cbn [andb]; [done|].
    rewrite Hnew by lia. replace (32 `min` length rs)%nat with (length (take 32 rs)) by apply length_take.
    rewrite (pick_relays (take 32 rs) (n - 1) [] ltac:(rewrite length_take; lia) ltac:(cbn; unfold MAX_HOPS; lia) 0)
      by (rewrite length_take; lia).
    cbn [mbind option_bind app]. rewrite drop_0, take_take, Nat.min_l by lia.
    unfold heapless_vec_routehop_push. rewrite length_take. unfold MAX_HOPS.
    destruct (Nat.leb_spec 7 ((n - 1) `min` length rs)); [lia|done].
  - intros Hn Hle. split; [by apply Hnew|]. split; [rewrite Hl by done; unfold MIN_HOPS in Hn; lia|].
    unfold onion_route_exit_hint, heapless_vec_routehop_last. cbn [hops]. rewrite (Hl Hle).
    replace (n - 1 + 1 =? 0)%nat with false by (symmetry; apply Nat.eqb_neq; lia).
    unfold route. rewrite lookup_app_r by (rewrite length_take; lia).
    rewrite length_take. unfold MIN_HOPS in Hn. by replace (n - 1 + 1 - 1 - (n - 1) `min` length rs)%nat with 0%nat by lia.
Qed.
(** ** Witnesses: AES-256, and a symmetric key agreement whose public keys are the private
    ones *)

Definition aes_block (key block : list Z) : list Z := Aes.aes256_encrypt_block (Aes.aes256_new key) block.
#[local] Instance aes_block_cipher : BlockCipher aes_block.
Proof. exact aes_cipher. Qed.

#[local] Ltac by_eval := apply (bool_decide_unpack _); vm_compute; exact I.

Definition toy_agreement (scalar point : list Z) : list Z := xor_bytes scalar point.
Definition toy_node (k : Z) : OnionRouter := mkRouter (replicate 32 k) (replicate 32 k) k.
Definition toy_hop (k : Z) : RouteHop := mkHop k (replicate 32 k).
Definition toy_route : list RouteHop := toy_hop <$> [7; 8; 9].

Lemma onion_delivery_witness :
  exists packet, onion_router_wrap aes_block toy_agreement (toy_node 1) [104; 105] (mkRoute toy_route) = inr packet
    /\ length (data packet) = 56%nat /\ num_layers packet = 3
    /\ carry aes_block toy_agreement (replicate 32 1) (toy_node <$> [7; 8; 9]) packet = Some ([8; 9], [104; 105]).
Proof.
  apply (onion_delivery aes_block toy_agreement (toy_node 1) [104; 105] toy_route (toy_node <$> [7; 8; 9])).
  - vm_compute. lia.
  - vm_compute. lia.
  - apply (bool_decide_unpack _). vm_compute. exact I.
  - repeat apply Forall2_cons_2; try apply Forall2_nil_2; reflexivity.
Defined.

Lemma onion_two_time_pad_witness :
  xor_bytes (drop 54 (onion aes_block toy_agreement (toy_node 1) toy_route [104; 105]))
            (drop 54 (onion aes_block toy_agreement (toy_node 1) toy_route [98; 121; 101]))
  = [10; 16].
Proof.
  exact (onion_two_time_pad aes_block toy_agreement (toy_node 1) [104; 105] [98; 121; 101] toy_route _ _
    (wrap_onion aes_block toy_agreement (toy_node 1) [104; 105] toy_route
       ltac:(by_eval) ltac:(by_eval))
    (wrap_onion aes_block toy_agreement (toy_node 1) [98; 121; 101] toy_route
       ltac:(by_eval) ltac:(by_eval))).
Defined.

Definition toy_packet : OnionPacket :=
  mkPacket (layer aes_block (derive_layer_key (replicate 32 6) 1) 8 [1; 2; 3]) 2.

Lemma onion_hint_malleable_witness :
  onion_router_unwrap aes_block toy_agreement (toy_node 7)
    (mkPacket ([u8 (513 .>> 8); u8 513] ++ drop 2 (data toy_packet)) (num_layers toy_packet)) (replicate 32 1)
  = inr (513, mkPacket [1; 2; 3] 1).
Proof.
  assert (length (data toy_packet) <= 256)%nat as Hl.
  { destruct (layer_key_ok (replicate 32 6) 1) as [Kl Kb]. unfold toy_packet. cbn [data].
    rewrite (length_layer aes_block _ 8 [1; 2; 3] Kl Kb ltac:(by_eval)). by_eval. }
  assert (onion_router_unwrap aes_block toy_agreement (toy_node 7) toy_packet (replicate 32 1)
          = inr (8, mkPacket [1; 2; 3] 1)) as Hu.
  { exact (unwrap_layer aes_block toy_agreement (toy_node 7) (replicate 32 1) (replicate 32 6) 1 8 [1; 2; 3] 2
      eq_refl ltac:(by_eval) eq_refl ltac:(by_eval) ltac:(by_eval)). }
  pose proof (onion_hint_malleable aes_block toy_agreement (toy_node 7) toy_packet (mkPacket [1; 2; 3] 1)
    (replicate 32 1) 8 513 Hl ltac:(by_eval) Hu) as [H _].
  apply H. discriminate.
Defined.
