(* ===== verification/Wire.v ===== *)
(** * Protocol buffer wire format: lunarcore/lunar/meshtastic/protobuf.c, mod.c

    The first codec of protobuf.c (functions [protobuf_encoder_*], [protobuf_decoder_*]):
    varints, tags, length-delimited and fixed-width fields, over a buffer with a capacity
    and a cursor. A [bool] function that changes its argument gives the new argument and the
    result: what a failed write has written stays in the buffer. The varint routines of the
    second codec and of mod.c are here too, next to the first. *)
From S2P Require Import Prelude.

(** ** Constants *)

Definition WIRE_TYPE_VARINT : Z := 0.
Definition WIRE_TYPE_64BIT : Z := 1.
Definition WIRE_TYPE_LENGTH_DELIMITED : Z := 2.
Definition WIRE_TYPE_32BIT : Z := 5.

(** Conversion to [int64_t]. *)
Definition i64 (x : Z) : Z := (x + 0x8000000000000000) mod 0x10000000000000000 - 0x8000000000000000.

(** ** The encoder *)

Record Vec_u8 := mkVec { vdata : list Z; capacity : nat }.

Definition vec_u8_init (capacity : nat) : Vec_u8 := mkVec [] capacity.

Definition vec_u8_push (vec : Vec_u8) (value : Z) : Vec_u8 * bool :=
  if (capacity vec <=? length (vdata vec))%nat then (vec, false)
  else (mkVec (vdata vec ++ [value]) (capacity vec), true).

Definition vec_u8_extend_from_slice (vec : Vec_u8) (data : list Z) : Vec_u8 * bool :=
  if (capacity vec <? length (vdata vec) + length data)%nat then (vec, false)
  else (mkVec (vdata vec ++ data) (capacity vec), true).

Definition vec_u8_is_empty (vec : Vec_u8) : bool := (length (vdata vec) =? 0)%nat.

(** [a && b] where both write. *)
Definition and_then (r : Vec_u8 * bool) (k : Vec_u8 -> Vec_u8 * bool) : Vec_u8 * bool :=
  match r with
  | (vec, true) => k vec
  | (vec, false) => (vec, false)
  end.

(** The loop of [protobuf_encoder_write_varint]: ten bytes hold any 64-bit value. *)
Fixpoint write_varint_loop (fuel : nat) (vec : Vec_u8) (v : Z) : Vec_u8 * bool :=
  match fuel with
  | O => (vec, false)
  | S fuel =>
      let byte := u8 (v .& 0x7F) in
      let v := v .>> 7 in
      if v =? 0 then vec_u8_push vec byte
      else and_then (vec_u8_push vec (byte .| 0x80)) (fun vec => write_varint_loop fuel vec v)
  end.

Definition protobuf_encoder_write_varint (vec : Vec_u8) (value : Z) : Vec_u8 * bool :=
  write_varint_loop 10 vec value.

Definition protobuf_encoder_write_sint32 (vec : Vec_u8) (value : Z) : Vec_u8 * bool :=
  let encoded := u32 ((value .<< 1) .^ (value .>> 31)) in
  protobuf_encoder_write_varint vec encoded.

Definition protobuf_encoder_write_sint64 (vec : Vec_u8) (value : Z) : Vec_u8 * bool :=
  let encoded := u64 ((value .<< 1) .^ (value .>> 63)) in
  protobuf_encoder_write_varint vec encoded.

Definition protobuf_encoder_write_tag (vec : Vec_u8) (field_number wire_type : Z) : Vec_u8 * bool :=
  let tag := u32 (field_number .<< 3) .| wire_type in
  protobuf_encoder_write_varint vec tag.

Definition protobuf_encoder_write_varint_field (vec : Vec_u8) (field_number value : Z) : Vec_u8 * bool :=
  if value =? 0 then (vec, true) else
  and_then (protobuf_encoder_write_tag vec field_number WIRE_TYPE_VARINT)
    (fun vec => protobuf_encoder_write_varint vec value).

Definition protobuf_encoder_write_sint32_field (vec : Vec_u8) (field_number value : Z) : Vec_u8 * bool :=
  if value =? 0 then (vec, true) else
  and_then (protobuf_encoder_write_tag vec field_number WIRE_TYPE_VARINT)
    (fun vec => protobuf_encoder_write_sint32 vec value).

Definition protobuf_encoder_write_bool_field (vec : Vec_u8) (field_number : Z) (value : bool) : Vec_u8 * bool :=
  if negb value then (vec, true) else
  and_then (protobuf_encoder_write_tag vec field_number WIRE_TYPE_VARINT) (fun vec => vec_u8_push vec 1).

Definition protobuf_encoder_write_bytes_field (vec : Vec_u8) (field_number : Z) (data : list Z) : Vec_u8 * bool :=
  if (length data =? 0)%nat then (vec, true) else
  and_then (protobuf_encoder_write_tag vec field_number WIRE_TYPE_LENGTH_DELIMITED)
    (fun vec => and_then (protobuf_encoder_write_varint vec (Z.of_nat (length data)))
    (fun vec => vec_u8_extend_from_slice vec data)).

Definition protobuf_encoder_write_string_field (vec : Vec_u8) (field_number : Z) (s : list Z) : Vec_u8 * bool :=
  protobuf_encoder_write_bytes_field vec field_number s.

Definition protobuf_encoder_write_fixed32_field (vec : Vec_u8) (field_number value : Z) : Vec_u8 * bool :=
  if value =? 0 then (vec, true) else
  and_then (protobuf_encoder_write_tag vec field_number WIRE_TYPE_32BIT)
    (fun vec => vec_u8_extend_from_slice vec
       [u8 (value .& 0xFF); u8 ((value .>> 8) .& 0xFF); u8 ((value .>> 16) .& 0xFF); u8 ((value .>> 24) .& 0xFF)]).

Definition protobuf_encoder_write_fixed64_field (vec : Vec_u8) (field_number value : Z) : Vec_u8 * bool :=
  if value =? 0 then (vec, true) else
  and_then (protobuf_encoder_write_tag vec field_number WIRE_TYPE_64BIT)
    (fun vec => vec_u8_extend_from_slice vec
       ((fun i => u8 ((value .>> (i * 8)) .& 0xFF)) <$> [0; 1; 2; 3; 4; 5; 6; 7])).

(** [encode_fn] writes the nested message into a buffer of [nested_capacity] bytes. *)
Definition protobuf_encoder_write_message_field (nested_capacity : nat) (vec : Vec_u8) (field_number : Z)
    (encode_fn : Vec_u8 -> Vec_u8 * bool) : Vec_u8 * bool :=
  let '(nested, ok) := encode_fn (vec_u8_init nested_capacity) in
  if negb ok then (vec, false)
  else if vec_u8_is_empty nested then (vec, true)
  else protobuf_encoder_write_bytes_field vec field_number (vdata nested).

(** ** The decoder: a state and error monad over the cursor

    [pos] and the lengths are [size_t], 32 bits on the targets. A pointer into the input is
    the input from there on, with the length that goes with it: a copy of more bytes than
    there are reads past the input, [Overread]. [OutOfFuel] is a loop that has not ended. *)

Record ProtobufDecoder := mkDecoder { data : list Z; pos : Z }.

Inductive Result (A : Type) :=
  | Val (a : A)
  | Refused
  | Overread
  | OutOfFuel.
Arguments Val {A} a.
Arguments Refused {A}.
Arguments Overread {A}.
Arguments OutOfFuel {A}.

Definition Read (A : Type) : Type := ProtobufDecoder -> Result A * ProtobufDecoder.
Definition ret {A} (a : A) : Read A := fun d => (Val a, d).
Definition stop {A} (r : Result A) : Read A := fun d => (r, d).
Definition bind {A B} (m : Read A) (k : A -> Read B) : Read B :=
  fun d => match m d with
           | (Val a, d) => k a d
           | (Refused, d) => (Refused, d)
           | (Overread, d) => (Overread, d)
           | (OutOfFuel, d) => (OutOfFuel, d)
           end.
Declare Scope wire_scope.
Notation "'let*' x ':=' m 'in' k" := (bind m (fun x => k))
  (at level 10, x name, m at level 100, k at level 200) : wire_scope.
#[global] Open Scope wire_scope.

(** What is left to read. *)
Definition unread (d : ProtobufDecoder) : list Z := drop (Z.to_nat (pos d)) (data d).

Definition protobuf_decoder_init (data : list Z) : ProtobufDecoder := mkDecoder data 0.

Definition protobuf_decoder_has_more (decoder : ProtobufDecoder) : bool :=
  pos decoder <? Z.of_nat (length (data decoder)).

(** The loop of [protobuf_decoder_read_varint] over the unread bytes, with the position. *)
Fixpoint read_varint_loop (bytes : list Z) (pos value shift : Z) : Result Z * Z :=
  match bytes with
  | [] => (Refused, pos)
  | byte :: bytes =>
      let pos := pos + 1 in
      let value := value .| u64 ((byte .& 0x7F) .<< shift) in
      if byte .& 0x80 =? 0 then (Val value, pos)
      else
        let shift := shift + 7 in
        if 64 <=? shift then (Refused, pos) else read_varint_loop bytes pos value shift
  end.

Definition protobuf_decoder_read_varint : Read Z := fun decoder =>
  let '(r, pos) := read_varint_loop (unread decoder) (pos decoder) 0 0 in
  (r, mkDecoder (data decoder) pos).

Definition protobuf_decoder_read_sint32 : Read Z :=
  let* encoded := protobuf_decoder_read_varint in
  let encoded32 := u32 encoded in
  ret (i32 ((encoded32 .>> 1) .^ (- (encoded32 .& 1)))).

Definition protobuf_decoder_read_sint64 : Read Z :=
  let* encoded := protobuf_decoder_read_varint in
  ret (i64 ((encoded .>> 1) .^ (- (encoded .& 1)))).

(** Field number and wire type. *)
Definition protobuf_decoder_read_tag : Read (Z * Z) :=
  let* tag := protobuf_decoder_read_varint in
  let tag32 := u32 tag in
  ret (tag32 .>> 3, u8 (tag32 .& 0x07)).

(** [if (pos + n > len) return false; p = &data[pos]; pos += n;], the sums modulo [2^32]. *)
Definition take_bytes (n : Z) : Read (list Z * Z) := fun decoder =>
  if Z.of_nat (length (data decoder)) <? u32 (pos decoder + n) then (Refused, decoder)
  else (Val (unread decoder, n), mkDecoder (data decoder) (u32 (pos decoder + n))).

Definition protobuf_decoder_read_bytes : Read (list Z * Z) :=
  let* length := protobuf_decoder_read_varint in
  take_bytes (u32 length).

(** [memcpy(.., p, n)]. *)
Definition copy (p : list Z) (n : Z) : Read (list Z) :=
  if Z.of_nat (length p) <? n then stop Overread else ret (take (Z.to_nat n) p).

Definition protobuf_decoder_read_fixed32 : Read Z :=
  let* p := take_bytes 4 in
  let* b := copy p.1 4 in
  ret (b.[0] .| (b.[1] .<< 8) .| (b.[2] .<< 16) .| (b.[3] .<< 24)).

Definition protobuf_decoder_read_fixed64 : Read Z :=
  let* p := take_bytes 8 in
  let* b := copy p.1 8 in
  ret (b.[0] .| (b.[1] .<< 8) .| (b.[2] .<< 16) .| (b.[3] .<< 24) .| (b.[4] .<< 32) .| (b.[5] .<< 40)
       .| (b.[6] .<< 48) .| (b.[7] .<< 56)).

Definition protobuf_decoder_skip_field (wire_type : Z) : Read unit :=
  if wire_type =? WIRE_TYPE_VARINT then let* dummy := protobuf_decoder_read_varint in ret ()
  else if wire_type =? WIRE_TYPE_64BIT then let* dummy := take_bytes 8 in ret ()
  else if wire_type =? WIRE_TYPE_LENGTH_DELIMITED then let* dummy := protobuf_decoder_read_bytes in ret ()
  else if wire_type =? WIRE_TYPE_32BIT then let* dummy := take_bytes 4 in ret ()
  else stop Refused.

Record FieldInfo := mkField { field_number : Z; wire_type : Z; field_data : list Z; field_len : Z }.

(** The bytes of a varint, up to the first without the continuation bit. *)
Fixpoint varint_prefix (bytes : list Z) : nat :=
  match bytes with
  | [] => 0
  | byte :: bytes => if byte .& 0x80 =? 0 then 1 else S (varint_prefix bytes)
  end.

Definition scan_varint : Read (list Z * Z) := fun decoder =>
  let len := Z.of_nat (varint_prefix (unread decoder)) in
  (Val (unread decoder, len), mkDecoder (data decoder) (pos decoder + len)).

Definition protobuf_decoder_next_field : Read FieldInfo := fun decoder =>
  if negb (protobuf_decoder_has_more decoder) then (Refused, decoder) else
  (let* tag := protobuf_decoder_read_tag in
   let '(field_number, wire_type) := tag in
   let* p :=
     if wire_type =? WIRE_TYPE_VARINT then scan_varint
     else if wire_type =? WIRE_TYPE_64BIT then take_bytes 8
     else if wire_type =? WIRE_TYPE_LENGTH_DELIMITED then
       let* len := protobuf_decoder_read_varint in take_bytes (u32 len)
     else if wire_type =? WIRE_TYPE_32BIT then take_bytes 4
     else stop Refused in
   ret (mkField field_number wire_type p.1 p.2)) decoder.

(** ** Readers over a slice, which they advance *)

Fixpoint read_varint_slice (bytes : list Z) (value shift : Z) : option (Z * list Z) :=
  match bytes with
  | [] => None
  | byte :: bytes =>
      let value := value .| u64 ((byte .& 0x7F) .<< shift) in
      if byte .& 0x80 =? 0 then Some (value, bytes)
      else
        let shift := shift + 7 in
        if 64 <=? shift then None else read_varint_slice bytes value shift
  end.

Definition protobuf_decoder_read_varint_from_slice (data : list Z) : option Z :=
  fst <$> read_varint_slice data 0 0.

Definition protobuf_decoder_read_varint_advancing (data : list Z) : option (Z * list Z) :=
  read_varint_slice data 0 0.

Definition protobuf_decoder_read_bytes_from_slice (data : list Z) : option (list Z * list Z) :=
  r ← protobuf_decoder_read_varint_advancing data;
  let '(length_, data) := r in
  let length_sz := u32 length_ in
  if Z.of_nat (length data) <? length_sz then None
  else Some (take (Z.to_nat length_sz) data, drop (Z.to_nat length_sz) data).

Definition protobuf_decoder_read_tag_from_slice (data : list Z) : option (Z * Z * list Z) :=
  r ← protobuf_decoder_read_varint_advancing data;
  let '(tag, data) := r in
  let tag32 := u32 tag in
  Some (tag32 .>> 3, u8 (tag32 .& 0x07), data).

Definition protobuf_decoder_skip_field_from_slice (data : list Z) (wire_type : Z) : option (list Z) :=
  if wire_type =? WIRE_TYPE_VARINT then snd <$> protobuf_decoder_read_varint_advancing data
  else if wire_type =? WIRE_TYPE_64BIT then if (8 <=? length data)%nat then Some (drop 8 data) else None
  else if wire_type =? WIRE_TYPE_LENGTH_DELIMITED then snd <$> protobuf_decoder_read_bytes_from_slice data
  else if wire_type =? WIRE_TYPE_32BIT then if (4 <=? length data)%nat then Some (drop 4 data) else None
  else None.

(** ** The other varint routines of the repository *)

(** [ProtobufEncoder_write_varint], and [encode_varint] of mod.c with its copies for three
    more buffer sizes: [while (value >= 0x80)]. *)
Fixpoint encode_varint_loop (fuel : nat) (vec : Vec_u8) (value : Z) : Vec_u8 * bool :=
  match fuel with
  | O => (vec, false)
  | S fuel =>
      if 0x80 <=? value then
        and_then (vec_u8_push vec (u8 ((value .& 0x7F) .| 0x80)))
          (fun vec => encode_varint_loop fuel vec (value .>> 7))
      else vec_u8_push vec (u8 value)
  end.

Definition encode_varint (value : Z) (buf : Vec_u8) : Vec_u8 * bool := encode_varint_loop 10 buf value.

(** [decode_varint] of mod.c: value and number of bytes, never an error. *)
Fixpoint decode_varint_loop (fuel : nat) (data : list Z) (value shift consumed : Z) : Z * Z :=
  match fuel, data with
  | S fuel, byte :: data =>
      let value := value .| u64 ((byte .& 0x7F) .<< shift) in
      let consumed := consumed + 1 in
      if byte .& 0x80 =? 0 then (value, consumed)
      else decode_varint_loop fuel data value (shift + 7) consumed
  | _, _ => (value, consumed)
  end.

Definition decode_varint (data : list Z) : Z * Z := decode_varint_loop 10 data 0 0 0.

(** ** The canonical encoding of an integer *)

Fixpoint varint_bytes (n : nat) (v : Z) : list Z :=
  match n with
  | O => []
  | S n => if v <? 128 then [v] else v mod 128 + 128 :: varint_bytes n (v / 128)
  end.

Definition varint (v : Z) : list Z := varint_bytes 10 v.

(** Byte after byte into the buffer until one does not fit. *)
Fixpoint put_all (vec : Vec_u8) (bs : list Z) : Vec_u8 * bool :=
  match bs with
  | [] => (vec, true)
  | b :: bs => and_then (vec_u8_push vec b) (fun vec => put_all vec bs)
  end.

Lemma put_one vec b : put_all vec [b] = vec_u8_push vec b.
Proof. cbn. unfold vec_u8_push. by destruct (_ <=? _)%nat. Qed.

Lemma shiftr_7 v : v .>> 7 = v / 128.
Proof. by rewrite Z.shiftr_div_pow2. Qed.

Lemma land_7f v : v .& 0x7F = v mod 128.
Proof. change 0x7F with (Z.ones 7). by rewrite Z.land_ones. Qed.

Lemma low_byte v : 0 <= v -> u8 (v .& 0x7F) = v mod 128 /\ u8 (v .& 0x7F) .| 0x80 = v mod 128 + 128.
Proof.
  intros Hv. rewrite land_7f. assert (0 <= v mod 128 < 128) as Hm by (apply Z.mod_pos_bound; lia).
  rewrite u8_small by (unfold fits; lia). split; [done|].
  pose proof (lor_shiftl_add 7 (v mod 128) 1) as Ho. change (1 .<< 7) with 0x80 in Ho.
  rewrite Ho by (done || (unfold fits; lia)). lia.
Qed.

Lemma pow7_S n : 2 ^ (7 * Z.of_nat (S n)) = 128 * 2 ^ (7 * Z.of_nat n).
Proof. rewrite <- (Z.pow_add_r 2 7) by lia. f_equal. lia. Qed.

(** The two loops that write a varint put its canonical encoding. *)
Lemma write_varint_put n vec v :
  0 <= v < 2 ^ (7 * Z.of_nat (S n)) -> write_varint_loop (S n) vec v = put_all vec (varint_bytes (S n) v).
Proof.
  revert vec v. induction n as [|n IH]; intros vec v Hv; destruct (low_byte v) as [Hl Hh]; try lia;
    change (write_varint_loop (S ?n) vec v) with
      (if v .>> 7 =? 0 then vec_u8_push vec (u8 (v .& 0x7F))
       else and_then (vec_u8_push vec (u8 (v .& 0x7F) .| 0x80)) (fun vec => write_varint_loop n vec (v .>> 7)));
    change (varint_bytes (S ?n) v) with (if v <? 128 then [v] else v mod 128 + 128 :: varint_bytes n (v / 128));
    rewrite Hh, Hl, shiftr_7; destruct (Z.ltb_spec v 128) as [Hs|Hs].
  - rewrite Z.mod_small, Z.div_small by lia. by rewrite put_one.
  - change (2 ^ (7 * Z.of_nat 1)) with 128 in Hv. lia.
  - rewrite Z.mod_small, Z.div_small by lia. by rewrite put_one.
  - rewrite pow7_S in Hv. destruct (Z.eqb_spec (v / 128) 0); [div_lia|]. cbn [put_all].
    destruct (vec_u8_push vec (v mod 128 + 128)) as [vec' []]; [|done]. cbn [and_then].
    apply IH. split; [div_lia|apply Z.div_lt_upper_bound; lia].
Qed.

Lemma encode_varint_put n vec v :
  0 <= v < 2 ^ (7 * Z.of_nat (S n)) -> encode_varint_loop (S n) vec v = put_all vec (varint_bytes (S n) v).
Proof.
  revert vec v. induction n as [|n IH]; intros vec v Hv; destruct (low_byte v) as [Hl Hh]; try lia;
    change (encode_varint_loop (S ?n) vec v) with
      (if 0x80 <=? v then and_then (vec_u8_push vec (u8 ((v .& 0x7F) .| 0x80))) (fun vec => encode_varint_loop n vec (v .>> 7))
       else vec_u8_push vec (u8 v));
    change (varint_bytes (S ?n) v) with (if v <? 128 then [v] else v mod 128 + 128 :: varint_bytes n (v / 128));
    rewrite (Z.leb_antisym v 0x80), shiftr_7; destruct (Z.ltb_spec v 0x80) as [Hs|Hs]; cbn [negb].
  - rewrite u8_small by (unfold fits; lia). by rewrite put_one.
  - change (2 ^ (7 * Z.of_nat 1)) with 128 in Hv. lia.
  - rewrite u8_small by (unfold fits; lia). by rewrite put_one.
  - rewrite pow7_S in Hv. cbn [put_all].
    assert (u8 ((v .& 0x7F) .| 0x80) = v mod 128 + 128) as ->.
    { rewrite land_7f in *. rewrite u8_small in Hl, Hh by words_lia. rewrite Hh. apply u8_small. words_lia. }
    destruct (vec_u8_push vec (v mod 128 + 128)) as [vec' []]; [|done]. cbn [and_then].
    apply IH. split; [div_lia|apply Z.div_lt_upper_bound; lia].
Qed.

Lemma write_varint_spec vec v : fits 64 v -> protobuf_encoder_write_varint vec v = put_all vec (varint v).
Proof. intros Hv. apply (write_varint_put 9). unfold fits in Hv. change (2 ^ (7 * Z.of_nat 10)) with (2 ^ 70). lia. Qed.

Lemma encode_varint_spec vec v : fits 64 v -> encode_varint v vec = put_all vec (varint v).
Proof. intros Hv. apply (encode_varint_put 9). unfold fits in Hv. change (2 ^ (7 * Z.of_nat 10)) with (2 ^ 70). lia. Qed.

Lemma put_all_fits vec bs :
  (length (vdata vec) + length bs <= capacity vec)%nat ->
  put_all vec bs = (mkVec (vdata vec ++ bs) (capacity vec), true).
Proof.
  revert vec. induction bs as [|b bs IH]; intros [v c] Hl; cbn [put_all vdata capacity length] in *; [by rewrite app_nil_r|].
  unfold vec_u8_push. cbn [vdata capacity]. destruct (Nat.leb_spec c (length v)); [lia|]. cbn [and_then].
  rewrite IH by (cbn [vdata capacity]; rewrite length_app; cbn [length]; lia). cbn [vdata capacity].
  by rewrite <- app_assoc.
Qed.

Lemma put_all_full vec bs :
  (length (vdata vec) <= capacity vec)%nat -> (capacity vec < length (vdata vec) + length bs)%nat ->
  put_all vec bs = (mkVec (take (capacity vec) (vdata vec ++ bs)) (capacity vec), false).
Proof.
  revert vec. induction bs as [|b bs IH]; intros [v c] Hv Hl; cbn [put_all vdata capacity length] in *; [lia|].
  unfold vec_u8_push. cbn [vdata capacity]. destruct (Nat.leb_spec c (length v)); cbn [and_then].
  - replace (take c (v ++ b :: bs)) with v; [done|]. replace c with (length v) by lia. by rewrite take_app_length.
  - rewrite IH by (cbn [vdata capacity]; rewrite length_app; cbn [length]; lia). cbn [vdata capacity].
    by rewrite <- app_assoc.
Qed.

Lemma varint_bytes_ok n v : 0 <= v -> bytes_ok (varint_bytes n v).
Proof.
  revert v. induction n as [|n IH]; intros v Hv; cbn [varint_bytes]; [constructor|].
  destruct (Z.ltb_spec v 128).
  - apply Forall_cons. split; [unfold fits; lia|constructor].
  - apply Forall_cons. split; [words_lia|apply IH; div_lia].
Qed.

Lemma length_varint_bytes n m v :
  0 <= v < 2 ^ (7 * Z.of_nat m) -> (1 <= m)%nat -> (length (varint_bytes n v) <= m)%nat.
Proof.
  revert m v. induction n as [|n IH]; intros m v Hv Hm; cbn [varint_bytes length]; [lia|].
  destruct (Z.ltb_spec v 128); cbn [length]; [lia|].
  destruct m as [|m]; [lia|]. rewrite pow7_S in Hv. destruct m as [|m]; [change (2 ^ (7 * Z.of_nat 0)) with 1 in Hv; lia|].
  enough (length (varint_bytes n (v / 128)) <= S m)%nat by lia.
  apply IH; [|lia]. split; [div_lia|apply Z.div_lt_upper_bound; lia].
Qed.

Lemma varint_nonempty v : (1 <= length (varint v))%nat.
Proof. unfold varint. cbn [varint_bytes]. destruct (v <? 128); cbn [length]; lia. Qed.

Lemma varint_small v : 0 <= v < 128 -> varint v = [v].
Proof. intros Hv. unfold varint. cbn [varint_bytes]. by rewrite (proj2 (Z.ltb_lt v 128)) by lia. Qed.

(** The two shapes of a byte of a varint. *)
Lemma varint_byte b :
  0 <= b < 128 -> b .& 0x7F = b /\ b .& 0x80 = 0 /\ (b + 128) .& 0x7F = b /\ (b + 128) .& 0x80 = 128.
Proof.
  intros Hb. pose proof (range_check 128 (fun b => (b .& 0x7F =? b) && (b .& 0x80 =? 0)
    && ((b + 128) .& 0x7F =? b) && ((b + 128) .& 0x80 =? 128)) eq_refl b Hb) as H.
  rewrite !andb_true_iff, !Z.eqb_eq in H. tauto.
Qed.

Lemma add_bits shift value v :
  0 <= shift <= 64 -> fits shift value -> 0 <= v < 2 ^ (64 - shift) ->
  value .| u64 (v .<< shift) = value + 2 ^ shift * v.
Proof.
  intros Hs Hv H. rewrite u64_small; [apply lor_shiftl_add; [lia|done]|].
  rewrite Z.shiftl_mul_pow2 by lia. unfold fits. split; [lia|].
  assert (2 ^ 64 = 2 ^ (64 - shift) * 2 ^ shift) as -> by (rewrite <- Z.pow_add_r by lia; f_equal; lia).
  apply Z.mul_lt_mono_pos_r; lia.
Qed.

(** Reading the canonical encoding gives the integer back, whatever follows. *)
Lemma read_varint_bytes n k v rest value (shift := 7 * k) :
  0 <= k <= 9 -> fits shift value -> 0 <= v < 2 ^ (7 * Z.of_nat (S n)) -> v < 2 ^ (64 - shift) ->
  read_varint_slice (varint_bytes (S n) v ++ rest) value shift = Some (value + 2 ^ shift * v, rest).
Proof.
  revert k v value shift. induction n as [|n IH]; intros k v value shift Hk Hval Hv H64;
    change (varint_bytes (S ?n) v) with (if v <? 128 then [v] else v mod 128 + 128 :: varint_bytes n (v / 128));
    destruct (Z.ltb_spec v 128) as [Hs|Hs];
    [|change (2 ^ (7 * Z.of_nat 1)) with 128 in Hv; lia| |].
  1,2: destruct (varint_byte v) as (H7 & H8 & _); [lia|]; cbn [app read_varint_slice]; rewrite H7, H8, Z.eqb_refl;
       by rewrite add_bits by (done || lia).
  cbn [app read_varint_slice]. assert (0 <= v mod 128 < 128) as Hm by (apply Z.mod_pos_bound; lia).
  destruct (varint_byte (v mod 128) Hm) as (_ & _ & H7 & H8). rewrite H7, H8. cbn [Z.eqb].
  assert (shift <= 56) as Hshift.
  { destruct (Z.leb_spec k 8); [subst shift; lia|]. exfalso. assert (k = 9) as -> by lia.
    change (2 ^ (64 - shift)) with 2 in H64. lia. }
  destruct (Z.leb_spec 64 (shift + 7)); [lia|].
  assert (2 ^ (64 - shift) = 128 * 2 ^ (64 - shift - 7)) as Hp.
  { rewrite <- (Z.pow_add_r 2 7) by lia. f_equal. lia. }
  assert (2 ^ (7 * (k + 1)) = 2 ^ shift * 128) as Hq.
  { subst shift. change 128 with (2 ^ 7). rewrite <- Z.pow_add_r by lia. f_equal. lia. }
  rewrite add_bits by (done || (split; [lia|]; nia)).
  replace (shift + 7) with (7 * (k + 1)) by (subst shift; lia).
  assert (fits (7 * (k + 1)) (value + 2 ^ shift * (v mod 128))) as Hf by (unfold fits in *; rewrite Hq; nia).
  assert (0 <= v / 128 < 2 ^ (7 * Z.of_nat (S n))) as Hd
    by (rewrite pow7_S in Hv; split; [div_lia|apply Z.div_lt_upper_bound; lia]).
  assert (v / 128 < 2 ^ (64 - 7 * (k + 1))) as He.
  { replace (64 - 7 * (k + 1)) with (64 - shift - 7) by (subst shift; lia). apply Z.div_lt_upper_bound; lia. }
  rewrite (IH (k + 1) (v / 128) _ ltac:(subst shift; lia) Hf Hd He), Hq. do 2 f_equal.
  pose proof (Z.div_mod v 128). nia.
Qed.

Lemma read_varint_slice_varint v rest :
  fits 64 v -> read_varint_slice (varint v ++ rest) 0 0 = Some (v, rest).
Proof.
  intros Hv. unfold varint, fits in *. pose proof (read_varint_bytes 9 0 v rest 0) as H.
  change (7 * 0) with 0 in H. rewrite H; [by rewrite Z.mul_1_l|lia|done| |lia].
  change (2 ^ (7 * Z.of_nat 10)) with (2 ^ 70). lia.
Qed.

(** ** The fields a message is made of *)

Definition tag_bytes (f w : Z) : list Z := varint (8 * f + w).
Definition varint_field (f v : Z) : list Z := if v =? 0 then [] else tag_bytes f 0 ++ varint v.
Definition zigzag (v : Z) : Z := if 0 <=? v then 2 * v else - 2 * v - 1.
Definition sint_field (f v : Z) : list Z := if v =? 0 then [] else tag_bytes f 0 ++ varint (zigzag v).
Definition bool_field (f : Z) (b : bool) : list Z := if b then tag_bytes f 0 ++ [1] else [].
Definition bytes_field (f : Z) (d : list Z) : list Z :=
  if (length d =? 0)%nat then [] else tag_bytes f 2 ++ varint (Z.of_nat (length d)) ++ d.
Definition fixed_field (f w : Z) (n : nat) (v : Z) : list Z :=
  if v =? 0 then [] else tag_bytes f w ++ le_bytes n v.

(** [w] appends [bs] to every buffer with room for them. *)
Definition appends (w : Vec_u8 -> Vec_u8 * bool) (bs : list Z) : Prop :=
  forall vec, (length (vdata vec) + length bs <= capacity vec)%nat ->
    w vec = (mkVec (vdata vec ++ bs) (capacity vec), true).

Lemma appends_nil : appends (fun vec => (vec, true)) [].
Proof. intros [v c] _. by rewrite app_nil_r. Qed.

Lemma appends_and_then w1 w2 bs1 bs2 :
  appends w1 bs1 -> appends w2 bs2 -> appends (fun vec => and_then (w1 vec) w2) (bs1 ++ bs2).
Proof.
  intros H1 H2 [v c] Hl. cbn [vdata capacity] in *. rewrite length_app in Hl.
  rewrite H1 by (cbn [vdata capacity]; lia). cbn [and_then vdata capacity].
  rewrite H2 by (cbn [vdata capacity]; rewrite length_app; lia). cbn [vdata capacity]. by rewrite app_assoc.
Qed.

Lemma appends_put bs : appends (fun vec => put_all vec bs) bs.
Proof. intros vec Hl. by apply put_all_fits. Qed.

Lemma appends_varint v : fits 64 v -> appends (fun vec => protobuf_encoder_write_varint vec v) (varint v).
Proof. intros Hv vec Hl. rewrite write_varint_spec by done. by apply put_all_fits. Qed.

Lemma appends_extend d : appends (fun vec => vec_u8_extend_from_slice vec d) d.
Proof.
  intros [v c] Hl. unfold vec_u8_extend_from_slice. cbn [vdata capacity] in *.
  destruct (Nat.ltb_spec c (length v + length d)); [lia|done].
Qed.

Definition field_ok (f : Z) : Prop := 0 < f < 2 ^ 29.

Lemma tag_value f w : field_ok f -> 0 <= w < 8 -> u32 (f .<< 3) .| w = 8 * f + w /\ fits 32 (8 * f + w).
Proof.
  unfold field_ok. intros Hf Hw. assert (fits 32 (8 * f + w)) as H32 by (unfold fits; lia). split; [|done].
  rewrite Z.lor_comm, u32_small by (rewrite Z.shiftl_mul_pow2; unfold fits; lia).
  rewrite (lor_shiftl_add 3) by (done || unfold fits; lia). lia.
Qed.

Lemma appends_tag f w :
  field_ok f -> 0 <= w < 8 -> appends (fun vec => protobuf_encoder_write_tag vec f w) (tag_bytes f w).
Proof.
  intros Hf Hw. destruct (tag_value f w Hf Hw) as [Ht H32]. unfold protobuf_encoder_write_tag. rewrite Ht.
  apply appends_varint. eapply fits_mono; [done|lia].
Qed.

Lemma appends_varint_field f v :
  field_ok f -> fits 64 v -> appends (fun vec => protobuf_encoder_write_varint_field vec f v) (varint_field f v).
Proof.
  intros Hf Hv. unfold protobuf_encoder_write_varint_field, varint_field. destruct (v =? 0); [apply appends_nil|].
  apply appends_and_then; [by apply appends_tag|by apply appends_varint].
Qed.

Definition int_ok (w v : Z) : Prop := - 2 ^ (w - 1) <= v < 2 ^ (w - 1).

Lemma zigzag_bits w v :
  0 < w -> int_ok w v -> ((v .<< 1) .^ (v .>> (w - 1))) mod 2 ^ w = zigzag v /\ fits w (zigzag v).
Proof.
  intros Hw Hv. unfold int_ok in Hv.
  assert (2 ^ w = 2 * 2 ^ (w - 1)) as Hp by (rewrite <- Z.pow_succ_r by lia; f_equal; lia).
  unfold zigzag, fits. rewrite Z.shiftl_mul_pow2, Z.shiftr_div_pow2 by lia. destruct (Z.leb_spec 0 v).
  - rewrite Z.div_small, Z.lxor_0_r by lia. rewrite Z.mod_small by lia. lia.
  - assert (v / 2 ^ (w - 1) = -1) as ->.
    { symmetry. apply Z.div_unique with (r := v + 2 ^ (w - 1)); [left; lia|lia]. }
    rewrite Z.lxor_m1_r. unfold Z.lnot. rewrite Z.mod_small by lia. lia.
Qed.

Lemma shiftr_1 e : e .>> 1 = e / 2.
Proof. by rewrite Z.shiftr_div_pow2. Qed.
Lemma land_1 e : e .& 1 = e mod 2.
Proof. change 1 with (Z.ones 1). by rewrite Z.land_ones. Qed.

Lemma unzigzag v : (zigzag v .>> 1) .^ (- (zigzag v .& 1)) = v.
Proof.
  unfold zigzag. rewrite shiftr_1, land_1. destruct (Z.leb_spec 0 v).
  - replace (2 * v) with (v * 2) by lia. rewrite Z.mod_mul, Z.div_mul by lia. apply Z.lxor_0_r.
  - replace (-2 * v - 1) with (1 + (- v - 1) * 2) by lia. rewrite Z.mod_add, Z.div_add by lia.
    change (- (1 mod 2)) with (-1). change (1 / 2) with 0. rewrite Z.lxor_m1_r. unfold Z.lnot. lia.
Qed.

Lemma i64_small v : int_ok 64 v -> i64 v = v.
Proof. unfold int_ok, i64. change (2 ^ (64 - 1)) with 0x8000000000000000. intros. rewrite Z.mod_small; lia. Qed.

Lemma appends_sint32_field f v :
  field_ok f -> int_ok 32 v -> appends (fun vec => protobuf_encoder_write_sint32_field vec f v) (sint_field f v).
Proof.
  intros Hf Hv. unfold protobuf_encoder_write_sint32_field, sint_field. destruct (v =? 0); [apply appends_nil|].
  apply appends_and_then; [by apply appends_tag|]. unfold protobuf_encoder_write_sint32, u32.
  destruct (zigzag_bits 32 v) as [Hz Hz']; [done..|]. change (32 - 1) with 31 in Hz. change (2 ^ 32) with 0x100000000 in Hz.
  rewrite Hz. apply appends_varint. eapply fits_mono; [done|lia].
Qed.

Lemma appends_bool_field f b :
  field_ok f -> appends (fun vec => protobuf_encoder_write_bool_field vec f b) (bool_field f b).
Proof.
  intros Hf. unfold protobuf_encoder_write_bool_field, bool_field. destruct b; cbn [negb]; [|apply appends_nil].
  apply appends_and_then; [by apply appends_tag|]. intros vec Hl. rewrite <- put_one. by apply put_all_fits.
Qed.

Lemma appends_bytes_field f d :
  field_ok f -> fits 64 (Z.of_nat (length d)) ->
  appends (fun vec => protobuf_encoder_write_bytes_field vec f d) (bytes_field f d).
Proof.
  intros Hf Hd. unfold protobuf_encoder_write_bytes_field, bytes_field.
  destruct (length d =? 0)%nat; [apply appends_nil|].
  apply appends_and_then; [by apply appends_tag|].
  apply appends_and_then; [by apply appends_varint|apply appends_extend].
Qed.

Lemma appends_fixed32_field f v :
  field_ok f -> appends (fun vec => protobuf_encoder_write_fixed32_field vec f v) (fixed_field f 5 4 v).
Proof.
  intros Hf. unfold protobuf_encoder_write_fixed32_field, fixed_field. destruct (v =? 0); [apply appends_nil|].
  apply appends_and_then; [by apply appends_tag|]. rewrite wr32_eq. apply appends_extend.
Qed.

Lemma appends_fixed64_field f v :
  field_ok f -> appends (fun vec => protobuf_encoder_write_fixed64_field vec f v) (fixed_field f 1 8 v).
Proof.
  intros Hf. unfold protobuf_encoder_write_fixed64_field, fixed_field. destruct (v =? 0); [apply appends_nil|].
  apply appends_and_then; [by apply appends_tag|].
  change ((fun i => u8 ((v .>> (i * 8)) .& 0xFF)) <$> [0; 1; 2; 3; 4; 5; 6; 7]) with
    [u8 ((v .>> 0) .& 0xFF); u8 ((v .>> 8) .& 0xFF); u8 ((v .>> 16) .& 0xFF); u8 ((v .>> 24) .& 0xFF);
     u8 ((v .>> 32) .& 0xFF); u8 ((v .>> 40) .& 0xFF); u8 ((v .>> 48) .& 0xFF); u8 ((v .>> 56) .& 0xFF)].
  rewrite Z.shiftr_0_r, wr64_eq. apply appends_extend.
Qed.

(** ** Reading at a cursor *)

(** The decoder between the bytes it has read and those it has not. *)
Definition cursor (pre post : list Z) : ProtobufDecoder := mkDecoder (pre ++ post) (Z.of_nat (length pre)).

(** [m] reads [bs] wherever it stands, in inputs shorter than [size_t] can say. *)
Definition reads {A} (m : Read A) (bs : list Z) (a : A) : Prop :=
  forall pre post, Z.of_nat (length (pre ++ bs ++ post)) < 2 ^ 32 ->
    m (cursor pre (bs ++ post)) = (Val a, cursor (pre ++ bs) post).

Lemma unread_cursor pre post : unread (cursor pre post) = post.
Proof. unfold unread, cursor. cbn [data pos]. by rewrite Nat2Z.id, drop_app_length. Qed.

Lemma cursor_nil pre : cursor pre [] = mkDecoder pre (Z.of_nat (length pre)).
Proof. unfold cursor. by rewrite app_nil_r. Qed.

Lemma reads_ret {A} (a : A) : reads (ret a) [] a.
Proof. intros pre post _. by rewrite app_nil_r. Qed.

Lemma reads_bind {A B} (m : Read A) (k : A -> Read B) bs1 bs2 a b :
  reads m bs1 a -> reads (k a) bs2 b -> reads (bind m k) (bs1 ++ bs2) b.
Proof.
  intros H1 H2 pre post Hl. rewrite <- (app_assoc bs1). unfold bind.
  rewrite H1 by (rewrite !length_app in *; lia).
  rewrite H2 by (rewrite !length_app in *; lia). by rewrite app_assoc.
Qed.

(** A reader that ends by computing on what it read. *)
Lemma reads_map {A B} (m : Read A) (k : A -> Read B) bs a b :
  reads m bs a -> k a = ret b -> reads (bind m k) bs b.
Proof. intros H1 H2. rewrite <- (app_nil_r bs). eapply reads_bind; [done|]. rewrite H2. apply reads_ret. Qed.

(** The slice reader and the decoder agree, on success as on failure. *)
Lemma read_varint_loop_slice bytes p v s :
  match read_varint_slice bytes v s with
  | Some (x, rest) => read_varint_loop bytes p v s = (Val x, p + Z.of_nat (length bytes) - Z.of_nat (length rest))
                      /\ exists used, bytes = used ++ rest /\ used <> []
  | None => (read_varint_loop bytes p v s).1 = Refused
  end.
Proof.
  revert p v s. induction bytes as [|b bytes IH]; intros p v s; cbn [read_varint_slice read_varint_loop]; [done|].
  destruct (b .& 0x80 =? 0).
  - split; [f_equal; cbn [length]; lia|]. by exists [b].
  - destruct (64 <=? s + 7); [done|]. specialize (IH (p + 1) (v .| u64 ((b .& 127) .<< s)) (s + 7)).
    destruct (read_varint_slice _ _ _) as [[x rest]|]; [|done]. destruct IH as [-> (used & -> & _)].
    split; [f_equal; cbn [length]; lia|]. by exists (b :: used).
Qed.

Lemma reads_varint v : fits 64 v -> reads protobuf_decoder_read_varint (varint v) v.
Proof.
  intros Hv pre post Hl. unfold protobuf_decoder_read_varint. rewrite unread_cursor.
  pose proof (read_varint_loop_slice (varint v ++ post) (pos (cursor pre (varint v ++ post))) 0 0) as H.
  rewrite read_varint_slice_varint in H by done. destruct H as [-> _]. unfold cursor. cbn [data pos].
  rewrite <- app_assoc. do 2 f_equal. rewrite !length_app. lia.
Qed.

Lemma reads_tag f w :
  field_ok f -> 0 <= w < 8 -> reads protobuf_decoder_read_tag (tag_bytes f w) (f, w).
Proof.
  intros Hf Hw. destruct (tag_value f w Hf Hw) as [_ H32]. unfold protobuf_decoder_read_tag, tag_bytes.
  eapply reads_map; [apply reads_varint; eapply fits_mono; [done|lia]|]. cbn zeta. do 2 f_equal.
  - rewrite u32_small by done. rewrite Z.shiftr_div_pow2 by lia. change (2 ^ 3) with 8.
    rewrite Z.mul_comm, Z.div_add_l, Z.div_small by lia. lia.
  - rewrite u32_small by done. change 0x07 with (Z.ones 3). rewrite Z.land_ones by lia. change (2 ^ 3) with 8.
    rewrite Z.add_comm, Z.mul_comm, Z.mod_add, Z.mod_small by lia. apply u8_small. unfold fits. lia.
Qed.

Lemma take_bytes_cursor bs pre post n :
  n = Z.of_nat (length bs) -> Z.of_nat (length (pre ++ bs ++ post)) < 2 ^ 32 ->
  take_bytes n (cursor pre (bs ++ post)) = (Val (bs ++ post, n), cursor (pre ++ bs) post).
Proof.
  intros -> Hl. unfold take_bytes. rewrite unread_cursor. unfold cursor. cbn [data pos].
  rewrite !length_app in *. rewrite u32_small by (unfold fits; lia).
  destruct (Z.ltb_spec (Z.of_nat (length pre + (length bs + length post))) (Z.of_nat (length pre) + Z.of_nat (length bs))); [lia|].
  rewrite <- app_assoc. do 2 f_equal. lia.
Qed.

Lemma copy_prefix bs post n d : n = Z.of_nat (length bs) -> copy (bs ++ post) n d = (Val bs, d).
Proof.
  intros ->. unfold copy. rewrite length_app. destruct (Z.ltb_spec (Z.of_nat (length bs + length post)) (Z.of_nat (length bs))); [lia|].
  unfold ret. by rewrite Nat2Z.id, take_app_length.
Qed.

(** [read_bytes] and a copy of what it points to. *)
Lemma reads_bytes bs {A} (k : list Z * Z -> Read A) a :
  fits 32 (Z.of_nat (length bs)) ->
  (forall post d, k (bs ++ post, Z.of_nat (length bs)) d = (Val a, d)) ->
  reads (bind protobuf_decoder_read_bytes k) (varint (Z.of_nat (length bs)) ++ bs) a.
Proof.
  intros Hl Hk pre post Ht. rewrite <- app_assoc. unfold bind, protobuf_decoder_read_bytes, bind.
  assert (fits 64 (Z.of_nat (length bs))) as Hl' by (eapply fits_mono; [done|lia]).
  rewrite reads_varint by (done || (rewrite !length_app in *; lia)).
  rewrite u32_small by done. rewrite take_bytes_cursor by (done || (rewrite !length_app in *; lia)).
  rewrite Hk. by rewrite app_assoc.
Qed.

Lemma reads_sint32 v : int_ok 32 v -> reads protobuf_decoder_read_sint32 (varint (zigzag v)) v.
Proof.
  intros Hv. destruct (zigzag_bits 32 v) as [_ Hz]; [done..|]. unfold protobuf_decoder_read_sint32.
  eapply reads_map; [apply reads_varint; eapply fits_mono; [done|lia]|]. cbn zeta.
  by rewrite u32_small, unzigzag, i32_small.
Qed.

Lemma reads_sint64 v : int_ok 64 v -> reads protobuf_decoder_read_sint64 (varint (zigzag v)) v.
Proof.
  intros Hv. destruct (zigzag_bits 64 v) as [_ Hz]; [done..|]. unfold protobuf_decoder_read_sint64.
  eapply reads_map; [by apply reads_varint|]. cbn zeta. by rewrite unzigzag, i64_small.
Qed.

(** ** The loop over the fields of a message

    [while (has_more) { read_tag; switch (field_number) ... }] with the body of the switch
    as [step]; a unit of [fuel] per round. *)
Fixpoint fields {A} (step : A -> Z -> Z -> Read A) (fuel : nat) (result : A) : Read A := fun decoder =>
  match fuel with
  | O => (OutOfFuel, decoder)
  | S fuel =>
      if protobuf_decoder_has_more decoder then
        (let* tag := protobuf_decoder_read_tag in
         let* result := step result tag.1 tag.2 in
         fields step fuel result) decoder
      else (Val result, decoder)
  end.

(** The loop over the fields [bs] that starts from [a] ends with [r]. *)
Definition parses {A} (step : A -> Z -> Z -> Read A) (a : A) (bs : list Z) (r : Result A) : Prop :=
  forall pre fuel, (length bs < fuel)%nat -> Z.of_nat (length (pre ++ bs)) < 2 ^ 31 ->
    (fields step fuel a (cursor pre bs)).1 = r.

Section parses.
Context {A : Type} (step : A -> Z -> Z -> Read A).

Lemma parses_nil a : parses step a [] (Val a).
Proof.
  intros pre [|fuel] Hf Hl; [cbn in Hf; lia|]. cbn [fields]. unfold protobuf_decoder_has_more, cursor. cbn [data pos].
  by rewrite app_nil_r, Z.ltb_irrefl.
Qed.

Lemma parses_field a a' r f w body post :
  field_ok f -> 0 <= w < 8 -> reads (step a f w) body a' -> parses step a' post r ->
  parses step a (tag_bytes f w ++ body ++ post) r.
Proof.
  intros Hf Hw Hs Hp pre [|fuel] Hfu Hl; [lia|]. cbn [fields].
  pose proof (varint_nonempty (8 * f + w)) as Hne. fold (tag_bytes f w) in Hne.
  assert (protobuf_decoder_has_more (cursor pre (tag_bytes f w ++ body ++ post)) = true) as ->.
  { unfold protobuf_decoder_has_more, cursor. cbn [data pos]. rewrite !length_app. apply Z.ltb_lt. lia. }
  rewrite !length_app in *. unfold bind at 1. rewrite reads_tag by (done || (rewrite !length_app; lia)). cbn [fst snd].
  unfold bind. rewrite Hs by (rewrite !length_app; lia). apply Hp; rewrite ?length_app; lia.
Qed.

(** An optional field: written or, when it is at its default, left out. *)
Lemma parses_varint_field a (g : Z -> A) r f v post :
  field_ok f -> fits 64 v ->
  step a f 0 = bind protobuf_decoder_read_varint (fun value => ret (g value)) ->
  (v = 0 -> g v = a) -> parses step (g v) post r -> parses step a (varint_field f v ++ post) r.
Proof.
  intros Hf Hv Hs Hg Hp. unfold varint_field. destruct (Z.eqb_spec v 0) as [E|E]; [by rewrite <- (Hg E)|].
  rewrite <- app_assoc. eapply parses_field; [done|lia| |done]. rewrite Hs.
  eapply reads_map; [by apply reads_varint|done].
Qed.

Lemma parses_sint_field a (g : Z -> A) r f v post :
  field_ok f -> int_ok 32 v ->
  step a f 0 = bind protobuf_decoder_read_sint32 (fun value => ret (g value)) ->
  (v = 0 -> g v = a) -> parses step (g v) post r -> parses step a (sint_field f v ++ post) r.
Proof.
  intros Hf Hv Hs Hg Hp. unfold sint_field. destruct (Z.eqb_spec v 0) as [E|E]; [by rewrite <- (Hg E)|].
  rewrite <- app_assoc. eapply parses_field; [done|lia| |done]. rewrite Hs.
  eapply reads_map; [by apply reads_sint32|done].
Qed.

Lemma parses_bool_field a (g : Z -> A) r f b post :
  field_ok f ->
  step a f 0 = bind protobuf_decoder_read_varint (fun value => ret (g value)) ->
  (b = false -> g 0 = a) -> parses step (g (if b then 1 else 0)) post r -> parses step a (bool_field f b ++ post) r.
Proof.
  intros Hf Hs Hg Hp. unfold bool_field. destruct b; [|by rewrite <- (Hg eq_refl)].
  rewrite <- app_assoc. eapply parses_field; [done|lia| |done]. rewrite Hs.
  rewrite <- (varint_small 1) by lia. eapply reads_map; [by apply reads_varint|done].
Qed.

Lemma parses_bytes_field a (k : list Z * Z -> Read A) a' r f d post :
  field_ok f -> fits 32 (Z.of_nat (length d)) ->
  step a f 2 = bind protobuf_decoder_read_bytes k ->
  (forall post dec, k (d ++ post, Z.of_nat (length d)) dec = (Val a', dec)) ->
  (d = [] -> a' = a) -> parses step a' post r -> parses step a (bytes_field f d ++ post) r.
Proof.
  intros Hf Hd Hs Hk Ha Hp. unfold bytes_field.
  destruct (Nat.eqb_spec (length d) 0) as [E%nil_length_inv|E]; [by rewrite <- (Ha E)|].
  rewrite <- !app_assoc, (app_assoc (varint _)). eapply parses_field; [done|lia| |done]. rewrite Hs.
  by apply reads_bytes.
Qed.

(** The whole input. *)
Lemma parses_whole a bs r fuel :
  parses step a bs r -> Z.of_nat (length bs) < 2 ^ 31 -> (length bs < fuel)%nat ->
  (fields step fuel a (protobuf_decoder_init bs)).1 = r.
Proof. intros Hp Hl Hf. by apply (Hp [] fuel). Qed.
End parses.

(** ** Progress

    A length near [2^32] makes [pos + length] wrap around and moves the cursor back. Inputs
    without four bytes of 128 or more in a row have no such length. *)
Fixpoint calm (run : nat) (bs : list Z) : bool :=
  match bs with
  | [] => true
  | b :: bs => if b <? 128 then calm 0 bs else (run <? 3)%nat && calm (S run) bs
  end.

Lemma calm_mono r r' bs : (r' <= r)%nat -> calm r bs = true -> calm r' bs = true.
Proof.
  revert r r'. induction bs as [|b bs IH]; intros r r' Hr; cbn [calm]; [done|].
  destruct (b <? 128); [done|]. rewrite !andb_true_iff, !Nat.ltb_lt. intros [? H]. split; [lia|].
  apply (IH (S r)); [lia|done].
Qed.

Lemma calm_drop n r bs : calm r bs = true -> calm 0 (drop n bs) = true.
Proof.
  revert r bs. induction n as [|n IH]; intros r bs Hc; [rewrite drop_0; by apply (calm_mono r); [lia|]|].
  destruct bs as [|b bs]; [done|]. cbn [drop calm] in *. destruct (b <? 128); [by apply (IH 0%nat)|].
  apply andb_true_iff in Hc as [_ Hc]. by apply (IH (S r)).
Qed.

Lemma read_varint_calm bytes run v x rest :
  calm run bytes = true -> (run <= 3)%nat -> bytes_ok bytes -> fits (7 * Z.of_nat run) v ->
  read_varint_slice bytes v (7 * Z.of_nat run) = Some (x, rest) -> fits 28 x.
Proof.
  revert run v. induction bytes as [|b bytes IH]; intros run v Hc Hr Hb Hv; cbn [read_varint_slice calm] in *; [done|].
  apply Forall_cons in Hb as [Hb Hbs].
  assert (fits (7 * Z.of_nat (S run)) (v .| u64 ((b .& 0x7F) .<< (7 * Z.of_nat run)))) as Hv'.
  { apply fits_lor; [lia|apply (fits_mono (7 * Z.of_nat run)); [done|lia]|].
    rewrite land_7f, Z.shiftl_mul_pow2 by lia. assert (0 <= b mod 128 < 128) by (apply Z.mod_pos_bound; lia).
    assert (2 ^ (7 * Z.of_nat (S run)) <= 2 ^ 28) by (apply Z.pow_le_mono_r; lia).
    rewrite pow7_S in *. rewrite u64_small; unfold fits in *; rewrite ?pow7_S; nia. }
  destruct (b .& 0x80 =? 0) eqn:E.
  - intros [= <- <-]. eapply fits_mono; [done|lia].
  - destruct (64 <=? 7 * Z.of_nat run + 7); [done|].
    replace (7 * Z.of_nat run + 7) with (7 * Z.of_nat (S run)) by lia.
    destruct (Z.ltb_spec b 128).
    + destruct (varint_byte b) as (_ & H8 & _); [unfold fits in Hb; lia|]. by rewrite H8 in E.
    + apply andb_true_iff in Hc as [Hr3%Nat.ltb_lt Hc]. apply (IH (S run)); [done|lia|done..].
Qed.

Definition sound (d : ProtobufDecoder) : Prop :=
  0 <= pos d <= Z.of_nat (length (data d)) /\ Z.of_nat (length (data d)) < 2 ^ 31
  /\ bytes_ok (data d) /\ calm 0 (unread d) = true.

(** [m] ends, and where it gives a value the cursor has moved by [n] bytes or more. *)
Definition forward {A} (n : Z) (m : Read A) : Prop :=
  forall d, sound d ->
    match m d with
    | (Val _, d') => sound d' /\ data d' = data d /\ pos d + n <= pos d'
    | (r, _) => r <> OutOfFuel
    end.

Lemma sound_move d n :
  sound d -> pos d <= n <= Z.of_nat (length (data d)) -> sound (mkDecoder (data d) n).
Proof.
  intros (Hp & Hl & Hb & Hc) Hn. split; [cbn; lia|]. split; [done|]. split; [done|]. unfold unread in *. cbn [data pos].
  replace (Z.to_nat n) with (Z.to_nat (pos d) + (Z.to_nat (n - pos d)))%nat by lia. rewrite <- drop_drop.
  by apply (calm_drop _ 0).
Qed.

Lemma length_unread d : sound d -> Z.of_nat (length (unread d)) = Z.of_nat (length (data d)) - pos d.
Proof. intros (Hp & _). unfold unread. rewrite length_drop. lia. Qed.

Lemma forward_ret {A} (a : A) : forward 0 (ret a).
Proof. intros d Hd. cbn. split; [done|]. split; [done|lia]. Qed.

Lemma forward_refused {A} n : forward (A := A) n (stop Refused).
Proof. intros d Hd. cbn. done. Qed.

Lemma forward_weaken {A} n n' (m : Read A) : n' <= n -> forward n m -> forward n' m.
Proof.
  intros Hn Hm d Hd. specialize (Hm d Hd). destruct (m d) as [[] d']; try done.
  destruct Hm as (? & ? & ?). split_and!; [done..|lia].
Qed.

Lemma forward_bind {A B} n n' (m : Read A) (k : A -> Read B) :
  forward n m -> (forall a, forward n' (k a)) -> forward (n + n') (bind m k).
Proof.
  intros Hm Hk d Hd. unfold bind. specialize (Hm d Hd). destruct (m d) as [[a| | |] d']; try done.
  destruct Hm as (Hd' & He & Hp). specialize (Hk a d' Hd'). destruct (k a d') as [[] d'']; try done.
  destruct Hk as (? & ? & ?). split; [done|]. split; [congruence|lia].
Qed.

(** A varint moves the cursor, and its value is small. *)
Lemma read_varint_sound d :
  sound d ->
  match protobuf_decoder_read_varint d with
  | (Val v, d') => sound d' /\ data d' = data d /\ pos d + 1 <= pos d' /\ fits 28 v
  | (r, _) => r <> OutOfFuel
  end.
Proof.
  intros Hd. unfold protobuf_decoder_read_varint.
  pose proof (read_varint_loop_slice (unread d) (pos d) 0 0) as H. pose proof (length_unread d Hd) as Hlen.
  destruct (read_varint_slice (unread d) 0 0) as [[x rest]|] eqn:E.
  - destruct H as [-> (used & Hu & Hne)]. cbn [data pos].
    assert (fits 28 x) as Hx.
    { destruct Hd as (_ & _ & Hb & Hc). apply (read_varint_calm (unread d) 0 0 x rest); try done.
      - lia.
      - unfold unread. by apply Forall_drop. }
    rewrite Hu, length_app in Hlen. rewrite Hu, length_app.
    assert (1 <= length used)%nat by (destruct used; [done|cbn; lia]).
    split; [apply sound_move; [done|lia]|]. split; [done|]. split; [lia|done].
  - destruct (read_varint_loop (unread d) (pos d) 0 0) as [r p]. cbn [fst] in H. by subst r.
Qed.

Lemma forward_varint : forward 1 protobuf_decoder_read_varint.
Proof.
  intros d Hd. pose proof (read_varint_sound d Hd) as H. destruct (protobuf_decoder_read_varint d) as [[] d']; tauto.
Qed.

Lemma forward_take n : 0 <= n < 2 ^ 31 -> forward 0 (take_bytes n).
Proof.
  intros Hn d Hd. unfold take_bytes. pose proof Hd as (Hp & Hl & _). rewrite u32_small by (unfold fits; lia).
  destruct (Z.ltb_spec (Z.of_nat (length (data d))) (pos d + n)); [done|]. cbn [data pos].
  split; [apply sound_move; [done|lia]|]. split; [done|lia].
Qed.

Lemma forward_bytes : forward 1 protobuf_decoder_read_bytes.
Proof.
  intros d Hd. unfold protobuf_decoder_read_bytes, bind. pose proof (read_varint_sound d Hd) as H.
  destruct (protobuf_decoder_read_varint d) as [[v| | |] d']; try done. destruct H as (Hd' & He & Hp & Hv).
  rewrite u32_small by (eapply fits_mono; [done|lia]).
  pose proof (forward_take v ltac:(unfold fits in Hv; lia) d' Hd') as Ht.
  destruct (take_bytes v d') as [[] d'']; try done. destruct Ht as (? & ? & ?). split; [done|]. split; [congruence|lia].
Qed.

Lemma forward_skip w : forward 0 (protobuf_decoder_skip_field w).
Proof.
  unfold protobuf_decoder_skip_field. repeat case_match.
  - eapply (forward_weaken (1 + 0)), forward_bind; [lia|apply forward_varint|intros; apply forward_ret].
  - apply (forward_bind 0 0); [apply forward_take; lia|intros; apply forward_ret].
  - eapply (forward_weaken (1 + 0)), forward_bind; [lia|apply forward_bytes|intros; apply forward_ret].
  - apply (forward_bind 0 0); [apply forward_take; lia|intros; apply forward_ret].
  - apply forward_refused.
Qed.

Lemma forward_copy p n : forward 0 (copy p n).
Proof. unfold copy. case_match; [intros d Hd; done|apply forward_ret]. Qed.

(** The loop ends after at most one round per byte. *)
Lemma fields_end {A} (step : A -> Z -> Z -> Read A) fuel a d :
  (forall a f w, forward 0 (step a f w)) -> sound d ->
  (length (data d) < fuel + Z.to_nat (pos d))%nat -> (fields step fuel a d).1 <> OutOfFuel.
Proof.
  intros Hs. revert a d. induction fuel as [|fuel IH]; intros a d Hd Hf.
  { destruct Hd as (? & _). lia. }
  cbn [fields]. unfold protobuf_decoder_has_more. destruct (Z.ltb_spec (pos d) (Z.of_nat (length (data d)))); [|done].
  unfold bind at 1. unfold protobuf_decoder_read_tag, bind at 1. pose proof (read_varint_sound d Hd) as Hv.
  destruct (protobuf_decoder_read_varint d) as [[v| | |] d']; try done. destruct Hv as (Hd' & He & Hp & _).
  cbn [ret fst snd]. unfold bind. specialize (Hs a (u32 v .>> 3) (u8 (u32 v .& 7)) d' Hd').
  destruct (step a _ _ d') as [[a'| | |] d'']; try done. destruct Hs as (Hd'' & He' & Hp').
  apply IH; [done|]. rewrite He', He. destruct Hd as (? & _). lia.
Qed.

(** ** The varint routines agree *)

Lemma decode_varint_slice n bytes v c :
  (n <= 9)%nat ->
  match read_varint_slice bytes v (7 * Z.of_nat (9 - n)) with
  | Some (x, rest) => decode_varint_loop (S n) bytes v (7 * Z.of_nat (9 - n)) c
                      = (x, c + Z.of_nat (length bytes) - Z.of_nat (length rest))
  | None => (decode_varint_loop (S n) bytes v (7 * Z.of_nat (9 - n)) c).2 = c + Z.of_nat (S n `min` length bytes)
  end.
Proof.
  intros Hn. revert n Hn v c. induction bytes as [|b bytes IH]; intros n Hn v c.
  { cbn [read_varint_slice decode_varint_loop snd length]. lia. }
  cbn [read_varint_slice]. cbn [decode_varint_loop]. destruct (b .& 0x80 =? 0); [cbn [length]; f_equal; lia|].
  destruct (Z.leb_spec 64 (7 * Z.of_nat (9 - n) + 7)).
  - assert (n = 0)%nat as -> by lia. cbn [decode_varint_loop snd length]. lia.
  - destruct n as [|n]; [lia|]. replace (7 * Z.of_nat (9 - S n) + 7) with (7 * Z.of_nat (9 - n)) by lia.
    specialize (IH n ltac:(lia) (v .| u64 ((b .& 127) .<< (7 * Z.of_nat (9 - S n)))) (c + 1)).
    destruct (read_varint_slice _ _ _) as [[x rest]|]; rewrite IH; cbn [length]; [f_equal|]; lia.
Qed.

(** The varint routines of protobuf.c and of mod.c are two translations of one thing: they
    write the same bytes into any buffer, also a full one, and every reader gives back what
    was written. Where the readers of protobuf.c refuse their input the one of mod.c does
    not: it gives what it has read of it. *)
Theorem varint_routines_agree (v : Z) (vec : Vec_u8) (bytes : list Z) :
  fits 64 v ->
  protobuf_encoder_write_varint vec v = encode_varint v vec
  /\ protobuf_decoder_read_varint_advancing (varint v ++ bytes) = Some (v, bytes)
  /\ match protobuf_decoder_read_varint_advancing bytes with
     | Some (x, rest) =>
         let n := Z.of_nat (length bytes) - Z.of_nat (length rest) in
         decode_varint bytes = (x, n)
         /\ protobuf_decoder_read_varint_from_slice bytes = Some x
         /\ protobuf_decoder_read_varint (protobuf_decoder_init bytes) = (Val x, mkDecoder bytes n)
     | None =>
         (decode_varint bytes).2 = Z.of_nat (10 `min` length bytes)
         /\ protobuf_decoder_read_varint_from_slice bytes = None
         /\ (protobuf_decoder_read_varint (protobuf_decoder_init bytes)).1 = Refused
     end.
Proof.
  intros Hv. split; [by rewrite write_varint_spec, encode_varint_spec|]. split; [by apply read_varint_slice_varint|].
  unfold protobuf_decoder_read_varint_advancing, protobuf_decoder_read_varint_from_slice, protobuf_decoder_read_varint, decode_varint.
  change (unread (protobuf_decoder_init bytes)) with (drop 0 bytes). rewrite drop_0. cbn [protobuf_decoder_init data pos].
  pose proof (decode_varint_slice 9 bytes 0 0 ltac:(lia)) as Hd. change (7 * Z.of_nat (9 - 9)) with 0 in Hd.
  pose proof (read_varint_loop_slice bytes 0 0 0) as Hr.
  destruct (read_varint_slice bytes 0 0) as [[x rest]|].
  - destruct Hr as [-> _]. rewrite Hd. done.
  - destruct (read_varint_loop bytes 0 0 0) as [r p]. cbn [fst] in *. done.
Qed.

Lemma varint_routines_agree_witness :
  protobuf_encoder_write_varint (mkVec [1; 2] 3) 300 = encode_varint 300 (mkVec [1; 2] 3)
  /\ decode_varint [0x80; 0x80] = (0, 2)
  /\ (protobuf_decoder_read_varint (protobuf_decoder_init [0x80; 0x80])).1 = Refused.
Proof.
  pose proof (varint_routines_agree 300 (mkVec [1; 2] 3) [0x80; 0x80] ltac:(apply (bool_decide_unpack _); vm_compute; exact I))
    as (Hw & _ & _ & _ & Hr).
  split; [exact Hw|]. split; [reflexivity|exact Hr].
Defined.

(** The reader [next_field] uses for the value of a field. *)
Definition field_reader (wire_type : Z) : Read (list Z * Z) :=
  if wire_type =? WIRE_TYPE_VARINT then scan_varint
  else if wire_type =? WIRE_TYPE_64BIT then take_bytes 8
  else if wire_type =? WIRE_TYPE_LENGTH_DELIMITED then
    let* len := protobuf_decoder_read_varint in take_bytes (u32 len)
  else if wire_type =? WIRE_TYPE_32BIT then take_bytes 4
  else stop Refused.

Lemma next_field_at f w body p n pre post :
  field_ok f -> 0 <= w < 8 -> Z.of_nat (length (pre ++ tag_bytes f w ++ body ++ post)) < 2 ^ 32 ->
  field_reader w (cursor (pre ++ tag_bytes f w) (body ++ post)) = (Val (p, n), cursor ((pre ++ tag_bytes f w) ++ body) post) ->
  protobuf_decoder_next_field (cursor pre ((tag_bytes f w ++ body) ++ post))
  = (Val (mkField f w p n), cursor (pre ++ tag_bytes f w ++ body) post).
Proof.
  intros Hf Hw Hl Hr. rewrite <- app_assoc. unfold protobuf_decoder_next_field.
  pose proof (varint_nonempty (8 * f + w)) as Hne. fold (tag_bytes f w) in Hne.
  assert (protobuf_decoder_has_more (cursor pre (tag_bytes f w ++ body ++ post)) = true) as ->.
  { unfold protobuf_decoder_has_more, cursor. cbn [data pos]. rewrite !length_app. apply Z.ltb_lt. lia. }
  cbn [negb]. unfold bind at 1. rewrite reads_tag by done.
  unfold bind at 1. unfold field_reader in Hr. rewrite Hr. unfold ret. cbn [fst snd]. by rewrite app_assoc.
Qed.

Lemma varint_prefix_varint n v post :
  0 <= v < 2 ^ (7 * Z.of_nat (S n)) -> varint_prefix (varint_bytes (S n) v ++ post) = length (varint_bytes (S n) v).
Proof.
  revert v. induction n as [|n IH]; intros v Hv;
    change (varint_bytes (S ?n) v) with (if v <? 128 then [v] else v mod 128 + 128 :: varint_bytes n (v / 128));
    destruct (Z.ltb_spec v 128) as [Hs|Hs]; [|change (2 ^ (7 * Z.of_nat 1)) with 128 in Hv; lia| |].
  1,2: destruct (varint_byte v) as (_ & H8 & _); [lia|]; cbn [app varint_prefix]; by rewrite H8.
  destruct (varint_byte (v mod 128)) as (_ & _ & _ & H8); [apply Z.mod_pos_bound; lia|].
  cbn [app varint_prefix]. rewrite H8. cbn [Z.eqb length]. f_equal. apply IH.
  rewrite pow7_S in Hv. split; [div_lia|apply Z.div_lt_upper_bound; lia].
Qed.

Lemma length_varint v m : fits 64 v -> v < 2 ^ (7 * Z.of_nat m) -> (1 <= m)%nat -> (length (varint v) <= m)%nat.
Proof. intros Hv Hm H1. apply length_varint_bytes; [unfold fits in Hv; lia|done]. Qed.

Lemma length_varint_64 v : fits 64 v -> (length (varint v) <= 10)%nat.
Proof. intros Hv. apply length_varint; [done| |lia]. unfold fits in Hv. change (2 ^ (7 * Z.of_nat 10)) with (2 ^ 70). lia. Qed.

Lemma length_tag f w : field_ok f -> 0 <= w < 8 -> (length (tag_bytes f w) <= 5)%nat.
Proof.
  intros Hf Hw. destruct (tag_value f w Hf Hw) as [_ H32]. apply length_varint; [eapply fits_mono; [done|lia]| |lia].
  unfold fits in H32. change (2 ^ (7 * Z.of_nat 5)) with (2 ^ 35). lia.
Qed.

(** [next_field] over what the writers wrote: the field number, the wire type and the bytes
    of the value, and the cursor behind it. *)
Theorem next_field_reads_back (f v : Z) (d pre post : list Z) :
  field_ok f -> v <> 0 -> d <> [] ->
  fits 64 v -> Z.of_nat (length pre + length d + length post) < 2 ^ 31 ->
  protobuf_decoder_next_field (cursor pre (varint_field f v ++ post))
    = (Val (mkField f 0 (varint v ++ post) (Z.of_nat (length (varint v)))), cursor (pre ++ varint_field f v) post)
  /\ protobuf_decoder_next_field (cursor pre (bytes_field f d ++ post))
    = (Val (mkField f 2 (d ++ post) (Z.of_nat (length d))), cursor (pre ++ bytes_field f d) post)
  /\ protobuf_decoder_next_field (cursor pre (fixed_field f 5 4 v ++ post))
    = (Val (mkField f 5 (le_bytes 4 v ++ post) 4), cursor (pre ++ fixed_field f 5 4 v) post)
  /\ protobuf_decoder_next_field (cursor pre (fixed_field f 1 8 v ++ post))
    = (Val (mkField f 1 (le_bytes 8 v ++ post) 8), cursor (pre ++ fixed_field f 1 8 v) post).
Proof.
  intros Hf Hv0 Hd0 Hv Hl. unfold varint_field, bytes_field, fixed_field. rewrite !(proj2 (Z.eqb_neq _ _) Hv0).
  destruct (Nat.eqb_spec (length d) 0) as [E%nil_length_inv|_]; [done|].
  assert (fits 64 (Z.of_nat (length d))) as Hd by (unfold fits; lia).
  pose proof (length_varint_64 v Hv). pose proof (length_varint_64 _ Hd).
  pose proof (length_tag f 0 Hf ltac:(lia)). pose proof (length_tag f 1 Hf ltac:(lia)).
  pose proof (length_tag f 2 Hf ltac:(lia)). pose proof (length_tag f 5 Hf ltac:(lia)).
  repeat split; apply next_field_at; try (done || lia);
    try (rewrite !length_app, ?length_le_bytes; lia).
  - change (field_reader 0) with scan_varint. unfold scan_varint. rewrite unread_cursor.
    assert (varint_prefix (varint v ++ post) = length (varint v)) as ->.
    { apply varint_prefix_varint. unfold fits in Hv. change (2 ^ (7 * Z.of_nat 10)) with (2 ^ 70). lia. }
    unfold cursor. cbn [data pos]. f_equal.
    rewrite <- (app_assoc (pre ++ _)), (length_app (pre ++ _)), Nat2Z.inj_add. done.
  - change (field_reader 2) with (let* len := protobuf_decoder_read_varint in take_bytes (u32 len)).
    rewrite <- app_assoc. unfold bind.
    rewrite reads_varint by (done || (rewrite !length_app; lia)).
    rewrite u32_small by (unfold fits; lia).
    rewrite take_bytes_cursor by (done || (rewrite !length_app; lia)). by rewrite app_assoc.
  - apply (take_bytes_cursor (le_bytes 4 v)); [by rewrite length_le_bytes|rewrite !length_app, length_le_bytes; lia].
  - apply (take_bytes_cursor (le_bytes 8 v)); [by rewrite length_le_bytes|rewrite !length_app, length_le_bytes; lia].
Qed.

Lemma next_field_reads_back_witness :
  protobuf_decoder_next_field (cursor [] (bytes_field 2 [104; 105] ++ [24; 1]))
  = (Val (mkField 2 2 ([104; 105] ++ [24; 1]) 2), cursor ([] ++ bytes_field 2 [104; 105]) [24; 1]).
Proof.
  exact (proj1 (proj2 (next_field_reads_back 2 5 [104; 105] [] [24; 1] ltac:(split; reflexivity)
    ltac:(discriminate) ltac:(discriminate) ltac:(split; [discriminate|reflexivity]) ltac:(reflexivity)))).
Defined.
