(* ===== verification/PbMessage.v ===== *)
(** * Messages of the first codec: lunarcore/lunar/meshtastic/protobuf.c

    [encode_data], [encode_position], [encode_user] and their decoders over the wire format
    of Wire.v, with the hex helpers. The encoders ignore the results of the writes, so what
    does not fit is missing from the output; the decoders are loops over the fields, with
    one unit of [fuel] per round. The structs are those of mod.h; protobuf.c addresses the
    length of a vector as [payload_len], [long_name_len] ... *)
From S2P Require Import Prelude Wire.

Definition MAX_LORA_PAYLOAD : nat := 237.
Definition LONG_NAME_SIZE : nat := 40.
Definition SHORT_NAME_SIZE : nat := 5.

(** ** Data *)

(** Enumerations appear as their values. *)
Record DataPayload := mkData {
  port : Z;                    (* PortNum *)
  payload : list Z;            (* at most MAX_LORA_PAYLOAD *)
  want_response : bool;
  dest : Z;                    (* uint32_t, like the rest *)
  source : Z;
  request_id : Z;
  reply_id : Z;
  emoji : Z
}.

Record Position := mkPosition {
  latitude_i : Z;              (* int32_t *)
  longitude_i : Z;
  altitude : Z;
  time : Z;                    (* uint32_t *)
  timestamp : Z;
  location_source : Z;         (* LocationSource *)
  altitude_source : Z;
  pdop : Z;                    (* uint32_t, like the rest *)
  hdop : Z;
  sats_in_view : Z;
  ground_speed : Z;
  ground_track : Z;
  fix_quality : Z;
  fix_type : Z;
  seq_number : Z
}.

Record User := mkUser {
  id : list Z;                 (* uint8_t[8] *)
  long_name : list Z;          (* at most 40 *)
  short_name : list Z;         (* at most 5 *)
  hw_model : Z;                (* HardwareModel *)
  is_licensed : bool;
  role : Z                     (* Role *)
}.

#[global] Instance DataPayload_eq_dec : EqDecision DataPayload.
Proof. solve_decision. Defined.
#[global] Instance Position_eq_dec : EqDecision Position.
Proof. solve_decision. Defined.
#[global] Instance User_eq_dec : EqDecision User.
Proof. solve_decision. Defined.

(** ** Hexadecimal *)

Definition HEX_CHARS : list Z := [48; 49; 50; 51; 52; 53; 54; 55; 56; 57; 97; 98; 99; 100; 101; 102].

Definition hex_encode (data output : list Z) : list Z :=
  foldl (fun output i =>
    if (i * 2 + 1 <? length output)%nat then
      let byte := data.[i] in
      <[(i * 2 + 1)%nat := HEX_CHARS.[Z.to_nat (byte .& 0x0F)]]>
        (<[(i * 2)%nat := HEX_CHARS.[Z.to_nat (byte .>> 4)]]> output)
    else output) output (seq 0 (length data)).

Definition hex_char_to_value (c : Z) : Z :=
  if (48 <=? c) && (c <=? 57) then c - 48
  else if (97 <=? c) && (c <=? 102) then c - 97 + 10
  else if (65 <=? c) && (c <=? 70) then c - 65 + 10
  else -1.

Definition hex_decode (data output : list Z) : list Z :=
  foldl (fun output i =>
    let high := hex_char_to_value data.[(i * 2)%nat] in
    let low := hex_char_to_value data.[(i * 2 + 1)%nat] in
    if (0 <=? high) && (0 <=? low) then <[i := u8 ((high .<< 4) .| low)]> output else output)
    output (seq 0 ((length data / 2) `min` length output)).

(** ** Encoders *)

(** A write whose result is ignored. *)
Definition also (vec : Vec_u8) (w : Vec_u8 -> Vec_u8 * bool) : Vec_u8 := (w vec).1.

(** [if (encoder.buffer.len > max_len) return false; memcpy(output, ...)]. *)
Definition output_of (vec : Vec_u8) (max_len : nat) : option (list Z) :=
  if (max_len <? length (vdata vec))%nat then None else Some (vdata vec).

Definition encode_data (data : DataPayload) (max_len : nat) : option (list Z) :=
  let e := vec_u8_init MAX_LORA_PAYLOAD in
  let e := also e (fun e => protobuf_encoder_write_varint_field e 1 (port data)) in
  let e := also e (fun e => protobuf_encoder_write_bytes_field e 2 (payload data)) in
  let e := also e (fun e => protobuf_encoder_write_bool_field e 3 (want_response data)) in
  let e := also e (fun e => protobuf_encoder_write_varint_field e 4 (dest data)) in
  let e := also e (fun e => protobuf_encoder_write_varint_field e 5 (source data)) in
  let e := also e (fun e => protobuf_encoder_write_varint_field e 6 (request_id data)) in
  let e := also e (fun e => protobuf_encoder_write_varint_field e 7 (reply_id data)) in
  let e := also e (fun e => protobuf_encoder_write_varint_field e 8 (emoji data)) in
  output_of e max_len.

Definition encode_position (pos : Position) (max_len : nat) : option (list Z) :=
  let e := vec_u8_init MAX_LORA_PAYLOAD in
  let e := also e (fun e => protobuf_encoder_write_sint32_field e 1 (latitude_i pos)) in
  let e := also e (fun e => protobuf_encoder_write_sint32_field e 2 (longitude_i pos)) in
  let e := also e (fun e => protobuf_encoder_write_sint32_field e 3 (altitude pos)) in
  let e := also e (fun e => protobuf_encoder_write_varint_field e 4 (time pos)) in
  let e := also e (fun e => protobuf_encoder_write_varint_field e 5 (location_source pos)) in
  let e := also e (fun e => protobuf_encoder_write_varint_field e 6 (altitude_source pos)) in
  let e := also e (fun e => protobuf_encoder_write_varint_field e 7 (timestamp pos)) in
  let e := also e (fun e => protobuf_encoder_write_varint_field e 11 (pdop pos)) in
  let e := also e (fun e => protobuf_encoder_write_varint_field e 12 (hdop pos)) in
  let e := also e (fun e => protobuf_encoder_write_varint_field e 19 (sats_in_view pos)) in
  let e := also e (fun e => protobuf_encoder_write_varint_field e 15 (ground_speed pos)) in
  let e := also e (fun e => protobuf_encoder_write_varint_field e 16 (ground_track pos)) in
  let e := also e (fun e => protobuf_encoder_write_varint_field e 17 (fix_quality pos)) in
  let e := also e (fun e => protobuf_encoder_write_varint_field e 18 (fix_type pos)) in
  let e := also e (fun e => protobuf_encoder_write_varint_field e 22 (seq_number pos)) in
  output_of e max_len.

Definition encode_user (user : User) (max_len : nat) : option (list Z) :=
  let e := vec_u8_init MAX_LORA_PAYLOAD in
  let id_str := 33 :: hex_encode (id user) (replicate 16 0) in
  let e := also e (fun e => protobuf_encoder_write_bytes_field e 1 id_str) in
  let e := also e (fun e => protobuf_encoder_write_bytes_field e 2 (long_name user)) in
  let e := also e (fun e => protobuf_encoder_write_bytes_field e 3 (short_name user)) in
  let e := also e (fun e => protobuf_encoder_write_bytes_field e 4 (slice (id user) 2 6)) in
  let e := also e (fun e => protobuf_encoder_write_varint_field e 5 (hw_model user)) in
  let e := also e (fun e => protobuf_encoder_write_bool_field e 6 (is_licensed user)) in
  let e := also e (fun e => protobuf_encoder_write_varint_field e 7 (role user)) in
  output_of e max_len.

(** ** Decoders *)

(** [if (wire_type == WIRE_TYPE_VARINT) { read_varint(&value); ... }]: with another wire type
    nothing is read, nor skipped. *)
Definition on_varint {A} (wire_type : Z) (result : A) (set : Z -> A) : Read A :=
  if wire_type =? WIRE_TYPE_VARINT then
    let* value := protobuf_decoder_read_varint in ret (set value)
  else ret result.

Definition on_sint32 {A} (wire_type : Z) (result : A) (set : Z -> A) : Read A :=
  if wire_type =? WIRE_TYPE_VARINT then
    let* value := protobuf_decoder_read_sint32 in ret (set value)
  else ret result.

Definition on_bytes {A} (wire_type : Z) (result : A) (k : list Z * Z -> Read A) : Read A :=
  if wire_type =? WIRE_TYPE_LENGTH_DELIMITED then bind protobuf_decoder_read_bytes k else ret result.

Definition skip_rest {A} (wire_type : Z) (result : A) : Read A :=
  let* _u := protobuf_decoder_skip_field wire_type in ret result.

Definition data_step (r : DataPayload) (field_number wire_type : Z) : Read DataPayload :=
  let '(mkData po pa wr de so rq rp em) := r in
  match field_number with
  | 1 => on_varint wire_type r (fun v => mkData (u32 v) pa wr de so rq rp em)
  | 2 => on_bytes wire_type r (fun '(bytes, bytes_len) =>
           if Z.of_nat MAX_LORA_PAYLOAD <? bytes_len then stop Refused
           else let* payload := copy bytes bytes_len in ret (mkData po payload wr de so rq rp em))
  | 3 => on_varint wire_type r (fun v => mkData po pa (negb (v =? 0)) de so rq rp em)
  | 4 => on_varint wire_type r (fun v => mkData po pa wr (u32 v) so rq rp em)
  | 5 => on_varint wire_type r (fun v => mkData po pa wr de (u32 v) rq rp em)
  | 6 => on_varint wire_type r (fun v => mkData po pa wr de so (u32 v) rp em)
  | 7 => on_varint wire_type r (fun v => mkData po pa wr de so rq (u32 v) em)
  | 8 => on_varint wire_type r (fun v => mkData po pa wr de so rq rp (u32 v))
  | _ => skip_rest wire_type r
  end.

Definition data_default : DataPayload := mkData 0 [] false 0 0 0 0 0.

Definition decode_data (fuel : nat) (data : list Z) : Result DataPayload :=
  (fields data_step fuel data_default (protobuf_decoder_init data)).1.

(** [switch (val_u8)] over the four sources. *)
Definition location_source_of (value : Z) : Z :=
  match u8 value with 1 => 1 | 2 => 2 | 3 => 3 | _ => 0 end.

Definition position_step (r : Position) (field_number wire_type : Z) : Read Position :=
  let '(mkPosition la lo al ti ts ls as_ pd hd sa gs gt fq ft sq) := r in
  match field_number with
  | 1 => on_sint32 wire_type r (fun v => mkPosition v lo al ti ts ls as_ pd hd sa gs gt fq ft sq)
  | 2 => on_sint32 wire_type r (fun v => mkPosition la v al ti ts ls as_ pd hd sa gs gt fq ft sq)
  | 3 => on_sint32 wire_type r (fun v => mkPosition la lo v ti ts ls as_ pd hd sa gs gt fq ft sq)
  | 4 => on_varint wire_type r (fun v => mkPosition la lo al (u32 v) ts ls as_ pd hd sa gs gt fq ft sq)
  | 5 => on_varint wire_type r (fun v => mkPosition la lo al ti ts (location_source_of v) as_ pd hd sa gs gt fq ft sq)
  | 6 => on_varint wire_type r (fun v => mkPosition la lo al ti ts ls (location_source_of v) pd hd sa gs gt fq ft sq)
  | 7 => on_varint wire_type r (fun v => mkPosition la lo al ti (u32 v) ls as_ pd hd sa gs gt fq ft sq)
  | 11 => on_varint wire_type r (fun v => mkPosition la lo al ti ts ls as_ (u32 v) hd sa gs gt fq ft sq)
  | 12 => on_varint wire_type r (fun v => mkPosition la lo al ti ts ls as_ pd (u32 v) sa gs gt fq ft sq)
  | 19 => on_varint wire_type r (fun v => mkPosition la lo al ti ts ls as_ pd hd (u32 v) gs gt fq ft sq)
  | 15 => on_varint wire_type r (fun v => mkPosition la lo al ti ts ls as_ pd hd sa (u32 v) gt fq ft sq)
  | 16 => on_varint wire_type r (fun v => mkPosition la lo al ti ts ls as_ pd hd sa gs (u32 v) fq ft sq)
  | 17 => on_varint wire_type r (fun v => mkPosition la lo al ti ts ls as_ pd hd sa gs gt (u32 v) ft sq)
  | 18 => on_varint wire_type r (fun v => mkPosition la lo al ti ts ls as_ pd hd sa gs gt fq (u32 v) sq)
  | 22 => on_varint wire_type r (fun v => mkPosition la lo al ti ts ls as_ pd hd sa gs gt fq ft (u32 v))
  | _ => skip_rest wire_type r
  end.

Definition position_default : Position := mkPosition 0 0 0 0 0 0 0 0 0 0 0 0 0 0 0.

Definition decode_position (fuel : nat) (data : list Z) : Result Position :=
  (fields position_step fuel position_default (protobuf_decoder_init data)).1.

(** The hardware models [decode_user] knows; every other value becomes UNSET. *)
Definition hw_model_of (value : Z) : Z :=
  match u16 value with
  | 1 => 1 | 2 => 2 | 4 => 4 | 5 => 5 | 9 => 9 | 10 => 10 | 34 => 34 | 255 => 255
  | _ => 0
  end.

Definition role_of (value : Z) : Z :=
  match u8 value with
  | 0 => 0 | 1 => 1 | 2 => 2 | 3 => 3 | 4 => 4 | 5 => 5 | 6 => 6 | 7 => 7 | 8 => 8 | 9 => 9 | 10 => 10
  | _ => 0
  end.

(** A name: cut to the size of its array, which is what is copied. *)
Definition copy_name (size : nat) (bytes : list Z) (bytes_len : Z) : Read (list Z) :=
  copy bytes (if Z.of_nat size <? bytes_len then Z.of_nat size else bytes_len).

(** [id]: "!" and sixteen hex digits, or eight bytes. *)
Definition user_id (old bytes : list Z) (bytes_len : Z) : Read (list Z) :=
  if 17 <=? bytes_len then
    let* first := copy bytes 1 in
    if first.[0] =? 33 then
      let* text := copy bytes 17 in ret (hex_decode (drop 1 text) old)
    else ret old
  else if bytes_len =? 8 then copy bytes 8
  else ret old.

Definition user_step (r : User) (field_number wire_type : Z) : Read User :=
  let '(mkUser i ln sn hw li ro) := r in
  match field_number with
  | 1 => on_bytes wire_type r (fun '(bytes, n) => let* i := user_id i bytes n in ret (mkUser i ln sn hw li ro))
  | 2 => on_bytes wire_type r (fun '(bytes, n) =>
           let* ln := copy_name LONG_NAME_SIZE bytes n in ret (mkUser i ln sn hw li ro))
  | 3 => on_bytes wire_type r (fun '(bytes, n) =>
           let* sn := copy_name SHORT_NAME_SIZE bytes n in ret (mkUser i ln sn hw li ro))
  | 4 => on_bytes wire_type r (fun '(bytes, n) =>
           if n =? 6 then let* mac := copy bytes 6 in ret (mkUser (take 2 i ++ mac) ln sn hw li ro) else ret r)
  | 5 => on_varint wire_type r (fun v => mkUser i ln sn (hw_model_of v) li ro)
  | 6 => on_varint wire_type r (fun v => mkUser i ln sn hw (negb (v =? 0)) ro)
  | 7 => on_varint wire_type r (fun v => mkUser i ln sn hw li (role_of v))
  | _ => skip_rest wire_type r
  end.

Definition user_default : User := mkUser (replicate 8 0) [] [] 0 false 0.

Definition decode_user (fuel : nat) (data : list Z) : Result User :=
  (fields user_step fuel user_default (protobuf_decoder_init data)).1.

(** ** What the encoders write *)

Definition data_bytes (d : DataPayload) : list Z :=
  varint_field 1 (port d) ++ bytes_field 2 (payload d) ++ bool_field 3 (want_response d)
  ++ varint_field 4 (dest d) ++ varint_field 5 (source d) ++ varint_field 6 (request_id d)
  ++ varint_field 7 (reply_id d) ++ varint_field 8 (emoji d) ++ [].

Definition position_bytes (p : Position) : list Z :=
  sint_field 1 (latitude_i p) ++ sint_field 2 (longitude_i p) ++ sint_field 3 (altitude p)
  ++ varint_field 4 (time p) ++ varint_field 5 (location_source p) ++ varint_field 6 (altitude_source p)
  ++ varint_field 7 (timestamp p) ++ varint_field 11 (pdop p) ++ varint_field 12 (hdop p)
  ++ varint_field 19 (sats_in_view p) ++ varint_field 15 (ground_speed p) ++ varint_field 16 (ground_track p)
  ++ varint_field 17 (fix_quality p) ++ varint_field 18 (fix_type p) ++ varint_field 22 (seq_number p) ++ [].

Definition user_bytes (u : User) : list Z :=
  bytes_field 1 (33 :: hex_encode (id u) (replicate 16 0)) ++ bytes_field 2 (long_name u)
  ++ bytes_field 3 (short_name u) ++ bytes_field 4 (slice (id u) 2 6) ++ varint_field 5 (hw_model u)
  ++ bool_field 6 (is_licensed u) ++ varint_field 7 (role u) ++ [].

Definition data_ok (d : DataPayload) : Prop :=
  fits 32 (port d) /\ (length (payload d) <= MAX_LORA_PAYLOAD)%nat /\ fits 32 (dest d) /\ fits 32 (source d)
  /\ fits 32 (request_id d) /\ fits 32 (reply_id d) /\ fits 32 (emoji d).

Definition position_ok (p : Position) : Prop :=
  int_ok 32 (latitude_i p) /\ int_ok 32 (longitude_i p) /\ int_ok 32 (altitude p) /\ fits 32 (time p)
  /\ fits 32 (timestamp p) /\ 0 <= location_source p <= 3 /\ 0 <= altitude_source p <= 3 /\ fits 32 (pdop p)
  /\ fits 32 (hdop p) /\ fits 32 (sats_in_view p) /\ fits 32 (ground_speed p) /\ fits 32 (ground_track p)
  /\ fits 32 (fix_quality p) /\ fits 32 (fix_type p) /\ fits 32 (seq_number p).

(** Models and roles the decoder knows. *)
Definition user_ok (u : User) : Prop :=
  length (id u) = 8%nat /\ bytes_ok (id u) /\ (length (long_name u) <= LONG_NAME_SIZE)%nat
  /\ (length (short_name u) <= SHORT_NAME_SIZE)%nat /\ hw_model u ∈ [0; 1; 2; 4; 5; 9; 10; 34; 255]
  /\ 0 <= role u <= 10.

Lemma also_appends w bs v c :
  appends w bs -> (length v + length bs <= c)%nat -> also (mkVec v c) w = mkVec (v ++ bs) c.
Proof. intros Hw Hl. unfold also. by rewrite Hw. Qed.

Lemma fits_32_64 v : fits 32 v -> fits 64 v.
Proof. intros H. eapply fits_mono; [done|lia]. Qed.
#[local] Hint Resolve fits_32_64 : word.

Lemma fits_64_small v : 0 <= v < 2 ^ 63 -> fits 64 v.
Proof. unfold fits. lia. Qed.

Lemma parses_done {A} (step : A -> Z -> Z -> Read A) a r : a = r -> parses step a [] (Val r).
Proof. intros ->. apply parses_nil. Qed.

(** One field written, with the room that is left. *)
Ltac write_one lem :=
  erewrite also_appends; [|apply lem; first [by unfold field_ok|auto with word; done|apply fits_64_small; lia]|
    rewrite ?length_app in *; cbn [length] in *; lia].

(** Everything fits: the output is what was written. *)
Ltac written :=
  unfold output_of; cbn [vdata app]; rewrite <- ?app_assoc, ?app_nil_r in *;
  match goal with |- (if ?b then _ else _) = _ => replace b with false; [done|symmetry; apply Nat.ltb_ge] end;
  rewrite ?length_app in *; lia.

Lemma encode_data_bytes d max_len :
  data_ok d -> (length (data_bytes d) <= MAX_LORA_PAYLOAD)%nat -> (length (data_bytes d) <= max_len)%nat ->
  encode_data d max_len = Some (data_bytes d).
Proof.
  intros (Hpo & Hpa & Hde & Hso & Hrq & Hrp & Hem) Hl Hm. unfold encode_data, vec_u8_init. cbn zeta.
  unfold data_bytes, MAX_LORA_PAYLOAD in *. rewrite !length_app in Hl.
  write_one appends_varint_field. write_one appends_bytes_field. write_one appends_bool_field.
  do 5 write_one appends_varint_field. written.
Qed.

(** Sizes: a 32-bit field takes seven bytes at most, with a small number six. *)
Lemma length_varint_field f v : 0 < f < 2 ^ 11 -> fits 32 v -> (length (varint_field f v) <= 7)%nat.
Proof.
  intros Hf Hv. unfold varint_field. destruct (v =? 0); cbn [length]; [lia|]. rewrite length_app. unfold tag_bytes.
  assert (length (varint (8 * f + 0)) <= 2)%nat by (apply length_varint; [unfold fits; lia|change (2 ^ (7 * Z.of_nat 2)) with (2 ^ 14); lia|lia]).
  assert (length (varint v) <= 5)%nat; [|lia].
  apply length_varint; [auto with word| |lia]. change (2 ^ (7 * Z.of_nat 5)) with (2 ^ 35). unfold fits in Hv. lia.
Qed.

Lemma length_sint_field f v : 0 < f < 2 ^ 11 -> int_ok 32 v -> (length (sint_field f v) <= 7)%nat.
Proof.
  intros Hf Hv. destruct (zigzag_bits 32 v) as [_ Hz]; [done..|].
  unfold sint_field. pose proof (length_varint_field f (zigzag v) Hf Hz) as H. unfold varint_field in H.
  destruct (Z.eqb_spec v 0); cbn [length]; [lia|].
  destruct (Z.eqb_spec (zigzag v) 0) as [E|]; [|done]. unfold zigzag in E. destruct (0 <=? v); lia.
Qed.

Lemma length_bool_field f b : 0 < f < 16 -> (length (bool_field f b) <= 2)%nat.
Proof.
  intros Hf. unfold bool_field. destruct b; cbn [length]; [|lia]. unfold tag_bytes.
  rewrite varint_small by lia. cbn. lia.
Qed.

Lemma length_bytes_field f d : 0 < f < 16 -> (length d < 128)%nat -> (length (bytes_field f d) <= length d + 2)%nat.
Proof.
  intros Hf Hd. unfold bytes_field. destruct (length d =? 0)%nat; cbn [length]; [lia|].
  rewrite !length_app. unfold tag_bytes. rewrite !varint_small by lia. cbn [length]. lia.
Qed.

Lemma source_fits v : 0 <= v <= 3 -> fits 32 v.
Proof. unfold fits. lia. Qed.

Lemma encode_position_bytes p max_len :
  position_ok p -> (105 <= max_len)%nat ->
  encode_position p max_len = Some (position_bytes p) /\ (length (position_bytes p) <= 105)%nat.
Proof.
  intros (Hla & Hlo & Hal & Hti & Hts & Hls%source_fits & Has%source_fits & Hpd & Hhd & Hsa & Hgs & Hgt & Hfq & Hft & Hsq) Hm.
  assert (length (position_bytes p) <= 105)%nat as Hl.
  { unfold position_bytes. rewrite !length_app.
    repeat match goal with
    | |- context [length (sint_field ?f ?v)] => pose proof (length_sint_field f v ltac:(lia) ltac:(done)); generalize dependent (length (sint_field f v)); intros
    | |- context [length (varint_field ?f ?v)] => pose proof (length_varint_field f v ltac:(lia) ltac:(done)); generalize dependent (length (varint_field f v)); intros
    end. cbn [length]. lia. }
  split; [|done]. unfold encode_position, vec_u8_init. cbn zeta.
  unfold position_bytes, MAX_LORA_PAYLOAD in *. rewrite !length_app in Hl.
  do 3 write_one appends_sint32_field. do 12 write_one appends_varint_field. written.
Qed.

(** ** Hexadecimal node identifiers *)

Definition hex_byte (b : Z) : list Z := [HEX_CHARS.[Z.to_nat (b .>> 4)]; HEX_CHARS.[Z.to_nat (b .& 0x0F)]].

Lemma hex_byte_back b :
  byte_ok b ->
  let h := hex_char_to_value HEX_CHARS.[Z.to_nat (b .>> 4)] in
  let l := hex_char_to_value HEX_CHARS.[Z.to_nat (b .& 0x0F)] in
  (0 <=? h) && (0 <=? l) = true /\ u8 ((h .<< 4) .| l) = b.
Proof.
  intros Hb. pose proof (range_check 256 (fun b =>
    let h := hex_char_to_value HEX_CHARS.[Z.to_nat (b .>> 4)] in
    let l := hex_char_to_value HEX_CHARS.[Z.to_nat (b .& 0x0F)] in
    (0 <=? h) && (0 <=? l) && (u8 ((h .<< 4) .| l) =? b))
    ltac:(vm_compute; reflexivity) b Hb) as H.
  cbn zeta in *. rewrite !andb_true_iff, Z.eqb_eq in H. rewrite andb_true_iff. tauto.
Qed.

Lemma hex_encode_id i :
  length i = 8%nat -> hex_encode i (replicate 16 0) = mjoin (hex_byte <$> i).
Proof. intros Hi. do 9 (destruct i as [|? i]; try done). Qed.

Lemma hex_digits l k b :
  l !! k = Some b ->
  (mjoin (hex_byte <$> l)).[(k * 2)%nat] = HEX_CHARS.[Z.to_nat (b .>> 4)]
  /\ (mjoin (hex_byte <$> l)).[(k * 2 + 1)%nat] = HEX_CHARS.[Z.to_nat (b .& 0x0F)].
Proof.
  revert k. induction l as [|a l IH]; intros [|k] Hk; simplify_eq/=; [done|]. apply (IH k Hk).
Qed.

Lemma hex_decode_loop l old k m :
  bytes_ok l -> length old = length l -> (k + m <= length l)%nat ->
  foldl (fun output i =>
    let high := hex_char_to_value (mjoin (hex_byte <$> l)).[(i * 2)%nat] in
    let low := hex_char_to_value (mjoin (hex_byte <$> l)).[(i * 2 + 1)%nat] in
    if (0 <=? high) && (0 <=? low) then <[i := u8 ((high .<< 4) .| low)]> output else output)
    (take k l ++ drop k old) (seq k m) = take (k + m) l ++ drop (k + m) old.
Proof.
  intros Hb Ho. revert k. induction m as [|m IH]; intros k Hk; [by rewrite Nat.add_0_r|].
  destruct (lookup_lt_is_Some_2 l k) as [b Hl]; [lia|]. cbn [seq foldl]. cbn zeta.
  destruct (hex_digits l k b Hl) as [-> ->]. destruct (hex_byte_back b) as [-> ->]; [by apply (Forall_lookup_1 _ _ _ _ Hb Hl)|].
  destruct (lookup_lt_is_Some_2 old k) as [o Hol]; [lia|].
  rewrite (drop_S _ _ _ Hol), insert_app_r_alt, length_take, Nat.min_l, Nat.sub_diag by (rewrite ?length_take; lia).
  cbn [insert list_insert]. change (b :: drop (S k) old) with ([b] ++ drop (S k) old).
  rewrite app_assoc, <- (take_S_r _ _ _ Hl), IH by lia. by replace (S k + m)%nat with (k + S m)%nat by lia.
Qed.

Lemma hex_roundtrip i old :
  length i = 8%nat -> bytes_ok i -> length old = 8%nat -> hex_decode (mjoin (hex_byte <$> i)) old = i.
Proof.
  intros Hi Hb Ho. unfold hex_decode.
  assert (length (mjoin (hex_byte <$> i)) = 16%nat) as -> by (do 9 (destruct i as [|? i]; try done)).
  rewrite Ho. change ((16 / 2) `min` 8)%nat with 8%nat.
  pose proof (hex_decode_loop i old 0 8 Hb ltac:(lia) ltac:(lia)) as H. rewrite take_0, drop_0 in H.
  etransitivity; [exact H|]. rewrite take_ge, drop_ge, app_nil_r by lia. done.
Qed.

Lemma model_fits v : v ∈ [0; 1; 2; 4; 5; 9; 10; 34; 255] -> fits 32 v.
Proof. intros H. repeat (apply elem_of_cons in H as [->|H]; [by apply (bool_decide_unpack _); vm_compute|]). by apply not_elem_of_nil in H. Qed.

Lemma length_hex_id i : length i = 8%nat -> length (mjoin (hex_byte <$> i)) = 16%nat.
Proof. intros Hi. do 9 (destruct i as [|? i]; try done). Qed.

Lemma encode_user_bytes u max_len :
  user_ok u -> (92 <= max_len)%nat ->
  encode_user u max_len = Some (user_bytes u) /\ (length (user_bytes u) <= 92)%nat.
Proof.
  unfold user_ok, LONG_NAME_SIZE, SHORT_NAME_SIZE. intros (Hi & Hb & Hln & Hsn & Hhw%model_fits & Hro) Hm.
  assert (fits 32 (role u)) as Hr by (unfold fits; lia).
  pose proof (length_hex_id (id u) Hi) as Hh.
  assert (length (slice (id u) 2 6) = 6%nat) as Hs by (apply length_slice; lia).
  unfold encode_user, user_bytes, vec_u8_init. cbn zeta. rewrite hex_encode_id by done.
  set (name := 33 :: mjoin (hex_byte <$> id u)).
  assert (length name = 17%nat) as Hname by (unfold name; cbn [length]; lia). clearbody name.
  pose proof (length_bytes_field 1 name ltac:(lia) ltac:(lia)) as L1.
  pose proof (length_bytes_field 2 (long_name u) ltac:(lia) ltac:(lia)) as L2.
  pose proof (length_bytes_field 3 (short_name u) ltac:(lia) ltac:(lia)) as L3.
  pose proof (length_bytes_field 4 (slice (id u) 2 6) ltac:(lia) ltac:(lia)) as L4.
  pose proof (length_varint_field 5 (hw_model u) ltac:(lia) Hhw) as L5.
  pose proof (length_bool_field 6 (is_licensed u) ltac:(lia)) as L6.
  pose proof (length_varint_field 7 (role u) ltac:(lia) Hr) as L7.
  split; [|rewrite !length_app; cbn [length]; lia]. unfold MAX_LORA_PAYLOAD.
  do 4 write_one appends_bytes_field. write_one appends_varint_field. write_one appends_bool_field.
  write_one appends_varint_field. written.
Qed.

(** ** Reading it back *)

Lemma data_parses d : data_ok d -> parses data_step data_default (data_bytes d) (Val d).
Proof.
  unfold data_ok, MAX_LORA_PAYLOAD. intros (Hpo & Hpa & Hde & Hso & Hrq & Hrp & Hem). unfold data_bytes, data_default.
  destruct d as [po pa wr de so rq rp em]. cbn [port payload want_response dest source request_id reply_id emoji] in *.
  eapply parses_varint_field; [done|auto with word|reflexivity|by intros ->|].
  eapply (parses_bytes_field _ _ _ (mkData (u32 po) pa false 0 0 0 0 0)); [done|unfold fits; lia|reflexivity| |by intros ->|].
  { intros post dec. cbn beta iota. rewrite (proj2 (Z.ltb_ge _ _)) by (unfold MAX_LORA_PAYLOAD; lia).
    unfold bind. by rewrite copy_prefix. }
  eapply parses_bool_field; [done|reflexivity|by intros ->|].
  do 5 (eapply parses_varint_field; [done|auto with word|reflexivity|by intros ->|]).
  apply parses_done. rewrite !u32_small by done. by destruct wr.
Qed.

Lemma location_source_known v : 0 <= v <= 3 -> location_source_of v = v.
Proof.
  intros Hv. pose proof (range_check 4 (fun v => location_source_of v =? v) eq_refl v ltac:(lia)) as H. by apply Z.eqb_eq in H.
Qed.

Lemma position_parses p : position_ok p -> parses position_step position_default (position_bytes p) (Val p).
Proof.
  intros (Hla & Hlo & Hal & Hti & Hts & Hls & Has & Hpd & Hhd & Hsa & Hgs & Hgt & Hfq & Hft & Hsq).
  pose proof (source_fits _ Hls). pose proof (source_fits _ Has). unfold position_bytes, position_default.
  destruct p as [la lo al ti ts ls as_ pd hd sa gs gt fq ft sq].
  cbn [latitude_i longitude_i altitude time timestamp location_source altitude_source pdop hdop sats_in_view
       ground_speed ground_track fix_quality fix_type seq_number] in *.
  do 3 (eapply parses_sint_field; [done|done|reflexivity|by intros ->|]).
  do 12 (eapply parses_varint_field; [done|auto with word|reflexivity|by intros ->|]).
  apply parses_done. by rewrite !location_source_known, !u32_small.
Qed.

Lemma hw_model_known v : v ∈ [0; 1; 2; 4; 5; 9; 10; 34; 255] -> hw_model_of v = v.
Proof. intros H. repeat (apply elem_of_cons in H as [->|H]; [reflexivity|]). by apply not_elem_of_nil in H. Qed.

Lemma role_known v : 0 <= v <= 10 -> role_of v = v.
Proof.
  intros Hv. pose proof (range_check 11 (fun v => role_of v =? v) eq_refl v ltac:(lia)) as H. by apply Z.eqb_eq in H.
Qed.

Lemma user_parses u : user_ok u -> parses user_step user_default (user_bytes u) (Val u).
Proof.
  unfold user_ok, LONG_NAME_SIZE, SHORT_NAME_SIZE. intros (Hi & Hb & Hln & Hsn & Hhw & Hro).
  pose proof (model_fits _ Hhw). assert (fits 32 (role u)) by (unfold fits; lia).
  pose proof (length_hex_id (id u) Hi) as Hh. unfold user_bytes, user_default. rewrite hex_encode_id by done.
  destruct u as [i ln sn hw li ro]. cbn [id long_name short_name hw_model is_licensed role] in *.
  eapply (parses_bytes_field _ _ _ (mkUser i [] [] 0 false 0)); [done|unfold fits; cbn [length]; lia|reflexivity| |done|].
  { intros post dec. cbn beta iota. unfold user_id. cbn [length]. rewrite Hh. change (17 <=? Z.of_nat 17) with true. cbn iota.
    unfold bind. change ((33 :: mjoin (hex_byte <$> i)) ++ post) with ([33] ++ mjoin (hex_byte <$> i) ++ post).
    rewrite (copy_prefix [33]) by done. change ([33].[0] =? 33) with true. cbn iota.
    rewrite (app_assoc [33]), (copy_prefix ([33] ++ mjoin (hex_byte <$> i))) by (cbn [length app]; lia).
    unfold ret. change (drop 1 ([33] ++ mjoin (hex_byte <$> i))) with (mjoin (hex_byte <$> i)).
    by rewrite hex_roundtrip. }
  eapply (parses_bytes_field _ _ _ (mkUser i ln [] 0 false 0)); [done|unfold fits; lia|reflexivity| |by intros ->|].
  { intros post dec. cbn beta iota. unfold copy_name, bind, LONG_NAME_SIZE. rewrite (proj2 (Z.ltb_ge _ _)) by lia.
    by rewrite copy_prefix. }
  eapply (parses_bytes_field _ _ _ (mkUser i ln sn 0 false 0)); [done|unfold fits; lia|reflexivity| |by intros ->|].
  { intros post dec. cbn beta iota. unfold copy_name, bind, SHORT_NAME_SIZE. rewrite (proj2 (Z.ltb_ge _ _)) by lia.
    by rewrite copy_prefix. }
  eapply (parses_bytes_field _ _ _ (mkUser i ln sn 0 false 0)); [done|rewrite length_slice by lia; done|reflexivity| | |].
  { intros post dec. cbn beta iota. rewrite length_slice by lia. change (Z.of_nat 6 =? 6) with true. cbn iota. unfold bind.
    rewrite copy_prefix by (rewrite length_slice by lia; done). unfold ret, slice. rewrite (take_ge (drop 2 i)) by (rewrite length_drop; lia).
    by rewrite take_drop. }
  { done. }
  eapply parses_varint_field; [done|auto with word|reflexivity|by intros ->|].
  eapply parses_bool_field; [done|reflexivity|by intros ->|].
  eapply parses_varint_field; [done|auto with word|reflexivity|by intros ->|].
  apply parses_done. rewrite hw_model_known, role_known by done. by destruct li.
Qed.

(** C19. A message that fits the buffer of the encoder is decoded to what it was, for any bound
    on the rounds above the number of bytes. *)
Theorem data_roundtrip (d : DataPayload) (max_len : nat) :
  data_ok d -> (length (data_bytes d) <= MAX_LORA_PAYLOAD)%nat -> (length (data_bytes d) <= max_len)%nat ->
  exists bytes, encode_data d max_len = Some bytes
    /\ forall fuel, (length bytes < fuel)%nat -> decode_data fuel bytes = Val d.
Proof.
  intros Hd Hl Hm. exists (data_bytes d). split; [by apply encode_data_bytes|].
  intros fuel Hf. apply parses_whole; [by apply data_parses|unfold MAX_LORA_PAYLOAD in Hl; lia|done].
Qed.

(** Positions and users always fit, and are decoded to what they were: positions with the
    four known sources, users with a known hardware model and role. *)
Theorem position_user_roundtrip (p : Position) (u : User) (max_len : nat) :
  position_ok p -> user_ok u -> (105 <= max_len)%nat ->
  (exists bytes, encode_position p max_len = Some bytes /\ (length bytes <= 105)%nat
     /\ forall fuel, (105 < fuel)%nat -> decode_position fuel bytes = Val p)
  /\ (exists bytes, encode_user u max_len = Some bytes /\ (length bytes <= 92)%nat
     /\ forall fuel, (105 < fuel)%nat -> decode_user fuel bytes = Val u).
Proof.
  intros Hp Hu Hm. split.
  - destruct (encode_position_bytes p max_len Hp Hm) as [He Hl]. exists (position_bytes p). split; [done|]. split; [done|].
    intros fuel Hf. apply parses_whole; [by apply position_parses|lia..].
  - destruct (encode_user_bytes u max_len Hu) as [He Hl]; [lia|]. exists (user_bytes u). split; [done|]. split; [done|].
    intros fuel Hf. apply parses_whole; [by apply user_parses|lia..].
Qed.

(** ** Payloads that do not fit *)

(** A write only appends, within the capacity. *)
Definition grows (w : Vec_u8 -> Vec_u8 * bool) : Prop :=
  forall vec, (length (vdata vec) <= capacity vec)%nat ->
    exists t, vdata (w vec).1 = vdata vec ++ t /\ capacity (w vec).1 = capacity vec
      /\ (length (vdata vec ++ t) <= capacity vec)%nat.

Lemma grows_keep b : grows (fun vec => (vec, b)).
Proof. intros vec Hl. exists []. by rewrite app_nil_r. Qed.

Lemma grows_and_then w k : grows w -> grows k -> grows (fun vec => and_then (w vec) k).
Proof.
  intros Hw Hk vec Hl. destruct (Hw vec Hl) as (t & H1 & H2 & H3). destruct (w vec) as [vec' []]; cbn [and_then fst] in *.
  - destruct (Hk vec') as (t' & H1' & H2' & H3'); [by rewrite H1, H2|]. exists (t ++ t').
    rewrite H1', H2', H1, H2, app_assoc in *. done.
  - by exists t.
Qed.

Lemma grows_push b : grows (fun vec => vec_u8_push vec b).
Proof.
  intros [v c] Hl. unfold vec_u8_push. cbn [vdata capacity] in *. destruct (Nat.leb_spec c (length v)); cbn [fst vdata capacity].
  - exists []. by rewrite app_nil_r.
  - exists [b]. rewrite length_app. cbn [length]. split; [done|]. split; [done|lia].
Qed.

Lemma grows_extend d : grows (fun vec => vec_u8_extend_from_slice vec d).
Proof.
  intros [v c] Hl. unfold vec_u8_extend_from_slice. cbn [vdata capacity] in *.
  destruct (Nat.ltb_spec c (length v + length d)); cbn [fst vdata capacity].
  - exists []. by rewrite app_nil_r.
  - exists d. rewrite length_app. split; [done|]. split; [done|lia].
Qed.

Lemma grows_varint v : grows (fun vec => protobuf_encoder_write_varint vec v).
Proof.
  unfold protobuf_encoder_write_varint. generalize 10%nat. intros n. revert v. induction n as [|n IH]; intros v; cbn [write_varint_loop].
  - apply grows_keep.
  - cbn zeta. destruct (v .>> 7 =? 0); [apply grows_push|]. apply grows_and_then; [apply grows_push|apply IH].
Qed.

Lemma grows_varint_field f v : grows (fun vec => protobuf_encoder_write_varint_field vec f v).
Proof.
  unfold protobuf_encoder_write_varint_field. destruct (v =? 0); [apply grows_keep|].
  apply grows_and_then; apply grows_varint.
Qed.

Lemma grows_bool_field f b : grows (fun vec => protobuf_encoder_write_bool_field vec f b).
Proof.
  unfold protobuf_encoder_write_bool_field. destruct (negb b); [apply grows_keep|].
  apply grows_and_then; [apply grows_varint|apply grows_push].
Qed.

Lemma also_grows w v c :
  grows w -> (length v <= c)%nat -> exists t, also (mkVec v c) w = mkVec (v ++ t) c /\ (length (v ++ t) <= c)%nat.
Proof.
  intros Hw Hl. destruct (Hw (mkVec v c) Hl) as (t & H1 & H2 & H3). exists t. unfold also. split; [|done].
  destruct (w (mkVec v c)) as [[] ?]. cbn in *. by subst.
Qed.

(** The bytes field of a payload without room for it: tag and length only. *)
Lemma bytes_field_no_room f d v c :
  field_ok f -> d <> [] -> fits 64 (Z.of_nat (length d)) ->
  (length v + length (tag_bytes f 2 ++ varint (Z.of_nat (length d))) <= c)%nat ->
  (c < length v + length (bytes_field f d))%nat ->
  also (mkVec v c) (fun vec => protobuf_encoder_write_bytes_field vec f d)
  = mkVec (v ++ tag_bytes f 2 ++ varint (Z.of_nat (length d))) c.
Proof.
  intros Hf Hd Hn Hr Hc. unfold bytes_field, also, protobuf_encoder_write_bytes_field in *.
  destruct (Nat.eqb_spec (length d) 0) as [E%nil_length_inv|_]; [done|]. rewrite !length_app in *.
  unfold WIRE_TYPE_LENGTH_DELIMITED. rewrite (appends_tag f 2 Hf ltac:(lia) (mkVec v c)) by (cbn [vdata capacity]; lia).
  cbn [and_then vdata capacity].
  rewrite (appends_varint _ Hn (mkVec _ c)) by (cbn [vdata capacity]; rewrite length_app; lia). cbn [and_then vdata capacity].
  unfold vec_u8_extend_from_slice. cbn [vdata capacity]. rewrite !length_app.
  destruct (Nat.ltb_spec c (length v + length (tag_bytes f 2) + length (varint (Z.of_nat (length d))) + length d)); [|lia].
  cbn [fst]. by rewrite app_assoc.
Qed.

(** A length-delimited field whose announced length exceeds what is there is refused. *)
Lemma parses_short_bytes {A} (step : A -> Z -> Z -> Read A) a f n k post :
  field_ok f -> fits 31 n -> Z.of_nat (length post) < n ->
  step a f 2 = bind protobuf_decoder_read_bytes k ->
  parses step a (tag_bytes f 2 ++ varint n ++ post) Refused.
Proof.
  intros Hf Hn Hp Hs pre [|fuel] Hfu Hl; [lia|]. cbn [fields].
  pose proof (varint_nonempty (8 * f + 2)) as Hne. fold (tag_bytes f 2) in Hne.
  assert (protobuf_decoder_has_more (cursor pre (tag_bytes f 2 ++ varint n ++ post)) = true) as ->.
  { unfold protobuf_decoder_has_more, cursor. cbn [data pos]. rewrite !length_app. apply Z.ltb_lt. lia. }
  rewrite !length_app in *. unfold bind at 1. rewrite reads_tag by (done || (rewrite !length_app; lia)). cbn [fst snd].
  rewrite Hs. unfold protobuf_decoder_read_bytes, bind.
  rewrite reads_varint by (first [eapply fits_mono; [done|lia]|rewrite !length_app; lia]).
  rewrite u32_small by (eapply fits_mono; [done|lia]). unfold take_bytes, cursor. cbn [data pos].
  rewrite u32_small by (unfold fits in *; rewrite !length_app; lia). rewrite !length_app.
  by rewrite (proj2 (Z.ltb_lt _ _)) by lia.
Qed.

(** [encode_data] does not look at the results of its writes. A payload that with its tag
    does not fit the buffer (at most 232 bytes are safe) is dropped behind its tag and
    length, the call reports success, and the receiver refuses what was sent. *)
Theorem encode_data_truncates (d : DataPayload) (max_len : nat) :
  fits 32 (port d) -> payload d <> [] -> fits 28 (Z.of_nat (length (payload d))) ->
  (MAX_LORA_PAYLOAD < length (varint_field 1 (port d)) + length (bytes_field 2 (payload d)))%nat ->
  (MAX_LORA_PAYLOAD <= max_len)%nat ->
  exists bytes, encode_data d max_len = Some bytes
    /\ forall fuel, (length bytes < fuel)%nat -> decode_data fuel bytes = Refused.
Proof.
  unfold MAX_LORA_PAYLOAD. intros Hpo Hne Hn Hbig Hm. destruct d as [po pa wr de so rq rp em]. cbn [port payload] in *.
  pose proof (length_varint_field 1 po ltac:(lia) Hpo) as L1.
  assert (length (tag_bytes 2 2) <= 5)%nat as L2 by (apply length_tag; [by unfold field_ok|lia]).
  assert (fits 64 (Z.of_nat (length pa))) as Hn64 by (eapply fits_mono; [done|lia]).
  pose proof (length_varint_64 _ Hn64) as L3.
  unfold encode_data, vec_u8_init, MAX_LORA_PAYLOAD. cbn zeta. cbn [port payload want_response dest source request_id reply_id emoji].
  write_one appends_varint_field. cbn [app].
  rewrite bytes_field_no_room by (done || (rewrite ?length_app; lia)).
  set (head := varint_field 1 po ++ tag_bytes 2 2 ++ varint (Z.of_nat (length pa))).
  assert (length head <= 237)%nat as Lh by (unfold head; rewrite !length_app; lia).
  destruct (also_grows _ head 237 (grows_bool_field 3 wr) Lh) as (t3 & -> & L3').
  destruct (also_grows _ _ 237 (grows_varint_field 4 de) L3') as (t4 & -> & L4).
  destruct (also_grows _ _ 237 (grows_varint_field 5 so) L4) as (t5 & -> & L5).
  destruct (also_grows _ _ 237 (grows_varint_field 6 rq) L5) as (t6 & -> & L6).
  destruct (also_grows _ _ 237 (grows_varint_field 7 rp) L6) as (t7 & -> & L7).
  destruct (also_grows _ _ 237 (grows_varint_field 8 em) L7) as (t8 & -> & L8).
  rewrite <- !app_assoc in *. set (rest := t3 ++ t4 ++ t5 ++ t6 ++ t7 ++ t8) in *. clearbody rest. exists (head ++ rest).
  unfold output_of. cbn [vdata]. rewrite (proj2 (Nat.ltb_ge _ _)) by lia. split; [done|].
  intros fuel Hf. apply parses_whole; [|lia|done]. unfold head. rewrite <- !app_assoc.
  eapply parses_varint_field; [done|auto with word|reflexivity|by intros ->|].
  eapply parses_short_bytes; [done|apply (fits_mono 28); [done|lia]| |reflexivity].
  unfold bytes_field in Hbig. destruct (Nat.eqb_spec (length pa) 0) as [E%nil_length_inv|_]; [done|].
  unfold head in L8. rewrite !length_app in *. lia.
Qed.

(** ** Termination *)

Lemma forward_on_varint {A} w (r : A) g : forward 0 (on_varint w r g).
Proof.
  unfold on_varint. case_match; [|apply forward_ret].
  eapply (forward_weaken (1 + 0)), forward_bind; [lia|apply forward_varint|intros; apply forward_ret].
Qed.

Lemma forward_on_sint32 {A} w (r : A) g : forward 0 (on_sint32 w r g).
Proof.
  unfold on_sint32. case_match; [|apply forward_ret].
  eapply (forward_weaken (1 + 0)), forward_bind; [lia| |intros; apply forward_ret].
  apply (forward_bind 1 0); [apply forward_varint|intros; apply forward_ret].
Qed.

Lemma forward_on_bytes {A} w (r : A) k : (forall p, forward 0 (k p)) -> forward 0 (on_bytes w r k).
Proof.
  intros Hk. unfold on_bytes. case_match; [|apply forward_ret].
  eapply (forward_weaken (1 + 0)), forward_bind; [lia|apply forward_bytes|done].
Qed.

Lemma forward_skip_rest {A} w (r : A) : forward 0 (skip_rest w r).
Proof. apply (forward_bind 0 0); [apply forward_skip|intros; apply forward_ret]. Qed.

Lemma forward_copy_ret {A} p n (k : list Z -> A) : forward 0 (let* b := copy p n in ret (k b)).
Proof. apply (forward_bind 0 0); [apply forward_copy|intros; apply forward_ret]. Qed.

Create HintDb forward discriminated.
#[local] Hint Resolve forward_on_varint forward_on_sint32 forward_skip_rest forward_ret forward_copy_ret
  forward_refused forward_copy : forward.

(** A step of a decoder, by cases on the field number. *)
Ltac forward_step :=
  repeat match goal with |- forward _ (match ?x with _ => _ end) => destruct x end;
  try solve [auto with forward];
  try (apply forward_on_bytes; intros [bytes n]; cbn beta iota).

Lemma forward_data_step r f w : forward 0 (data_step r f w).
Proof. unfold data_step. destruct r. forward_step. case_match; auto with forward. Qed.

Lemma forward_position_step r f w : forward 0 (position_step r f w).
Proof. unfold position_step. destruct r. forward_step. Qed.

Lemma forward_user_id old bytes n : forward 0 (user_id old bytes n).
Proof.
  unfold user_id. repeat case_match; auto with forward.
  apply (forward_bind 0 0); [auto with forward|]. intros first. case_match; auto with forward.
Qed.

Lemma forward_user_step r f w : forward 0 (user_step r f w).
Proof.
  unfold user_step. destruct r. forward_step.
  all: try solve [unfold copy_name; auto with forward].
  all: try (case_match; auto with forward).
  all: apply (forward_bind 0 0); [apply forward_user_id|auto with forward].
Qed.

Lemma sound_init bytes :
  bytes_ok bytes -> calm 0 bytes = true -> Z.of_nat (length bytes) < 2 ^ 31 -> sound (protobuf_decoder_init bytes).
Proof. intros. unfold sound, unread. cbn [protobuf_decoder_init data pos]. change (Z.to_nat 0) with 0%nat. rewrite drop_0. split_and!; (done || lia). Qed.

(** C35. The decoders end within one round per byte on every input without four bytes of 128 or
    more in a row ([calm]). *)
Theorem decoders_end (bytes : list Z) (fuel : nat) :
  bytes_ok bytes -> calm 0 bytes = true -> Z.of_nat (length bytes) < 2 ^ 31 -> (length bytes < fuel)%nat ->
  decode_data fuel bytes <> OutOfFuel /\ decode_position fuel bytes <> OutOfFuel
  /\ decode_user fuel bytes <> OutOfFuel.
Proof.
  intros Hb Hc Hl Hf. pose proof (sound_init bytes Hb Hc Hl) as Hs.
  split_and!; apply fields_end; try done; try (cbn; lia).
  - apply forward_data_step.
  - apply forward_position_step.
  - apply forward_user_step.
Qed.

(** A round that brings the cursor back to where it was, for ever. *)
Lemma fields_hang {A} (step : A -> Z -> Z -> Read A) a d :
  (forall fuel, fields step (S fuel) a d = fields step fuel a d) -> forall fuel, (fields step fuel a d).1 = OutOfFuel.
Proof. intros Hr fuel. induction fuel as [|fuel IH]; [done|]. by rewrite Hr. Qed.

Definition hostile : list Z := [0xFA; 0x01; 0xF9; 0xFF; 0xFF; 0xFF; 0x0F].

(** C23. On other inputs the decoders need not end: a field of an unknown number whose length is
    just below [2^32] moves the cursor back to its own tag. On the seven bytes of [hostile]
    none of the three decoders ever returns, whatever the fuel. *)
Theorem hostile_packet_hangs (fuel : nat) :
  decode_data fuel hostile = OutOfFuel /\ decode_position fuel hostile = OutOfFuel
  /\ decode_user fuel hostile = OutOfFuel.
Proof. split_and!; apply fields_hang; intros f; reflexivity. Qed.

(** ** Witnesses *)

Definition sample_data : DataPayload := mkData 1 [104; 105; 255] true 0xFFFFFFFF 0x12345678 7 0 0.
Definition sample_position : Position := mkPosition (-514773123) 78520000 (-3) 1700000000 0 2 0 150 0 9 0 0 1 0 65535.
Definition sample_user : User := mkUser [0; 0; 222; 173; 190; 239; 0; 1] [65; 108] [97] 34 true 10.

Lemma data_roundtrip_witness :
  exists bytes, encode_data sample_data 237 = Some bytes
    /\ forall fuel, (length bytes < fuel)%nat -> decode_data fuel bytes = Val sample_data.
Proof.
  apply (data_roundtrip sample_data 237).
  - unfold data_ok, sample_data, MAX_LORA_PAYLOAD, fits. cbn. lia.
  - apply (bool_decide_unpack _). vm_compute. exact I.
  - apply (bool_decide_unpack _). vm_compute. exact I.
Defined.

Lemma position_user_roundtrip_witness :
  exists bytes, encode_user sample_user 237 = Some bytes /\ (length bytes <= 92)%nat
    /\ forall fuel, (105 < fuel)%nat -> decode_user fuel bytes = Val sample_user.
Proof.
  apply (position_user_roundtrip sample_position sample_user 237).
  - unfold position_ok, sample_position, int_ok, fits. cbn. lia.
  - unfold user_ok, sample_user. cbn [id long_name short_name hw_model role].
    split; [done|]. split; [apply (bool_decide_unpack _); vm_compute; exact I|]. split; [cbn; unfold LONG_NAME_SIZE; lia|].
    split; [cbn; unfold SHORT_NAME_SIZE; lia|]. split; [|lia]. apply (bool_decide_unpack _). vm_compute. exact I.
  - lia.
Defined.

Lemma encode_data_truncates_witness :
  exists bytes, encode_data (mkData 1 (replicate 233 7) false 0 0 0 0 0) 237 = Some bytes
    /\ forall fuel, (length bytes < fuel)%nat -> decode_data fuel bytes = Refused.
Proof.
  apply (encode_data_truncates (mkData 1 (replicate 233 7) false 0 0 0 0 0) 237).
  - apply (bool_decide_unpack _). vm_compute. exact I.
  - discriminate.
  - apply (bool_decide_unpack _). vm_compute. exact I.
  - apply (bool_decide_unpack _). vm_compute. exact I.
  - unfold MAX_LORA_PAYLOAD. lia.
Defined.

Lemma decoders_end_witness : decode_data 7 [8; 1; 18; 2; 200; 255] <> OutOfFuel.
Proof.
  apply (decoders_end [8; 1; 18; 2; 200; 255] 7).
  - apply (bool_decide_unpack _). vm_compute. exact I.
  - reflexivity.
  - reflexivity.
  - cbn. lia.
Defined.
