(* ===== verification/Base64.v ===== *)
(** * Base64: lunarcore/lunar/meshtastic/base64.c

    The encoder and decoder of channel URLs. The output buffer appears as its capacity
    [output_len] and the bytes written so far; [i] as what is left of the input. *)
From S2P Require Import Prelude.

(** "ABC...Zabc...z0123456789-_" *)
Definition BASE64_CHARS : list Z :=
  [65; 66; 67; 68; 69; 70; 71; 72; 73; 74; 75; 76; 77; 78; 79; 80;
   81; 82; 83; 84; 85; 86; 87; 88; 89; 90; 97; 98; 99; 100; 101; 102;
   103; 104; 105; 106; 107; 108; 109; 110; 111; 112; 113; 114; 115; 116; 117; 118;
   119; 120; 121; 122; 48; 49; 50; 51; 52; 53; 54; 55; 56; 57; 45; 95].

Definition BASE64_DECODE : list Z :=
  [-1; -1; -1; -1; -1; -1; -1; -1; -1; -1; -1; -1; -1; -1; -1; -1;
   -1; -1; -1; -1; -1; -1; -1; -1; -1; -1; -1; -1; -1; -1; -1; -1;
   -1; -1; -1; -1; -1; -1; -1; -1; -1; -1; -1; 62; -1; 62; -1; 63;
   52; 53; 54; 55; 56; 57; 58; 59; 60; 61; -1; -1; -1; -1; -1; -1;
   -1; 0; 1; 2; 3; 4; 5; 6; 7; 8; 9; 10; 11; 12; 13; 14;
   15; 16; 17; 18; 19; 20; 21; 22; 23; 24; 25; -1; -1; -1; -1; 63;
   -1; 26; 27; 28; 29; 30; 31; 32; 33; 34; 35; 36; 37; 38; 39; 40;
   41; 42; 43; 44; 45; 46; 47; 48; 49; 50; 51; -1; -1; -1; -1; -1].

(** "https://meshtastic.org/e/#" *)
Definition url_prefix : list Z :=
  [104; 116; 116; 112; 115; 58; 47; 47; 109; 101; 115; 104; 116; 97; 115; 116;
   105; 99; 46; 111; 114; 103; 47; 101; 47; 35].

Section base64.
Context (output_len : nat).

(** ** Encoder *)

Definition enc_char (sextet : Z) : Z := BASE64_CHARS.[Z.to_nat (sextet .& 0x3F)].

(** The [while] loop: the rest of the input and the output. *)
Fixpoint encode_loop (data output : list Z) : list Z * list Z :=
  match data with
  | d0 :: d1 :: d2 :: rest =>
      if (output_len <? length output + 4)%nat then (data, output)
      else
        let n := (d0 .<< 16) .| (d1 .<< 8) .| d2 in
        encode_loop rest (output ++ [enc_char (n .>> 18); enc_char (n .>> 12); enc_char (n .>> 6); enc_char n])
  | _ => (data, output)
  end.

Definition encode_tail (data output : list Z) : list Z :=
  if (0 <? length data)%nat && (length output + 4 <=? output_len)%nat then
    match data with
    | [d0] => let n := d0 .<< 16 in output ++ [enc_char (n .>> 18); enc_char (n .>> 12)]
    | [d0; d1] =>
        let n := (d0 .<< 16) .| (d1 .<< 8) in
        output ++ [enc_char (n .>> 18); enc_char (n .>> 12); enc_char (n .>> 6)]
    | _ => output
    end
  else output.

Definition base64_encode (data : list Z) : list Z :=
  let '(rest, output) := encode_loop data [] in encode_tail rest output.

(** ** Decoder *)

Definition dec_char (c : Z) : Z := if c <? 128 then BASE64_DECODE.[Z.to_nat c] else -1.

Fixpoint decode_loop (data output : list Z) : list Z * list Z :=
  match data with
  | c0 :: c1 :: c2 :: c3 :: rest =>
      if (output_len <? length output + 3)%nat then (data, output)
      else
        let b0 := dec_char c0 in
        let b1 := dec_char c1 in
        let b2 := dec_char c2 in
        let b3 := dec_char c3 in
        if (b0 <? 0) || (b1 <? 0) then (data, output)
        else
          let n := (b0 .<< 18) .| (b1 .<< 12) .| (if 0 <=? b2 then b2 .<< 6 else 0) .| (if 0 <=? b3 then b3 else 0) in
          let output := output ++ [u8 (n .>> 16)] in
          let output := if 0 <=? b2 then output ++ [u8 (n .>> 8)] else output in
          let output := if 0 <=? b3 then output ++ [u8 n] else output in
          decode_loop rest output
  | _ => (data, output)
  end.

Definition decode_tail (data output : list Z) : list Z :=
  if (2 <=? length data)%nat && (length output <? output_len)%nat then
    let b0 := dec_char data.[0] in
    let b1 := dec_char data.[1] in
    if (0 <=? b0) && (0 <=? b1) then
      let n := (b0 .<< 18) .| (b1 .<< 12) in
      let output := output ++ [u8 (n .>> 16)] in
      if (3 <=? length data)%nat && (length output <? output_len)%nat then
        let b2 := dec_char data.[2] in
        if 0 <=? b2 then
          let n := (b0 .<< 18) .| (b1 .<< 12) .| (b2 .<< 6) in
          <[(length output - 1)%nat := u8 (n .>> 16)]> output ++ [u8 (n .>> 8)]
        else output
      else output
    else output
  else output.

Definition skip_prefix (data : list Z) : list Z :=
  if (length url_prefix <=? length data)%nat && bool_decide (take (length url_prefix) data = url_prefix)
  then drop (length url_prefix) data else data.

Definition base64_decode (data : list Z) : list Z :=
  let '(rest, output) := decode_loop (skip_prefix data) [] in decode_tail rest output.
End base64.

(** ** Specification: RFC 4648, 4 and 5, over an alphabet and a padding *)

Section rfc4648.
Context (alphabet : list Z) (pad : list Z).

Definition letter (sextet : Z) : Z := alphabet.[Z.to_nat sextet].

Fixpoint rfc_base64 (data : list Z) : list Z :=
  match data with
  | a :: b :: c :: rest =>
      [letter (a / 4); letter (a mod 4 * 16 + b / 16); letter (b mod 16 * 4 + c / 64); letter (c mod 64)]
      ++ rfc_base64 rest
  | [a; b] => [letter (a / 4); letter (a mod 4 * 16 + b / 16); letter (b mod 16 * 4)] ++ pad
  | [a] => [letter (a / 4); letter (a mod 4 * 16)] ++ pad ++ pad
  | [] => []
  end.
End rfc4648.

(** The alphabets of section 5 (for URLs) and section 4. *)
Definition url_alphabet : list Z := zseq 65 26 ++ zseq 97 26 ++ zseq 48 10 ++ [45; 95].
Definition std_alphabet : list Z := zseq 65 26 ++ zseq 97 26 ++ zseq 48 10 ++ [43; 47].

(** ** Sextets *)

Lemma list_ind3 (P : list Z -> Prop) :
  P [] -> (forall a, P [a]) -> (forall a b, P [a; b]) ->
  (forall a b c l, P l -> P (a :: b :: c :: l)) -> forall l, P l.
Proof.
  intros H0 H1 H2 H3. fix IH 1. intros [|a [|b [|c l]]]; [exact H0|apply H1|apply H2|apply H3, IH].
Qed.

Lemma enc_char_url s : fits 6 s -> enc_char s = letter url_alphabet s.
Proof.
  intros Hs. apply Z.eqb_eq.
  apply (range_check 64 (fun s => enc_char s =? letter url_alphabet s)); [by vm_compute|exact Hs].
Qed.

Lemma enc_char_mod n : enc_char n = enc_char (n mod 64).
Proof.
  unfold enc_char. change 0x3F with (Z.ones 6). rewrite !Z.land_ones by done. change (2 ^ 6) with 64.
  by rewrite Z.mod_mod.
Qed.

(** The 24-bit group of three bytes, and of four sextets. *)
Lemma group_bytes a b c : byte_ok b -> byte_ok c -> (a .<< 16) .| (b .<< 8) .| c = 65536 * a + 256 * b + c.
Proof.
  intros Hb Hc. rewrite Z.lor_comm, (Z.lor_comm (a .<< 16)). replace (a .<< 16) with ((a .<< 8) .<< 8) by by rewrite Z.shiftl_shiftl.
  rewrite <- Z.shiftl_lor, (lor_shiftl_add 8 c) by done. rewrite (lor_shiftl_add 8 b) by done. lia.
Qed.

Lemma group_sextets a b c d :
  fits 6 b -> fits 6 c -> fits 6 d ->
  (a .<< 18) .| (b .<< 12) .| (c .<< 6) .| d = 262144 * a + 4096 * b + 64 * c + d.
Proof.
  intros Hb Hc Hd. rewrite Z.lor_comm.
  replace ((a .<< 18) .| (b .<< 12) .| (c .<< 6)) with ((c .| ((b .| (a .<< 6)) .<< 6)) .<< 6).
  - rewrite !lor_shiftl_add by done. lia.
  - rewrite !Z.shiftl_lor, !Z.shiftl_shiftl by done. cbn [Z.add Pos.add]. rewrite (Z.lor_comm (b .<< _)), Z.lor_comm. done.
Qed.

Lemma encode_rfc_group a b c :
  byte_ok a -> byte_ok b -> byte_ok c ->
  let n := (a .<< 16) .| (b .<< 8) .| c in
  [enc_char (n .>> 18); enc_char (n .>> 12); enc_char (n .>> 6); enc_char n]
  = (letter url_alphabet <$> [a / 4; a mod 4 * 16 + b / 16; b mod 16 * 4 + c / 64; c mod 64]).
Proof.
  intros Ha Hb Hc. cbn zeta. rewrite group_bytes by done.
  rewrite (enc_char_mod (_ .>> 18)), (enc_char_mod (_ .>> 12)), (enc_char_mod (_ .>> 6)), (enc_char_mod (65536 * a + _ + _)).
  rewrite !Z.shiftr_div_pow2 by done. rewrite !enc_char_url by (unfold fits; apply Z.mod_pos_bound; lia).
  unfold fits in *. cbn [fmap list_fmap].
  repeat match goal with |- _ :: _ = _ :: _ => f_equal end; f_equal; words_lia.
Qed.

(** The encoder writes the groups that fit. *)
Lemma encode_rfc output_len data out :
  bytes_ok data ->
  (let '(rest, out) := encode_loop output_len data out in encode_tail output_len rest out)
  = out ++ rfc_base64 url_alphabet [] (take (3 * ((output_len - length out) / 4)) data).
Proof.
  revert out. induction data as [|a|a b|a b c data IH] using list_ind3; intros out Hd;
    cbn [encode_loop]; rewrite ?Forall_cons in Hd; destruct_and? Hd.
  - unfold encode_tail. cbn [length Nat.ltb Nat.leb andb]. by rewrite take_nil, app_nil_r.
  - pose proof (encode_rfc_group a 0 0 ltac:(done) ltac:(done) ltac:(done)) as E. cbn zeta in E.
    rewrite !Z.shiftl_0_l, !Z.lor_0_r in E. injection E as E0 E1 _ _. unfold encode_tail. cbn [length Nat.ltb Nat.leb andb].
    destruct (Nat.leb_spec (length out + 4) output_len).
    + rewrite take_ge by (cbn [length]; div_lia). rewrite E0, E1. cbn [rfc_base64 app]. by rewrite Z.add_0_r.
    + rewrite Nat.div_small by lia. by rewrite app_nil_r.
  - pose proof (encode_rfc_group a b 0 ltac:(done) ltac:(done) ltac:(done)) as E. cbn zeta in E.
    rewrite !Z.lor_0_r in E. injection E as E0 E1 E2 _. unfold encode_tail. cbn [length Nat.ltb Nat.leb andb].
    destruct (Nat.leb_spec (length out + 4) output_len).
    + rewrite take_ge by (cbn [length]; div_lia). rewrite E0, E1, E2. cbn [rfc_base64 app]. by rewrite Z.add_0_r.
    + rewrite Nat.div_small by lia. by rewrite app_nil_r.
  - destruct (Nat.ltb_spec output_len (length out + 4)) as [Hs|Hs].
    + unfold encode_tail. rewrite (proj2 (Nat.leb_gt _ _)), andb_false_r, Nat.div_small by lia. by rewrite app_nil_r.
    + rewrite IH by done. rewrite length_app. cbn [length]. rewrite encode_rfc_group by done.
      replace ((output_len - length out) / 4)%nat with (S ((output_len - (length out + 4)) / 4)) by div_lia.
      replace (3 * S ((output_len - (length out + 4)) / 4))%nat with (S (S (S (3 * ((output_len - (length out + 4)) / 4))))) by lia.
      cbn [take rfc_base64 fmap list_fmap]. by rewrite <- app_assoc.
Qed.

Lemma group_split a b c (n := 65536 * a + 256 * b + c) :
  byte_ok a -> byte_ok b -> byte_ok c -> u8 (n .>> 16) = a /\ u8 (n .>> 8) = b /\ u8 n = c.
Proof. subst n. intros. rewrite !Z.shiftr_div_pow2 by done. unfold fits in *. split_and!; words_lia. Qed.

(** What the loop and the tail make of the sextets of [a], [b] and [c]. *)
Lemma sextets_group a b c :
  byte_ok a -> byte_ok b -> byte_ok c ->
  ((a / 4) .<< 18) .| ((a mod 4 * 16 + b / 16) .<< 12) .| ((b mod 16 * 4 + c / 64) .<< 6) .| (c mod 64)
  = 65536 * a + 256 * b + c.
Proof. intros Ha Hb Hc. unfold fits in *. rewrite group_sextets by words_lia. words_lia. Qed.

Lemma decode_tail_two output_len c0 c1 s0 s1 rest out :
  dec_char c0 = s0 -> dec_char c1 = s1 -> fits 6 s0 -> fits 6 s1 ->
  decode_tail output_len (c0 :: c1 :: rest) out
  = if (output_len <=? length out)%nat then out
    else match rest with
         | c2 :: _ => if (length out + 1 <? output_len)%nat && (0 <=? dec_char c2)
                      then out ++ [u8 (((s0 .<< 18) .| (s1 .<< 12) .| (dec_char c2 .<< 6)) .>> 16);
                                   u8 (((s0 .<< 18) .| (s1 .<< 12) .| (dec_char c2 .<< 6)) .>> 8)]
                      else out ++ [u8 (((s0 .<< 18) .| (s1 .<< 12)) .>> 16)]
         | [] => out ++ [u8 (((s0 .<< 18) .| (s1 .<< 12)) .>> 16)]
         end.
Proof.
  intros H0 H1 Hs0 Hs1. unfold decode_tail, fits in *. cbn [length]. change ((c0 :: c1 :: rest).[0]) with c0.
  change ((c0 :: c1 :: rest).[1]) with c1. rewrite H0, H1, (proj2 (Z.leb_le 0 s0)), (proj2 (Z.leb_le 0 s1)) by lia.
  cbn [Nat.leb andb]. destruct (Nat.leb_spec output_len (length out)).
  { by rewrite (proj2 (Nat.ltb_ge _ _)) by lia. }
  rewrite (proj2 (Nat.ltb_lt _ _)) by lia. rewrite length_app. destruct rest as [|c2 rest]; [done|].
  change ((c0 :: c1 :: c2 :: rest).[2]) with c2. cbn [length Nat.leb andb].
  destruct (length out + 1 <? output_len)%nat; [|done]. destruct (0 <=? dec_char c2); [|done]. cbn [andb].
  replace (length out + 1 - 1)%nat with (length out + 0)%nat by lia. rewrite insert_app_r, <- app_assoc. done.
Qed.

(** Both alphabets, with and without padding, are understood. *)
Section decoding.
Context (alphabet pad : list Z).
Context (Hal : forall s, fits 6 s -> dec_char (letter alphabet s) = s).
Context (Hpad : pad = [] \/ exists p, pad = [p] /\ dec_char p = -1).

(** No room for the next group: the tail fills what is left. *)
Lemma decode_tail_full output_len a b c rest out :
  byte_ok a -> byte_ok b -> byte_ok c -> (length out <= output_len < length out + 3)%nat ->
  decode_tail output_len (letter alphabet (a / 4) :: letter alphabet (a mod 4 * 16 + b / 16)
    :: letter alphabet (b mod 16 * 4 + c / 64) :: rest) out
  = out ++ take (output_len - length out) [a; b; c].
Proof.
  intros Ha Hb Hc Hl. unfold fits in *.
  erewrite decode_tail_two by (first [apply Hal|idtac]; unfold fits; words_lia).
  rewrite (Hal (b mod 16 * 4 + c / 64)) by (unfold fits; words_lia).
  rewrite (proj2 (Z.leb_le 0 (b mod 16 * 4 + c / 64))), andb_true_r by words_lia.
  pose proof (sextets_group a b (c / 64 * 64) ltac:(done) ltac:(done) ltac:(unfold fits; words_lia)) as E.
  rewrite Z.div_mul, Z.mod_mul, Z.lor_0_r in E by lia.
  pose proof (sextets_group a (b / 16 * 16) 0 ltac:(done) ltac:(unfold fits; words_lia) ltac:(done)) as E'.
  change (0 / 64) with 0 in E'. rewrite Z.mod_mul, Z.div_mul, Z.shiftl_0_l, !Z.lor_0_r in E' by lia.
  destruct (Nat.leb_spec output_len (length out)).
  { replace (output_len - length out)%nat with 0%nat by lia. by rewrite app_nil_r. }
  destruct (Nat.ltb_spec (length out + 1) output_len).
  - replace (output_len - length out)%nat with 2%nat by lia. rewrite E.
    destruct (group_split a b (c / 64 * 64)) as (-> & -> & _); [done|done|unfold fits; words_lia|done].
  - replace (output_len - length out)%nat with 1%nat by lia. rewrite E'.
    destruct (group_split a (b / 16 * 16) 0) as (-> & _ & _); [done|unfold fits; words_lia|done|done].
Qed.

Lemma dec_letter s : fits 6 s -> dec_char (letter alphabet s) = s /\ (dec_char (letter alphabet s) <? 0) = false
  /\ (0 <=? dec_char (letter alphabet s)) = true.
Proof. intros Hs. rewrite Hal by done. unfold fits in Hs. split_and!; [done|apply Z.ltb_ge|apply Z.leb_le]; lia. Qed.

Lemma decode_one output_len a out :
  byte_ok a -> (length out <= output_len)%nat ->
  (let '(rest, out) := decode_loop output_len (rfc_base64 alphabet pad [a]) out in decode_tail output_len rest out)
  = out ++ take (output_len - length out) [a].
Proof.
  intros Ha Hl. assert (fits 6 (a / 4) /\ fits 6 (a mod 4 * 16)) as [F0 F1] by (unfold fits in *; split; words_lia).
  pose proof (sextets_group a 0 0 ltac:(done) ltac:(done) ltac:(done)) as E.
  rewrite Z.add_0_r, !Z.shiftl_0_l, !Z.lor_0_r in E.
  destruct (group_split a 0 0) as (G & _ & _); [done..|]. cbn [rfc_base64].
  assert (forall rest, (rest = [] \/ exists c more, rest = c :: more /\ dec_char c = -1) ->
    decode_tail output_len (letter alphabet (a / 4) :: letter alphabet (a mod 4 * 16) :: rest) out
    = out ++ take (output_len - length out) [a]) as Ht.
  { intros rest Hr. rewrite (decode_tail_two _ _ _ (a / 4) (a mod 4 * 16)), E by auto.
    destruct (Nat.leb_spec output_len (length out)).
    - replace (output_len - length out)%nat with 0%nat by lia. by rewrite app_nil_r.
    - replace (output_len - length out)%nat with (S (output_len - length out - 1)) by lia. cbn [take]. rewrite take_nil.
      destruct Hr as [->|(c & more & -> & ->)]; [by rewrite G|]. by rewrite andb_false_r, G. }
  destruct Hpad as [->|(p & -> & Hp)]; cbn [app decode_loop]; [apply Ht; by left|].
  destruct (Nat.ltb_spec output_len (length out + 3)); [apply Ht; eauto|].
  destruct (dec_letter _ F0) as (-> & _ & _), (dec_letter _ F1) as (-> & _ & _).
  rewrite (proj2 (Z.ltb_ge _ _)), (proj2 (Z.ltb_ge _ _)) by apply F0 || apply F1. cbn [orb].
  rewrite Hp. cbn [Z.leb Z.compare]. rewrite !Z.lor_0_r, E, G. unfold decode_tail. cbn [length Nat.leb andb].
  by rewrite take_ge by (cbn [length]; lia).
Qed.

Lemma decode_two output_len a b out :
  byte_ok a -> byte_ok b -> (length out <= output_len)%nat ->
  (let '(rest, out) := decode_loop output_len (rfc_base64 alphabet pad [a; b]) out in decode_tail output_len rest out)
  = out ++ take (output_len - length out) [a; b].
Proof.
  intros Ha Hb Hl.
  assert (fits 6 (a / 4) /\ fits 6 (a mod 4 * 16 + b / 16) /\ fits 6 (b mod 16 * 4)) as (F0 & F1 & F2)
    by (unfold fits in *; split_and!; words_lia).
  pose proof (sextets_group a b 0 ltac:(done) ltac:(done) ltac:(done)) as E. change (0 / 64) with 0 in E.
  rewrite (Z.add_0_r (b mod 16 * 4)), Z.lor_0_r in E.
  destruct (group_split a b 0) as (G0 & G1 & _); [done..|]. cbn [rfc_base64].
  assert (forall rest, (output_len < length out + 3)%nat \/ rest = [] ->
    decode_tail output_len (letter alphabet (a / 4) :: letter alphabet (a mod 4 * 16 + b / 16)
      :: letter alphabet (b mod 16 * 4) :: rest) out = out ++ take (output_len - length out) [a; b]) as Ht.
  { intros rest Hr. pose proof (decode_tail_full output_len a b 0 rest out Ha Hb ltac:(done)) as Hf.
    change (0 / 64) with 0 in Hf. rewrite (Z.add_0_r (b mod 16 * 4)) in Hf.
    destruct (decide (output_len < length out + 3)%nat) as [Hs|Hs].
    - rewrite Hf by lia. f_equal. replace [a; b; 0] with ([a; b] ++ [0]) by done. by rewrite take_app_le by (cbn [length]; lia).
    - destruct Hr as [?|Hr]; [lia|]. rewrite Hr. clear Hr.
      rewrite (decode_tail_two _ _ _ (a / 4) (a mod 4 * 16 + b / 16)) by auto.
      destruct (dec_letter _ F2) as (-> & _ & _). rewrite (proj2 (Z.leb_le _ _)), andb_true_r by apply F2.
      rewrite E, G0, G1, (proj2 (Nat.leb_gt _ _)), (proj2 (Nat.ltb_lt _ _)) by lia. by rewrite take_ge by (cbn [length]; lia). }
  destruct Hpad as [->|(p & -> & Hp)]; cbn [app decode_loop]; [apply Ht; by right|].
  destruct (Nat.ltb_spec output_len (length out + 3)); [apply Ht; by left|].
  destruct (dec_letter _ F0) as (-> & _ & _), (dec_letter _ F1) as (-> & _ & _), (dec_letter _ F2) as (-> & _ & _).
  rewrite (proj2 (Z.ltb_ge _ _)), (proj2 (Z.ltb_ge _ _)) by apply F0 || apply F1. cbn [orb].
  rewrite Hp, (proj2 (Z.leb_le 0 (b mod 16 * 4))) by apply F2. cbn [Z.leb Z.compare].
  rewrite Z.lor_0_r, E, G0, G1. unfold decode_tail. cbn [length Nat.leb andb].
  rewrite take_ge by (cbn [length]; lia). by rewrite <- app_assoc.
Qed.

Lemma decode_rfc output_len data out :
  bytes_ok data -> (length out <= output_len)%nat ->
  (let '(rest, out) := decode_loop output_len (rfc_base64 alphabet pad data) out in decode_tail output_len rest out)
  = out ++ take (output_len - length out) data.
Proof.
  revert out. induction data as [|a|a b|a b c data IH] using list_ind3; intros out Hd Hl;
    rewrite ?Forall_cons in Hd; destruct_and? Hd.
  - rewrite take_nil. by rewrite app_nil_r.
  - by apply decode_one.
  - by apply decode_two.
  - cbn [rfc_base64 app decode_loop].
    destruct (Nat.ltb_spec output_len (length out + 3)).
    { rewrite decode_tail_full by (done || lia). f_equal.
      replace (a :: b :: c :: data) with ([a; b; c] ++ data) by done. by rewrite take_app_le by (cbn [length]; lia). }
    destruct (dec_letter (a / 4)) as (-> & _ & _); [unfold fits in *; words_lia|].
    destruct (dec_letter (a mod 4 * 16 + b / 16)) as (-> & _ & _); [unfold fits in *; words_lia|].
    destruct (dec_letter (b mod 16 * 4 + c / 64)) as (-> & _ & _); [unfold fits in *; words_lia|].
    destruct (dec_letter (c mod 64)) as (-> & _ & _); [unfold fits in *; words_lia|].
    rewrite !(proj2 (Z.ltb_ge _ 0)), !(proj2 (Z.leb_le 0 _)) by (unfold fits in *; words_lia). cbn [orb].
    rewrite sextets_group by done. destruct (group_split a b c) as (-> & -> & ->); [done..|].
    rewrite IH, !length_app by (done || (rewrite !length_app; cbn [length]; lia)). cbn [length].
    rewrite <- !app_assoc. f_equal.
    replace (output_len - length out)%nat with (S (S (S (output_len - (length out + 1 + 1 + 1))))) by lia. done.
Qed.
End decoding.

Lemma dec_url s : fits 6 s -> dec_char (letter url_alphabet s) = s.
Proof.
  intros Hs. apply Z.eqb_eq.
  apply (range_check 64 (fun s => dec_char (letter url_alphabet s) =? s)); [by vm_compute|exact Hs].
Qed.

Lemma dec_std s : fits 6 s -> dec_char (letter std_alphabet s) = s.
Proof.
  intros Hs. apply Z.eqb_eq.
  apply (range_check 64 (fun s => dec_char (letter std_alphabet s) =? s)); [by vm_compute|exact Hs].
Qed.

(** ** The URL prefix *)

(** Nothing an encoder writes begins like the prefix, which has a ':' in it. *)
Lemma skip_prefix_not text : Forall (fun c => c <> 58) text -> skip_prefix text = text.
Proof.
  intros Hf. unfold skip_prefix. case_bool_decide as E; [|by rewrite andb_false_r].
  exfalso. pose proof (Forall_take _ (length url_prefix) _ Hf) as Hp. rewrite E in Hp.
  apply (Forall_lookup_1 _ _ 5%nat 58 Hp); reflexivity.
Qed.

Lemma skip_prefix_text text : skip_prefix (url_prefix ++ text) = text.
Proof.
  unfold skip_prefix. rewrite take_app_length, drop_app_length, bool_decide_eq_true_2 by done.
  rewrite length_app. by rewrite (proj2 (Nat.leb_le _ _)) by lia.
Qed.

Lemma rfc_no_colon alphabet pad data :
  (forall s, letter alphabet s <> 58) -> Forall (fun c => c <> 58) pad ->
  Forall (fun c => c <> 58) (rfc_base64 alphabet pad data).
Proof.
  intros Ha Hp. induction data as [|a|a b|a b c data IH] using list_ind3; cbn [rfc_base64].
  - constructor.
  - apply Forall_app. split; [auto|]. by apply Forall_app.
  - apply Forall_app. split; [|done]. repeat (constructor; [apply Ha|]). constructor.
  - apply Forall_app. split; [|done]. repeat (constructor; [apply Ha|]). constructor.
Qed.

Lemma letter_no_colon alphabet s : Forall (fun c => c <> 58) alphabet -> letter alphabet s <> 58.
Proof.
  intros Ha. unfold letter, arr. destruct (alphabet !! _) as [c|] eqn:E; [|done].
  exact (Forall_lookup_1 _ _ _ _ Ha E).
Qed.

Lemma decode_rfc_text alphabet pad data n :
  (forall s, fits 6 s -> dec_char (letter alphabet s) = s) -> Forall (fun c => c <> 58) alphabet ->
  (pad = [] \/ exists p, pad = [p] /\ dec_char p = -1) -> Forall (fun c => c <> 58) pad -> bytes_ok data ->
  base64_decode n (rfc_base64 alphabet pad data) = take n data.
Proof.
  intros Hal Hac Hpad Hpc Hd. unfold base64_decode.
  rewrite skip_prefix_not by (apply rfc_no_colon; [intros; by apply letter_no_colon|done]).
  pose proof (decode_rfc alphabet pad Hal Hpad n data [] Hd ltac:(cbn; lia)) as E. cbn [length app] in E.
  by rewrite Nat.sub_0_r in E.
Qed.

(** ** Bounds of the decoder *)

Lemma decode_loop_bounds output_len data out :
  (length out <= output_len)%nat -> bytes_ok out ->
  let r := decode_loop output_len data out in (length r.2 <= output_len)%nat /\ bytes_ok r.2.
Proof.
  remember (length data) as n eqn:Hn. revert data out Hn.
  induction n as [n IH] using lt_wf_ind. intros [|c0 [|c1 [|c2 [|c3 data]]]] out Hn Hl Ho; try done.
  cbn [decode_loop]. destruct (Nat.ltb_spec output_len (length out + 3)); [done|].
  destruct ((dec_char c0 <? 0) || (dec_char c1 <? 0)); [done|]. cbn zeta.
  apply (IH (length data)); [cbn [length] in Hn; lia|done|..]; destruct (0 <=? dec_char c2), (0 <=? dec_char c3);
    rewrite ?length_app; cbn [length]; try lia; rewrite ?Forall_app; split_and!; try done; solve_bytes.
Qed.

Lemma decode_tail_bounds output_len data out :
  (length out <= output_len)%nat -> bytes_ok out ->
  (length (decode_tail output_len data out) <= output_len)%nat /\ bytes_ok (decode_tail output_len data out).
Proof.
  intros Hl Ho. unfold decode_tail. destruct (Nat.ltb_spec (length out) output_len) as [Hs|]; [|by rewrite andb_false_r].
  rewrite andb_true_r. destruct (2 <=? length data)%nat; [|done]. destruct ((0 <=? _) && (0 <=? _)); [|done].
  rewrite length_app. cbn [length].
  assert (bytes_ok (out ++ [u8 (((dec_char data.[0] .<< 18) .| (dec_char data.[1] .<< 12)) .>> 16)])) as Ho1
    by (apply Forall_app; split; [done|solve_bytes]).
  destruct (Nat.ltb_spec (length out + 1) output_len); [|rewrite andb_false_r, length_app; cbn [length]; split; [lia|done]].
  rewrite andb_true_r. destruct (3 <=? length data)%nat; [|rewrite length_app; cbn [length]; split; [lia|done]].
  destruct (0 <=? dec_char data.[2]); [|rewrite length_app; cbn [length]; split; [lia|done]].
  rewrite length_app, length_insert, length_app. cbn [length]. split; [lia|].
  apply Forall_app. split; [|solve_bytes]. apply Forall_insert; [done|apply fits_u8].
Qed.

(** ** Properties *)

(** C31. The encoder writes the unpadded RFC 4648 URL text of its input, of as many three-byte
    groups as the buffer has room for (the last, shorter group also needs room for four
    characters); the decoder, with room for [m] bytes, gives back the first [m] of what was
    written, with or without the URL prefix, and equally for the standard alphabet with
    padding. *)
Theorem base64_refines_rfc4648 (data : list Z) (n m : nat) :
  bytes_ok data ->
  let written := take (3 * (n / 4)) data in
  base64_encode n data = rfc_base64 url_alphabet [] written
  /\ base64_decode m (base64_encode n data) = take m written
  /\ base64_decode m (url_prefix ++ base64_encode n data) = take m written
  /\ base64_decode m (rfc_base64 std_alphabet [61] data) = take m data.
Proof.
  intros Hd. cbn zeta. assert (bytes_ok (take (3 * (n / 4)) data)) as Ht by by apply Forall_take.
  assert (base64_encode n data = rfc_base64 url_alphabet [] (take (3 * (n / 4)) data)) as ->.
  { pose proof (encode_rfc n data [] Hd) as E. cbn [length app] in E. by rewrite Nat.sub_0_r in E. }
  assert (forall d, bytes_ok d -> base64_decode m (rfc_base64 url_alphabet [] d) = take m d) as Hu.
  { intros d. apply decode_rfc_text; [apply dec_url| |by left|constructor].
    apply (bool_decide_unpack _). vm_compute. exact I. }
  split_and!; [done|by apply Hu| |].
  - unfold base64_decode. rewrite skip_prefix_text. pose proof (Hu _ Ht) as E. unfold base64_decode in E.
    rewrite skip_prefix_not in E; [done|]. apply rfc_no_colon; [|constructor]. intros s. apply letter_no_colon.
    apply (bool_decide_unpack _). vm_compute. exact I.
  - apply decode_rfc_text; [apply dec_std| |right; by exists 61| |done]; apply (bool_decide_unpack _); vm_compute; exact I.
Qed.

Lemma base64_refines_rfc4648_witness :
  base64_encode 8 (range 5) = rfc_base64 url_alphabet [] (range 5)
  /\ base64_decode 32 (base64_encode 8 (range 5)) = range 5
  /\ base64_decode 32 (url_prefix ++ base64_encode 8 (range 5)) = range 5
  /\ base64_decode 32 (rfc_base64 std_alphabet [61] (range 5)) = range 5.
Proof. apply (base64_refines_rfc4648 (range 5) 8 32). apply (bool_decide_unpack _). vm_compute. exact I. Defined.

(** Whatever the text, the decoder stores bytes, and no more than the buffer holds. *)
Theorem base64_decode_bounds (text : list Z) (n : nat) :
  (length (base64_decode n text) <= n)%nat /\ bytes_ok (base64_decode n text).
Proof.
  unfold base64_decode. destruct (decode_loop n (skip_prefix text) []) as [rest out] eqn:E.
  pose proof (decode_loop_bounds n (skip_prefix text) [] ltac:(cbn; lia) ltac:(constructor)) as [Hl Ho].
  rewrite E in Hl, Ho. by apply decode_tail_bounds.
Qed.
