(* ===== verification/Channel.v ===== *)
(** * Meshtastic channels: lunarcore/lunar/meshtastic/channel.h, channel.c

    Modem presets, channel keys, channels with their encryption, and the set of eight. The
    [mesh_kdf_*] functions channel.c calls are an interface ([MeshKdf]); hkdf.c implements
    it under other names ([hkdf_mesh_kdf]). channel.h declares most types twice; the model
    follows the first declaration, which is the one channel.c uses. C strings are lists
    without their terminator, [None] is a null pointer. *)
From S2P Require Import Prelude Sha256 Hmac Ctr Aes.

Definition MAX_CHANNEL_NAME : nat := 12.
Definition KEY_SIZE_128 : nat := 16.
Definition KEY_SIZE_256 : nat := 32.
Definition MAX_CHANNELS : nat := 8.
Definition MAX_VEC_SIZE : nat := 256.

(** ** What channel.c and encryption.c need of the key derivation *)

Class MeshKdf := {
  mesh_kdf_default_key : list Z;
  mesh_kdf_derive_channel_key : list Z -> list Z;
  mesh_kdf_derive_nonce : Z -> Z -> list Z;
  default_key_ok : length mesh_kdf_default_key = 16%nat /\ bytes_ok mesh_kdf_default_key;
  channel_key_ok name : length (mesh_kdf_derive_channel_key name) = 32%nat /\ bytes_ok (mesh_kdf_derive_channel_key name);
  nonce_ok packet_id sender : block_ok (mesh_kdf_derive_nonce packet_id sender)
}.

#[global, program] Instance hkdf_mesh_kdf : MeshKdf := {
  mesh_kdf_default_key := MESHTASTIC_DEFAULT_KEY;
  mesh_kdf_derive_channel_key := meshtastic_derive_channel_key;
  mesh_kdf_derive_nonce := meshtastic_derive_nonce
}.
Next Obligation. split; [done|]. apply (bool_decide_unpack _). vm_compute. exact I. Qed.
Next Obligation. intros name. split; [apply (digest_length (H := sha256_hash))|apply (digest_ok (H := sha256_hash))]. Qed.
Next Obligation. intros p s. split; [done|]. unfold meshtastic_derive_nonce. solve_bytes. Qed.

(** ** Modem presets *)

Record LoraParams := mkLoraParams { spreading_factor : Z; bandwidth : Z; coding_rate : Z }.

Inductive ModemPreset :=
  | MODEM_PRESET_LONG_SLOW
  | MODEM_PRESET_LONG_FAST
  | MODEM_PRESET_LONG_MODERATE
  | MODEM_PRESET_VERY_LONG_SLOW
  | MODEM_PRESET_MEDIUM_SLOW
  | MODEM_PRESET_MEDIUM_FAST
  | MODEM_PRESET_SHORT_SLOW
  | MODEM_PRESET_SHORT_FAST
  | MODEM_PRESET_SHORT_TURBO.

#[global] Instance ModemPreset_eq_dec : EqDecision ModemPreset.
Proof. solve_decision. Defined.

Definition modem_preset_default : ModemPreset := MODEM_PRESET_LONG_FAST.

Definition modem_preset_lora_params (preset : ModemPreset) : LoraParams :=
  match preset with
  | MODEM_PRESET_LONG_SLOW => mkLoraParams 12 125000 8
  | MODEM_PRESET_LONG_FAST => mkLoraParams 11 125000 8
  | MODEM_PRESET_LONG_MODERATE => mkLoraParams 11 125000 5
  | MODEM_PRESET_VERY_LONG_SLOW => mkLoraParams 12 125000 8
  | MODEM_PRESET_MEDIUM_SLOW => mkLoraParams 10 250000 5
  | MODEM_PRESET_MEDIUM_FAST => mkLoraParams 9 250000 5
  | MODEM_PRESET_SHORT_SLOW => mkLoraParams 8 250000 5
  | MODEM_PRESET_SHORT_FAST => mkLoraParams 7 250000 5
  | MODEM_PRESET_SHORT_TURBO => mkLoraParams 7 500000 5
  end.

(** ** Channel keys *)

Inductive ChannelKey :=
  | CHANNEL_KEY_NONE
  | CHANNEL_KEY_AES128 (aes128 : list Z)
  | CHANNEL_KEY_AES256 (aes256 : list Z).

#[global] Instance ChannelKey_eq_dec : EqDecision ChannelKey.
Proof. solve_decision. Defined.

Definition channel_key_drop (key : ChannelKey) : ChannelKey :=
  match key with
  | CHANNEL_KEY_AES128 _ => CHANNEL_KEY_AES128 (replicate KEY_SIZE_128 0)
  | CHANNEL_KEY_AES256 _ => CHANNEL_KEY_AES256 (replicate KEY_SIZE_256 0)
  | CHANNEL_KEY_NONE => CHANNEL_KEY_NONE
  end.

(** Zeroes, with the bytes copied over their beginning. *)
Definition zero_filled (size : nat) (bytes : list Z) : list Z := bytes ++ replicate (size - length bytes) 0.

Definition channel_key_from_bytes (key : list Z) : ChannelKey :=
  if (length key =? 0)%nat then CHANNEL_KEY_NONE
  else if (length key <=? 16)%nat then CHANNEL_KEY_AES128 (zero_filled KEY_SIZE_128 key)
  else
    let copy_len := if (length key <? KEY_SIZE_256)%nat then length key else KEY_SIZE_256 in
    CHANNEL_KEY_AES256 (zero_filled KEY_SIZE_256 (take copy_len key)).

Definition channel_key_is_encrypted (key : ChannelKey) : bool :=
  match key with CHANNEL_KEY_NONE => false | _ => true end.

Definition channel_key_as_bytes (key : ChannelKey) : list Z :=
  match key with
  | CHANNEL_KEY_NONE => []
  | CHANNEL_KEY_AES128 k => k
  | CHANNEL_KEY_AES256 k => k
  end.

Definition vec_channel_name_extend (vec data : list Z) : option (list Z) := vec_extend MAX_CHANNEL_NAME vec data.
Definition vec256_from_slice (data : list Z) : option (list Z) :=
  if (MAX_VEC_SIZE <? length data)%nat then None else Some data.
Definition vec256_extend (vec data : list Z) : option (list Z) := vec_extend MAX_VEC_SIZE vec data.

(** ** Channels *)

Record Channel := mkChannel {
  index : Z;
  name : list Z;
  key : ChannelKey;
  modem_preset : ModemPreset;
  uplink_enabled : bool;
  downlink_enabled : bool;
  position_precision : Z
}.

#[global] Instance Channel_eq_dec : EqDecision Channel.
Proof. solve_decision. Defined.

Definition with_name (ch : Channel) (n : list Z) : Channel :=
  mkChannel (index ch) n (key ch) (modem_preset ch) (uplink_enabled ch) (downlink_enabled ch) (position_precision ch).
Definition with_key (ch : Channel) (k : ChannelKey) : Channel :=
  mkChannel (index ch) (name ch) k (modem_preset ch) (uplink_enabled ch) (downlink_enabled ch) (position_precision ch).

(** "Primary" *)
Definition primary_name : list Z := [80; 114; 105; 109; 97; 114; 121].

Definition channel_set_key (ch : Channel) (k : list Z) : Channel :=
  let ch := with_key ch (channel_key_drop (key ch)) in with_key ch (channel_key_from_bytes k).

Definition channel_hash (ch : Channel) : Z :=
  let key_bytes := channel_key_as_bytes (key ch) in
  if (length key_bytes =? 0)%nat then 0 else foldl Z.lxor 0 key_bytes.

(** The static buffer after the call, and whether the result points to it (else to ""). *)
Definition channel_name_str (buf : list Z) (ch : Channel) : list Z * bool :=
  if (0 <? length (name ch))%nat then
    (<[length (name ch) := 0]> (name ch ++ drop (length (name ch)) buf), true)
  else (buf, false).

Definition channel_drop (ch : Channel) : Channel := with_key ch (channel_key_drop (key ch)).

(** Counter mode under the channel's key; [ctr128] and [ctr256] are the two directions. *)
Definition apply_cipher (ctr128 ctr256 : list Z -> list Z -> list Z -> list Z) (k : ChannelKey) (nonce data : list Z) : list Z :=
  match k with
  | CHANNEL_KEY_AES128 k => ctr128 (aes128_new k) nonce data
  | CHANNEL_KEY_AES256 k => ctr256 (aes256_new k) nonce data
  | CHANNEL_KEY_NONE => data
  end.

(** ** The set of channels: eight pointers, each null or to a channel of its own *)

Abbreviation ChannelSet := (list (option Channel)).

Section kdf.
Context `{MeshKdf}.

Definition channel_key_default : ChannelKey := CHANNEL_KEY_AES128 mesh_kdf_default_key.

Definition channel_key_from_channel_name (n : option (list Z)) : ChannelKey :=
  match n with
  | None | Some [] => channel_key_default
  | Some n => CHANNEL_KEY_AES256 (mesh_kdf_derive_channel_key n)
  end.

Definition channel_new (i : Z) : Channel := mkChannel i [] channel_key_default modem_preset_default false false 0.

Definition channel_primary : Channel :=
  let ch := channel_new 0 in
  with_name ch (default (name ch) (vec_channel_name_extend (name ch) primary_name)).

Definition channel_default : Channel := channel_primary.

Definition channel_set_name (ch : Channel) (n : list Z) : Channel :=
  let len := if (MAX_CHANNEL_NAME <? length n)%nat then MAX_CHANNEL_NAME else length n in
  let ch := with_name ch (default [] (vec_channel_name_extend [] (take len n))) in
  let ch := with_key ch (channel_key_drop (key ch)) in
  with_key ch (channel_key_from_channel_name (Some n)).

Definition channel_encrypt (ch : Channel) (packet_id sender : Z) (plaintext : list Z) : option (list Z) :=
  if negb (channel_key_is_encrypted (key ch)) then vec256_from_slice plaintext
  else
    let nonce := mesh_kdf_derive_nonce packet_id sender in
    ciphertext ← vec256_from_slice plaintext;
    Some (apply_cipher aes128_encrypt_ctr aes256_encrypt_ctr (key ch) nonce ciphertext).

Definition channel_decrypt (ch : Channel) (packet_id sender : Z) (ciphertext : list Z) : option (list Z) :=
  if negb (channel_key_is_encrypted (key ch)) then vec256_from_slice ciphertext
  else
    let nonce := mesh_kdf_derive_nonce packet_id sender in
    plaintext ← vec256_from_slice ciphertext;
    Some (apply_cipher aes128_decrypt_ctr aes256_decrypt_ctr (key ch) nonce plaintext).

(** The set of channels. *)

Definition channel_set_new : ChannelSet := <[0%nat := Some channel_primary]> (replicate MAX_CHANNELS None).
Definition channel_set_default : ChannelSet := channel_set_new.

Definition channel_set_primary_or_init (cs : ChannelSet) : ChannelSet * option Channel :=
  match mjoin (cs !! 0%nat) with
  | None => (<[0%nat := Some channel_primary]> cs, Some channel_primary)
  | Some ch => (cs, Some ch)
  end.
End kdf.

Definition channel_set_get (cs : ChannelSet) (i : Z) : option Channel :=
  if Z.of_nat MAX_CHANNELS <=? i then None else mjoin (cs !! Z.to_nat i).

(** A write through the pointer that [channel_set_get_mut] gives. *)
Definition channel_set_get_mut (cs : ChannelSet) (i : Z) (f : Channel -> Channel) : ChannelSet :=
  if Z.of_nat MAX_CHANNELS <=? i then cs else alter (fmap f) (Z.to_nat i) cs.

Definition channel_set_set (cs : ChannelSet) (i : Z) (channel : Channel) : ChannelSet :=
  if Z.of_nat MAX_CHANNELS <=? i then cs else <[Z.to_nat i := Some channel]> cs.

Definition channel_set_primary (cs : ChannelSet) : option Channel := mjoin (cs !! 0%nat).
Definition channel_set_primary_mut (cs : ChannelSet) (f : Channel -> Channel) : ChannelSet := alter (fmap f) 0%nat cs.

(** [for (i = 0; i < MAX_CHANNELS; i++) if (channels[i] != NULL && channel_hash(..) == hash)]. *)
Fixpoint channel_set_find_by_hash (cs : ChannelSet) (hash : Z) : option Channel :=
  match cs with
  | [] => None
  | Some ch :: cs => if channel_hash ch =? hash then Some ch else channel_set_find_by_hash cs hash
  | None :: cs => channel_set_find_by_hash cs hash
  end.

Definition channel_set_count (cs : ChannelSet) : nat :=
  foldl (fun count slot => match slot with Some _ => S count | None => count end) 0%nat cs.

Definition channel_set_drop (cs : ChannelSet) : ChannelSet := (fun _ => None) <$> cs.

(** ** Well-formed channels *)

Definition key_wf (k : ChannelKey) : Prop :=
  match k with
  | CHANNEL_KEY_NONE => True
  | CHANNEL_KEY_AES128 k => length k = 16%nat /\ bytes_ok k
  | CHANNEL_KEY_AES256 k => length k = 32%nat /\ bytes_ok k
  end.

Record channel_wf (ch : Channel) : Prop := {
  cw_name : (length (name ch) <= MAX_CHANNEL_NAME)%nat;
  cw_key : key_wf (key ch)
}.

Lemma replicate_ok n : bytes_ok (replicate n 0).
Proof. apply Forall_replicate. done. Qed.

Lemma key_from_bytes_wf k : bytes_ok k -> key_wf (channel_key_from_bytes k).
Proof.
  intros Hk. unfold channel_key_from_bytes, zero_filled, KEY_SIZE_128, KEY_SIZE_256.
  destruct (length k =? 0)%nat; [done|]. destruct (Nat.leb_spec (length k) 16); cbn [key_wf]; cbn zeta.
  - rewrite length_app, length_replicate. split; [lia|]. apply Forall_app. split; [done|apply replicate_ok].
  - rewrite length_app, length_replicate, length_take. destruct (Nat.ltb_spec (length k) 32);
      (split; [lia|]; apply Forall_app; split; [by apply Forall_take|apply replicate_ok]).
Qed.

Section kdf_facts.
Context `{MeshKdf}.

Lemma key_from_name_wf n : key_wf (channel_key_from_channel_name n).
Proof. destruct n as [[|c n]|]; cbn [channel_key_from_channel_name key_wf channel_key_default]; [apply default_key_ok|apply channel_key_ok|apply default_key_ok]. Qed.

Lemma set_name_eq ch n :
  channel_set_name ch n = with_key (with_name ch (take MAX_CHANNEL_NAME n)) (channel_key_from_channel_name (Some n)).
Proof.
  unfold channel_set_name, vec_channel_name_extend, MAX_CHANNEL_NAME. cbn zeta.
  assert (take (if (12 <? length n)%nat then 12 else length n) n = take 12 n) as ->.
  { destruct (Nat.ltb_spec 12 (length n)); [done|]. by rewrite firstn_all, take_ge by lia. }
  rewrite vec_extend_Some by (rewrite length_take; cbn [length]; lia). done.
Qed.

Lemma channel_new_wf i : channel_wf (channel_new i).
Proof. split; [cbn; lia|apply default_key_ok]. Qed.

Lemma channel_primary_wf : channel_wf channel_primary.
Proof. split; [by apply Nat.leb_le|apply default_key_ok]. Qed.

Lemma channel_set_name_wf ch n : channel_wf (channel_set_name ch n).
Proof. rewrite set_name_eq. split; [cbn [name with_key with_name]; rewrite length_take; lia|apply key_from_name_wf]. Qed.
End kdf_facts.

Lemma channel_set_key_wf ch k : bytes_ok k -> channel_wf ch -> channel_wf (channel_set_key ch k).
Proof. intros Hk [Hn _]. split; [exact Hn|by apply key_from_bytes_wf]. Qed.

(** ** The cipher *)

(** The block function of a key. *)
Definition key_block (k : ChannelKey) : list Z -> list Z :=
  match k with
  | CHANNEL_KEY_AES128 k => aes128_encrypt_block (aes128_new k)
  | CHANNEL_KEY_AES256 k => aes256_encrypt_block (aes256_new k)
  | CHANNEL_KEY_NONE => id
  end.

Lemma key_block_length k b : key_wf k -> block_ok b -> length (key_block k b) = 16%nat.
Proof.
  destruct k as [|k|k]; cbn [key_wf key_block].
  - intros _ [Hl _]. exact Hl.
  - intros [Hl Hk]. by apply aes128_encrypt_length.
  - intros [Hl Hk]. by apply aes256_encrypt_length.
Qed.

Lemma cipher_mode k nonce data :
  key_wf k -> channel_key_is_encrypted k = true -> block_ok nonce ->
  apply_cipher aes128_encrypt_ctr aes256_encrypt_ctr k nonce data
  = xor_bytes data (counter_stream (key_block k) (be_val nonce) (length data))
  /\ apply_cipher aes128_decrypt_ctr aes256_decrypt_ctr k nonce
       (apply_cipher aes128_encrypt_ctr aes256_encrypt_ctr k nonce data) = data.
Proof.
  intros Hk He Hn. destruct k as [|k|k]; [done|..]; destruct Hk as [Hl Hk]; cbn [apply_cipher key_block].
  - exact (ctr_mode _ nonce data (aes128_encrypt_length k Hl Hk) Hn).
  - unfold aes256_decrypt_ctr, aes256_encrypt_ctr. rewrite increment_256.
    exact (ctr_mode _ nonce data (aes256_encrypt_length k Hl Hk) Hn).
Qed.

(** ** Counter blocks *)

(** The counter of block [i] of a packet: packet id and sender, little-endian, in two of the
    four words, and the block number, big-endian, in the last. *)
Definition packet_counter (packet_id sender : Z) (i : nat) : list Z :=
  le_bytes 4 packet_id ++ replicate 4 0 ++ le_bytes 4 sender ++ be_bytes 4 (Z.of_nat i).

Lemma derive_nonce_eq p s : meshtastic_derive_nonce p s = le_bytes 4 p ++ replicate 4 0 ++ le_bytes 4 s ++ replicate 4 0.
Proof. by rewrite <- !wr32_eq. Qed.

Lemma nonce_counter p s i :
  Z.of_nat i < 2 ^ 32 ->
  be_bytes 16 (be_val (meshtastic_derive_nonce p s) + Z.of_nat i) = packet_counter p s i.
Proof.
  intros Hi. rewrite derive_nonce_eq. unfold packet_counter. rewrite !app_assoc.
  set (pre := (le_bytes 4 p ++ replicate 4 0) ++ le_bytes 4 s).
  assert (bytes_ok pre) as Hb by (repeat apply Forall_app_2; try apply le_bytes_ok; apply replicate_ok).
  assert (length pre = 12%nat) as Hl by (subst pre; rewrite !length_app, !length_le_bytes; done).
  assert (be_val (pre ++ replicate 4 0) + Z.of_nat i = be_val (pre ++ be_bytes 4 (Z.of_nat i))) as ->.
  { rewrite !be_val_app, length_be_bytes, (be_val_fits 4) by (unfold fits; lia). cbn [length replicate].
    change (be_val [0; 0; 0; 0]) with 0. lia. }
  replace 16%nat with (length (pre ++ be_bytes 4 (Z.of_nat i))) by (rewrite length_app, length_be_bytes; lia).
  apply be_bytes_be_val, Forall_app_2; [done|apply be_bytes_ok].
Qed.

Lemma packet_counter_inj p s i p' s' i' :
  fits 32 p -> fits 32 s -> fits 32 p' -> fits 32 s' -> Z.of_nat i < 2 ^ 32 -> Z.of_nat i' < 2 ^ 32 ->
  packet_counter p s i = packet_counter p' s' i' -> p = p' /\ s = s' /\ i = i'.
Proof.
  intros Hp Hs Hp' Hs' Hi Hi' E. unfold packet_counter in E.
  apply app_inj_1 in E as [Ep E]; [|by rewrite !length_le_bytes].
  apply app_inj_1 in E as [_ E]; [|done].
  apply app_inj_1 in E as [Es E]; [|by rewrite !length_le_bytes].
  apply (f_equal le_val) in Ep, Es. rewrite !le_val_fits in Ep, Es by done.
  apply (f_equal be_val) in E. rewrite !(be_val_fits 4) in E by (unfold fits; lia). split_and!; [done|done|lia].
Qed.

(** A key stream may be longer than the data. *)
Lemma xor_bytes_app_r (data a b : list Z) : (length data <= length a)%nat -> xor_bytes data (a ++ b) = xor_bytes data a.
Proof.
  unfold xor_bytes. revert a. induction data as [|d data IH]; intros [|x a] Hl; cbn [length] in *; try done; [lia|].
  cbn [app zip_with]. f_equal. apply IH. lia.
Qed.

Lemma length_blocks (f : nat -> list Z) l :
  (forall i, length (f i) = 16%nat) -> length (concat (f <$> l)) = (16 * length l)%nat.
Proof.
  intros Hf. induction l as [|i l IH]; [done|]. rewrite fmap_cons. cbn [concat length].
  rewrite length_app, Hf, IH. lia.
Qed.

Lemma stream_blocks enc v data (blocks := fun i => enc (be_bytes 16 (v + Z.of_nat i))) :
  (forall b, block_ok b -> length (enc b) = 16%nat) ->
  xor_bytes data (counter_stream enc v (length data))
  = xor_bytes data (concat (blocks <$> seq 0 ((length data + 15) / 16))).
Proof.
  intros He. unfold counter_stream. fold blocks.
  assert (forall i, length (blocks i) = 16%nat) as Hb by (intros i; apply He, be_bytes_block).
  replace (length data) with ((length data + 15) / 16 + (length data - (length data + 15) / 16))%nat at 1 by div_lia.
  rewrite seq_app, fmap_app, concat_app. apply xor_bytes_app_r. rewrite length_blocks, length_seq by done. div_lia.
Qed.

(** ** Sets of channels *)

Lemma set_get_set cs i j ch :
  length cs = MAX_CHANNELS -> 0 <= i -> 0 <= j ->
  channel_set_get (channel_set_set cs i ch) j
  = if decide (j = i /\ i < 8) then Some ch else channel_set_get cs j.
Proof.
  unfold channel_set_get, channel_set_set, MAX_CHANNELS. intros Hl Hi Hj. change (Z.of_nat 8) with 8.
  destruct (Z.leb_spec 8 j); [by rewrite decide_False by lia|].
  destruct (Z.leb_spec 8 i); [by rewrite decide_False by lia|].
  destruct (decide _) as [[-> _]|Hn].
  - by rewrite list_lookup_insert_eq by lia.
  - by rewrite list_lookup_insert_ne by lia.
Qed.

Lemma set_get_mut cs i j f :
  0 <= i -> 0 <= j ->
  channel_set_get (channel_set_get_mut cs i f) j
  = if decide (j = i) then f <$> channel_set_get cs j else channel_set_get cs j.
Proof.
  unfold channel_set_get, channel_set_get_mut, MAX_CHANNELS. intros Hi Hj. change (Z.of_nat 8) with 8.
  destruct (Z.leb_spec 8 j); [by case_decide|]. destruct (Z.leb_spec 8 i); [by rewrite decide_False by lia|].
  destruct (decide (j = i)) as [->|Hn].
  - rewrite list_lookup_alter_eq. by destruct (cs !! _) as [[]|].
  - by rewrite list_lookup_alter_ne by lia.
Qed.

Lemma count_slots cs n :
  foldl (fun count (slot : option Channel) => match slot with Some _ => S count | None => count end) n cs
  = (n + length (filter is_Some cs))%nat.
Proof.
  revert n. induction cs as [|[ch|] cs IH]; intros n; cbn [foldl].
  - cbn. lia.
  - rewrite IH, filter_cons_True by done. cbn [length]. lia.
  - by rewrite IH, filter_cons_False by (intros [? ?]; done).
Qed.

Lemma find_by_hash_spec cs h :
  match channel_set_find_by_hash cs h with
  | Some ch => exists i, cs !! i = Some (Some ch) /\ channel_hash ch = h
      /\ forall j ch', (j < i)%nat -> cs !! j = Some (Some ch') -> channel_hash ch' <> h
  | None => forall i ch, cs !! i = Some (Some ch) -> channel_hash ch <> h
  end.
Proof.
  assert (forall slot cs, (forall ch, slot = Some ch -> channel_hash ch <> h) ->
    channel_set_find_by_hash (slot :: cs) h = channel_set_find_by_hash cs h ->
    match channel_set_find_by_hash cs h with
    | Some ch => exists i, cs !! i = Some (Some ch) /\ channel_hash ch = h
        /\ forall j ch', (j < i)%nat -> cs !! j = Some (Some ch') -> channel_hash ch' <> h
    | None => forall i ch, cs !! i = Some (Some ch) -> channel_hash ch <> h
    end ->
    match channel_set_find_by_hash (slot :: cs) h with
    | Some ch => exists i, (slot :: cs) !! i = Some (Some ch) /\ channel_hash ch = h
        /\ forall j ch', (j < i)%nat -> (slot :: cs) !! j = Some (Some ch') -> channel_hash ch' <> h
    | None => forall i ch, (slot :: cs) !! i = Some (Some ch) -> channel_hash ch <> h
    end) as Hstep.
  { intros slot l Hs E IH. rewrite E. destruct (channel_set_find_by_hash l h) as [ch|].
    - destruct IH as (i & Hi & Hh & Hlow). exists (S i). split_and!; [done|done|].
      intros [|j] ch' Hj Hl; [apply Hs; cbn in Hl; congruence|]. apply (Hlow j); [lia|done].
    - intros [|i] ch Hi; [apply Hs; cbn in Hi; congruence|]. by apply (IH i). }
  induction cs as [|slot cs IH]; [done|].
  destruct slot as [ch|]; [|apply Hstep; done]. destruct (Z.eq_dec (channel_hash ch) h) as [E|E].
  - cbn [channel_set_find_by_hash]. rewrite (proj2 (Z.eqb_eq _ _)) by done. exists 0%nat. split_and!; [done|done|lia].
  - apply Hstep; [intros ? [= <-]; done| |done]. cbn [channel_set_find_by_hash]. by rewrite (proj2 (Z.eqb_neq _ _)).
Qed.

(** The sets the operations can make, from well-formed channels. *)
Inductive set_reachable `{MeshKdf} : ChannelSet -> Prop :=
  | reach_new : set_reachable channel_set_new
  | reach_set cs i ch : set_reachable cs -> 0 <= i -> channel_wf ch -> set_reachable (channel_set_set cs i ch)
  | reach_name cs i n : set_reachable cs -> 0 <= i -> set_reachable (channel_set_get_mut cs i (fun ch => channel_set_name ch n))
  | reach_key cs i k : set_reachable cs -> 0 <= i -> bytes_ok k -> set_reachable (channel_set_get_mut cs i (fun ch => channel_set_key ch k))
  | reach_init cs : set_reachable cs -> set_reachable (channel_set_primary_or_init cs).1.

Definition slot_wf (slot : option Channel) : Prop := match slot with Some ch => channel_wf ch | None => True end.

Lemma get_mut_wf cs i f :
  (forall ch, channel_wf ch -> channel_wf (f ch)) ->
  length cs = MAX_CHANNELS /\ is_Some (channel_set_primary cs) /\ Forall slot_wf cs ->
  length (channel_set_get_mut cs i f) = MAX_CHANNELS /\ is_Some (channel_set_primary (channel_set_get_mut cs i f))
  /\ Forall slot_wf (channel_set_get_mut cs i f).
Proof.
  intros Hf (Hl & Hp & Hw). unfold channel_set_get_mut. destruct (_ <=? i); [done|].
  split; [by rewrite length_alter|]. split.
  - unfold channel_set_primary in *. destruct (decide (Z.to_nat i = 0%nat)) as [->|].
    + rewrite list_lookup_alter_eq. destruct (cs !! 0%nat) as [[ch|]|]; cbn in *; [by eexists|by destruct Hp..].
    + by rewrite list_lookup_alter_ne by done.
  - apply Forall_alter; [done|]. intros [ch|] _; [apply Hf|done].
Qed.

(** Encryption and decryption under one key. *)
Lemma channel_crypt `{MeshKdf} (ch ch' : Channel) (packet_id sender : Z) (plaintext : list Z) :
  channel_wf ch -> key ch' = key ch ->
  (if decide (length plaintext <= MAX_VEC_SIZE)%nat
   then exists ct, channel_encrypt ch packet_id sender plaintext = Some ct /\ length ct = length plaintext
     /\ channel_decrypt ch' packet_id sender ct = Some plaintext
   else channel_encrypt ch packet_id sender plaintext = None /\ channel_decrypt ch' packet_id sender plaintext = None).
Proof.
  intros [_ Hk] Ek.
  unfold channel_encrypt, channel_decrypt, vec256_from_slice. rewrite Ek.
  destruct (decide _) as [Hl|Hl].
  - rewrite (proj2 (Nat.ltb_ge MAX_VEC_SIZE (length plaintext))) by lia.
    destruct (channel_key_is_encrypted (key ch)) eqn:He; cbn [negb].
    + set (nonce := mesh_kdf_derive_nonce packet_id sender).
      destruct (cipher_mode (key ch) nonce plaintext Hk He (nonce_ok _ _)) as [Es Ed].
      eexists. split; [reflexivity|].
      assert (length (apply_cipher aes128_encrypt_ctr aes256_encrypt_ctr (key ch) nonce plaintext) = length plaintext) as Hlen.
      { rewrite Es, stream_blocks by (intros; by apply key_block_length). rewrite length_xor_bytes, length_blocks, length_seq.
        - div_lia.
        - intros i. apply key_block_length; [done|apply be_bytes_block]. }
      split; [exact Hlen|]. rewrite Hlen, (proj2 (Nat.ltb_ge MAX_VEC_SIZE (length plaintext))) by lia.
      cbn [mbind option_bind]. by rewrite Ed.
    + exists plaintext. rewrite (proj2 (Nat.ltb_ge MAX_VEC_SIZE (length plaintext))) by lia. done.
  - rewrite (proj2 (Nat.ltb_lt MAX_VEC_SIZE (length plaintext))) by lia. by destruct (negb _).
Qed.

(** ** Properties *)

(** C22. A channel decrypts what a channel with the same key encrypted, under any key derivation:
    a packet of at most 256 bytes comes back under its packet id and sender, a longer one is
    refused by both directions. Two nodes that give their channels the same name share the
    key, whatever the channels were before; the name kept for display is cut to 12 bytes,
    the key is derived from all of it. *)
Theorem channel_crypt_roundtrip `{MeshKdf} (ch ch' : Channel) (packet_id sender : Z) (plaintext n : list Z) :
  channel_wf ch -> key ch' = key ch ->
  (if decide (length plaintext <= MAX_VEC_SIZE)%nat
   then exists ct, channel_encrypt ch packet_id sender plaintext = Some ct /\ length ct = length plaintext
     /\ channel_decrypt ch' packet_id sender ct = Some plaintext
   else channel_encrypt ch packet_id sender plaintext = None /\ channel_decrypt ch' packet_id sender plaintext = None)
  /\ key (channel_set_name ch n) = key (channel_set_name ch' n)
  /\ name (channel_set_name ch n) = take 12 n
  /\ key (channel_set_name ch n)
     = (if decide (n = []) then CHANNEL_KEY_AES128 mesh_kdf_default_key
        else CHANNEL_KEY_AES256 (mesh_kdf_derive_channel_key n)).
Proof.
  intros Hw Ek. split; [by apply channel_crypt|]. by rewrite !set_name_eq; destruct n.
Qed.

Lemma channel_crypt_roundtrip_witness :
  exists ct, channel_encrypt channel_primary 7 9 (range 20) = Some ct /\ length ct = 20%nat
  /\ channel_decrypt (channel_new 3) 7 9 ct = Some (range 20).
Proof.
  destruct (channel_crypt_roundtrip channel_primary (channel_new 3) 7 9 (range 20) [] channel_primary_wf eq_refl)
    as (E & _).
  rewrite decide_True in E by (apply (bool_decide_unpack _); vm_compute; exact I). exact E.
Defined.

(** C20. Counter mode never repeats a key stream block. With the nonces of hkdf.c an encrypted
    packet is its plaintext xor the encryptions of its counter blocks, one per sixteen
    bytes; two counter blocks, of one packet or of two, are equal only when packet id,
    sender and block number are. *)
Theorem channel_counters_distinct (ch : Channel) (packet_id sender : Z) (plaintext : list Z)
    (p s p' s' : Z) (i i' : nat) :
  channel_wf ch -> channel_key_is_encrypted (key ch) = true -> (length plaintext <= MAX_VEC_SIZE)%nat ->
  fits 32 p -> fits 32 s -> fits 32 p' -> fits 32 s' -> Z.of_nat i < 2 ^ 32 -> Z.of_nat i' < 2 ^ 32 ->
  channel_encrypt ch packet_id sender plaintext
  = Some (xor_bytes plaintext
      (concat ((fun i => key_block (key ch) (packet_counter packet_id sender i))
               <$> seq 0 ((length plaintext + 15) / 16))))
  /\ (packet_counter p s i = packet_counter p' s' i' -> p = p' /\ s = s' /\ i = i').
Proof.
  intros [_ Hk] He Hl Hp Hs Hp' Hs' Hi Hi'. split; [|by apply packet_counter_inj].
  unfold channel_encrypt, vec256_from_slice. rewrite He, (proj2 (Nat.ltb_ge MAX_VEC_SIZE (length plaintext))) by lia.
  cbn [negb mbind option_bind]. f_equal.
  destruct (cipher_mode (key ch) (meshtastic_derive_nonce packet_id sender) plaintext Hk He
    (@nonce_ok hkdf_mesh_kdf packet_id sender)) as [Es _].
  unfold MAX_VEC_SIZE in Hl. etransitivity; [exact Es|]. rewrite stream_blocks by (intros; by apply key_block_length).
  f_equal. f_equal. apply list_fmap_ext. intros j x Hj%lookup_seq. rewrite nonce_counter; [done|].
  destruct Hj as [-> Hj]. div_lia.
Qed.

Lemma channel_counters_distinct_witness :
  channel_encrypt channel_primary 7 9 (range 20)
  = Some (xor_bytes (range 20)
      (concat ((fun i => key_block (CHANNEL_KEY_AES128 MESHTASTIC_DEFAULT_KEY) (packet_counter 7 9 i)) <$> seq 0 2))).
Proof.
  destruct (channel_counters_distinct channel_primary 7 9 (range 20) 1 2 3 4 0 1 channel_primary_wf eq_refl) as [E _];
    [apply (bool_decide_unpack _); vm_compute; exact I..|]. exact E.
Defined.

(** C32. Every set the operations make has eight slots, a primary channel and only well-formed
    channels, so [channel_set_primary_or_init] never has to make one. *)
Theorem channel_sets_well_formed `{MeshKdf} (cs : ChannelSet) :
  set_reachable cs ->
  length cs = MAX_CHANNELS /\ is_Some (channel_set_primary cs) /\ Forall slot_wf cs
  /\ channel_set_primary_or_init cs = (cs, channel_set_primary cs).
Proof.
  intros Hr. assert (length cs = MAX_CHANNELS /\ is_Some (channel_set_primary cs) /\ Forall slot_wf cs) as Hi.
  { induction Hr as [|cs i ch _ (Hl & Hp & Hw) Hi Hc|cs i n _ IH Hi|cs i k _ IH Hi Hk|cs _ (Hl & [ch Hp] & Hw)].
    - split_and!; [done|by eexists|]. apply Forall_insert; [|apply channel_primary_wf]. apply Forall_replicate. done.
    - unfold channel_set_set. destruct (_ <=? i); [done|]. split; [by rewrite length_insert|]. split.
      + unfold channel_set_primary in *. destruct (decide (Z.to_nat i = 0%nat)) as [->|].
        * rewrite list_lookup_insert_eq by (unfold MAX_CHANNELS in Hl; lia). by eexists.
        * by rewrite list_lookup_insert_ne by done.
      + by apply Forall_insert.
    - apply get_mut_wf; [|done]. intros ch _. apply channel_set_name_wf.
    - apply get_mut_wf; [|done]. intros ch. by apply channel_set_key_wf.
    - unfold channel_set_primary, channel_set_primary_or_init in *. rewrite Hp. cbn [fst]. rewrite Hp. by split_and!. }
  destruct Hi as (Hl & [ch Hp] & Hw). rewrite Hp. split_and!; [done|by eexists|done|].
  unfold channel_set_primary, channel_set_primary_or_init in *. by rewrite Hp.
Qed.

Lemma channel_sets_well_formed_witness :
  let cs := channel_set_get_mut (channel_set_set channel_set_new 3 (channel_new 3)) 0 (fun ch => channel_set_name ch [97]) in
  length cs = MAX_CHANNELS /\ is_Some (channel_set_primary cs) /\ Forall slot_wf cs
  /\ channel_set_primary_or_init cs = (cs, channel_set_primary cs).
Proof.
  apply channel_sets_well_formed. apply reach_name; [|lia]. apply reach_set; [apply reach_new|lia|apply channel_new_wf].
Defined.

(** The set is a map from indices below eight: a write is read back at its index and leaves
    the others alone, an index of eight or more is ignored, the count is that of the channels
    present. Lookup by hash gives the channel of the lowest index with that hash; the hash is
    the xor of the key bytes, so channels without encryption have hash 0. *)
Theorem channel_set_is_map (cs : ChannelSet) (i j h : Z) (ch : Channel) (f : Channel -> Channel) :
  length cs = MAX_CHANNELS -> 0 <= i -> 0 <= j ->
  channel_set_get (channel_set_set cs i ch) j = (if decide (j = i /\ i < 8) then Some ch else channel_set_get cs j)
  /\ channel_set_get (channel_set_get_mut cs i f) j
     = (if decide (j = i) then f <$> channel_set_get cs j else channel_set_get cs j)
  /\ channel_set_count cs = length (filter is_Some cs)
  /\ channel_set_primary cs = channel_set_get cs 0
  /\ (channel_set_find_by_hash cs h = None
      <-> forall k ch, 0 <= k < 8 -> channel_set_get cs k = Some ch -> channel_hash ch <> h)
  /\ (channel_set_find_by_hash cs h = Some ch ->
      exists k, 0 <= k < 8 /\ channel_set_get cs k = Some ch /\ channel_hash ch = h
        /\ forall l ch', 0 <= l < k -> channel_set_get cs l = Some ch' -> channel_hash ch' <> h).
Proof.
  intros Hl Hi Hj. split; [by apply set_get_set|]. split; [by apply set_get_mut|]. split; [apply (count_slots cs 0)|].
  split; [done|].
  assert (forall k, 0 <= k < 8 -> channel_set_get cs k = mjoin (cs !! Z.to_nat k)) as Hg.
  { intros k Hk. unfold channel_set_get, MAX_CHANNELS. by rewrite (proj2 (Z.leb_gt _ _)) by lia. }
  assert (forall k c, mjoin (cs !! k) = Some c -> cs !! k = Some (Some c)) as Hm.
  { intros k c. by destruct (cs !! k) as [[]|]; intros [= <-]. }
  unfold MAX_CHANNELS in Hl. pose proof (find_by_hash_spec cs h) as Hf.
  destruct (channel_set_find_by_hash cs h) as [ch'|].
  - destruct Hf as (k & Hk & Hh & Hlow). pose proof (lookup_lt_Some _ _ _ Hk). split.
    + split; [done|]. intros Hn. exfalso. apply (Hn (Z.of_nat k) ch'); [lia| |done].
      rewrite Hg, Nat2Z.id by lia. by rewrite Hk.
    + intros [= <-]. exists (Z.of_nat k). rewrite Hg, Nat2Z.id, Hk by lia. split_and!; [lia|lia|done|done|].
      intros l c Hlk Hc. rewrite Hg in Hc by lia. apply (Hlow (Z.to_nat l)); [lia|by apply Hm].
  - split; [|done]. split; [|done]. intros _ k c Hk Hc. rewrite Hg in Hc by done. exact (Hf _ _ (Hm _ _ Hc)).
Qed.

Lemma channel_set_is_map_witness :
  channel_set_get (channel_set_set channel_set_new 2 (channel_new 2)) 2 = Some (channel_new 2).
Proof. apply (channel_set_is_map channel_set_new 2 2 0 (channel_new 2) id); done. Defined.
