(* ===== verification/Encryption.v ===== *)
(** * Packet encryption: lunarcore/lunar/meshtastic/encryption.h, encryption.c

    Encryption contexts (a channel key with the counter-mode cipher), message integrity codes,
    public-key encryption between two nodes and the key store. The file calls the functions of
    channel.c, aes.c, sha256.c, hmac.c, hkdf.c and poly1305.c under capitalised names
    ([Aes128_new], [Hkdf_derive], [ChaCha20Poly1305_seal] ...); the model calls those
    functions, with their arguments in the order of the calls. X25519 is an argument. *)
From S2P Require Import Prelude Sha256 Hmac ChaCha20 Poly1305 Ctr Aes Keyed Channel.

Definition MAX_PAYLOAD_SIZE : nat := 237.
Definition MIC_SIZE : nat := 4.
Definition MIC_SIZE_ENHANCED : nat := 8.
Definition PKI_OVERHEAD : nat := 32 + 16.
Definition MAX_CHANNEL_KEYS : nat := 8.

(** ** Vectors *)

Definition Vec_u8_237_from_slice (slice : list Z) : option (list Z) :=
  if (MAX_PAYLOAD_SIZE <? length slice)%nat then None else Some slice.
Definition Vec_u8_237_extend_from_slice (vec slice : list Z) : option (list Z) := vec_extend 237 vec slice.
Definition Vec_u8_256_extend_from_slice (vec slice : list Z) : option (list Z) := vec_extend 256 vec slice.
Definition Vec_u8_240_extend_from_slice (vec slice : list Z) : option (list Z) := vec_extend 240 vec slice.

(** ** Encryption contexts *)

Record EncryptionContext := EncryptionContext_new { ctx_key : ChannelKey }.

Definition EncryptionContext_from_key_bytes (k : list Z) : EncryptionContext :=
  EncryptionContext_new (channel_key_from_bytes k).
Definition EncryptionContext_is_encrypted (ctx : EncryptionContext) : bool :=
  channel_key_is_encrypted (ctx_key ctx).

Definition EncryptionContext_key_hash (ctx : EncryptionContext) : Z :=
  let key_bytes := channel_key_as_bytes (ctx_key ctx) in
  if (length key_bytes =? 0)%nat then 0 else foldl Z.lxor 0 key_bytes.

Section contexts.
Context `{MeshKdf}.

Definition EncryptionContext_with_default_key : EncryptionContext := EncryptionContext_new channel_key_default.
Definition EncryptionContext_from_channel_name (n : option (list Z)) : EncryptionContext :=
  EncryptionContext_new (channel_key_from_channel_name n).
Definition EncryptionContext_default : EncryptionContext := EncryptionContext_with_default_key.

Definition EncryptionContext_encrypt (ctx : EncryptionContext) (packet_id sender : Z) (plaintext : list Z)
    : option (list Z) :=
  if negb (channel_key_is_encrypted (ctx_key ctx)) then Vec_u8_237_from_slice plaintext
  else if (MAX_PAYLOAD_SIZE <? length plaintext)%nat then None
  else
    let nonce := mesh_kdf_derive_nonce packet_id sender in
    ciphertext_out ← Vec_u8_237_extend_from_slice [] plaintext;
    Some (apply_cipher aes128_encrypt_ctr aes256_encrypt_ctr (ctx_key ctx) nonce ciphertext_out).

Definition EncryptionContext_decrypt (ctx : EncryptionContext) (packet_id sender : Z) (ciphertext : list Z)
    : option (list Z) :=
  if negb (channel_key_is_encrypted (ctx_key ctx)) then Vec_u8_237_from_slice ciphertext
  else if (length ciphertext =? 0)%nat || (MAX_PAYLOAD_SIZE <? length ciphertext)%nat then None
  else
    let nonce := mesh_kdf_derive_nonce packet_id sender in
    plaintext_out ← Vec_u8_237_extend_from_slice [] ciphertext;
    Some (apply_cipher aes128_decrypt_ctr aes256_decrypt_ctr (ctx_key ctx) nonce plaintext_out).
End contexts.

(** ** Message integrity codes *)

Inductive MicMode := MIC_MODE_STANDARD | MIC_MODE_ENHANCED.
Definition MicMode_default : MicMode := MIC_MODE_STANDARD.

Definition compute_mic (data : list Z) : list Z := take MIC_SIZE (sha256_hash data).

Definition verify_mic (data expected_mic : list Z) : bool :=
  if negb (length expected_mic =? MIC_SIZE)%nat then false
  else constant_time_eq (compute_mic data) expected_mic.

Definition compute_mic_enhanced (k data : list Z) : list Z :=
  let hmac_key := zero_filled 32 (if (32 <=? length k)%nat then take 32 k else k) in
  take MIC_SIZE_ENHANCED (hmac_sha256_mac hmac_key data).

Definition verify_mic_enhanced (k data expected_mic : list Z) : bool :=
  if negb (length expected_mic =? MIC_SIZE_ENHANCED)%nat then false
  else constant_time_eq (compute_mic_enhanced k data) expected_mic.

(** ** Public-key encryption *)

(** "ephemeral", "meshtastic-pki", "node-key", "meshtastic" *)
Definition label_ephemeral : list Z := [101; 112; 104; 101; 109; 101; 114; 97; 108].
Definition label_pki : list Z := [109; 101; 115; 104; 116; 97; 115; 116; 105; 99; 45; 112; 107; 105].
Definition label_node_key : list Z := [110; 111; 100; 101; 45; 107; 101; 121].
Definition label_meshtastic : list Z := [109; 101; 115; 104; 116; 97; 115; 116; 105; 99].

Record KeyStore := mkKeyStore {
  channel_keys : list (option EncryptionContext);   (* channel_keys_data, channel_keys_present *)
  node_privkey : option (list Z);
  node_pubkey : option (list Z)
}.

Section pki.
Context (x25519_scalarmult : list Z -> list Z -> list Z) (x25519_base : list Z -> list Z).

Definition pki_encrypt (recipient_pubkey sender_privkey plaintext nonce : list Z) : option (list Z) :=
  if (256 <? length plaintext + PKI_OVERHEAD)%nat then None
  else
    let ephemeral_seed := kdf label_ephemeral nonce sender_privkey 32 in
    let ephemeral_pubkey := x25519_base ephemeral_seed in
    let shared_secret := x25519_scalarmult ephemeral_seed recipient_pubkey in
    let k := kdf label_pki shared_secret ephemeral_pubkey 32 in
    if (240 <? length plaintext)%nat then None
    else
      sealed ← chacha20poly1305_seal k nonce [] plaintext 240;
      let '(ciphertext, tag) := sealed in
      output ← Vec_u8_256_extend_from_slice [] ephemeral_pubkey;
      output ← Vec_u8_256_extend_from_slice output ciphertext;
      Vec_u8_256_extend_from_slice output tag.

Definition pki_decrypt (recipient_privkey encrypted nonce : list Z) : option (list Z) :=
  if (length encrypted <? PKI_OVERHEAD)%nat then None
  else
    let ephemeral_pubkey := take 32 encrypted in
    let ciphertext_len := (length encrypted - 32 - 16)%nat in
    let ciphertext := slice encrypted 32 ciphertext_len in
    let tag := slice encrypted (length encrypted - 16) 16 in
    let shared_secret := x25519_scalarmult recipient_privkey ephemeral_pubkey in
    let k := kdf label_pki shared_secret ephemeral_pubkey 32 in
    if (240 <? ciphertext_len)%nat then None
    else
      plaintext ← mjoin (chacha20poly1305_open k nonce [] ciphertext tag 240);
      Vec_u8_240_extend_from_slice [] plaintext.

(** ** The key store *)

Definition KeyStore_new : KeyStore := mkKeyStore (replicate MAX_CHANNEL_KEYS None) None None.
Definition KeyStore_default : KeyStore := KeyStore_new.

Definition KeyStore_drop (store : KeyStore) : KeyStore :=
  mkKeyStore (channel_keys store) ((fun _ => replicate 32 0) <$> node_privkey store) (node_pubkey store).

Definition set_slot (store : KeyStore) (i : Z) (ctx : EncryptionContext) : KeyStore :=
  if i <? Z.of_nat MAX_CHANNEL_KEYS
  then mkKeyStore (<[Z.to_nat i := Some ctx]> (channel_keys store)) (node_privkey store) (node_pubkey store)
  else store.

Definition KeyStore_set_channel_key (store : KeyStore) (i : Z) (k : list Z) : KeyStore :=
  set_slot store i (EncryptionContext_from_key_bytes k).
Definition KeyStore_set_channel_name `{MeshKdf} (store : KeyStore) (i : Z) (n : option (list Z)) : KeyStore :=
  set_slot store i (EncryptionContext_from_channel_name n).

Definition KeyStore_get_channel (store : KeyStore) (i : Z) : option EncryptionContext :=
  if Z.of_nat MAX_CHANNEL_KEYS <=? i then None else mjoin (channel_keys store !! Z.to_nat i).

Definition KeyStore_set_node_keypair (store : KeyStore) (privkey : list Z) : KeyStore :=
  mkKeyStore (channel_keys store) (Some privkey) (Some (x25519_base privkey)).

Definition KeyStore_generate_node_keypair (store : KeyStore) (entropy : list Z) : KeyStore :=
  let privkey := kdf label_node_key label_meshtastic entropy 32 in
  KeyStore_set_node_keypair store privkey.

Definition KeyStore_node_pubkey (store : KeyStore) : option (list Z) := node_pubkey store.

Definition KeyStore_encrypt_for_node (store : KeyStore) (recipient_pubkey plaintext nonce : list Z) : option (list Z) :=
  privkey ← node_privkey store; pki_encrypt recipient_pubkey privkey plaintext nonce.

Definition KeyStore_decrypt_from_node (store : KeyStore) (encrypted nonce : list Z) : option (list Z) :=
  privkey ← node_privkey store; pki_decrypt privkey encrypted nonce.
End pki.

#[local] Opaque kdf sha256_hash chacha20poly1305_seal chacha20poly1305_open chacha20_new chacha20_new_with_counter
  chacha20_keystream chacha20_encrypt chacha20_decrypt poly1305_mac apply_cipher mesh_kdf_derive_nonce.

(** What the code relies on of X25519. *)
Class KeyAgreement (x25519_scalarmult : list Z -> list Z -> list Z) (x25519_base : list Z -> list Z) : Prop := {
  agreement x y : x25519_scalarmult x (x25519_base y) = x25519_scalarmult y (x25519_base x);
  base_length x : length (x25519_base x) = 32%nat
}.

Section pki_facts.
Context (x25519_scalarmult : list Z -> list Z -> list Z) (x25519_base : list Z -> list Z).
Context `{!KeyAgreement x25519_scalarmult x25519_base}.

(** Key and body of a packet. *)
Definition pki_key (shared ephemeral_pubkey : list Z) : list Z := kdf label_pki shared ephemeral_pubkey 32.
Definition pki_mac (k nonce ct : list Z) : list Z :=
  poly1305_mac (chacha20_keystream (chacha20_new k nonce) 32) (aead_data [] ct).

Lemma length_poly1305_mac k d : length (poly1305_mac k d) = 16%nat.
Proof. Transparent poly1305_mac. reflexivity. Opaque poly1305_mac. Qed.

Lemma pki_encrypt_outcome recipient_pubkey sender_privkey plaintext nonce
    (seed := kdf label_ephemeral nonce sender_privkey 32)
    (k := pki_key (x25519_scalarmult seed recipient_pubkey) (x25519_base seed))
    (ct := chacha20_encrypt (chacha20_new_with_counter k nonce 1) plaintext) :
  pki_encrypt x25519_scalarmult x25519_base recipient_pubkey sender_privkey plaintext nonce
  = if decide (length plaintext <= 208)%nat then Some (x25519_base seed ++ ct ++ pki_mac k nonce ct) else None.
Proof.
  unfold pki_encrypt, PKI_OVERHEAD. destruct (decide _) as [Hl|Hl].
  - rewrite (proj2 (Nat.ltb_ge 256 _)), (proj2 (Nat.ltb_ge 240 _)) by lia. fold seed.
    fold (pki_key (x25519_scalarmult seed recipient_pubkey) (x25519_base seed)). fold k.
    rewrite seal_spec by lia. cbn [mbind option_bind]. fold ct.
    destruct (aead_opens_sealed k nonce plaintext) as [_ Hct]. fold ct in Hct.
    unfold Vec_u8_256_extend_from_slice. pose proof (base_length seed) as Hb.
    rewrite vec_extend_Some by (rewrite Hb; cbn [length]; lia). cbn [mbind option_bind app].
    rewrite vec_extend_Some by (rewrite Hb, Hct; lia). cbn [mbind option_bind].
    rewrite vec_extend_Some by (rewrite length_app, Hb, Hct, length_poly1305_mac; lia). by rewrite <- app_assoc.
  - by rewrite (proj2 (Nat.ltb_lt 256 _)) by lia.
Qed.

Lemma pki_decrypt_parts recipient_privkey e ct tag nonce (k := pki_key (x25519_scalarmult recipient_privkey e) e) :
  length e = 32%nat -> length tag = 16%nat ->
  pki_decrypt x25519_scalarmult recipient_privkey (e ++ ct ++ tag) nonce
  = if decide (length ct <= 240)%nat then
      if decide (tag = pki_mac k nonce ct) then Some (chacha20_decrypt (chacha20_new_with_counter k nonce 1) ct) else None
    else None.
Proof.
  intros He Ht. unfold pki_decrypt, PKI_OVERHEAD. rewrite !length_app, He, Ht.
  replace (32 + (length ct + 16) - 32 - 16)%nat with (length ct) by lia.
  replace (32 + (length ct + 16) - 16)%nat with (length (e ++ ct)) by (rewrite length_app; lia).
  rewrite (proj2 (Nat.ltb_ge _ _)) by lia. rewrite (slice_cut e ct tag) by done.
  rewrite (slice_cut (e ++ ct) tag []) by (rewrite ?app_nil_r, ?app_assoc; done).
  rewrite take_app_length' by done. fold (pki_key (x25519_scalarmult recipient_privkey e) e). fold k.
  destruct (decide _) as [Hl|Hl]; [|by rewrite (proj2 (Nat.ltb_lt 240 _)) by lia].
  rewrite (proj2 (Nat.ltb_ge 240 _)), open_spec by lia. unfold pki_mac.
  cbn [mjoin option_join]. destruct (decide _); [|done]. cbn [mbind option_bind].
  unfold Vec_u8_240_extend_from_slice. rewrite vec_extend_Some; [done|].
  Transparent chacha20_decrypt chacha20_encrypt. unfold chacha20_decrypt, chacha20_encrypt.
  Opaque chacha20_decrypt chacha20_encrypt.
  rewrite length_apply_keystream by apply chacha_wf_new_with_counter. cbn [length]. lia.
Qed.

Lemma pki_decrypt_short recipient_privkey encrypted nonce :
  (length encrypted < 48)%nat -> pki_decrypt x25519_scalarmult recipient_privkey encrypted nonce = None.
Proof. intros Hl. unfold pki_decrypt, PKI_OVERHEAD. by rewrite (proj2 (Nat.ltb_lt _ _)) by lia. Qed.

Lemma pki_round recipient sender plaintext nonce :
  (length plaintext <= 208)%nat ->
  exists ct, pki_encrypt x25519_scalarmult x25519_base (x25519_base recipient) sender plaintext nonce = Some ct
    /\ length ct = (length plaintext + PKI_OVERHEAD)%nat
    /\ pki_decrypt x25519_scalarmult recipient ct nonce = Some plaintext.
Proof.
  intros Hl. rewrite pki_encrypt_outcome, decide_True by done. set (seed := kdf label_ephemeral nonce sender 32).
  rewrite (agreement seed recipient). set (k := pki_key (x25519_scalarmult recipient (x25519_base seed)) (x25519_base seed)).
  set (ct := chacha20_encrypt (chacha20_new_with_counter k nonce 1) plaintext).
  destruct (aead_opens_sealed k nonce plaintext) as [Hd Hc]. fold ct in Hd, Hc.
  eexists. split; [reflexivity|]. split.
  - rewrite !length_app, Hc, base_length. unfold pki_mac. rewrite length_poly1305_mac. unfold PKI_OVERHEAD. lia.
  - rewrite pki_decrypt_parts by (apply base_length || apply length_poly1305_mac). fold k.
    rewrite !decide_True by (done || lia). by rewrite Hd.
Qed.
End pki_facts.

(** ** Contexts *)

Lemma extend_237 d : (length d <= 237)%nat -> Vec_u8_237_extend_from_slice [] d = Some d.
Proof. intros. unfold Vec_u8_237_extend_from_slice. by rewrite vec_extend_Some by (cbn [length]; lia). Qed.

Lemma zero_fill_hmac k : (length k <= 32)%nat -> rfc_key sha256_hash (zero_filled 32 k) = rfc_key sha256_hash k.
Proof.
  intros Hl. unfold rfc_key, zero_filled. rewrite length_app, length_replicate.
  rewrite !(proj2 (Nat.ltb_ge 64 _)) by lia. rewrite length_app, length_replicate, <- app_assoc, <- replicate_add.
  do 2 f_equal. lia.
Qed.

(** ** Properties *)

(** C33. encryption.c and channel.c implement the same cipher twice. Under the same key they
    encrypt and decrypt alike up to 237 bytes, and hash the key alike; beyond that
    encryption.c refuses (channel.c takes 256), and it refuses to decrypt the empty packet it
    encrypts, when the channel has a key. *)
Theorem context_agrees_with_channel `{MeshKdf} (ctx : EncryptionContext) (ch : Channel) (packet_id sender : Z) (d : list Z) :
  key ch = ctx_key ctx ->
  EncryptionContext_encrypt ctx packet_id sender d
  = (if decide (length d <= MAX_PAYLOAD_SIZE)%nat then channel_encrypt ch packet_id sender d else None)
  /\ EncryptionContext_decrypt ctx packet_id sender d
  = (if decide ((length d <= MAX_PAYLOAD_SIZE)%nat /\ (d = [] -> ctx_key ctx = CHANNEL_KEY_NONE))
     then channel_decrypt ch packet_id sender d else None)
  /\ EncryptionContext_key_hash ctx = channel_hash ch.
Proof.
  intros Hk. unfold EncryptionContext_encrypt, EncryptionContext_decrypt, channel_encrypt, channel_decrypt,
    EncryptionContext_key_hash, channel_hash, Vec_u8_237_from_slice, vec256_from_slice, MAX_PAYLOAD_SIZE, MAX_VEC_SIZE.
  rewrite Hk. destruct (decide (length d <= 237)%nat) as [Hl|Hl].
  - rewrite (proj2 (Nat.ltb_ge 237 (length d))), (proj2 (Nat.ltb_ge 256 (length d))), extend_237 by lia. split; [reflexivity|]. split; [|reflexivity].
    rewrite orb_false_r. destruct (Nat.eqb_spec (length d) 0) as [->%nil_length_inv|Hn].
    + destruct (ctx_key ctx) eqn:E; cbn [channel_key_is_encrypted negb].
      * by rewrite decide_True by done.
      * rewrite decide_False; [done|]. intros [_ Hd]. by specialize (Hd eq_refl).
      * rewrite decide_False; [done|]. intros [_ Hd]. by specialize (Hd eq_refl).
    + rewrite decide_True; [done|]. split; [done|]. intros ->. done.
  - rewrite (proj2 (Nat.ltb_lt 237 (length d))), orb_true_r by lia. split; [by destruct (negb _)|]. split; [|reflexivity].
    rewrite decide_False by tauto. by destruct (negb _).
Qed.

Lemma context_agrees_with_channel_witness :
  let ctx := EncryptionContext_from_channel_name (Some [97; 98]) in
  EncryptionContext_encrypt ctx 5 6 [1; 2; 3] = channel_encrypt (channel_set_name channel_primary [97; 98]) 5 6 [1; 2; 3].
Proof.
  destruct (context_agrees_with_channel (EncryptionContext_from_channel_name (Some [97; 98]))
    (channel_set_name channel_primary [97; 98]) 5 6 [1; 2; 3] eq_refl) as (E & _).
  rewrite decide_True in E by (apply (bool_decide_unpack _); vm_compute; exact I). exact E.
Defined.

(** The standard code is the first four bytes of the SHA-256 hash, with no key at all; the
    enhanced one is the first eight of HMAC-SHA-256 under the first 32 bytes of the key (the
    zeros a shorter key is filled with change nothing). Verification accepts exactly these. *)
Theorem mic_refines_hash (k data mic : list Z) :
  (verify_mic data mic = true <-> mic = take 4 (sha256_hash data))
  /\ compute_mic_enhanced k data = take 8 (rfc_hmac sha256_hash (take 32 k) data)
  /\ (verify_mic_enhanced k data mic = true <-> mic = take 8 (rfc_hmac sha256_hash (take 32 k) data)).
Proof.
  assert (forall n (d e : list Z), (n <= length d)%nat ->
    ((if negb (length e =? n)%nat then false else constant_time_eq (take n d) e) = true <-> e = take n d)) as Hv.
  { intros n d e Hn. destruct (Nat.eqb_spec (length e) n) as [E|E]; cbn [negb].
    - rewrite constant_time_eq_spec. by split.
    - split; [done|]. intros ->. rewrite length_take in E. lia. }
  assert (compute_mic_enhanced k data = take 8 (rfc_hmac sha256_hash (take 32 k) data)) as Ee.
  { unfold compute_mic_enhanced, MIC_SIZE_ENHANCED. cbn zeta. rewrite hmac_sha256_mac_rfc.
    assert ((if (32 <=? length k)%nat then take 32 k else k) = take 32 k) as ->.
    { destruct (Nat.leb_spec 32 (length k)); [done|]. by rewrite take_ge by lia. }
    unfold rfc_hmac. rewrite zero_fill_hmac by (rewrite length_take; lia). done. }
  split_and!; [|done|].
  - apply (Hv 4%nat). rewrite (digest_length (H := sha256_hash)). lia.
  - unfold verify_mic_enhanced. rewrite Ee. apply (Hv 8%nat). unfold rfc_hmac.
    rewrite (digest_length (H := sha256_hash)). lia.
Qed.

(** C21. Packets between two nodes arrive. Whatever X25519 is, as long as its two sides agree: a
    node with a key pair encrypts at most 208 bytes for the public key of another, 48 bytes
    longer, and the other decrypts them; more is refused, and a node without a key pair
    refuses both. *)
Theorem node_packet_delivery (x25519_scalarmult : list Z -> list Z -> list Z) (x25519_base : list Z -> list Z)
    `{!KeyAgreement x25519_scalarmult x25519_base} (a b : KeyStore) (priv_a priv_b plaintext nonce pub any : list Z) :
  let a' := KeyStore_set_node_keypair x25519_base a priv_a in
  let b' := KeyStore_set_node_keypair x25519_base b priv_b in
  KeyStore_node_pubkey b' = Some pub ->
  (if decide (length plaintext <= 208)%nat
   then exists ct, KeyStore_encrypt_for_node x25519_scalarmult x25519_base a' pub plaintext nonce = Some ct
     /\ length ct = (length plaintext + PKI_OVERHEAD)%nat
     /\ KeyStore_decrypt_from_node x25519_scalarmult b' ct nonce = Some plaintext
   else KeyStore_encrypt_for_node x25519_scalarmult x25519_base a' pub plaintext nonce = None)
  /\ KeyStore_encrypt_for_node x25519_scalarmult x25519_base KeyStore_new pub plaintext nonce = None
  /\ KeyStore_decrypt_from_node x25519_scalarmult KeyStore_new any nonce = None.
Proof.
  cbn zeta. intros Hp. split; [|done].
  unfold KeyStore_encrypt_for_node, KeyStore_decrypt_from_node, KeyStore_set_node_keypair, KeyStore_node_pubkey in *.
  cbn [node_privkey node_pubkey mbind option_bind] in *. injection Hp as <-. destruct (decide _) as [Hl|Hl].
  - by apply pki_round.
  - by rewrite pki_encrypt_outcome, decide_False by done.
Qed.

(** Every outcome of public-key decryption. Packets of fewer than 48 or more than 288 bytes
    are refused; of the others exactly those are accepted whose last 16 bytes are the MAC of
    the middle part, under a key that depends on the recipient, the first 32 bytes and nothing
    of the sender: the nonce must be the one of the encryption, and who sent the packet is not
    authenticated. *)
Theorem pki_decrypt_outcome (x25519_scalarmult : list Z -> list Z -> list Z) (privkey encrypted nonce : list Z)
    (n := length encrypted) (e := take 32 encrypted) (ct := slice encrypted 32 (n - 48))
    (k := pki_key (x25519_scalarmult privkey e) e) :
  pki_decrypt x25519_scalarmult privkey encrypted nonce
  = if decide (48 <= n <= 288)%nat then
      if decide (drop (n - 16) encrypted = pki_mac k nonce ct)
      then Some (chacha20_decrypt (chacha20_new_with_counter k nonce 1) ct) else None
    else None.
Proof.
  destruct (decide (n < 48)%nat) as [Hs|Hs].
  { rewrite decide_False by lia. by apply pki_decrypt_short. }
  assert (encrypted = e ++ ct ++ drop (n - 16) encrypted) as E.
  { subst e ct. unfold slice. rewrite <- (take_drop 32 encrypted) at 1. f_equal.
    rewrite <- (take_drop (n - 48) (drop 32 encrypted)) at 1. f_equal. rewrite drop_drop. f_equal. lia. }
  assert (length e = 32%nat) as He by (subst e; rewrite length_take; lia).
  assert (length ct = (n - 48)%nat) as Hc by (subst ct; rewrite length_slice; lia).
  rewrite E at 1. rewrite pki_decrypt_parts by (done || (rewrite length_drop; lia)). rewrite Hc.
  destruct (decide (n - 48 <= 240)%nat); [by rewrite (decide_True (P := (48 <= n <= 288)%nat)) by lia|].
  by rewrite decide_False by lia.
Qed.

(** The store keeps a context per index below eight: what is set is read back, the other
    indices and the node keys are left alone, and an index of eight or more is ignored. *)
Theorem key_store_is_map `{MeshKdf} (store : KeyStore) (i j : Z) (k : list Z) (n : option (list Z)) :
  length (channel_keys store) = MAX_CHANNEL_KEYS -> 0 <= i -> 0 <= j ->
  KeyStore_get_channel (KeyStore_set_channel_key store i k) j
  = (if decide (j = i /\ i < 8) then Some (EncryptionContext_from_key_bytes k) else KeyStore_get_channel store j)
  /\ KeyStore_get_channel (KeyStore_set_channel_name store i n) j
  = (if decide (j = i /\ i < 8) then Some (EncryptionContext_from_channel_name n) else KeyStore_get_channel store j)
  /\ node_privkey (KeyStore_set_channel_key store i k) = node_privkey store
  /\ KeyStore_node_pubkey (KeyStore_set_channel_name store i n) = KeyStore_node_pubkey store
  /\ length (channel_keys (KeyStore_set_channel_key store i k)) = MAX_CHANNEL_KEYS.
Proof.
  intros Hl Hi Hj. assert (forall ctx, KeyStore_get_channel (set_slot store i ctx) j
    = if decide (j = i /\ i < 8) then Some ctx else KeyStore_get_channel store j) as Hs.
  { intros ctx. unfold KeyStore_get_channel, set_slot, MAX_CHANNEL_KEYS in *. change (Z.of_nat 8) with 8.
    destruct (Z.leb_spec 8 j); [by rewrite decide_False by lia|].
    destruct (Z.ltb_spec i 8); [|by rewrite decide_False by lia]. cbn [channel_keys].
    destruct (decide _) as [[-> _]|Hn].
    - by rewrite list_lookup_insert_eq by lia.
    - by rewrite list_lookup_insert_ne by lia. }
  unfold KeyStore_set_channel_key, KeyStore_set_channel_name, KeyStore_node_pubkey.
  split_and!; [apply Hs|apply Hs|..]; unfold set_slot; destruct (i <? _); try done. cbn [channel_keys]. by rewrite length_insert.
Qed.

(** ** Samples *)

(** A stand-in for X25519 whose two sides agree. *)
Definition sample_base (scalar : list Z) : list Z := take 32 (scalar ++ replicate 32 0).
Definition sample_scalarmult (scalar point : list Z) : list Z := xor_bytes (sample_base scalar) point.

#[global] Instance sample_agreement : KeyAgreement sample_scalarmult sample_base.
Proof.
  split; intros x; [intros y; apply xor_bytes_comm|].
  unfold sample_base. rewrite length_take, length_app, length_replicate. lia.
Qed.

Lemma node_packet_delivery_witness :
  let a := KeyStore_set_node_keypair sample_base KeyStore_new (zseq 7 32) in
  let b := KeyStore_set_node_keypair sample_base KeyStore_new (zseq 1 32) in
  exists ct, KeyStore_encrypt_for_node sample_scalarmult sample_base a (sample_base (zseq 1 32)) (range 30) (zseq 100 12) = Some ct
  /\ length ct = 78%nat /\ KeyStore_decrypt_from_node sample_scalarmult b ct (zseq 100 12) = Some (range 30).
Proof.
  destruct (node_packet_delivery sample_scalarmult sample_base KeyStore_new KeyStore_new (zseq 7 32) (zseq 1 32)
    (range 30) (zseq 100 12) (sample_base (zseq 1 32)) [] eq_refl) as (E & _).
  rewrite decide_True in E by (apply (bool_decide_unpack _); vm_compute; exact I). exact E.
Defined.

Lemma key_store_is_map_witness :
  KeyStore_get_channel (KeyStore_set_channel_key KeyStore_new 2 [1; 2]) 2 = Some (EncryptionContext_from_key_bytes [1; 2]).
Proof. apply (key_store_is_map KeyStore_new 2 2 [1; 2] None); done. Defined.
