(* ===== verification/MeshSerial.v ===== *)
(** * Serial frames and the response queue: lunarcore/lunar/meshtastic/mod.h, mod.c

    The frame parser, byte at a time, the one-shot builder and reader of frames, and the ring
    buffer of sixteen messages that holds the answers to a configuration request. *)
From S2P Require Import Prelude.

Definition SERIAL_SYNC : list Z := [0x94; 0xC3].
Definition MAX_MESSAGE_SIZE : nat := 512.

Definition vec_u8_max_message_size_push (vec : list Z) (byte : Z) : option (list Z) := vec_push MAX_MESSAGE_SIZE vec byte.
Definition vec_u8_max_message_size_extend (vec data : list Z) : option (list Z) := vec_extend MAX_MESSAGE_SIZE vec data.

(** ** The parser *)

Record MeshtasticParser := mkParser {
  state : Z;
  buffer : list Z;
  expected_length : Z;
  current_index : Z
}.

Definition meshtastic_parser_init : MeshtasticParser := mkParser 0 [] 0 0.
Definition meshtastic_parser_reset (parser : MeshtasticParser) : MeshtasticParser := meshtastic_parser_init.

Definition in_state (p : MeshtasticParser) (s : Z) : MeshtasticParser :=
  mkParser s (buffer p) (expected_length p) (current_index p).

(** The parser after the byte, and the payload of the frame it completes. *)
Definition meshtastic_parser_feed (parser : MeshtasticParser) (byte : Z) : MeshtasticParser * option (list Z) :=
  match state parser with
  | 0 => (if byte =? SERIAL_SYNC.[0] then in_state parser 1 else parser, None)
  | 1 =>
      (if byte =? SERIAL_SYNC.[1] then mkParser 2 [] (expected_length parser) (current_index parser)
       else in_state parser 0, None)
  | 2 => (mkParser 3 (buffer parser) (byte .<< 8) (current_index parser), None)
  | 3 =>
      let expected := expected_length parser .| byte in
      if Z.of_nat MAX_MESSAGE_SIZE <? expected then (mkParser 0 (buffer parser) expected (current_index parser), None)
      else (mkParser 4 (buffer parser) expected 0, None)
  | 4 =>
      if (length (buffer parser) <? MAX_MESSAGE_SIZE)%nat then
        let buf := buffer parser ++ [byte] in
        let index := current_index parser + 1 in
        if expected_length parser <=? index then (mkParser 0 [] (expected_length parser) index, Some buf)
        else (mkParser 4 buf (expected_length parser) index, None)
      else (in_state parser 0, None)
  | _ => (in_state parser 0, None)
  end.

(** Bytes one after the other, and the frames they complete. *)
Fixpoint serial_feed_all (p : MeshtasticParser) (bytes : list Z) : MeshtasticParser * list (list Z) :=
  match bytes with
  | [] => (p, [])
  | b :: bytes =>
      let '(p, frame) := meshtastic_parser_feed p b in
      let '(p, frames) := serial_feed_all p bytes in
      (p, option_list frame ++ frames)
  end.

(** ** One frame at once *)

Definition meshtastic_handler_build_serial_frame (payload : list Z) : option (list Z) :=
  out ← vec_u8_max_message_size_push [] SERIAL_SYNC.[0];
  out ← vec_u8_max_message_size_push out SERIAL_SYNC.[1];
  let len_u16 := u16 (Z.of_nat (length payload)) in
  out ← vec_u8_max_message_size_push out (u8 (len_u16 .>> 8));
  out ← vec_u8_max_message_size_push out (u8 (len_u16 .& 0xFF));
  vec_u8_max_message_size_extend out payload.

Definition meshtastic_handler_parse_serial_frame (data : list Z) : option (list Z) :=
  if (length data <? 4)%nat then None
  else if negb (data.[0] =? SERIAL_SYNC.[0]) || negb (data.[1] =? SERIAL_SYNC.[1]) then None
  else
    let payload_len := Z.to_nat ((data.[2] .<< 8) .| data.[3]) in
    if (length data <? 4 + payload_len)%nat then None
    else vec_u8_max_message_size_extend [] (slice data 4 payload_len).

(** ** The queue of responses *)

Definition DEQUE_SIZE : nat := 16.

Record Deque_Vec_u8_MAX_MESSAGE_SIZE := mkDeque {
  items : list (list Z);   (* sixteen *)
  head : nat;
  tail : nat;
  count : nat
}.

(** [deque_init] and [deque_clear] leave the items as they are. *)
Definition deque_clear (deque : Deque_Vec_u8_MAX_MESSAGE_SIZE) : Deque_Vec_u8_MAX_MESSAGE_SIZE :=
  mkDeque (items deque) 0 0 0.
Definition deque_init (deque : Deque_Vec_u8_MAX_MESSAGE_SIZE) : Deque_Vec_u8_MAX_MESSAGE_SIZE :=
  mkDeque (items deque) 0 0 0.

Definition deque_push_back (deque : Deque_Vec_u8_MAX_MESSAGE_SIZE) (item : list Z)
    : Deque_Vec_u8_MAX_MESSAGE_SIZE * bool :=
  if (DEQUE_SIZE <=? count deque)%nat then (deque, false)
  else (mkDeque (<[tail deque := item]> (items deque)) (head deque)
          ((tail deque + 1) mod DEQUE_SIZE) (S (count deque)), true).

Definition deque_pop_front (deque : Deque_Vec_u8_MAX_MESSAGE_SIZE)
    : Deque_Vec_u8_MAX_MESSAGE_SIZE * option (list Z) :=
  if (count deque =? 0)%nat then (deque, None)
  else (mkDeque (items deque) ((head deque + 1) mod DEQUE_SIZE) (tail deque) (count deque - 1),
        Some (default [] (items deque !! head deque))).

Definition deque_len (deque : Deque_Vec_u8_MAX_MESSAGE_SIZE) : nat := count deque.
Definition deque_is_empty (deque : Deque_Vec_u8_MAX_MESSAGE_SIZE) : bool := (count deque =? 0)%nat.

(** ** Feeding *)

Lemma serial_feed_app p l1 l2 :
  serial_feed_all p (l1 ++ l2)
  = let '(p1, o1) := serial_feed_all p l1 in let '(p2, o2) := serial_feed_all p1 l2 in (p2, o1 ++ o2).
Proof.
  revert p. induction l1 as [|b l1 IH]; intros p; cbn [app serial_feed_all].
  - by destruct (serial_feed_all p l2).
  - destruct (meshtastic_parser_feed p b) as [p' f]. rewrite IH.
    destruct (serial_feed_all p' l1) as [p1 o1]. destruct (serial_feed_all p1 l2). by rewrite app_assoc.
Qed.

Lemma serial_feed_comp p p1 p2 l1 l2 o1 o2 :
  serial_feed_all p l1 = (p1, o1) -> serial_feed_all p1 l2 = (p2, o2) -> serial_feed_all p (l1 ++ l2) = (p2, o1 ++ o2).
Proof. intros H1 H2. by rewrite serial_feed_app, H1, H2. Qed.

Lemma serial_feed_noise p noise :
  state p = 0 -> Forall (fun b => b <> 0x94) noise -> serial_feed_all p noise = (p, []).
Proof.
  intros Hp. induction 1 as [|b noise Hb _ IH]; [done|]. cbn [serial_feed_all]. unfold meshtastic_parser_feed. rewrite Hp.
  change (SERIAL_SYNC.[0]) with 0x94. destruct (Z.eqb_spec b 0x94); [done|]. by rewrite IH.
Qed.

Lemma serial_feed_payload ds p :
  state p = 4 -> ds <> [] -> current_index p = Z.of_nat (length (buffer p)) ->
  expected_length p = Z.of_nat (length (buffer p) + length ds) -> expected_length p <= 512 ->
  exists p', state p' = 0 /\ serial_feed_all p ds = (p', [buffer p ++ ds]).
Proof.
  revert p. induction ds as [|d ds IH]; intros p Hp Hne Hi He Hm; [done|].
  cbn [serial_feed_all]. unfold meshtastic_parser_feed. rewrite Hp, Hi, He. cbn [length] in *.
  rewrite (proj2 (Nat.ltb_lt _ _)) by (unfold MAX_MESSAGE_SIZE; lia).
  destruct ds as [|d' ds].
  - rewrite (proj2 (Z.leb_le _ _)) by (cbn [length]; lia). eexists. split; [|reflexivity]. done.
  - rewrite (proj2 (Z.leb_gt _ _)) by (cbn [length]; lia).
    cbn [length] in He. set (q := mkParser 4 _ _ _). destruct (IH q) as (p' & Hp' & E); [done|done|..].
    + cbn [q current_index buffer]. rewrite length_app. cbn [length]. lia.
    + cbn [q expected_length buffer]. rewrite length_app. cbn [length]. lia.
    + cbn [q expected_length]. cbn [length]. lia.
    + exists p'. split; [done|]. rewrite E. cbn [q buffer option_list app]. by rewrite <- app_assoc.
Qed.

(** The bytes of a frame with the length [n] in its header. *)
Definition serial_header (n : nat) : list Z := [0x94; 0xC3; Z.of_nat n / 256; Z.of_nat n mod 256].

Lemma serial_feed_header p n :
  state p = 0 -> (n <= 512)%nat -> serial_feed_all p (serial_header n) = (mkParser 4 [] (Z.of_nat n) 0, []).
Proof.
  intros Hp Hn. unfold serial_header. cbn [serial_feed_all]. unfold meshtastic_parser_feed at 1. rewrite Hp.
  change (0x94 =? SERIAL_SYNC.[0]) with true. cbn iota beta.
  unfold meshtastic_parser_feed, in_state. cbn [state buffer expected_length current_index].
  change (0xC3 =? SERIAL_SYNC.[1]) with true. cbn [state buffer expected_length current_index].
  rewrite Z.lor_comm, (lor_shiftl_add 8) by (done || (unfold fits; apply Z.mod_pos_bound; lia)).
  replace (Z.of_nat n mod 256 + 2 ^ 8 * (Z.of_nat n / 256)) with (Z.of_nat n) by (change (2 ^ 8) with 256; div_lia).
  rewrite (proj2 (Z.ltb_ge _ _)) by (unfold MAX_MESSAGE_SIZE; lia). done.
Qed.

Lemma serial_feed_frame p payload :
  state p = 0 -> payload <> [] -> (length payload <= 512)%nat ->
  exists p', state p' = 0 /\ serial_feed_all p (serial_header (length payload) ++ payload) = (p', [payload]).
Proof.
  intros Hp Hne Hl. pose proof (serial_feed_header p (length payload) Hp Hl) as Eh.
  destruct (serial_feed_payload payload (mkParser 4 [] (Z.of_nat (length payload)) 0)) as (p' & Hp' & E);
    cbn [state buffer expected_length current_index length]; try done; [lia|].
  exists p'. split; [done|]. exact (serial_feed_comp _ _ _ _ _ _ _ Eh E).
Qed.

Lemma build_serial_frame_eq payload :
  meshtastic_handler_build_serial_frame payload
  = if (length payload <=? 508)%nat then Some (serial_header (length payload) ++ payload) else None.
Proof.
  unfold meshtastic_handler_build_serial_frame, vec_u8_max_message_size_push, vec_u8_max_message_size_extend, MAX_MESSAGE_SIZE.
  do 4 (rewrite vec_push_Some by (cbn [length app]; lia); cbn [mbind option_bind app]).
  destruct (Nat.leb_spec (length payload) 508).
  - rewrite vec_extend_Some by (cbn [length]; lia). unfold serial_header. f_equal. cbn [app]. do 2 f_equal.
    rewrite !u16_small, Z.shiftr_div_pow2 by (done || (unfold fits; lia)). change (2 ^ 8) with 256.
    rewrite land_ff, u8_u8, u8_small by (unfold fits; div_lia). done.
  - by rewrite vec_extend_None by (cbn [length]; lia).
Qed.

(** ** What the parser has read *)

Definition sync_word : list Z := [0x94; 0xC3].

(** After the bytes [seen]: the part of a frame that has arrived ends them. *)
Definition serial_inv (p : MeshtasticParser) (seen : list Z) : Prop :=
  match state p with
  | 0 => True
  | 1 => [0x94] `suffix_of` seen
  | 2 => sync_word `suffix_of` seen /\ buffer p = []
  | 3 => exists hi, (sync_word ++ [hi]) `suffix_of` seen /\ byte_ok hi /\ expected_length p = 256 * hi /\ buffer p = []
  | 4 => exists hi lo, (sync_word ++ [hi; lo] ++ buffer p) `suffix_of` seen
      /\ expected_length p = 256 * hi + lo /\ expected_length p <= 512
      /\ current_index p = Z.of_nat (length (buffer p)) /\ current_index p < Z.max 1 (expected_length p)
  | _ => False
  end.

(** What a completed frame means. *)
Definition serial_received (f seen : list Z) : Prop :=
  exists hi lo, (sync_word ++ [hi; lo] ++ f) `suffix_of` seen
    /\ Z.of_nat (length f) = Z.max 1 (256 * hi + lo) /\ (length f <= 512)%nat.

Lemma suffix_snoc (x seen : list Z) b : x `suffix_of` seen -> (x ++ [b]) `suffix_of` (seen ++ [b]).
Proof. intros [pre ->]. exists pre. by rewrite app_assoc. Qed.

Lemma serial_feed_inv p seen b :
  serial_inv p seen -> byte_ok b ->
  let '(p', f) := meshtastic_parser_feed p b in
  serial_inv p' (seen ++ [b]) /\ match f with Some f => serial_received f (seen ++ [b]) | None => True end.
Proof.
  intros Hi Hb. unfold meshtastic_parser_feed. unfold serial_inv in Hi.
  destruct (state p) as [|s|s] eqn:Hs; [| |done].
  - change (SERIAL_SYNC.[0]) with 0x94. destruct (Z.eqb_spec b 0x94) as [->|]; (split; [|done]).
    + by exists seen.
    + unfold serial_inv. by rewrite Hs.
  - destruct s as [s|s|]; [|destruct s as [s|s|]; [done| |]|].
    + destruct s as [s|s|]; [done|done|]. destruct Hi as (hi & Hx & Hhi & He & Hbuf). rewrite He.
      assert (256 * hi .| b = 256 * hi + b) as ->.
      { replace (256 * hi) with (hi .<< 8) by (rewrite Z.shiftl_mul_pow2 by done; lia).
        rewrite Z.lor_comm, (lor_shiftl_add 8) by done. rewrite Z.shiftl_mul_pow2 by done. lia. }
      destruct (Z.ltb_spec (Z.of_nat MAX_MESSAGE_SIZE) (256 * hi + b)) as [Hm|Hm]; (split; [|done]); [done|].
      unfold MAX_MESSAGE_SIZE in Hm. unfold serial_inv. cbn [state buffer expected_length current_index]. exists hi, b.
      rewrite Hbuf. split; [|cbn [length]; lia]. apply (suffix_snoc _ _ b) in Hx. exact Hx.
    + destruct s as [s|s|]; [done|done|]. destruct Hi as (hi & lo & Hx & He & Hm & Hidx & Hlt).
      rewrite (proj2 (Nat.ltb_lt _ _)) by (unfold MAX_MESSAGE_SIZE; lia).
      apply (suffix_snoc _ _ b) in Hx. rewrite <- !app_assoc in Hx.
      destruct (Z.leb_spec (expected_length p) (current_index p + 1)) as [Hc|Hc].
      * split; [done|]. exists hi, lo. split; [exact Hx|]. rewrite length_app. cbn [length]. lia.
      * split; [|done]. unfold serial_inv. cbn [state buffer expected_length current_index]. exists hi, lo.
        rewrite length_app. cbn [length]. split; [exact Hx|]. lia.
    + destruct Hi as [Hx Hbuf]. split; [|done]. unfold serial_inv. cbn [state buffer expected_length]. exists b.
      split; [exact (suffix_snoc _ _ b Hx)|]. rewrite Z.shiftl_mul_pow2 by done. split_and!; [done|lia|done].
    + change (SERIAL_SYNC.[1]) with 0xC3. destruct (Z.eqb_spec b 0xC3) as [->|]; (split; [|done]); [|done].
      unfold serial_inv. cbn [state buffer]. split; [exact (suffix_snoc _ _ 0xC3 Hi)|done].
Qed.

Lemma serial_reachable bs : bytes_ok bs -> serial_inv (serial_feed_all meshtastic_parser_init bs).1 bs.
Proof.
  induction bs as [|b bs IH] using rev_ind; [done|]. intros [Hbs Hb%Forall_inv]%Forall_app.
  specialize (IH Hbs). rewrite serial_feed_app. destruct (serial_feed_all meshtastic_parser_init bs) as [p o].
  cbn [serial_feed_all fst] in *. pose proof (serial_feed_inv p bs b IH Hb) as Hi.
  destruct (meshtastic_parser_feed p b) as [p' f]. apply Hi.
Qed.

(** ** The queue *)

Definition deque_contents (d : Deque_Vec_u8_MAX_MESSAGE_SIZE) : list (list Z) :=
  (fun i => default [] (items d !! ((head d + i) mod 16)%nat)) <$> seq 0 (count d).

Record deque_wf (d : Deque_Vec_u8_MAX_MESSAGE_SIZE) : Prop := {
  dw_items : length (items d) = 16%nat;
  dw_head : (head d < 16)%nat;
  dw_count : (count d <= 16)%nat;
  dw_tail : tail d = ((head d + count d) mod 16)%nat
}.

Lemma deque_clear_wf d : length (items d) = 16%nat -> deque_wf (deque_clear d).
Proof. intros Hl. split; cbn; (done || lia). Qed.

Lemma push_contents d x :
  deque_wf d -> (count d < 16)%nat ->
  deque_wf (deque_push_back d x).1 /\ deque_contents (deque_push_back d x).1 = deque_contents d ++ [x].
Proof.
  intros [Hi Hh Hc Ht] Hn. unfold deque_push_back, DEQUE_SIZE. rewrite (proj2 (Nat.leb_gt _ _)) by lia. cbn [fst]. split.
  - split; cbn [items head tail count]; [by rewrite length_insert|done|lia|rewrite Ht; div_lia].
  - unfold deque_contents. cbn [items head count]. rewrite seq_S, fmap_app. cbn [Nat.add]. f_equal.
    + apply list_fmap_ext. intros j i [-> Hj]%lookup_seq. rewrite list_lookup_insert_ne; [done|]. rewrite Ht. div_lia.
    + cbn [fmap list_fmap]. rewrite <- Ht, list_lookup_insert_eq; [done|]. rewrite Ht, Hi. div_lia.
Qed.

Lemma pop_contents d x l :
  deque_wf d -> deque_contents d = x :: l ->
  deque_wf (deque_pop_front d).1 /\ deque_contents (deque_pop_front d).1 = l /\ (deque_pop_front d).2 = Some x.
Proof.
  intros [Hi Hh Hc Ht] E. unfold deque_contents in E. destruct (count d) as [|n] eqn:Hn; [done|].
  rewrite <- cons_seq in E. cbn [fmap list_fmap] in E. pose proof (f_equal (List.hd []) E) as Ex. pose proof (f_equal (@List.tl _) E) as El. cbn [List.hd List.tl] in Ex, El.
  unfold deque_pop_front. rewrite Hn. cbn [Nat.eqb fst snd]. unfold DEQUE_SIZE. split_and!.
  - split; cbn [items head tail count]; [done|div_lia|lia|rewrite Ht; div_lia].
  - rewrite <- El. unfold deque_contents. cbn [items head count]. replace (S n - 1)%nat with n by lia.
    rewrite <- fmap_S_seq, <- list_fmap_compose. apply list_fmap_ext. intros j i _. cbn [compose].
    do 2 f_equal. div_lia.
  - rewrite <- Ex, Nat.add_0_r, Nat.mod_small by done. done.
Qed.

Lemma length_contents d : length (deque_contents d) = count d.
Proof. unfold deque_contents. by rewrite length_fmap, length_seq. Qed.

(** ** Properties *)

(** Frames, each after some bytes that hold no first sync byte. *)
Definition serial_stream (items : list (list Z * list Z)) : list Z :=
  concat ((fun i => i.1 ++ default [] (meshtastic_handler_build_serial_frame i.2)) <$> items).

(** Every stream of built frames with payloads of 1 to 508 bytes, with any bytes but 0x94
    before each, is parsed back: one frame per payload, in order, and the parser is ready for
    the next. *)
Theorem serial_stream_roundtrip (items : list (list Z * list Z)) (p : MeshtasticParser) :
  state p = 0 ->
  Forall (fun i => Forall (fun b => b <> 0x94) i.1 /\ (1 <= length i.2 <= 508)%nat) items ->
  exists p', state p' = 0 /\ serial_feed_all p (serial_stream items) = (p', snd <$> items).
Proof.
  intros Hp Hi. revert p Hp. induction Hi as [|[noise payload] items [Hn Hl] _ IH]; intros p Hp; [by exists p|].
  cbn [fst snd] in *. unfold serial_stream. rewrite fmap_cons. cbn [concat fst snd].
  fold (serial_stream items). rewrite build_serial_frame_eq, (proj2 (Nat.leb_le _ _)) by lia. cbn [default from_option id].
  destruct (serial_feed_frame p payload Hp) as (p1 & Hp1 & E1); [by destruct payload; cbn in *; [lia|]|lia|].
  destruct (IH p1 Hp1) as (p2 & Hp2 & E2). exists p2. split; [done|].
  rewrite fmap_cons. cbn [snd]. change (payload :: (snd <$> items)) with (([] ++ [payload]) ++ (snd <$> items)).
  eapply serial_feed_comp; [|exact E2]. eapply serial_feed_comp; [by apply serial_feed_noise|exact E1].
Qed.

Lemma serial_stream_roundtrip_witness :
  exists p', state p' = 0
  /\ serial_feed_all meshtastic_parser_init (serial_stream [([1; 0xC3], [0x94; 0xC3; 0]); ([], [7])]) = (p', [[0x94; 0xC3; 0]; [7]]).
Proof.
  apply (serial_stream_roundtrip [([1; 0xC3], [0x94; 0xC3; 0]); ([], [7])] meshtastic_parser_init); [done|].
  apply (bool_decide_unpack _). vm_compute. exact I.
Defined.

(** Whatever bytes arrive: the buffer never holds more than 512 bytes, and a frame that a byte
    completes is the end of what was received, after the sync bytes and a length, with as
    many bytes as the length says (one, when it says none). *)
Theorem serial_parser_sound (bs : list Z) (b : Z) :
  bytes_ok (bs ++ [b]) ->
  let p := (serial_feed_all meshtastic_parser_init bs).1 in
  (state p = 4 -> (length (buffer p) < 512)%nat)
  /\ match (meshtastic_parser_feed p b).2 with
     | Some f => exists hi lo, ([0x94; 0xC3; hi; lo] ++ f) `suffix_of` (bs ++ [b])
         /\ Z.of_nat (length f) = Z.max 1 (256 * hi + lo) /\ (length f <= 512)%nat
     | None => True
     end.
Proof.
  intros [Hbs Hb%Forall_inv]%Forall_app. cbn zeta. pose proof (serial_reachable bs Hbs) as Hi.
  set (p := (serial_feed_all meshtastic_parser_init bs).1) in *. split.
  - intros Hs. unfold serial_inv in Hi. rewrite Hs in Hi. destruct Hi as (hi & lo & _ & He & Hm & Hidx & Hlt). lia.
  - pose proof (serial_feed_inv p bs b Hi Hb) as Hf. destruct (meshtastic_parser_feed p b) as [p' [f|]]; [|done].
    cbn [snd]. apply Hf.
Qed.

Lemma serial_parser_sound_witness :
  let p := (serial_feed_all meshtastic_parser_init [9; 0x94; 0xC3; 0; 2; 5]).1 in
  (meshtastic_parser_feed p 6).2 = Some [5; 6]
  /\ exists hi lo, ([0x94; 0xC3; hi; lo] ++ [5; 6]) `suffix_of` [9; 0x94; 0xC3; 0; 2; 5; 6]
         /\ Z.of_nat 2 = Z.max 1 (256 * hi + lo) /\ (2 <= 512)%nat.
Proof.
  split; [reflexivity|].
  apply (serial_parser_sound [9; 0x94; 0xC3; 0; 2; 5] 6). apply (bool_decide_unpack _). vm_compute. exact I.
Defined.

(** Frames the parser loses. A frame without payload, which [build_serial_frame] makes, is
    only completed by the next byte, so the frame that follows is lost and its first byte
    delivered in its place; and a frame whose first sync byte comes twice is lost. (The
    frames hold no further 0x94.) *)
Theorem serial_frames_lost (payload frame : list Z) :
  meshtastic_handler_build_serial_frame payload = Some frame -> Forall (fun b => b <> 0x94) (drop 1 frame) ->
  (exists empty, meshtastic_handler_build_serial_frame [] = Some empty
     /\ (serial_feed_all meshtastic_parser_init (empty ++ frame)).2 = [[0x94]])
  /\ (serial_feed_all meshtastic_parser_init (0x94 :: frame)).2 = [].
Proof.
  rewrite build_serial_frame_eq. destruct (length payload <=? 508)%nat; [|done]. intros [= <-] Hn.
  unfold serial_header in *. cbn [app drop] in *. set (rest := 0xC3 :: _) in *. split.
  - eexists. split; [reflexivity|]. cbn [app].
    assert (serial_feed_all meshtastic_parser_init [0x94; 0xC3; 0; 0; 0x94] = (mkParser 0 [] 0 1, [[0x94]])) as E by reflexivity.
    exact (f_equal snd (serial_feed_comp _ _ _ _ _ _ _ E (serial_feed_noise (mkParser 0 [] 0 1) rest eq_refl Hn))).
  - assert (serial_feed_all meshtastic_parser_init [0x94; 0x94] = (mkParser 0 [] 0 0, [])) as E by reflexivity.
    exact (f_equal snd (serial_feed_comp _ _ _ _ _ _ _ E (serial_feed_noise (mkParser 0 [] 0 0) rest eq_refl Hn))).
Qed.

Lemma serial_frames_lost_witness :
  (serial_feed_all meshtastic_parser_init [0x94; 0x94; 0xC3; 0; 2; 10; 11]).2 = [].
Proof.
  apply (serial_frames_lost [10; 11] [0x94; 0xC3; 0; 2; 10; 11]); [reflexivity|].
  apply (bool_decide_unpack _). vm_compute. exact I.
Defined.

(** Building and reading one frame at once: payloads of up to 508 bytes are framed, with four
    bytes more, longer ones refused; the reader gives the payload back, whatever follows the
    frame, an empty one too. *)
Theorem serial_frame_at_once (payload rest : list Z) :
  (meshtastic_handler_build_serial_frame payload = None <-> (508 < length payload)%nat)
  /\ forall frame, meshtastic_handler_build_serial_frame payload = Some frame ->
       length frame = (4 + length payload)%nat
       /\ meshtastic_handler_parse_serial_frame (frame ++ rest) = Some payload.
Proof.
  rewrite build_serial_frame_eq. destruct (Nat.leb_spec (length payload) 508); [|split; [done|done]].
  split; [split; [done|lia]|]. intros frame [= <-]. split; [cbn; lia|].
  unfold meshtastic_handler_parse_serial_frame.
  set (d0 := _ ++ rest). change d0 with (serial_header (length payload) ++ payload ++ rest). clear d0.
  set (data := serial_header (length payload) ++ payload ++ rest).
  assert (length data = 4 + length payload + length rest)%nat as Hl by (subst data; rewrite !length_app; cbn; lia).
  rewrite Hl, (proj2 (Nat.ltb_ge _ _)) by lia. change (data.[0]) with 0x94. change (data.[1]) with 0xC3.
  change (data.[2]) with (Z.of_nat (length payload) / 256). change (data.[3]) with (Z.of_nat (length payload) mod 256).
  change (0x94 =? SERIAL_SYNC.[0]) with true. change (0xC3 =? SERIAL_SYNC.[1]) with true. cbn [negb orb].
  rewrite Z.lor_comm, (lor_shiftl_add 8) by (done || (unfold fits; apply Z.mod_pos_bound; lia)).
  replace (Z.to_nat (Z.of_nat (length payload) mod 256 + 2 ^ 8 * (Z.of_nat (length payload) / 256))) with (length payload)
    by (change (2 ^ 8) with 256; div_lia).
  rewrite (proj2 (Nat.ltb_ge _ _)) by lia.
  rewrite (slice_cut (serial_header (length payload)) payload rest) by done.
  unfold vec_u8_max_message_size_extend, MAX_MESSAGE_SIZE. by rewrite vec_extend_Some by (cbn [length]; lia).
Qed.

(** The ring buffer is a queue of at most sixteen messages: a push appends, or is refused when
    there are sixteen; a pop takes the oldest; clearing empties it, whatever it held. *)
Theorem deque_refines_queue (d : Deque_Vec_u8_MAX_MESSAGE_SIZE) (x : list Z) (q := deque_contents d) :
  deque_wf d ->
  (let '(d', ok) := deque_push_back d x in
   deque_wf d' /\ deque_contents d' = (if ok then q ++ [x] else q) /\ (ok = true <-> (length q < 16)%nat))
  /\ (let '(d', out) := deque_pop_front d in deque_wf d' /\ out = List.hd_error q /\ deque_contents d' = List.tl q)
  /\ deque_wf (deque_clear d) /\ deque_contents (deque_clear d) = []
  /\ deque_len d = length q /\ deque_is_empty d = bool_decide (q = []).
Proof.
  intros Hw. assert (length q = count d) as Hl by apply length_contents. split; [|split; [|split; [|split; [|split]]]].
  - destruct (decide (count d < 16)%nat) as [Hn|Hn].
    + destruct (push_contents d x Hw Hn) as [Hw' Hc]. unfold deque_push_back, DEQUE_SIZE in *.
      rewrite (proj2 (Nat.leb_gt _ _)) in * by lia. cbn [fst] in *. split; [done|]. split; [done|]. split; [lia|done].
    + unfold deque_push_back, DEQUE_SIZE. rewrite (proj2 (Nat.leb_le _ _)) by lia. split_and!; [done|done|split; [done|lia]].
  - destruct q as [|y l] eqn:Eq.
    + unfold deque_pop_front. cbn [length] in Hl. rewrite <- Hl. done.
    + destruct (pop_contents d y l Hw Eq) as (Hw' & Hc & Ho). by destruct (deque_pop_front d).
  - apply deque_clear_wf, Hw.
  - done.
  - by rewrite Hl.
  - unfold deque_is_empty. rewrite <- Hl. destruct q; [done|]. cbn [length Nat.eqb]. symmetry. by apply bool_decide_eq_false_2.
Qed.

Lemma deque_refines_queue_witness :
  let d := mkDeque (replicate 16 [1]) 15 1 2 in
  let '(d', ok) := deque_push_back d [7] in
  deque_wf d' /\ deque_contents d' = (if ok then [[1]; [1]] ++ [[7]] else [[1]; [1]]) /\ (ok = true <-> (2 < 16)%nat).
Proof. apply (deque_refines_queue (mkDeque (replicate 16 [1]) 15 1 2) [7]). split; cbn; (done || lia). Defined.
