(* ===== verification/MeshHandler.v ===== *)
(** * The Meshtastic handler: lunarcore/lunar/meshtastic/mod.h, mod.c

    What a node does with a phone and a radio: it numbers, encodes, encrypts and builds
    packets, parses and decrypts received ones, reads the phone's ToRadio messages and answers
    a configuration request with a queue of FromRadio messages. The functions mod.c declares
    but has only as commented stubs (channels, packets, protobuf messages) are the class
    [MeshModules]; what they do for the handler is [MeshModulesLaws], which [MeshNode] shows of
    channel.c, packet.c and protobuf.c. Functions of the handler
    take it and give it back. A message whose writes do not all fit is [None]. Allocation
    succeeds. *)
From S2P Require Import Prelude Wire PbMessage MeshSerial.

(** ** Constants and enumerations (as their values) *)

Definition LORA_HEADER_SIZE : nat := 16.
Definition MIC_SIZE : nat := 4.
Definition DEFAULT_HOP_LIMIT : Z := 3.
Definition WIRE_VARINT : Z := 0.
Definition WIRE_LEN : Z := 2.
Definition NUM_SECONDARY : nat := 7.

Definition PORT_NUM_UNKNOWN : Z := 0.
Definition PORT_NUM_TEXT_MESSAGE : Z := 1.
Definition PORT_NUM_POSITION : Z := 3.
Definition PORT_NUM_NODE_INFO : Z := 4.
Definition PRIORITY_DEFAULT : Z := 64.

Definition port_num_from_u32 (v : Z) : Z :=
  match v with
  | 1 | 2 | 3 | 4 | 5 | 6 | 7 | 8 | 32 | 33 | 64 | 65 | 66 | 67 | 70 | 71 => v
  | _ => PORT_NUM_UNKNOWN
  end.

Definition priority_from_u8 (v : Z) : Z :=
  match v with
  | 1 | 10 | 70 | 120 | 127 => v
  | _ => PRIORITY_DEFAULT
  end.

(** ** Packets *)

Definition data_payload_init : DataPayload := mkData PORT_NUM_UNKNOWN [] false 0 0 0 0 0.

Inductive PacketPayload :=
  | PACKET_PAYLOAD_ENCRYPTED (encrypted : list Z)
  | PACKET_PAYLOAD_DECODED (decoded : DataPayload).

(** [rx_snr] is the bit pattern of a float: it is only copied. *)
Record MeshPacket := mkPacket {
  p_from : Z;
  p_to : Z;
  p_channel : Z;
  p_id : Z;
  p_hop_limit : Z;
  p_want_ack : bool;
  p_priority : Z;
  p_rx_time : Z;
  p_rx_snr : Z;
  p_rx_rssi : Z;
  p_payload : PacketPayload
}.

Definition packet_payload_init_encrypted : PacketPayload := PACKET_PAYLOAD_ENCRYPTED [].
Definition packet_payload_init_decoded (data : DataPayload) : PacketPayload := PACKET_PAYLOAD_DECODED data.
Definition mesh_packet_init : MeshPacket :=
  mkPacket 0 0xFFFFFFFF 0 0 DEFAULT_HOP_LIMIT false PRIORITY_DEFAULT 0 0 0 packet_payload_init_encrypted.

Definition received (p : MeshPacket) (rssi snr : Z) : MeshPacket :=
  mkPacket (p_from p) (p_to p) (p_channel p) (p_id p) (p_hop_limit p) (p_want_ack p) (p_priority p) (p_rx_time p)
    snr rssi (p_payload p).
Definition with_payload (p : MeshPacket) (pl : PacketPayload) : MeshPacket :=
  mkPacket (p_from p) (p_to p) (p_channel p) (p_id p) (p_hop_limit p) (p_want_ack p) (p_priority p) (p_rx_time p)
    (p_rx_snr p) (p_rx_rssi p) pl.

Definition vec_u8_max_lora_payload_extend (vec data : list Z) : option (list Z) := vec_extend MAX_LORA_PAYLOAD vec data.

(** ** The other modules *)

(** [channel_name] is the memory from the [name] field of a channel on: the field, and what
    follows it. *)
Class MeshModules := {
  Channel : Type;
  channel_init : Channel;
  channel_set_key : Channel -> list Z -> Channel;
  channel_name : Channel -> list Z;
  channel_encrypt : Channel -> Z -> Z -> list Z -> option (list Z);
  channel_decrypt : Channel -> Z -> Z -> list Z -> option (list Z);
  protobuf_encode_data : DataPayload -> option (list Z);
  protobuf_decode_data : list Z -> option DataPayload;
  protobuf_encode_position : Position -> option (list Z);
  protobuf_encode_user : User -> option (list Z);
  build_lora_packet : Z -> Z -> Z -> Z -> Z -> bool -> list Z -> option (list Z);
  parse_lora_packet : list Z -> option MeshPacket
}.

(** What the modules do for the handler: the codec undoes itself on messages that fit its
    buffer, a channel in order decrypts what it encrypted, and the parser gives back a packet
    that was built, its payload without the first [lost] bytes. ([packet.c] loses one, since
    it writes a header of 16 bytes and reads one of 17: see [MeshNode].) *)
Class MeshModulesLaws `{MeshModules} (channel_ok : Channel -> Prop) (lost : nat) : Prop := {
  law_data d bytes :
    data_ok d -> (length (data_bytes d) <= MAX_LORA_PAYLOAD)%nat ->
    protobuf_encode_data d = Some bytes -> protobuf_decode_data bytes = Some d;
  law_channel ch i from plaintext ciphertext :
    channel_ok ch -> channel_encrypt ch i from plaintext = Some ciphertext ->
    channel_decrypt ch i from ciphertext = Some plaintext;
  law_packet from to i channel hop_limit want_ack payload out :
    fits 32 from -> fits 32 to -> fits 32 i -> 0 <= channel < 8 -> 0 <= hop_limit < 8 ->
    build_lora_packet from to i channel hop_limit want_ack payload = Some out ->
    (LORA_HEADER_SIZE + MIC_SIZE <= length out)%nat
    /\ parse_lora_packet out
       = (if (length payload <=? lost)%nat then None
          else Some (mkPacket from to channel i hop_limit want_ack PRIORITY_DEFAULT 0 0 0
                       (PACKET_PAYLOAD_ENCRYPTED (drop lost payload))))
}.

(** The bytes before the first NUL. *)
Fixpoint c_string (memory : list Z) : list Z :=
  match memory with
  | [] => []
  | b :: memory => if b =? 0 then [] else b :: c_string memory
  end.

(** ** FromRadio messages *)

Definition write_tag (field_num wire_type : Z) (buf : Vec_u8) : Vec_u8 * bool :=
  let tag := u64 (field_num .<< 3) .| wire_type in encode_varint tag buf.

(** Copies for other buffer sizes; the size is the capacity of [buf]. *)
Definition encode_varint_to_vec_48 (value : Z) (buf : Vec_u8) : Vec_u8 * bool := encode_varint value buf.
Definition encode_varint_to_vec_64 (value : Z) (buf : Vec_u8) : Vec_u8 * bool := encode_varint value buf.
Definition encode_varint_to_vec_128 (value : Z) (buf : Vec_u8) : Vec_u8 * bool := encode_varint value buf.
Definition write_tag_to_vec_48 (field_num wire_type : Z) (buf : Vec_u8) : Vec_u8 * bool :=
  let tag := u64 (field_num .<< 3) .| wire_type in encode_varint_to_vec_48 tag buf.
Definition write_tag_to_vec_64 (field_num wire_type : Z) (buf : Vec_u8) : Vec_u8 * bool :=
  let tag := u64 (field_num .<< 3) .| wire_type in encode_varint_to_vec_64 tag buf.
Definition write_tag_to_vec_128 (field_num wire_type : Z) (buf : Vec_u8) : Vec_u8 * bool :=
  let tag := u64 (field_num .<< 3) .| wire_type in encode_varint_to_vec_128 tag buf.

(** [if (!w) return false;] in sequence. *)
Fixpoint writes (ws : list (Vec_u8 -> Vec_u8 * bool)) (vec : Vec_u8) : Vec_u8 * bool :=
  match ws with
  | [] => (vec, true)
  | w :: ws => and_then (w vec) (writes ws)
  end.

Definition message (capacity : nat) (ws : list (Vec_u8 -> Vec_u8 * bool)) : option (list Z) :=
  match writes ws (vec_u8_init capacity) with
  | (vec, true) => Some (vdata vec)
  | (_, false) => None
  end.

(** [snprintf(out, out_len, "!%08x", node_id)]. *)
Definition hex_digit (x : Z) : Z := HEX_CHARS.[Z.to_nat (x .& 0x0F)].
Definition format_node_id (node_id : Z) : list Z :=
  33 :: ((fun k => hex_digit (node_id .>> (4 * k))) <$> [7; 6; 5; 4; 3; 2; 1; 0]).

(** "LunarNode", "LNOD". *)
Definition DEFAULT_LONG_NAME : list Z := [76; 117; 110; 97; 114; 78; 111; 100; 101].
Definition DEFAULT_SHORT_NAME : list Z := [76; 78; 79; 68].

(** ** The handler *)

Section handler.
Context `{MeshModules}.

Record MeshtasticHandler := mkHandler {
  h_node_id : Z;
  h_primary_channel : Channel;
  h_secondary_channels : list (option Channel);   (* seven *)
  h_last_packet_id : Z;
  h_rx_count : Z;
  h_tx_count : Z;
  h_position : option Position;
  h_user : option User;
  h_parser : MeshtasticParser;
  h_pending_responses : Deque_Vec_u8_MAX_MESSAGE_SIZE;
  h_config_request_id : Z;
  h_config_channel_index : Z
}.

Definition with_primary (h : MeshtasticHandler) (ch : Channel) : MeshtasticHandler :=
  mkHandler (h_node_id h) ch (h_secondary_channels h) (h_last_packet_id h) (h_rx_count h) (h_tx_count h) (h_position h)
    (h_user h) (h_parser h) (h_pending_responses h) (h_config_request_id h) (h_config_channel_index h).
Definition with_last_id (h : MeshtasticHandler) (i : Z) : MeshtasticHandler :=
  mkHandler (h_node_id h) (h_primary_channel h) (h_secondary_channels h) i (h_rx_count h) (h_tx_count h) (h_position h)
    (h_user h) (h_parser h) (h_pending_responses h) (h_config_request_id h) (h_config_channel_index h).
Definition with_counts (h : MeshtasticHandler) (rx tx : Z) : MeshtasticHandler :=
  mkHandler (h_node_id h) (h_primary_channel h) (h_secondary_channels h) (h_last_packet_id h) rx tx (h_position h)
    (h_user h) (h_parser h) (h_pending_responses h) (h_config_request_id h) (h_config_channel_index h).
Definition with_parser (h : MeshtasticHandler) (p : MeshtasticParser) : MeshtasticHandler :=
  mkHandler (h_node_id h) (h_primary_channel h) (h_secondary_channels h) (h_last_packet_id h) (h_rx_count h) (h_tx_count h)
    (h_position h) (h_user h) p (h_pending_responses h) (h_config_request_id h) (h_config_channel_index h).
Definition with_responses (h : MeshtasticHandler) (q : Deque_Vec_u8_MAX_MESSAGE_SIZE) (request index : Z) : MeshtasticHandler :=
  mkHandler (h_node_id h) (h_primary_channel h) (h_secondary_channels h) (h_last_packet_id h) (h_rx_count h) (h_tx_count h)
    (h_position h) (h_user h) (h_parser h) q request index.

(** [items]: what the new queue's memory holds. *)
Definition meshtastic_handler_new (items : list (list Z)) (node_id : Z) : MeshtasticHandler :=
  mkHandler node_id channel_init (replicate NUM_SECONDARY None) 0 0 0 None None meshtastic_parser_init
    (deque_init (mkDeque items 0 0 0)) 0 0.

Definition meshtastic_handler_set_channel_key (h : MeshtasticHandler) (psk : list Z) : MeshtasticHandler :=
  with_primary h (channel_set_key (h_primary_channel h) psk).

Definition meshtastic_handler_next_packet_id (h : MeshtasticHandler) : MeshtasticHandler * Z :=
  let i := u32 (h_last_packet_id h + 1) in
  let i := if i =? 0 then 1 else i in
  (with_last_id h i, i).

(** *** Radio packets *)

Definition meshtastic_handler_decrypt_packet (h : MeshtasticHandler) (packet : MeshPacket) : option MeshPacket :=
  match p_payload packet with
  | PACKET_PAYLOAD_ENCRYPTED encrypted =>
      channel ← (if p_channel packet =? 0 then Some (h_primary_channel h)
                 else
                   let idx := Z.to_nat (p_channel packet - 1) in
                   if (NUM_SECONDARY <=? idx)%nat then None else mjoin (h_secondary_channels h !! idx));
      decrypted ← channel_decrypt channel (p_id packet) (p_from packet) encrypted;
      match protobuf_decode_data decrypted with
      | Some data => Some (with_payload packet (packet_payload_init_decoded data))
      | None => Some packet
      end
  | PACKET_PAYLOAD_DECODED _ => Some packet
  end.

Definition meshtastic_handler_process_lora_packet (h : MeshtasticHandler) (data : list Z) (rssi snr : Z)
    : MeshtasticHandler * option MeshPacket :=
  if (length data <? LORA_HEADER_SIZE + MIC_SIZE)%nat then (h, None)
  else
    match parse_lora_packet data with
    | None => (h, None)
    | Some packet =>
        match meshtastic_handler_decrypt_packet h (received packet rssi snr) with
        | Some decrypted => (with_counts h (u32 (h_rx_count h + 1)) (h_tx_count h), Some decrypted)
        | None => (h, None)
        end
    end.

Definition meshtastic_handler_create_packet (h : MeshtasticHandler) (to port : Z) (payload : list Z) (want_ack : bool)
    : MeshtasticHandler * option (list Z) :=
  let '(h, packet_id) := meshtastic_handler_next_packet_id h in
  let built :=
    payload ← vec_u8_max_lora_payload_extend [] payload;
    let data := mkData port payload want_ack to (h_node_id h) 0 0 0 in
    encoded ← protobuf_encode_data data;
    encrypted ← channel_encrypt (h_primary_channel h) packet_id (h_node_id h) encoded;
    build_lora_packet (h_node_id h) to packet_id 0 DEFAULT_HOP_LIMIT want_ack encrypted in
  match built with
  | Some out => (with_counts h (h_rx_count h) (u32 (h_tx_count h + 1)), Some out)
  | None => (h, None)
  end.

(** [text]: the bytes before the NUL. *)
Definition meshtastic_handler_create_text_message (h : MeshtasticHandler) (to : Z) (text : list Z)
    : MeshtasticHandler * option (list Z) :=
  meshtastic_handler_create_packet h to PORT_NUM_TEXT_MESSAGE text true.

Definition meshtastic_handler_create_position_packet (h : MeshtasticHandler) : MeshtasticHandler * option (list Z) :=
  match p ← h_position h; protobuf_encode_position p with
  | Some encoded => meshtastic_handler_create_packet h 0xFFFFFFFF PORT_NUM_POSITION encoded false
  | None => (h, None)
  end.

Definition meshtastic_handler_create_node_info_packet (h : MeshtasticHandler) : MeshtasticHandler * option (list Z) :=
  match u ← h_user h; protobuf_encode_user u with
  | Some encoded => meshtastic_handler_create_packet h 0xFFFFFFFF PORT_NUM_NODE_INFO encoded false
  | None => (h, None)
  end.

(** *** ToRadio packets *)

Record LoraFields := mkFields {
  f_to : Z;
  f_channel : Z;
  f_hop_limit : Z;
  f_want_ack : bool;
  f_inner_payload : list Z;
  f_port : Z;
  f_has_payload : bool
}.

Definition fields_init : LoraFields := mkFields 0xFFFFFFFF 0 DEFAULT_HOP_LIMIT false [] PORT_NUM_UNKNOWN false.

(** One of the parsing loops, [while (idx < len)] over the bytes [data]: [step] is given the
    byte at [idx] and the index after it, and gives the next index and the fields, or nothing
    where the loop breaks. At most one round per byte ([scan_fuel]). *)
Fixpoint scan (step : list Z -> Z -> nat -> LoraFields -> option (nat * LoraFields)) (fuel : nat) (data : list Z)
    (idx : nat) (s : LoraFields) : LoraFields :=
  match fuel with
  | O => s
  | S fuel =>
      if (length data <=? idx)%nat then s
      else
        match step data data.[idx] (S idx) s with
        | Some (idx, s) => scan step fuel data idx s
        | None => s
        end
  end.

(** [decode_varint(data + idx, len - idx)]; [idx += result.consumed]. *)
Definition varint_at (data : list Z) (idx : nat) (set : Z -> LoraFields) : option (nat * LoraFields) :=
  let '(value, consumed) := decode_varint (drop idx data) in Some ((idx + Z.to_nat consumed)%nat, set value).

(** Length-delimited fields that are not read: one byte of length. *)
Definition skip_at (data : list Z) (idx : nat) (s : LoraFields) : option (nat * LoraFields) :=
  if (length data <=? idx)%nat then None else Some ((idx + (1 + Z.to_nat data.[idx]))%nat, s).

Definition set_port (s : LoraFields) (v : Z) : LoraFields :=
  mkFields (f_to s) (f_channel s) (f_hop_limit s) (f_want_ack s) (f_inner_payload s) (port_num_from_u32 (u32 v)) (f_has_payload s).
Definition set_to (s : LoraFields) (v : Z) : LoraFields :=
  mkFields (u32 v) (f_channel s) (f_hop_limit s) (f_want_ack s) (f_inner_payload s) (f_port s) (f_has_payload s).
Definition set_channel (s : LoraFields) (v : Z) : LoraFields :=
  mkFields (f_to s) (u8 v) (f_hop_limit s) (f_want_ack s) (f_inner_payload s) (f_port s) (f_has_payload s).
Definition set_hop_limit (s : LoraFields) (v : Z) : LoraFields :=
  mkFields (f_to s) (f_channel s) (u8 v) (f_want_ack s) (f_inner_payload s) (f_port s) (f_has_payload s).
Definition set_want_ack (s : LoraFields) (v : Z) : LoraFields :=
  mkFields (f_to s) (f_channel s) (f_hop_limit s) (negb (v =? 0)) (f_inner_payload s) (f_port s) (f_has_payload s).
(** A payload that does not fit the vector is dropped, and has been seen. *)
Definition add_payload (s : LoraFields) (d : list Z) : LoraFields :=
  mkFields (f_to s) (f_channel s) (f_hop_limit s) (f_want_ack s)
    (default (f_inner_payload s) (vec_u8_max_lora_payload_extend (f_inner_payload s) d)) (f_port s) true.

(** A round of the inner loop: the fields of a Data message. *)
Definition data_field (data : list Z) (dtag : Z) (idx : nat) (s : LoraFields) : option (nat * LoraFields) :=
  let dfield := dtag .>> 3 in
  let dwire := dtag .& 0x07 in
  if (dfield =? 1) && (dwire =? 0) then varint_at data idx (set_port s)
  else if (dfield =? 2) && (dwire =? 2) then
    if (length data <=? idx)%nat then None
    else
      let plen := Z.to_nat data.[idx] in
      let idx := S idx in
      if (length data <? idx + plen)%nat then None
      else Some ((idx + plen)%nat, add_payload s (slice data idx plen))
  else if dwire =? 0 then varint_at data idx (fun _ => s)
  else if dwire =? 2 then skip_at data idx s
  else None.

(** A round of the outer loop: the fields of a mesh packet. *)
Definition packet_field (data : list Z) (tag : Z) (idx : nat) (s : LoraFields) : option (nat * LoraFields) :=
  let field_num := tag .>> 3 in
  let wire_type := tag .& 0x07 in
  if (field_num =? 2) && (wire_type =? 0) then varint_at data idx (set_to s)
  else if (field_num =? 4) && (wire_type =? 0) then varint_at data idx (set_channel s)
  else if (field_num =? 6) && (wire_type =? 0) then varint_at data idx (set_hop_limit s)
  else if (field_num =? 7) && (wire_type =? 0) then varint_at data idx (set_want_ack s)
  else if (field_num =? 8) && (wire_type =? 2) then
    if (length data <=? idx)%nat then None
    else
      let data_len := Z.to_nat data.[idx] in
      let idx := S idx in
      if (length data <? idx + data_len)%nat then None
      else Some ((idx + data_len)%nat, scan data_field data_len (slice data idx data_len) 0 s)
  else if wire_type =? 0 then varint_at data idx (fun _ => s)
  else if wire_type =? 2 then skip_at data idx s
  else None.

Definition scan_packet (mesh_packet_data : list Z) : LoraFields :=
  scan packet_field (length mesh_packet_data) mesh_packet_data 0 fields_init.

(** The channel and the hop limit are not used. *)
Definition meshtastic_handler_build_lora_packet (h : MeshtasticHandler) (payload : list Z)
    : MeshtasticHandler * option (list Z) :=
  if (length payload =? 0)%nat then (h, None)
  else if (length payload <? 2)%nat then (h, None)
  else if negb (payload.[0] =? 0x0A) then (h, None)
  else
    let mesh_packet_len := Z.to_nat payload.[1] in
    if (length payload <? 2 + mesh_packet_len)%nat then (h, None)
    else
      let s := scan_packet (slice payload 2 mesh_packet_len) in
      if negb (f_has_payload s) then (h, None)
      else meshtastic_handler_create_packet h (f_to s) (f_port s) (f_inner_payload s) (f_want_ack s).

Definition meshtastic_handler_reset_parser (h : MeshtasticHandler) : MeshtasticHandler :=
  with_parser h (meshtastic_parser_reset (h_parser h)).
Definition meshtastic_handler_feed_serial (h : MeshtasticHandler) (byte : Z) : MeshtasticHandler * option (list Z) :=
  let '(p, frame) := meshtastic_parser_feed (h_parser h) byte in (with_parser h p, frame).

(** *** FromRadio messages *)

(** packet_id field, 0 *)
Definition packet_id_field : list (Vec_u8 -> Vec_u8 * bool) := [write_tag 1 WIRE_VARINT; encode_varint 0].

Definition meshtastic_handler_encode_privacy_myinfo (h : MeshtasticHandler) : option (list Z) :=
  my_info ← message 64
    [write_tag_to_vec_64 1 WIRE_VARINT; encode_varint_to_vec_64 (h_node_id h);
     write_tag_to_vec_64 3 WIRE_VARINT; encode_varint_to_vec_64 30000;
     write_tag_to_vec_64 4 WIRE_VARINT; encode_varint_to_vec_64 8;
     write_tag_to_vec_64 6 WIRE_VARINT; encode_varint_to_vec_64 0;
     write_tag_to_vec_64 7 WIRE_VARINT; encode_varint_to_vec_64 1];
  message MAX_MESSAGE_SIZE
    (packet_id_field ++
     [write_tag 4 WIRE_LEN; encode_varint (Z.of_nat (length my_info)); fun vec => vec_u8_extend_from_slice vec my_info]).

Definition encode_user_info (h : MeshtasticHandler) : option (list Z) :=
  let id_str := format_node_id (h_node_id h) in
  let long_name := match h_user h with Some u => long_name u | None => DEFAULT_LONG_NAME end in
  let short_name := match h_user h with Some u => short_name u | None => DEFAULT_SHORT_NAME end in
  message 64
    [write_tag_to_vec_64 1 WIRE_LEN; encode_varint_to_vec_64 (Z.of_nat (length id_str));
     fun vec => vec_u8_extend_from_slice vec id_str;
     write_tag_to_vec_64 2 WIRE_LEN; encode_varint_to_vec_64 (Z.of_nat (length long_name));
     fun vec => vec_u8_extend_from_slice vec long_name;
     write_tag_to_vec_64 3 WIRE_LEN; encode_varint_to_vec_64 (Z.of_nat (length short_name));
     fun vec => vec_u8_extend_from_slice vec short_name;
     write_tag_to_vec_64 5 WIRE_VARINT; encode_varint_to_vec_64 43;
     write_tag_to_vec_64 7 WIRE_VARINT; encode_varint_to_vec_64 4].

Definition meshtastic_handler_encode_privacy_nodeinfo (h : MeshtasticHandler) : option (list Z) :=
  user ← encode_user_info h;
  node_info ← message 128
    [write_tag_to_vec_128 1 WIRE_VARINT; encode_varint_to_vec_128 (h_node_id h);
     write_tag_to_vec_128 2 WIRE_LEN; encode_varint_to_vec_128 (Z.of_nat (length user));
     fun vec => vec_u8_extend_from_slice vec user];
  message MAX_MESSAGE_SIZE
    (packet_id_field ++
     [write_tag 6 WIRE_LEN; encode_varint (Z.of_nat (length node_info)); fun vec => vec_u8_extend_from_slice vec node_info]).

Definition channel_name_str (ch : Channel) : list Z := c_string (channel_name ch).

(** Whatever the index, the name is the primary channel's and the role 1. *)
Definition meshtastic_handler_encode_channel_config (h : MeshtasticHandler) (index : Z) : option (list Z) :=
  let name := channel_name_str (h_primary_channel h) in
  settings ← message 48
    (if (0 <? length name)%nat
     then [write_tag_to_vec_48 2 WIRE_LEN; encode_varint_to_vec_48 (Z.of_nat (length name));
           fun vec => vec_u8_extend_from_slice vec name]
     else []);
  channel ← message 64
    [write_tag_to_vec_64 1 WIRE_VARINT; encode_varint_to_vec_64 index;
     write_tag_to_vec_64 2 WIRE_LEN; encode_varint_to_vec_64 (Z.of_nat (length settings));
     fun vec => vec_u8_extend_from_slice vec settings;
     write_tag_to_vec_64 3 WIRE_VARINT; encode_varint_to_vec_64 1];
  message MAX_MESSAGE_SIZE
    (packet_id_field ++
     [write_tag 8 WIRE_LEN; encode_varint (Z.of_nat (length channel)); fun vec => vec_u8_extend_from_slice vec channel]).

Definition meshtastic_handler_encode_config_complete (config_id : Z) : option (list Z) :=
  message MAX_MESSAGE_SIZE (packet_id_field ++ [write_tag 9 WIRE_VARINT; encode_varint config_id]).

(** [if (encode(...)) deque_push_back(&pending, &message)]: what does not fit is not sent. *)
Definition queue (q : Deque_Vec_u8_MAX_MESSAGE_SIZE) (m : option (list Z)) : Deque_Vec_u8_MAX_MESSAGE_SIZE :=
  match m with Some m => (deque_push_back q m).1 | None => q end.

(** *** Responses *)

Inductive ToRadioResponse :=
  | TO_RADIO_RESPONSE_LORA_PACKET (lora_packet : list Z)
  | TO_RADIO_RESPONSE_FROM_RADIO (from_radio : list Z).

Definition meshtastic_handler_poll_pending_response (h : MeshtasticHandler) : MeshtasticHandler * option ToRadioResponse :=
  let '(q, response) := deque_pop_front (h_pending_responses h) in
  (with_responses h q (h_config_request_id h) (h_config_channel_index h), TO_RADIO_RESPONSE_FROM_RADIO <$> response).

Definition meshtastic_handler_has_pending_responses (h : MeshtasticHandler) : bool :=
  negb (deque_is_empty (h_pending_responses h)).
Definition meshtastic_handler_pending_response_count (h : MeshtasticHandler) : nat := deque_len (h_pending_responses h).

(** The secondary channels from index [i] on. *)
Fixpoint queue_secondary (h : MeshtasticHandler) (q : Deque_Vec_u8_MAX_MESSAGE_SIZE) (i : Z) (slots : list (option Channel))
    : Deque_Vec_u8_MAX_MESSAGE_SIZE :=
  match slots with
  | [] => q
  | slot :: slots =>
      let q := match slot with
               | Some _ => queue q (meshtastic_handler_encode_channel_config h (u8 (i + 1)))
               | None => q
               end in
      queue_secondary h q (i + 1) slots
  end.

Definition meshtastic_handler_build_config_response (h : MeshtasticHandler) (config_id : Z)
    : MeshtasticHandler * option ToRadioResponse :=
  let q := deque_clear (h_pending_responses h) in
  let h := with_responses h q config_id 0 in
  let q := queue q (meshtastic_handler_encode_privacy_myinfo h) in
  let q := queue q (meshtastic_handler_encode_privacy_nodeinfo h) in
  let q := queue q (meshtastic_handler_encode_channel_config h 0) in
  let q := queue_secondary h q 0 (h_secondary_channels h) in
  let q := queue q (meshtastic_handler_encode_config_complete config_id) in
  meshtastic_handler_poll_pending_response (with_responses h q config_id 0).

Definition meshtastic_handler_process_toradio (h : MeshtasticHandler) (payload : list Z)
    : MeshtasticHandler * option ToRadioResponse :=
  if (length payload =? 0)%nat then (h, None)
  else if (length payload <? 2)%nat then (h, None)
  else
    let field_tag := payload.[0] in
    let field_num := field_tag .>> 3 in
    let wire_type := field_tag .& 0x07 in
    if (field_num =? 1) && (wire_type =? 2) then
      let '(h, lora_packet) := meshtastic_handler_build_lora_packet h payload in
      (h, TO_RADIO_RESPONSE_LORA_PACKET <$> lora_packet)
    else if (field_num =? 3) && (wire_type =? 0) then
      let '(value, _) := decode_varint (drop 1 payload) in
      meshtastic_handler_build_config_response h (u32 value)
    else if (field_num =? 4) && (wire_type =? 0) then (meshtastic_handler_reset_parser h, None)
    else (h, None).

Definition meshtastic_handler_handle_admin_message (h : MeshtasticHandler) (payload : list Z) : option (list Z) :=
  if (length payload =? 0)%nat then None
  else
    match payload.[0] .>> 3 with
    | 1 => meshtastic_handler_encode_privacy_myinfo h
    | 7 => meshtastic_handler_encode_privacy_nodeinfo h
    | _ => None
    end.
End handler.

(** ** What the messages are *)

Lemma write_tag_appends f w : field_ok f -> 0 <= w < 8 -> appends (write_tag f w) (tag_bytes f w).
Proof.
  intros Hf Hw. destruct (tag_value f w Hf Hw) as [_ H32]. unfold write_tag.
  assert (u64 (f .<< 3) .| w = 8 * f + w) as ->.
  { unfold field_ok in Hf. rewrite Z.lor_comm, u64_small by (rewrite Z.shiftl_mul_pow2; unfold fits; lia).
    rewrite (lor_shiftl_add 3) by (done || unfold fits; lia). lia. }
  intros vec Hl. rewrite encode_varint_spec by (eapply fits_mono; [done|lia]). by apply put_all_fits.
Qed.

Lemma encode_varint_appends v : fits 64 v -> appends (encode_varint v) (varint v).
Proof. intros Hv vec Hl. rewrite encode_varint_spec by done. by apply put_all_fits. Qed.

Lemma writes_appends ws bss : Forall2 appends ws bss -> appends (writes ws) (concat bss).
Proof.
  induction 1 as [|w bs ws bss Hw _ IH]; [apply appends_nil|]. cbn [writes concat]. by apply appends_and_then.
Qed.

Lemma message_eq cap ws bss :
  Forall2 appends ws bss -> (length (concat bss) <= cap)%nat -> message cap ws = Some (concat bss).
Proof. intros Hw Hl. unfold message. by rewrite (writes_appends _ _ Hw). Qed.

Create HintDb handler.
#[export] Hint Resolve write_tag_appends encode_varint_appends appends_extend Forall2_nil_2 : handler.
#[export] Hint Extern 1 (Forall2 _ (_ :: _) _) => constructor : handler.
#[export] Hint Extern 1 (field_ok _) => done : handler.
#[export] Hint Extern 1 (_ <= _ < _) => lia : handler.
#[export] Hint Extern 1 (fits _ _) => done : handler.

(** FromRadio with one message [body] in field [f], after a packet id of 0. *)
Definition from_radio_bytes (f : Z) (body : list Z) : list Z :=
  [8; 0] ++ tag_bytes f 2 ++ varint (Z.of_nat (length body)) ++ body.

Definition my_info_bytes (node_id : Z) : list Z := [8] ++ varint node_id ++ [24; 0xB0; 0xEA; 0x01; 32; 8; 48; 0; 56; 1].
Definition user_info_bytes (node_id : Z) (long short : list Z) : list Z :=
  [10; 9] ++ format_node_id node_id ++ [18; Z.of_nat (length long)] ++ long
  ++ [26; Z.of_nat (length short)] ++ short ++ [40; 43; 56; 4].
Definition node_info_bytes (node_id : Z) (long short : list Z) : list Z :=
  let user := user_info_bytes node_id long short in
  [8] ++ varint node_id ++ [18; Z.of_nat (length user)] ++ user.
Definition settings_bytes (name : list Z) : list Z :=
  if (0 <? length name)%nat then [18; Z.of_nat (length name)] ++ name else [].
Definition channel_bytes (index : Z) (name : list Z) : list Z :=
  [8; index; 18; Z.of_nat (length (settings_bytes name))] ++ settings_bytes name ++ [24; 1].
Definition complete_bytes (config_id : Z) : list Z := [8; 0; 72] ++ varint config_id.

Lemma length_varint_32 v : fits 32 v -> (length (varint v) <= 5)%nat.
Proof. intros Hv. apply length_varint; [eapply fits_mono; [done|lia]| |lia]. unfold fits in Hv. cbn. lia. Qed.

Lemma from_radio_eq f body :
  field_ok f -> f < 16 -> (length body < 128)%nat ->
  message MAX_MESSAGE_SIZE
    (packet_id_field ++
     [write_tag f WIRE_LEN; encode_varint (Z.of_nat (length body)); fun vec => vec_u8_extend_from_slice vec body])
  = Some (from_radio_bytes f body).
Proof.
  intros Hf Hf' Hl. assert (fits 64 (Z.of_nat (length body))) as H64 by (unfold fits; lia).
  rewrite (message_eq _ _ [[8]; [0]; tag_bytes f 2; varint (Z.of_nat (length body)); body]).
  - cbn [concat app]. unfold from_radio_bytes. by rewrite app_nil_r.
  - unfold packet_id_field, WIRE_VARINT, WIRE_LEN. cbn [app].
    constructor; [by apply (write_tag_appends 1 0)|]. constructor; [by apply (encode_varint_appends 0)|]. auto 10 with handler.
  - cbn [concat app length]. rewrite !length_app. unfold tag_bytes. unfold field_ok in Hf.
    rewrite (varint_small (8 * f + 2)), (varint_small (Z.of_nat _)) by lia. unfold MAX_MESSAGE_SIZE. cbn [length]. lia.
Qed.

#[export] Hint Extern 1 (appends (write_tag_to_vec_48 _ _) _) => apply write_tag_appends : handler.
#[export] Hint Extern 1 (appends (write_tag_to_vec_64 _ _) _) => apply write_tag_appends : handler.
#[export] Hint Extern 1 (appends (write_tag_to_vec_128 _ _) _) => apply write_tag_appends : handler.
#[export] Hint Extern 1 (appends (encode_varint_to_vec_48 _) _) => apply encode_varint_appends : handler.
#[export] Hint Extern 1 (appends (encode_varint_to_vec_64 _) _) => apply encode_varint_appends : handler.
#[export] Hint Extern 1 (appends (encode_varint_to_vec_128 _) _) => apply encode_varint_appends : handler.

Lemma length_format_node_id i : length (format_node_id i) = 9%nat.
Proof. done. Qed.

Section messages.
Context `{MeshModules}.

Lemma myinfo_eq h :
  fits 32 (h_node_id h) ->
  meshtastic_handler_encode_privacy_myinfo h = Some (from_radio_bytes 4 (my_info_bytes (h_node_id h))).
Proof.
  intros Hi. pose proof (length_varint_32 _ Hi) as Hl. assert (fits 64 (h_node_id h)) as H64 by (eapply fits_mono; [done|lia]).
  unfold meshtastic_handler_encode_privacy_myinfo.
  rewrite (message_eq _ _ [tag_bytes 1 0; varint (h_node_id h); tag_bytes 3 0; varint 30000; tag_bytes 4 0; varint 8;
                           tag_bytes 6 0; varint 0; tag_bytes 7 0; varint 1]).
  - replace (concat _) with (my_info_bytes (h_node_id h)) by reflexivity. cbn [mbind option_bind].
    apply from_radio_eq; [done|lia|]. unfold my_info_bytes. rewrite !length_app. cbn [length]. lia.
  - unfold WIRE_VARINT. auto 20 with handler.
  - change (concat _) with (my_info_bytes (h_node_id h)). unfold my_info_bytes. rewrite !length_app. cbn [length]. lia.
Qed.

Definition names (h : MeshtasticHandler) : list Z * list Z :=
  match h_user h with Some u => (long_name u, short_name u) | None => (DEFAULT_LONG_NAME, DEFAULT_SHORT_NAME) end.

Lemma user_info_eq h (n := names h) :
  (length n.1 + length n.2 <= 45)%nat ->
  encode_user_info h = Some (user_info_bytes (h_node_id h) n.1 n.2)
  /\ (length (user_info_bytes (h_node_id h) n.1 n.2) <= 64)%nat.
Proof.
  intros Hn. assert (length (user_info_bytes (h_node_id h) n.1 n.2) <= 64)%nat as Hl.
  { unfold user_info_bytes. rewrite !length_app, length_format_node_id. cbn [length]. lia. }
  split; [|done]. unfold encode_user_info.
  replace (match h_user h with Some u => long_name u | None => DEFAULT_LONG_NAME end) with n.1 by (subst n; unfold names; by destruct (h_user h)).
  replace (match h_user h with Some u => short_name u | None => DEFAULT_SHORT_NAME end) with n.2 by (subst n; unfold names; by destruct (h_user h)).
  assert (fits 64 (Z.of_nat (length n.1))) as H1 by (unfold fits; lia).
  assert (fits 64 (Z.of_nat (length n.2))) as H2 by (unfold fits; lia).
  set (id_str := format_node_id (h_node_id h)). change (length id_str) with 9%nat.
  assert (concat [tag_bytes 1 2; varint 9; id_str; tag_bytes 2 2; varint (Z.of_nat (length n.1)); n.1;
      tag_bytes 3 2; varint (Z.of_nat (length n.2)); n.2; tag_bytes 5 0; varint 43; tag_bytes 7 0; varint 4]
    = user_info_bytes (h_node_id h) n.1 n.2) as E.
  { cbn [concat]. rewrite (varint_small (Z.of_nat (length n.1))), (varint_small (Z.of_nat (length n.2))) by lia. reflexivity. }
  erewrite message_eq; [f_equal; exact E| |by rewrite E].
  unfold WIRE_LEN, WIRE_VARINT. auto 30 with handler.
Qed.

Lemma nodeinfo_eq h (n := names h) :
  fits 32 (h_node_id h) -> (length n.1 + length n.2 <= 45)%nat ->
  meshtastic_handler_encode_privacy_nodeinfo h = Some (from_radio_bytes 6 (node_info_bytes (h_node_id h) n.1 n.2)).
Proof.
  intros Hi Hn. pose proof (length_varint_32 _ Hi) as Hl. assert (fits 64 (h_node_id h)) as H64 by (eapply fits_mono; [done|lia]).
  unfold meshtastic_handler_encode_privacy_nodeinfo. destruct (user_info_eq h Hn) as [-> Hu]. fold n in Hu |- *.
  cbn [mbind option_bind]. unfold node_info_bytes. set (user := user_info_bytes _ _ _) in *.
  assert (fits 64 (Z.of_nat (length user))) as H1 by (unfold fits; lia).
  assert (concat [tag_bytes 1 0; varint (h_node_id h); tag_bytes 2 2; varint (Z.of_nat (length user)); user]
    = [8] ++ varint (h_node_id h) ++ [18; Z.of_nat (length user)] ++ user) as E.
  { cbn [concat]. rewrite (varint_small (Z.of_nat (length user))), app_nil_r by lia. reflexivity. }
  assert (length ([8%Z] ++ varint (h_node_id h) ++ [18%Z; Z.of_nat (length user)] ++ user) <= 72)%nat as Hb
    by (rewrite !length_app; cbn [length]; lia).
  erewrite message_eq; [rewrite E| |rewrite E; lia].
  - cbn [mbind option_bind]. apply from_radio_eq; [done|lia|lia].
  - unfold WIRE_LEN, WIRE_VARINT. auto 20 with handler.
Qed.
Lemma channel_config_eq h index (n := channel_name_str (h_primary_channel h)) :
  0 <= index < 128 -> (length n <= 46)%nat ->
  meshtastic_handler_encode_channel_config h index = Some (from_radio_bytes 8 (channel_bytes index n)).
Proof.
  intros Hi Hn. unfold meshtastic_handler_encode_channel_config. fold n.
  assert (fits 64 (Z.of_nat (length n))) as H1 by (unfold fits; lia).
  assert (message 48 (if (0 <? length n)%nat
     then [write_tag_to_vec_48 2 WIRE_LEN; encode_varint_to_vec_48 (Z.of_nat (length n)); fun vec => vec_u8_extend_from_slice vec n]
     else []) = Some (settings_bytes n)) as ->.
  { unfold settings_bytes. destruct (0 <? length n)%nat; [|done].
    assert (concat [tag_bytes 2 2; varint (Z.of_nat (length n)); n] = [18; Z.of_nat (length n)] ++ n) as E.
    { cbn [concat]. rewrite (varint_small (Z.of_nat (length n))), app_nil_r by lia. reflexivity. }
    erewrite message_eq; [f_equal; exact E| |rewrite E, length_app; cbn [length]; lia]. unfold WIRE_LEN. auto 20 with handler. }
  assert (length (settings_bytes n) <= 48)%nat as Hs
    by (unfold settings_bytes; destruct (0 <? length n)%nat; [rewrite length_app|]; cbn [length]; lia).
  cbn [mbind option_bind]. unfold channel_bytes. set (st := settings_bytes n) in *.
  assert (fits 64 (Z.of_nat (length st))) as H2 by (unfold fits; lia).
  assert (fits 64 index) as H3 by (unfold fits; lia).
  assert (concat [tag_bytes 1 0; varint index; tag_bytes 2 2; varint (Z.of_nat (length st)); st; tag_bytes 3 0; varint 1]
    = [8; index; 18; Z.of_nat (length st)] ++ st ++ [24; 1]) as E.
  { cbn [concat]. rewrite (varint_small (Z.of_nat (length st))), (varint_small index) by lia. reflexivity. }
  assert (length ([8%Z; index; 18%Z; Z.of_nat (length st)] ++ st ++ [24%Z; 1%Z]) <= 54)%nat as Hb
    by (rewrite !length_app; cbn [length]; lia).
  erewrite message_eq; [rewrite E| |rewrite E; lia].
  - cbn [mbind option_bind]. apply from_radio_eq; [done|lia|lia].
  - unfold WIRE_LEN, WIRE_VARINT. auto 20 with handler.
Qed.

Lemma complete_eq config_id :
  fits 32 config_id -> meshtastic_handler_encode_config_complete config_id = Some (complete_bytes config_id).
Proof.
  intros Hi. pose proof (length_varint_32 _ Hi) as Hl. assert (fits 64 config_id) as H64 by (eapply fits_mono; [done|lia]).
  unfold meshtastic_handler_encode_config_complete, packet_id_field, WIRE_VARINT.
  erewrite (message_eq _ _ [tag_bytes 1 0; varint 0; tag_bytes 9 0; varint config_id]).
  - cbn [concat]. rewrite app_nil_r. reflexivity.
  - cbn [app]. auto 20 with handler.
  - cbn [concat app]. rewrite !length_app. unfold MAX_MESSAGE_SIZE. cbn [length]. change (length (tag_bytes 1 0)) with 1%nat.
    change (length (tag_bytes 9 0)) with 1%nat. change (length (varint 0)) with 1%nat. lia.
Qed.

(** ** The queue of a configuration *)

(** The messages a configuration request is answered with. *)
Definition config_messages (h : MeshtasticHandler) (config_id : Z) : list (list Z) :=
  let name := channel_name_str (h_primary_channel h) in
  [from_radio_bytes 4 (my_info_bytes (h_node_id h));
   from_radio_bytes 6 (node_info_bytes (h_node_id h) (names h).1 (names h).2);
   from_radio_bytes 8 (channel_bytes 0 name)]
  ++ (concat (imap (fun i slot => match slot with
                                  | Some _ => [from_radio_bytes 8 (channel_bytes (Z.of_nat (S i)) name)]
                                  | None => []
                                  end) (h_secondary_channels h)))
  ++ [complete_bytes config_id].

Lemma queue_contents q m l :
  deque_wf q -> deque_contents q = l -> (length l < 16)%nat ->
  deque_wf (queue q (Some m)) /\ deque_contents (queue q (Some m)) = l ++ [m].
Proof. intros Hw <- Hl. rewrite length_contents in Hl. by apply push_contents. Qed.

Lemma queue_secondary_contents h q i slots l (n := channel_name_str (h_primary_channel h)) :
  deque_wf q -> deque_contents q = l -> (length l + length slots <= 16)%nat -> (i + length slots < 127)%nat ->
  (length n <= 46)%nat ->
  let q' := queue_secondary h q (Z.of_nat i) slots in
  deque_wf q'
  /\ deque_contents q'
     = l ++ concat (imap (fun j slot => match slot with
                                        | Some _ => [from_radio_bytes 8 (channel_bytes (Z.of_nat (S (i + j))) n)]
                                        | None => []
                                        end) slots).
Proof.
  intros Hw Hc Hl Hi Hn. cbn zeta. revert q i l Hw Hc Hl Hi. induction slots as [|slot slots IH]; intros q i l Hw Hc Hl Hi.
  { cbn. by rewrite app_nil_r. }
  cbn [queue_secondary length] in *. replace (Z.of_nat i + 1) with (Z.of_nat (S i)) by lia.
  rewrite imap_cons. cbn [concat]. rewrite Nat.add_0_r.
  rewrite (imap_ext (((fun j slot0 => _) ∘ S)) (fun j slot => match slot with
      | Some _ => [from_radio_bytes 8 (channel_bytes (Z.of_nat (S (S i + j))) n)] | None => [] end))
    by (intros j x _; cbn; by rewrite Nat.add_succ_r).
  destruct slot as [ch|].
  - rewrite u8_small by (unfold fits; lia). rewrite channel_config_eq by (done || lia). fold n.
    destruct (queue_contents q (from_radio_bytes 8 (channel_bytes (Z.of_nat (S i)) n)) l) as [Hw' Hc']; [done|done|lia|].
    rewrite app_assoc. apply IH; [done|done|rewrite length_app; cbn [length]; lia|lia].
  - apply IH; [done|done|lia|lia].
Qed.
End messages.

Section handler_properties.
Context `{MeshModules}.

(** ** The handler's invariant *)

Record handler_wf (h : MeshtasticHandler) : Prop := {
  hw_node : fits 32 (h_node_id h);
  hw_slots : length (h_secondary_channels h) = 7%nat;
  hw_last : fits 32 (h_last_packet_id h);
  hw_rx : fits 32 (h_rx_count h);
  hw_tx : fits 32 (h_tx_count h);
  hw_long : (length (names h).1 <= 40)%nat;
  hw_short : (length (names h).2 <= 5)%nat;
  hw_buffer : (length (buffer (h_parser h)) <= 512)%nat;
  hw_queue : deque_wf (h_pending_responses h);
  hw_pending : (count (h_pending_responses h) <= 10)%nat
}.

(** Polling until there is nothing left, at most [fuel] times. *)
Fixpoint polls (fuel : nat) (h : MeshtasticHandler) : list (option ToRadioResponse) :=
  match fuel with
  | O => []
  | S fuel => let '(h, r) := meshtastic_handler_poll_pending_response h in r :: polls fuel h
  end.

Lemma poll_contents h x l :
  deque_wf (h_pending_responses h) -> deque_contents (h_pending_responses h) = x :: l ->
  let '(h', r) := meshtastic_handler_poll_pending_response h in
  deque_wf (h_pending_responses h') /\ deque_contents (h_pending_responses h') = l
  /\ r = Some (TO_RADIO_RESPONSE_FROM_RADIO x).
Proof.
  intros Hw Hc. unfold meshtastic_handler_poll_pending_response.
  destruct (pop_contents _ _ _ Hw Hc) as (Hw' & Hc' & Ho). destruct (deque_pop_front _) as [q r]. cbn [fst snd] in *. by subst r.
Qed.

Lemma polls_contents n h l :
  deque_wf (h_pending_responses h) -> deque_contents (h_pending_responses h) = l ->
  polls (length l + n) h = (Some ∘ TO_RADIO_RESPONSE_FROM_RADIO <$> l) ++ replicate n None.
Proof.
  revert h. induction l as [|x l IH]; intros h Hw Hc.
  - cbn [length Nat.add fmap list_fmap app]. pose proof (length_contents (h_pending_responses h)) as Hl. rewrite Hc in Hl.
    clear Hc. revert h Hw Hl. induction n as [|n IHn]; intros h Hw Hl; [done|]. cbn [polls replicate].
    unfold meshtastic_handler_poll_pending_response, deque_pop_front. rewrite <- Hl. cbn [length Nat.eqb fmap option_fmap option_map].
    f_equal. by apply IHn.
  - cbn [length Nat.add polls]. pose proof (poll_contents h x l Hw Hc) as Hp.
    destruct (meshtastic_handler_poll_pending_response h) as [h' r]. destruct Hp as (Hw' & Hc' & ->).
    cbn [fmap list_fmap app]. rewrite IH by done. reflexivity.
Qed.

Lemma length_concat_imap {A B} (f : nat -> A -> list B) l :
  (forall i x, length (f i x) <= 1)%nat -> (length (concat (imap f l)) <= length l)%nat.
Proof.
  intros Hf. revert f Hf. induction l as [|x l IH]; intros f Hf; [done|]. rewrite imap_cons. cbn [concat length].
  rewrite length_app. pose proof (Hf 0%nat x). enough (length (concat (imap (f ∘ S) l)) <= length l)%nat by lia.
  apply IH. intros i y. apply Hf.
Qed.

Lemma length_config_messages h config_id :
  length (h_secondary_channels h) = 7%nat -> (4 <= length (config_messages h config_id) <= 11)%nat.
Proof.
  intros Hl. unfold config_messages. cbn zeta. rewrite !length_app. cbn [length].
  match goal with |- context [imap ?f ?l] => pose proof (length_concat_imap f l) as Hc end.
  specialize (Hc ltac:(intros i [x|]; cbn; lia)). lia.
Qed.

Definition config_requested (h : MeshtasticHandler) (q : Deque_Vec_u8_MAX_MESSAGE_SIZE) (config_id : Z) : MeshtasticHandler :=
  with_responses h q config_id 0.

Lemma config_response_contents h config_id :
  handler_wf h -> fits 32 config_id -> (length (channel_name_str (h_primary_channel h)) <= 46)%nat ->
  exists q, deque_wf q /\ deque_contents q = config_messages h config_id
    /\ meshtastic_handler_build_config_response h config_id
       = meshtastic_handler_poll_pending_response (config_requested h q config_id).
Proof.
  intros Hw Hi Hn. unfold meshtastic_handler_build_config_response.
  set (q0 := deque_clear (h_pending_responses h)). set (h1 := with_responses h q0 config_id 0).
  assert (deque_wf q0) as Hw0 by apply deque_clear_wf, (dw_items _ (hw_queue _ Hw)).
  rewrite (myinfo_eq h1) by apply Hw.
  destruct (queue_contents q0 (from_radio_bytes 4 (my_info_bytes (h_node_id h1))) []) as [Hw1 Hc1]; [done|done|cbn; lia|].
  rewrite (nodeinfo_eq h1) by (first [apply Hw | pose proof (hw_long _ Hw); pose proof (hw_short _ Hw); cbn; unfold names in *; cbn; lia]).
  edestruct (queue_contents _ (from_radio_bytes 6 (node_info_bytes (h_node_id h1) (names h1).1 (names h1).2)) _ Hw1 Hc1) as [Hw2 Hc2];
    [cbn; lia|].
  rewrite (channel_config_eq h1) by (done || lia).
  edestruct (queue_contents _ (from_radio_bytes 8 (channel_bytes 0 (channel_name_str (h_primary_channel h1)))) _ Hw2 Hc2) as [Hw3 Hc3];
    [cbn; lia|].
  match type of Hw3 with deque_wf ?q =>
    destruct (queue_secondary_contents h1 q 0 (h_secondary_channels h) _ Hw3 Hc3) as [Hw4 Hc4] end;
    [rewrite (hw_slots _ Hw); cbn; lia|rewrite (hw_slots _ Hw); lia|done|].
  rewrite (complete_eq config_id) by done.
  pose proof (length_config_messages h config_id (hw_slots _ Hw)) as Hlen.
  edestruct (queue_contents _ (complete_bytes config_id) _ Hw4 Hc4) as [Hw5 Hc5].
  { unfold config_messages in Hlen. cbn zeta in Hlen. rewrite !length_app in *. cbn [length] in *. cbn in Hlen |- *. lia. }
  eexists. split; [exact Hw5|]. split; [|reflexivity]. rewrite Hc5. reflexivity.
Qed.
(** ** Reading varints *)

Lemma decode_varint_varint v rest :
  fits 64 v -> decode_varint (varint v ++ rest) = (v, Z.of_nat (length (varint v))).
Proof.
  intros Hv. pose proof (decode_varint_slice 9 (varint v ++ rest) 0 0 ltac:(lia)) as Hd. change (7 * Z.of_nat (9 - 9)) with 0 in Hd.
  rewrite read_varint_slice_varint in Hd by done. unfold decode_varint. rewrite Hd, length_app. f_equal. lia.
Qed.

(** ** Packet identifiers *)

Fixpoint packet_ids (n : nat) (h : MeshtasticHandler) : list Z :=
  match n with
  | O => []
  | S n => let '(h, i) := meshtastic_handler_next_packet_id h in i :: packet_ids n h
  end.

Lemma shifted_mod_inj x i j m : 0 <= i < m -> 0 <= j < m -> (x + i) mod m = (x + j) mod m -> i = j.
Proof.
  intros Hi Hj E. pose proof (Z.div_mod (x + i) m ltac:(lia)). pose proof (Z.div_mod (x + j) m ltac:(lia)).
  assert ((x + i) / m = (x + j) / m) by nia. lia.
Qed.

Lemma next_packet_id_eq h :
  fits 32 (h_last_packet_id h) ->
  meshtastic_handler_next_packet_id h
  = let i := h_last_packet_id h mod 0xFFFFFFFF + 1 in (with_last_id h i, i).
Proof.
  intros Hf. unfold meshtastic_handler_next_packet_id, u32, fits in *. change (2 ^ 32) with 0x100000000 in Hf.
  assert ((if (h_last_packet_id h + 1) mod 0x100000000 =? 0 then 1 else (h_last_packet_id h + 1) mod 0x100000000)
    = h_last_packet_id h mod 0xFFFFFFFF + 1) as ->; [|done].
  destruct (decide (h_last_packet_id h = 0xFFFFFFFF)) as [->|Hne]; [done|].
  rewrite (Z.mod_small _ 0x100000000), (Z.mod_small _ 0xFFFFFFFF) by lia. destruct (Z.eqb_spec (h_last_packet_id h + 1) 0); lia.
Qed.

Lemma packet_ids_eq n h :
  fits 32 (h_last_packet_id h) ->
  packet_ids n h = (fun k => (h_last_packet_id h + Z.of_nat k) mod 0xFFFFFFFF + 1) <$> seq 0 n.
Proof.
  revert h. induction n as [|n IH]; intros h Hf; [done|]. cbn [packet_ids]. rewrite next_packet_id_eq by done. cbn beta iota zeta.
  rewrite IH by (cbn; unfold fits; pose proof (Z.mod_pos_bound (h_last_packet_id h) 0xFFFFFFFF); lia).
  cbn [seq]. rewrite fmap_cons, <- fmap_S_seq, <- list_fmap_compose. f_equal; [f_equal; f_equal; lia|].
  apply list_fmap_ext. intros _ k _. cbn [h_last_packet_id with_last_id compose]. f_equal.
  replace (h_last_packet_id h mod 4294967295 + 1 + Z.of_nat k) with (h_last_packet_id h mod 4294967295 + (1 + Z.of_nat k)) by lia.
  rewrite Zplus_mod_idemp_l. f_equal. lia.
Qed.
(** ** What a client sends *)

(** The fields of a Data message and of a mesh packet, in any order and number: those the
    handler reads, and other varints and byte fields. *)
Inductive data_item :=
  | DPort (v : Z) | DPayload (d : list Z) | DVarint (f v : Z) | DBytes (f : Z) (d : list Z).
Inductive packet_item :=
  | PTo (v : Z) | PChannel (v : Z) | PHopLimit (v : Z) | PWantAck (v : Z) | PData (items : list data_item)
  | PVarint (f v : Z) | PBytes (f : Z) (d : list Z).

Definition varint_item (f v : Z) : list Z := (8 * f) :: varint v.
Definition bytes_item (f : Z) (d : list Z) : list Z := (8 * f + 2) :: Z.of_nat (length d) :: d.

Definition data_item_bytes (i : data_item) : list Z :=
  match i with
  | DPort v => varint_item 1 v
  | DPayload d => bytes_item 2 d
  | DVarint f v => varint_item f v
  | DBytes f d => bytes_item f d
  end.
Definition data_items_bytes (l : list data_item) : list Z := concat (data_item_bytes <$> l).
Definition packet_item_bytes (i : packet_item) : list Z :=
  match i with
  | PTo v => varint_item 2 v
  | PChannel v => varint_item 4 v
  | PHopLimit v => varint_item 6 v
  | PWantAck v => varint_item 7 v
  | PData l => bytes_item 8 (data_items_bytes l)
  | PVarint f v => varint_item f v
  | PBytes f d => bytes_item f d
  end.
Definition packet_items_bytes (l : list packet_item) : list Z := concat (packet_item_bytes <$> l).

Definition bytes_short (d : list Z) : Prop := (length d < 128)%nat.

Definition data_item_ok (i : data_item) : Prop :=
  match i with
  | DPort v => fits 64 v
  | DPayload d => bytes_short d
  | DVarint f v => 1 < f < 16 /\ fits 64 v
  | DBytes f d => 0 < f < 16 /\ f <> 2 /\ bytes_short d
  end.
Definition packet_item_ok (i : packet_item) : Prop :=
  match i with
  | PTo v | PChannel v | PHopLimit v | PWantAck v => fits 64 v
  | PData l => Forall data_item_ok l /\ bytes_short (data_items_bytes l)
  | PVarint f v => 0 < f < 16 /\ f <> 2 /\ f <> 4 /\ f <> 6 /\ f <> 7 /\ fits 64 v
  | PBytes f d => 0 < f < 16 /\ f <> 8 /\ bytes_short d
  end.

(** What each field changes. *)
Definition data_item_set (s : LoraFields) (i : data_item) : LoraFields :=
  match i with
  | DPort v => set_port s v
  | DPayload d => add_payload s d
  | DVarint _ _ | DBytes _ _ => s
  end.
Definition packet_item_set (s : LoraFields) (i : packet_item) : LoraFields :=
  match i with
  | PTo v => set_to s v
  | PChannel v => set_channel s v
  | PHopLimit v => set_hop_limit s v
  | PWantAck v => set_want_ack s v
  | PData l => foldl data_item_set s l
  | PVarint _ _ | PBytes _ _ => s
  end.

Definition item_reads (step : list Z -> Z -> nat -> LoraFields -> option (nat * LoraFields)) (e : list Z)
    (g : LoraFields -> LoraFields) : Prop :=
  exists t b, e = t :: b /\ forall pre post s,
    step (pre ++ e ++ post) t (S (length pre)) s = Some ((length pre + length e)%nat, g s).

Lemma scan_items {A} step (bytes : A -> list Z) (set : LoraFields -> A -> LoraFields) (items : list A) :
  Forall (fun i => item_reads step (bytes i) (fun s => set s i)) items ->
  forall pre s fuel, (length (concat (bytes <$> items)) <= fuel)%nat ->
  scan step fuel (pre ++ concat (bytes <$> items)) (length pre) s = foldl set s items.
Proof.
  induction 1 as [|i items (t & b & E & Hs) _ IH]; intros pre s fuel Hf.
  - destruct fuel as [|fuel]; [done|]. cbn [scan fmap list_fmap concat]. rewrite app_nil_r, Nat.leb_refl. done.
  - rewrite fmap_cons in *. cbn [concat] in *. set (rest := concat (bytes <$> items)) in *. rewrite length_app, E in Hf.
    cbn [length] in Hf. destruct fuel as [|fuel]; [lia|]. cbn [scan].
    rewrite (proj2 (Nat.leb_gt _ _)) by (rewrite E, length_app; cbn [app length]; lia).
    rewrite (arr_cut pre t (b ++ rest)) by (by rewrite ?E). rewrite Hs, app_assoc.
    rewrite <- length_app. cbn [foldl]. apply IH. lia.
Qed.

Lemma varint_at_item pre t v post set :
  fits 64 v ->
  varint_at (pre ++ (t :: varint v) ++ post) (S (length pre)) set = Some ((length pre + length (t :: varint v))%nat, set v).
Proof.
  intros Hv. unfold varint_at. replace (drop (S (length pre)) (pre ++ (t :: varint v) ++ post)) with (varint v ++ post).
  - rewrite decode_varint_varint by done. do 2 f_equal. cbn [length]. lia.
  - replace (S (length pre)) with (length (pre ++ [t])) by (rewrite length_app; cbn; lia).
    change (pre ++ (t :: varint v) ++ post) with (pre ++ [t] ++ varint v ++ post).
    by rewrite (app_assoc pre [t]), drop_app_length.
Qed.

Lemma skip_at_item pre f d post s :
  skip_at (pre ++ bytes_item f d ++ post) (S (length pre)) s = Some ((length pre + length (bytes_item f d))%nat, s).
Proof.
  unfold skip_at, bytes_item. rewrite (proj2 (Nat.leb_gt _ _)) by (rewrite !length_app; cbn [length]; lia).
  rewrite (arr_cut (pre ++ [8 * f + 2]) (Z.of_nat (length d)) (d ++ post))
    by (rewrite <- ?app_assoc, ?length_app; cbn [app length]; (done || lia)).
  do 2 f_equal. cbn [length]. lia.
Qed.

(** The length byte and the bytes of a field. *)
Lemma bytes_item_cut pre f d post (data := pre ++ bytes_item f d ++ post) :
  (length data <=? S (length pre))%nat = false
  /\ Z.to_nat data.[S (length pre)] = length d
  /\ (length data <? S (S (length pre)) + length d)%nat = false
  /\ slice data (S (S (length pre))) (length d) = d
  /\ (S (S (length pre)) + length d)%nat = (length pre + length (bytes_item f d))%nat.
Proof.
  unfold data, bytes_item. split; [apply Nat.leb_gt; rewrite !length_app; cbn [length]; lia|]. split.
  { rewrite (arr_cut (pre ++ [8 * f + 2]) (Z.of_nat (length d)) (d ++ post))
      by (rewrite <- ?app_assoc, ?length_app; cbn [app length]; (done || lia)). lia. }
  split; [apply Nat.ltb_ge; rewrite !length_app; cbn [length]; lia|]. split; [|cbn [length]; lia].
  apply (slice_cut (pre ++ [8 * f + 2; Z.of_nat (length d)]) d post); [|rewrite length_app; cbn [length]; lia|done].
  rewrite <- app_assoc. done.
Qed.

Lemma tag_parts f w : 0 <= w < 8 -> (8 * f + w) .>> 3 = f /\ (8 * f + w) .& 0x07 = w.
Proof.
  intros Hw. change 0x07 with (Z.ones 3). rewrite Z.shiftr_div_pow2, Z.land_ones by lia. change (2 ^ 3) with 8. split; div_lia.
Qed.

Lemma tag0_parts f : (8 * f) .>> 3 = f /\ (8 * f) .& 0x07 = 0.
Proof. rewrite <- (Z.add_0_r (8 * f)). by apply tag_parts. Qed.

Lemma data_item_reads i : data_item_ok i -> item_reads data_field (data_item_bytes i) (fun s => data_item_set s i).
Proof.
  intros Hi. destruct i as [v|d|f v|f d]; cbn [data_item_bytes data_item_ok data_item_set] in *; (eexists _, _; split; [reflexivity|]);
    intros pre post s; unfold data_field.
  - by apply varint_at_item.
  - change (8 * 2 + 2) with 18. change (18 .>> 3) with 2. change (18 .& 7) with 2. cbn [Z.eqb Pos.eqb andb].
    destruct (bytes_item_cut pre 2 d post) as (E1 & E2 & E3 & E4 & E5). by rewrite E1, E2, E3, E4, E5.
  - destruct (tag0_parts f) as [-> ->]. rewrite (proj2 (Z.eqb_neq f 1)) by lia. cbn [Z.eqb andb].
    rewrite andb_false_r. apply varint_at_item, Hi.
  - destruct (tag_parts f 2) as [-> ->]; [lia|]. rewrite (proj2 (Z.eqb_neq f 2)) by lia. cbn [Z.eqb andb Pos.eqb].
    rewrite andb_false_r. apply skip_at_item.
Qed.

Lemma scan_data_items l s :
  Forall data_item_ok l -> scan data_field (length (data_items_bytes l)) (data_items_bytes l) 0 s = foldl data_item_set s l.
Proof.
  intros Hl. apply (scan_items data_field data_item_bytes data_item_set l) with (pre := []); [|done].
  eapply Forall_impl; [exact Hl|exact data_item_reads].
Qed.
Lemma packet_item_reads i : packet_item_ok i -> item_reads packet_field (packet_item_bytes i) (fun s => packet_item_set s i).
Proof.
  intros Hi. destruct i as [v|v|v|v|l|f v|f d]; cbn [packet_item_bytes packet_item_ok packet_item_set] in *;
    (eexists _, _; split; [reflexivity|]); intros pre post s; unfold packet_field; try (by apply varint_at_item).
  - destruct Hi as [Hl Hb]. change (8 * 8 + 2) with 66. change (66 .>> 3) with 8. change (66 .& 7) with 2. cbn [Z.eqb Pos.eqb andb].
    destruct (bytes_item_cut pre 8 (data_items_bytes l) post) as (E1 & E2 & E3 & E4 & E5).
    by rewrite E1, E2, E3, E4, E5, scan_data_items.
  - destruct (tag0_parts f) as [-> ->]. rewrite (proj2 (Z.eqb_neq f 2)), (proj2 (Z.eqb_neq f 4)), (proj2 (Z.eqb_neq f 6)),
      (proj2 (Z.eqb_neq f 7)) by lia. cbn [Z.eqb andb]. rewrite andb_false_r. apply varint_at_item, Hi.
  - destruct (tag_parts f 2) as [-> ->]; [lia|]. rewrite (proj2 (Z.eqb_neq f 8)) by lia. cbn [Z.eqb andb Pos.eqb].
    rewrite !andb_false_r. apply skip_at_item.
Qed.

Lemma scan_packet_items l :
  Forall packet_item_ok l -> scan_packet (packet_items_bytes l) = foldl packet_item_set fields_init l.
Proof.
  intros Hl. apply (scan_items packet_field packet_item_bytes packet_item_set l) with (pre := []); [|done].
  eapply Forall_impl; [exact Hl|exact packet_item_reads].
Qed.

(** A ToRadio message with a mesh packet. *)
Definition to_radio_bytes (l : list packet_item) : list Z :=
  0x0A :: varint (Z.of_nat (length (packet_items_bytes l))) ++ packet_items_bytes l.

Lemma build_lora_packet_items h l rest (s := foldl packet_item_set fields_init l) :
  Forall packet_item_ok l -> bytes_short (packet_items_bytes l) ->
  meshtastic_handler_build_lora_packet h (to_radio_bytes l ++ rest)
  = if f_has_payload s then meshtastic_handler_create_packet h (f_to s) (f_port s) (f_inner_payload s) (f_want_ack s)
    else (h, None).
Proof.
  intros Hl Hb. unfold meshtastic_handler_build_lora_packet, to_radio_bytes.
  rewrite varint_small by (unfold bytes_short in Hb; lia). set (d := packet_items_bytes l) in *.
  set (p := (0x0A :: [Z.of_nat (length d)] ++ d) ++ rest).
  assert (length p = 2 + length d + length rest)%nat as Hp by (unfold p; rewrite length_app; cbn [app length]; lia).
  rewrite (proj2 (Nat.eqb_neq (length p) 0)), (proj2 (Nat.ltb_ge (length p) 2)) by lia.
  change (p.[0]) with 0x0A. change (p.[1]) with (Z.of_nat (length d)). cbn [Z.eqb Pos.eqb negb]. rewrite Nat2Z.id.
  rewrite (proj2 (Nat.ltb_ge (length p) (2 + length d))) by lia.
  rewrite (slice_cut [0x0A; Z.of_nat (length d)] d rest) by (done || (unfold p; cbn [app]; done)).
  unfold d. rewrite scan_packet_items by done. fold s. by destruct (f_has_payload s).
Qed.

(** The second byte of a length of 128 to 255 is taken for the first byte of the packet. *)
Lemma build_lora_packet_long h content rest :
  (128 <= length content < 256)%nat ->
  meshtastic_handler_build_lora_packet h (0x0A :: varint (Z.of_nat (length content)) ++ content ++ rest) = (h, None).
Proof.
  intros Hl. assert (varint (Z.of_nat (length content)) = [Z.of_nat (length content); 1]) as ->.
  { unfold varint. cbn [varint_bytes]. rewrite (proj2 (Z.ltb_ge (Z.of_nat (length content)) 128)) by lia.
    assert (Z.of_nat (length content) / 128 = 1) as -> by div_lia. change (1 <? 128) with true. cbn iota. f_equal. div_lia. }
  unfold meshtastic_handler_build_lora_packet. set (p := 0x0A :: _).
  assert (length p = 3 + length content + length rest)%nat as Hp by (unfold p; cbn [app length]; rewrite length_app; lia).
  rewrite (proj2 (Nat.eqb_neq (length p) 0)), (proj2 (Nat.ltb_ge (length p) 2)) by lia.
  change (p.[0]) with 0x0A. change (p.[1]) with (Z.of_nat (length content)). cbn [Z.eqb Pos.eqb negb]. rewrite Nat2Z.id.
  rewrite (proj2 (Nat.ltb_ge (length p) (2 + length content))) by lia.
  assert (slice p 2 (length content) = 1 :: slice p 3 (length content - 1)) as ->.
  { unfold p, slice. cbn [app drop]. destruct (length content); [lia|]. cbn [take]. rewrite Nat.sub_0_r || rewrite Nat.sub_succ, Nat.sub_0_r.
    by rewrite drop_0. }
  unfold scan_packet. cbn [length scan]. done.
Qed.
(** ** From the phone to the other node *)

Fixpoint feed_serial_all (h : MeshtasticHandler) (bytes : list Z) : MeshtasticHandler * list (list Z) :=
  match bytes with
  | [] => (h, [])
  | b :: bytes =>
      let '(h, frame) := meshtastic_handler_feed_serial h b in
      let '(h, frames) := feed_serial_all h bytes in
      (h, option_list frame ++ frames)
  end.

Lemma feed_serial_all_eq h bytes :
  feed_serial_all h bytes = let '(p, frames) := serial_feed_all (h_parser h) bytes in (with_parser h p, frames).
Proof.
  revert h. induction bytes as [|b bytes IH]; intros h; cbn [feed_serial_all serial_feed_all]; [by destruct h|].
  unfold meshtastic_handler_feed_serial. destruct (meshtastic_parser_feed (h_parser h) b) as [p f]. rewrite IH.
  cbn [h_parser with_parser]. by destruct (serial_feed_all p bytes).
Qed.

Definition fields_ok (s : LoraFields) : Prop :=
  fits 32 (f_to s) /\ fits 32 (f_port s) /\ (length (f_inner_payload s) <= MAX_LORA_PAYLOAD)%nat.

Lemma port_num_fits v : fits 32 v -> fits 32 (port_num_from_u32 v).
Proof.
  intros Hv. unfold port_num_from_u32. repeat match goal with |- fits 32 (match ?x with _ => _ end) => destruct x end; done.
Qed.

Lemma data_item_set_ok s i : fields_ok s -> fields_ok (data_item_set s i).
Proof.
  intros (Ht & Hp & Hi). destruct i; cbn [data_item_set]; split_and!; cbn; try done.
  - apply port_num_fits, fits_u32.
  - destruct (vec_u8_max_lora_payload_extend _ d) as [v|] eqn:E; [|done]. cbn.
    unfold vec_u8_max_lora_payload_extend in E. apply vec_extend_inv in E as [-> Hl]. rewrite length_app in *. lia.
Qed.

Lemma packet_item_set_ok s i : fields_ok s -> fields_ok (packet_item_set s i).
Proof.
  intros Hs. destruct i as [v|v|v|v|l|f v|f d]; cbn [packet_item_set]; try done.
  - destruct Hs as (Ht & Hp & Hi). split_and!; cbn; [apply fits_u32|done|done].
  - revert s Hs. induction l as [|i l IH]; intros s Hs; [done|]. cbn [foldl]. by apply IH, data_item_set_ok.
Qed.

Lemma fields_of_ok l : fields_ok (foldl packet_item_set fields_init l).
Proof.
  assert (fields_ok fields_init) as H0 by (split_and!; cbn; (done || lia)). revert H0. generalize fields_init.
  induction l as [|i l IH]; intros s Hs; [done|]. cbn [foldl]. by apply IH, packet_item_set_ok.
Qed.
(** The modules' work on a packet: encode, encrypt, build. *)
Definition packet_of (h : MeshtasticHandler) (i : Z) (d : DataPayload) : option (list Z) :=
  encoded ← protobuf_encode_data d;
  encrypted ← channel_encrypt (h_primary_channel h) i (h_node_id h) encoded;
  build_lora_packet (h_node_id h) (dest d) i 0 DEFAULT_HOP_LIMIT (want_response d) encrypted.

Definition next_id (h : MeshtasticHandler) : Z := h_last_packet_id h mod 0xFFFFFFFF + 1.

(** A packet id is used up whether the packet is made or not. *)
Lemma create_packet_eq h to port payload want_ack :
  fits 32 (h_last_packet_id h) -> (length payload <= MAX_LORA_PAYLOAD)%nat ->
  meshtastic_handler_create_packet h to port payload want_ack
  = match packet_of h (next_id h) (mkData port payload want_ack to (h_node_id h) 0 0 0) with
    | Some out => (with_counts (with_last_id h (next_id h)) (h_rx_count h) (u32 (h_tx_count h + 1)), Some out)
    | None => (with_last_id h (next_id h), None)
    end.
Proof.
  intros Hf Hl. unfold meshtastic_handler_create_packet. rewrite next_packet_id_eq by done. cbn beta iota zeta.
  unfold vec_u8_max_lora_payload_extend. rewrite vec_extend_Some by (cbn [length]; lia). reflexivity.
Qed.

Definition same_key (a b : Channel) : Prop := forall i from c, channel_decrypt b i from c = channel_decrypt a i from c.

(** What node [b] makes of a packet [i] for [d] from node [from], when [content] is what the
    parser found as its payload. *)
Definition reception (b : MeshtasticHandler) (from i : Z) (d : DataPayload) (content : list Z) (rssi snr : Z)
    : MeshtasticHandler * option MeshPacket :=
  match channel_decrypt (h_primary_channel b) i from content with
  | None => (b, None)
  | Some plain =>
      (with_counts b (u32 (h_rx_count b + 1)) (h_tx_count b),
       Some (mkPacket from (dest d) 0 i DEFAULT_HOP_LIMIT (want_response d) PRIORITY_DEFAULT 0 snr rssi
               match protobuf_decode_data plain with
               | Some d' => PACKET_PAYLOAD_DECODED d'
               | None => PACKET_PAYLOAD_ENCRYPTED content
               end))
  end.

Lemma process_built `{!MeshModulesLaws channel_ok lost} b from i d encrypted out rssi snr :
  build_lora_packet from (dest d) i 0 DEFAULT_HOP_LIMIT (want_response d) encrypted = Some out ->
  fits 32 from -> fits 32 (dest d) -> fits 32 i ->
  meshtastic_handler_process_lora_packet b out rssi snr
  = if (length encrypted <=? lost)%nat then (b, None) else reception b from i d (drop lost encrypted) rssi snr.
Proof.
  intros E Hn Ht Hi. destruct (law_packet from (dest d) i 0 DEFAULT_HOP_LIMIT (want_response d) encrypted out Hn Ht Hi)
    as [Hlen Hparse]; [lia|done|done|].
  unfold meshtastic_handler_process_lora_packet. rewrite (proj2 (Nat.ltb_ge _ _)), Hparse by done.
  destruct (length encrypted <=? lost)%nat; [done|].
  unfold meshtastic_handler_decrypt_packet, received, reception. cbn [p_payload p_channel p_id p_from Z.eqb mbind option_bind].
  destruct (channel_decrypt _ _ _ _) as [plain|]; [|done]. cbn [mbind option_bind].
  by destruct (protobuf_decode_data plain).
Qed.

(** When no byte is lost, the node shows what was sent. *)
Lemma reception_as_sent `{!MeshModulesLaws channel_ok lost} a b d i encoded encrypted rssi snr :
  channel_ok (h_primary_channel a) -> same_key (h_primary_channel a) (h_primary_channel b) ->
  data_ok d -> (length (data_bytes d) <= MAX_LORA_PAYLOAD)%nat -> protobuf_encode_data d = Some encoded ->
  channel_encrypt (h_primary_channel a) i (h_node_id a) encoded = Some encrypted ->
  reception b (h_node_id a) i d encrypted rssi snr
  = (with_counts b (u32 (h_rx_count b + 1)) (h_tx_count b),
     Some (mkPacket (h_node_id a) (dest d) 0 i DEFAULT_HOP_LIMIT (want_response d) PRIORITY_DEFAULT 0 snr rssi
             (PACKET_PAYLOAD_DECODED d))).
Proof.
  intros Hch Hk Hd Hl Ed Ec. unfold reception. rewrite Hk, (law_channel _ _ _ _ _ Hch Ec).
  by rewrite (law_data _ _ Hd Hl Ed).
Qed.

Lemma next_id_fits h : fits 32 (next_id h).
Proof. unfold next_id, fits. pose proof (Z.mod_pos_bound (h_last_packet_id h) 0xFFFFFFFF). lia. Qed.

(** From the phone to the radio. The frame of a ToRadio message with a mesh packet, whatever
    fields it has and in whatever order, is fed byte by byte to a node that waits for a frame:
    it is delivered and processed; the packet made takes the next packet id, which is used up
    also when the modules refuse the packet. (The channel and the hop limit the phone asked
    for have no effect.) *)
Lemma toradio_processed (a : MeshtasticHandler) (items : list packet_item) (frame : list Z)
    (s := foldl packet_item_set fields_init items)
    (d := mkData (f_port s) (f_inner_payload s) (f_want_ack s) (f_to s) (h_node_id a) 0 0 0) :
  handler_wf a -> state (h_parser a) = 0 ->
  Forall packet_item_ok items -> bytes_short (packet_items_bytes items) -> f_has_payload s = true ->
  meshtastic_handler_build_serial_frame (to_radio_bytes items) = Some frame ->
  data_ok d
  /\ exists a1, feed_serial_all a frame = (a1, [to_radio_bytes items])
  /\ meshtastic_handler_process_toradio a1 (to_radio_bytes items)
     = match packet_of a (next_id a) d with
       | Some out => (with_counts (with_last_id a1 (next_id a)) (h_rx_count a) (u32 (h_tx_count a + 1)),
                      Some (TO_RADIO_RESPONSE_LORA_PACKET out))
       | None => (with_last_id a1 (next_id a), None)
       end.
Proof.
  intros Ha Hs Hi Hb Hp Hfr. destruct (fields_of_ok items) as (Ht & Hpt & Hl); [done..|]. fold s in Ht, Hpt, Hl.
  split. { unfold data_ok, d. cbn. pose proof (hw_node _ Ha). split_and!; first [done|unfold fits; lia]. }
  rewrite build_serial_frame_eq in Hfr. destruct (_ <=? _)%nat eqn:Hle; [|done].
  apply Nat.leb_le in Hle. apply (inj Some) in Hfr as <-.
  destruct (serial_feed_frame (h_parser a) (to_radio_bytes items) Hs) as (p & _ & E); [done|lia|].
  exists (with_parser a p). rewrite feed_serial_all_eq, E. split; [done|].
  unfold meshtastic_handler_process_toradio.
  assert (2 <= length (to_radio_bytes items))%nat as Hlen.
  { unfold to_radio_bytes. cbn [length]. rewrite length_app. pose proof (varint_nonempty (Z.of_nat (length (packet_items_bytes items)))). lia. }
  rewrite (proj2 (Nat.eqb_neq _ 0)), (proj2 (Nat.ltb_ge _ 2)) by lia.
  change ((to_radio_bytes items).[0]) with 0x0A. change (0x0A .>> 3) with 1. change (0x0A .& 7) with 2. cbn [Z.eqb Pos.eqb andb].
  rewrite <- (app_nil_r (to_radio_bytes items)), build_lora_packet_items by done. fold s. rewrite Hp.
  rewrite create_packet_eq by (done || apply Ha).
  change (packet_of (with_parser a p) (next_id (with_parser a p)) _) with (packet_of a (next_id a) d).
  by destruct (packet_of a (next_id a) d).
Qed.

(** C18. A configuration request is answered in full: the phone gets, from the request and the
    polls after it, the node's number, its user, the primary channel, every secondary
    channel and the end of the configuration, in this order and each once, then nothing,
    whatever was pending before. *)
Theorem config_download (h : MeshtasticHandler) (config_id : Z) (rest : list Z) (n : nat)
    (msgs := config_messages h config_id) :
  handler_wf h -> fits 32 config_id -> (length (channel_name_str (h_primary_channel h)) <= 46)%nat ->
  (4 <= length msgs <= 11)%nat
  /\ let '(h1, first) := meshtastic_handler_process_toradio h ([24] ++ varint config_id ++ rest) in
     meshtastic_handler_pending_response_count h1 = (length msgs - 1)%nat
     /\ first :: polls (length msgs - 1 + n) h1
        = (Some ∘ TO_RADIO_RESPONSE_FROM_RADIO <$> msgs) ++ replicate n None.
Proof.
  intros Hw Hi Hn. split; [by apply length_config_messages, hw_slots|].
  unfold meshtastic_handler_process_toradio. set (p := [24] ++ varint config_id ++ rest).
  assert (2 <= length p)%nat as Hp by (unfold p; rewrite !length_app; cbn [length]; pose proof (varint_nonempty config_id); lia).
  rewrite (proj2 (Nat.eqb_neq _ 0)), (proj2 (Nat.ltb_ge _ 2)) by lia.
  change (p.[0]) with 24. change (24 .>> 3) with 3. change (24 .& 7) with 0. cbn [Z.eqb Pos.eqb andb].
  change (drop 1 p) with (varint config_id ++ rest). rewrite decode_varint_varint, u32_small by (done || (eapply fits_mono; [done|lia])).
  destruct (config_response_contents h config_id Hw Hi Hn) as (q & Hq & Hc & ->). fold msgs in Hc.
  assert (exists x l, msgs = x :: l) as (x & l & El) by (unfold msgs, config_messages; eauto). rewrite El in Hc |- *.
  pose proof (poll_contents (config_requested h q config_id) x l Hq Hc) as Hx.
  destruct (meshtastic_handler_poll_pending_response _) as [h1 first]. destruct Hx as (Hq1 & Hc1 & ->).
  cbn [length]. rewrite Nat.sub_succ, Nat.sub_0_r. split.
  - unfold meshtastic_handler_pending_response_count, deque_len. by rewrite <- length_contents, Hc1.
  - rewrite (polls_contents n h1 l) by done. reflexivity.
Qed.

(** A run of at most 2^32 - 1 packets has distinct packet ids, none of them 0, and the id used
    last before the run comes up again only at the end of a run of full length. *)
Theorem packet_ids_distinct (h : MeshtasticHandler) (n : nat) :
  fits 32 (h_last_packet_id h) -> Z.of_nat n <= 0xFFFFFFFF ->
  NoDup (packet_ids n h) /\ Forall (fun i => 0 < i < 2 ^ 32 /\ (i = h_last_packet_id h -> Z.of_nat n = 0xFFFFFFFF)) (packet_ids n h).
Proof.
  intros Hf Hn. rewrite packet_ids_eq by done. split.
  - apply NoDup_fmap_2_strong; [|apply NoDup_seq]. intros i j Hi%elem_of_seq Hj%elem_of_seq E.
    apply Nat2Z.inj, (shifted_mod_inj (h_last_packet_id h) _ _ 0xFFFFFFFF); lia.
  - apply Forall_fmap, Forall_seq. intros j Hj. cbn. pose proof (Z.mod_pos_bound (h_last_packet_id h + Z.of_nat j) 0xFFFFFFFF ltac:(lia)) as Hm.
    split; [lia|]. intros E. unfold fits in Hf.
    destruct (decide (Z.of_nat j + 1 = 0xFFFFFFFF)); [lia|]. exfalso.
    destruct (decide (h_last_packet_id h + Z.of_nat j < 0xFFFFFFFF)); [rewrite Z.mod_small in E by lia; lia|].
    replace (h_last_packet_id h + Z.of_nat j) with ((h_last_packet_id h + Z.of_nat j - 0xFFFFFFFF) + 1 * 0xFFFFFFFF) in E by lia.
    rewrite Z.mod_add in E by lia. destruct (decide (h_last_packet_id h + Z.of_nat j - 0xFFFFFFFF < 0xFFFFFFFF)).
    + rewrite Z.mod_small in E by lia. lia.
    + lia.
Qed.

(** A mesh packet of 128 to 255 bytes, whose length takes two bytes, is refused whatever it
    holds: the second byte of the length is taken for the first field of the packet. *)
Theorem long_packets_refused (h : MeshtasticHandler) (content rest : list Z) :
  (128 <= length content < 256)%nat ->
  meshtastic_handler_process_toradio h (0x0A :: varint (Z.of_nat (length content)) ++ content ++ rest) = (h, None).
Proof.
  intros Hl. pose proof (build_lora_packet_long h content rest Hl) as Hb. unfold meshtastic_handler_process_toradio.
  set (p := 0x0A :: _) in *. assert (2 <= length p)%nat as Hp by (unfold p; cbn [length]; rewrite !length_app; lia).
  rewrite (proj2 (Nat.eqb_neq _ 0)), (proj2 (Nat.ltb_ge _ 2)) by lia.
  change (p.[0]) with 0x0A. change (0x0A .>> 3) with 1. change (0x0A .& 7) with 2. cbn [Z.eqb Pos.eqb andb]. by rewrite Hb.
Qed.
(** ** Everything that happens to a handler *)

Inductive event :=
  | Radio (data : list Z) (rssi snr : Z)
  | Serial (byte : Z)
  | ToRadio (payload : list Z)
  | Send (to port : Z) (payload : list Z) (want_ack : bool)
  | SendText (to : Z) (text : list Z)
  | SendPosition
  | SendNodeInfo
  | Poll
  | SetKey (psk : list Z)
  | ResetParser.

Definition handle (h : MeshtasticHandler) (e : event) : MeshtasticHandler :=
  match e with
  | Radio data rssi snr => (meshtastic_handler_process_lora_packet h data rssi snr).1
  | Serial byte => (meshtastic_handler_feed_serial h byte).1
  | ToRadio payload => (meshtastic_handler_process_toradio h payload).1
  | Send to port payload want_ack => (meshtastic_handler_create_packet h to port payload want_ack).1
  | SendText to text => (meshtastic_handler_create_text_message h to text).1
  | SendPosition => (meshtastic_handler_create_position_packet h).1
  | SendNodeInfo => (meshtastic_handler_create_node_info_packet h).1
  | Poll => (meshtastic_handler_poll_pending_response h).1
  | SetKey psk => meshtastic_handler_set_channel_key h psk
  | ResetParser => meshtastic_handler_reset_parser h
  end.

(** The handlers a program can have that makes one and calls it. *)
Inductive reachable (node_id : Z) : MeshtasticHandler -> Prop :=
  | reach_new items : length items = 16%nat -> reachable node_id (meshtastic_handler_new items node_id)
  | reach_step h e : reachable node_id h -> reachable node_id (handle h e).

Lemma feed_buffer p b :
  (length (buffer p) <= 512)%nat -> (length (buffer (meshtastic_parser_feed p b).1) <= 512)%nat.
Proof.
  intros Hl. unfold meshtastic_parser_feed, in_state, MAX_MESSAGE_SIZE.
  repeat (case_match; cbn [fst buffer]; try done; try (cbn [length]; lia)).
  all: rewrite length_app; cbn [length]; match goal with E : (_ <? _)%nat = true |- _ => apply Nat.ltb_lt in E end; lia.
Qed.

Lemma push_wf q m : deque_wf q -> deque_wf (deque_push_back q m).1.
Proof.
  intros Hq. destruct (decide (count q < 16)%nat); [by apply push_contents|]. unfold deque_push_back, DEQUE_SIZE.
  by rewrite (proj2 (Nat.leb_le _ _)) by lia.
Qed.

Lemma pop_wf q : deque_wf q -> deque_wf (deque_pop_front q).1.
Proof.
  intros Hq. destruct (deque_contents q) as [|x l] eqn:E; [|by destruct (pop_contents q x l Hq E)].
  pose proof (length_contents q) as Hl. rewrite E in Hl. unfold deque_pop_front. by rewrite <- Hl.
Qed.

Lemma queue_wf q m : deque_wf q -> deque_wf (queue q m).
Proof. destruct m as [m|]; [apply push_wf|done]. Qed.

Lemma queue_secondary_wf h q i slots : deque_wf q -> deque_wf (queue_secondary h q i slots).
Proof.
  revert q i. induction slots as [|[ch|] slots IH]; intros q i Hq; cbn [queue_secondary]; [done|by apply IH, queue_wf|by apply IH].
Qed.
Lemma count_queue q m : (count (queue q m) <= S (count q))%nat.
Proof. destruct m as [m|]; cbn [queue]; [|lia]. unfold deque_push_back. case_match; cbn [fst count]; lia. Qed.

Lemma count_queue_secondary h q i slots : (count (queue_secondary h q i slots) <= count q + length slots)%nat.
Proof.
  revert q i. induction slots as [|[ch|] slots IH]; intros q i; cbn [queue_secondary length]; [lia| |].
  - etransitivity; [apply IH|]. pose proof (count_queue q (meshtastic_handler_encode_channel_config h (u8 (i + 1)))). lia.
  - etransitivity; [apply IH|]. lia.
Qed.

Lemma count_config h q m1 m2 m3 m4 i slots :
  (count (queue (queue_secondary h (queue (queue (queue q m1) m2) m3) i slots) m4) <= count q + length slots + 4)%nat.
Proof.
  pose proof (count_queue q m1) as H1. set (q1 := queue q m1) in *.
  pose proof (count_queue q1 m2) as H2. set (q2 := queue q1 m2) in *.
  pose proof (count_queue q2 m3) as H3. set (q3 := queue q2 m3) in *.
  pose proof (count_queue_secondary h q3 i slots) as H4. set (q4 := queue_secondary h q3 i slots) in *.
  pose proof (count_queue q4 m4) as H5. set (q5 := queue q4 m4) in *. lia.
Qed.

Lemma count_pop q : count (deque_pop_front q).1 = (count q - 1)%nat.
Proof. unfold deque_pop_front. destruct (Nat.eqb_spec (count q) 0); cbn [fst count]; lia. Qed.

Lemma wf_with_responses h q i j :
  handler_wf h -> deque_wf q -> (count q <= 10)%nat -> handler_wf (with_responses h q i j).
Proof. intros [] Hq Hc. by split. Qed.

Lemma wf_poll h : handler_wf h -> handler_wf (meshtastic_handler_poll_pending_response h).1.
Proof.
  intros Hw. unfold meshtastic_handler_poll_pending_response. pose proof (pop_wf _ (hw_queue _ Hw)) as Hq.
  pose proof (count_pop (h_pending_responses h)) as Hc. pose proof (hw_pending _ Hw).
  destruct (deque_pop_front _) as [q r]. cbn [fst] in *. apply wf_with_responses; [done|done|lia].
Qed.

Lemma wf_config h config_id : handler_wf h -> handler_wf (meshtastic_handler_build_config_response h config_id).1.
Proof.
  intros Hw. unfold meshtastic_handler_build_config_response, meshtastic_handler_poll_pending_response.
  set (h1 := with_responses h _ config_id 0). cbn [h_pending_responses with_responses].
  match goal with |- context [deque_pop_front ?q] => set (q' := q) end.
  assert (deque_wf q') as Hq by (apply queue_wf, queue_secondary_wf, queue_wf, queue_wf, queue_wf, deque_clear_wf, (dw_items _ (hw_queue _ Hw))).
  assert (count q' <= 11)%nat as Hc.
  { unfold q'. rewrite count_config. change (h_secondary_channels h1) with (h_secondary_channels h). rewrite (hw_slots _ Hw). cbn. lia. }
  pose proof (pop_wf _ Hq) as Hp. pose proof (count_pop q') as Hcp. destruct (deque_pop_front q') as [q'' r]. cbn [fst] in *.
  apply (wf_with_responses h); [done|done|lia].
Qed.

Lemma wf_create h to port payload want_ack :
  handler_wf h -> handler_wf (meshtastic_handler_create_packet h to port payload want_ack).1.
Proof.
  intros [Hn Hs Hi Hr Ht Hl Hsh Hb Hq Hp]. unfold meshtastic_handler_create_packet. rewrite next_packet_id_eq by done. cbn beta iota zeta.
  pose proof (next_id_fits h) as Hid. unfold next_id in Hid.
  match goal with |- context [match ?x with _ => _ end] => destruct x end; cbn [fst]; split; cbn; try done. apply fits_u32.
Qed.

Lemma wf_toradio h payload : handler_wf h -> handler_wf (meshtastic_handler_process_toradio h payload).1.
Proof.
  intros Hw. unfold meshtastic_handler_process_toradio. do 2 (case_match; [done|]). case_match.
  { assert (handler_wf (meshtastic_handler_build_lora_packet h payload).1) as Hb.
    { unfold meshtastic_handler_build_lora_packet. repeat (case_match; [done|]). by apply wf_create. }
    by destruct (meshtastic_handler_build_lora_packet h payload). }
  case_match; [destruct (decode_varint _); by apply wf_config|]. case_match; [|done].
  destruct Hw. split; try done. cbn. lia.
Qed.

Lemma wf_handle h e : handler_wf h -> handler_wf (handle h e).
Proof.
  intros Hw. destruct e; cbn [handle]; try (by apply wf_create).
  - unfold meshtastic_handler_process_lora_packet. repeat (case_match; try done). destruct Hw. split; try done. cbn. apply fits_u32.
  - unfold meshtastic_handler_feed_serial. pose proof (feed_buffer (h_parser h) byte (hw_buffer _ Hw)).
    destruct (meshtastic_parser_feed _ _). by destruct Hw.
  - by apply wf_toradio.
  - unfold meshtastic_handler_create_position_packet. case_match; [by apply wf_create|done].
  - unfold meshtastic_handler_create_node_info_packet. case_match; [by apply wf_create|done].
  - by apply wf_poll.
  - by destruct Hw.
  - destruct Hw. split; try done. cbn. lia.
Qed.

Lemma wf_new items node_id :
  fits 32 node_id -> length items = 16%nat -> handler_wf (meshtastic_handler_new items node_id).
Proof. intros Hn Hi. split; cbn; try done; try lia. by apply (deque_clear_wf (mkDeque items 0 0 0)). Qed.

(** Whatever happens to a handler, in whatever order: its packet id and counters stay 32-bit
    values, its parser's buffer within 512 bytes, its queue a queue with at most ten
    responses pending. *)
Theorem handler_invariant (node_id : Z) (h : MeshtasticHandler) :
  fits 32 node_id -> reachable node_id h -> handler_wf h.
Proof. intros Hn. induction 1 as [items Hi|h e _ IH]; [by apply wf_new|by apply wf_handle]. Qed.
End handler_properties.

(** ** The modules can be as the handler relies on *)

Module Sample.
(** A channel is its name; the cipher flips bits; packets carry every field of the header and
    no code. *)
Definition flip (l : list Z) : list Z := Z.lxor 0x5A <$> l.
Definition encode (d : DataPayload) : option (list Z) :=
  if (length (data_bytes d) <=? MAX_LORA_PAYLOAD)%nat then encode_data d MAX_LORA_PAYLOAD else None.
Definition decode (bytes : list Z) : option DataPayload :=
  match decode_data 300 bytes with Val d => Some d | _ => None end.
Definition build (from to i channel hop_limit : Z) (want_ack : bool) (payload : list Z) : option (list Z) :=
  Some (le_bytes 4 to ++ le_bytes 4 from ++ le_bytes 4 i ++ [channel; hop_limit; if want_ack then 1 else 0; 0] ++ [0; 0; 0; 0] ++ payload).
Definition parse (data : list Z) : option MeshPacket :=
  if (length data <=? 20)%nat then None
  else Some (mkPacket (le_val (slice data 4 4)) (le_val (slice data 0 4)) data.[12] (le_val (slice data 8 4)) data.[13]
          (data.[14] =? 1) PRIORITY_DEFAULT 0 0 0 (PACKET_PAYLOAD_ENCRYPTED (drop 20 data))).

#[export] Instance modules : MeshModules := {
  Channel := list Z;
  channel_init := [];
  channel_set_key ch _ := ch;
  channel_name ch := ch ++ [0];
  channel_encrypt _ _ _ d := Some (flip d);
  channel_decrypt _ _ _ d := Some (flip d);
  protobuf_encode_data := encode;
  protobuf_decode_data := decode;
  protobuf_encode_position p := encode_position p MAX_LORA_PAYLOAD;
  protobuf_encode_user u := encode_user u MAX_LORA_PAYLOAD;
  build_lora_packet := build;
  parse_lora_packet := parse
}.

#[export] Instance modules_laws : MeshModulesLaws (fun _ => True) 0.
Proof.
  split.
  - intros d bytes Hd Hl. cbn. unfold encode, decode. rewrite (proj2 (Nat.leb_le _ _)), encode_data_bytes by done.
    intros [= <-]. unfold decode_data. unfold MAX_LORA_PAYLOAD in Hl.
    rewrite (parses_whole _ _ (data_bytes d) (Val d)); [done|by apply data_parses|lia|lia].
  - intros ch i from p c _ [= <-]. cbn. f_equal. unfold flip. rewrite <- list_fmap_compose. rewrite <- (list_fmap_id p) at 2.
    apply list_fmap_ext. intros _ x _. cbn. by rewrite <- Z.lxor_assoc, Z.lxor_nilpotent, Z.lxor_0_l.
  - intros from to i channel hop_limit want_ack payload out Hf Ht Hi _ _ E.
    change (build from to i channel hop_limit want_ack payload = Some out) in E. unfold build in E. apply (inj Some) in E as <-.
    split; [rewrite !length_app, !length_le_bytes; cbn [length]; unfold LORA_HEADER_SIZE, MIC_SIZE; lia|].
    change (@parse_lora_packet modules) with parse. unfold parse.
    rewrite !length_app, !length_le_bytes. cbn [length].
    destruct (Nat.leb_spec (4 + (4 + (4 + (4 + (4 + length payload))))) 20), (Nat.leb_spec (length payload) 0); [done|lia..|].
    rewrite (slice_cut [] (le_bytes 4 to) _ _ 0 4) by reflexivity.
    rewrite (slice_cut (le_bytes 4 to) (le_bytes 4 from) _ _ 4 4) by reflexivity.
    rewrite (slice_cut (le_bytes 4 to ++ le_bytes 4 from) (le_bytes 4 i) _ _ 8 4) by reflexivity.
    rewrite !le_val_fits by done. f_equal. by destruct want_ack.
Qed.
End Sample.

(** ** Witnesses *)

Import Sample.

Definition node_a : MeshtasticHandler := meshtastic_handler_new (replicate 16 []) 0x11223344.
Definition node_b : MeshtasticHandler := meshtastic_handler_new (replicate 16 []) 5.
Definition hello : list packet_item := [PTo 0xFFFFFFFF; PVarint 9 300; PWantAck 1; PData [DPort 1; DPayload [104; 105]]; PHopLimit 7].

Lemma config_download_witness :
  let '(h1, first) := meshtastic_handler_process_toradio node_a ([24] ++ varint 0x90ABCDEF ++ []) in
  meshtastic_handler_pending_response_count h1 = 3%nat
  /\ first :: polls (3 + 2) h1
     = (Some ∘ TO_RADIO_RESPONSE_FROM_RADIO <$> config_messages node_a 0x90ABCDEF) ++ [None; None].
Proof.
  apply (config_download node_a 0x90ABCDEF [] 2); [apply wf_new; [split; lia|reflexivity]|unfold fits; lia|cbn; lia].
Defined.

Lemma packet_ids_distinct_witness :
  NoDup (packet_ids 3 (with_last_id node_a 0xFFFFFFFE)) /\ packet_ids 3 (with_last_id node_a 0xFFFFFFFE) = [0xFFFFFFFF; 1; 2].
Proof.
  split; [|reflexivity]. apply (packet_ids_distinct (with_last_id node_a 0xFFFFFFFE) 3); [cbn; unfold fits; lia|lia].
Defined.

Lemma long_packets_refused_witness :
  meshtastic_handler_process_toradio node_a (0x0A :: varint 130 ++ replicate 130 7 ++ []) = (node_a, None).
Proof. apply (long_packets_refused node_a (replicate 130 7) []). cbn. lia. Defined.

Lemma handler_invariant_witness :
  handler_wf (handle (handle (handle node_a (ToRadio [24; 1])) Poll) (Send 5 1 [7] true)).
Proof.
  apply (handler_invariant 0x11223344); [unfold fits; lia|]. do 3 apply reach_step. apply reach_new. reflexivity.
Defined.
