(* ===== verification/MeshNode.v ===== *)
(** * The Meshtastic node: mod.c with channel.c, packet.c and protobuf.c

    The handler of [MeshHandler] takes the channels, packets and messages as arguments. Here
    they are the repository's: [Channel] (channel.c with the keys and nonces of hkdf.c),
    [MeshPacket] (packet.c) and [PbMessage] (protobuf.c). The prototypes in mod.c and in the
    modules differ; arguments and results are passed by their role. *)
From S2P Require Import Prelude Sha256 Aes Channel MeshPacket Wire PbMessage MeshSerial MeshHandler.

(** ** The modules *)

(** A zeroed channel. *)
Definition channel_init : Channel.Channel :=
  Channel.mkChannel 0 [] CHANNEL_KEY_NONE MODEM_PRESET_LONG_SLOW false false 0.

(** The [name] field, then its length. *)
Definition channel_name (ch : Channel.Channel) : list Z :=
  zero_filled MAX_CHANNEL_NAME (Channel.name ch) ++ le_bytes 4 (Z.of_nat (length (Channel.name ch))).

(** The message decoded; [None] for a message the decoder refuses or does not end on. *)
Definition protobuf_decode_data (bytes : list Z) : option DataPayload :=
  match decode_data (S (length bytes)) bytes with Val d => Some d | _ => None end.

(** The parser gives every packet the default priority and an encrypted payload. *)
Definition parse_lora_packet (data : list Z) : option MeshHandler.MeshPacket :=
  p ← MeshPacket.parse_lora_packet sha256_hash data;
  Some (MeshHandler.mkPacket (MeshPacket.p_from p) (MeshPacket.p_to p) (MeshPacket.p_channel p) (MeshPacket.p_id p)
          (MeshPacket.p_hop_limit p) (MeshPacket.p_want_ack p) MeshHandler.PRIORITY_DEFAULT
          (MeshPacket.p_rx_time p) (MeshPacket.p_rx_snr p) (MeshPacket.p_rx_rssi p)
          (MeshHandler.PACKET_PAYLOAD_ENCRYPTED (payload_data (MeshPacket.p_payload p)))).

#[export] Instance repository : MeshModules := {
  MeshHandler.Channel := Channel.Channel;
  MeshHandler.channel_init := channel_init;
  MeshHandler.channel_set_key := Channel.channel_set_key;
  MeshHandler.channel_name := channel_name;
  MeshHandler.channel_encrypt := Channel.channel_encrypt;
  MeshHandler.channel_decrypt := Channel.channel_decrypt;
  MeshHandler.protobuf_encode_data d := encode_data d MAX_LORA_PAYLOAD;
  MeshHandler.protobuf_decode_data := protobuf_decode_data;
  MeshHandler.protobuf_encode_position p := encode_position p MAX_LORA_PAYLOAD;
  MeshHandler.protobuf_encode_user u := encode_user u MAX_LORA_PAYLOAD;
  MeshHandler.build_lora_packet := MeshPacket.build_lora_packet sha256_hash;
  MeshHandler.parse_lora_packet := parse_lora_packet
}.

(** ** What they do for the handler *)

Lemma decode_encoded d :
  data_ok d -> (length (data_bytes d) <= MAX_LORA_PAYLOAD)%nat -> protobuf_decode_data (data_bytes d) = Some d.
Proof.
  intros Hd Hl. unfold protobuf_decode_data, decode_data. unfold MAX_LORA_PAYLOAD in Hl.
  rewrite (parses_whole _ _ (data_bytes d) (Val d)); [done|by apply data_parses|lia|lia].
Qed.

(** packet.c drops the first byte of a payload, and payloads of one byte. *)
Lemma parse_built from to i channel hop_limit want_ack payload out :
  fits 32 from -> fits 32 to -> fits 32 i -> 0 <= channel < 8 -> 0 <= hop_limit < 8 ->
  MeshPacket.build_lora_packet sha256_hash from to i channel hop_limit want_ack payload = Some out ->
  length out = (length payload + 20)%nat
  /\ parse_lora_packet out
     = (if (length payload <=? 1)%nat then None
        else Some (MeshHandler.mkPacket from to channel i hop_limit want_ack MeshHandler.PRIORITY_DEFAULT 0 0 0
                     (MeshHandler.PACKET_PAYLOAD_ENCRYPTED (drop 1 payload)))).
Proof.
  intros Hf Ht Hi Hc Hh E.
  destruct (packet_build_parse sha256_hash from to i channel hop_limit want_ack payload Hf Ht Hi) as [_ Hw];
    [unfold fits; lia..|].
  destruct (Hw _ E) as [Hl Hp]. split; [exact Hl|]. unfold parse_lora_packet. rewrite Hp.
  destruct (_ <=? _)%nat; [done|]. cbn [mbind option_bind]. by rewrite !Z.mod_small by lia.
Qed.

#[export] Instance repository_laws : MeshModulesLaws channel_wf 1.
Proof.
  split.
  - intros d bytes Hd Hl E. cbn in E. rewrite encode_data_bytes in E by done. apply (inj Some) in E as <-.
    by apply decode_encoded.
  - intros ch i from plaintext ciphertext Hc E. pose proof (channel_crypt ch ch i from plaintext Hc eq_refl) as Hr.
    change (Channel.channel_encrypt ch i from plaintext = Some ciphertext) in E. rewrite E in Hr.
    destruct (decide _); [|by destruct Hr]. destruct Hr as (ct & [= <-] & _ & Hd). exact Hd.
  - intros from to i channel hop_limit want_ack payload out Hf Ht Hi Hc Hh E.
    destruct (parse_built from to i channel hop_limit want_ack payload out Hf Ht Hi Hc Hh E) as [Hl Hp].
    split; [|exact Hp]. rewrite Hl. unfold LORA_HEADER_SIZE, MIC_SIZE. lia.
Qed.

(** ** Properties *)


(** "hi" to everyone, on channels without a key: the other node does not show it. *)
Definition phone_node : MeshtasticHandler := meshtastic_handler_new (replicate 16 []) 0x11223344.
Definition radio_node : MeshtasticHandler := meshtastic_handler_new (replicate 16 []) 5.
Definition hello : list packet_item :=
  [PTo 0xFFFFFFFF; PVarint 9 300; PWantAck 1; PData [DPort 1; DPayload [104; 105]]; PHopLimit 7].
Definition hello_data : DataPayload := mkData 1 [104; 105] true 0xFFFFFFFF 0x11223344 0 0 0.

