(* ===== verification/SlotMap.v ===== *)
(** * Slot tables as finite maps

    Several components keep a fixed array of entries with a key, a value and an [occupied]
    flag, searched from the front. Here such an array, of any entry type, is related to a
    finite map: the three writes (update, clear, fill a slot) and the size. *)
From stdpp Require Import gmap.
From S2P Require Import Prelude.

(** One slot updated: the first match afterwards, when no other slot matches a key that
    the slot had or gets. *)
Lemma find_first_update {A} (P : A -> bool) es i e e' :
  es !! i = Some e ->
  (P e = true \/ P e' = true -> forall j x, j <> i -> es !! j = Some x -> P x = false) ->
  find_first P (<[i := e']> es) =
  if P e' then Some (i, e') else if P e then None else find_first P es.
Proof.
  intros Hi Ho. pose proof (lookup_lt_Some _ _ _ Hi) as Hlen.
  destruct (P e') eqn:He'; [|destruct (P e) eqn:He].
  - apply find_first_intro; [by rewrite list_lookup_insert_eq|done|].
    intros j y Hj. rewrite list_lookup_insert_ne by lia. apply Ho; [auto|lia].
  - apply find_first_None. intros x [j Hj]%list_elem_of_lookup.
    destruct (decide (i = j)) as [->|]; [rewrite list_lookup_insert_eq in Hj by done; congruence|].
    rewrite list_lookup_insert_ne in Hj by done. apply (Ho (or_introl eq_refl) j); auto.
  - clear Ho. revert i Hi Hlen. induction es as [|a es IH]; intros [|i] Hi Hlen; simpl in *; try done.
    + injection Hi as ->. by rewrite He, He'.
    + destruct (P a); [done|]. by rewrite (IH i) by (done || lia).
Qed.

Lemma filter_all {A} (P : A -> Prop) `{forall x, Decision (P x)} (l : list A) :
  (forall x, x ∈ l -> P x) -> filter P l = l.
Proof.
  induction l as [|x l IH]; intros Hl; [done|]. rewrite filter_cons, decide_True by (apply Hl; left).
  f_equal. apply IH. intros y Hy. apply Hl. by right.
Qed.

Section slots.
Context {E K V : Type} `{Countable K} (ek : E -> K) (ev : E -> V) (eo : E -> bool).

Definition slots_map (es : list E) : gmap K V :=
  list_to_map (omap (fun e => if eo e then Some (ek e, ev e) else None) es).

(** No key occupies two slots. *)
Definition slots_distinct (es : list E) : Prop :=
  forall i j x y, es !! i = Some x -> es !! j = Some y ->
  eo x = true -> eo y = true -> ek x = ek y -> i = j.

Definition slot_matches (k : K) (e : E) : bool := eo e && bool_decide (ek e = k).

Lemma slots_map_lookup es k :
  slots_map es !! k = (fun ie => ev ie.2) <$> find_first (slot_matches k) es.
Proof.
  induction es as [|e es IH]; [apply lookup_empty|].
  unfold slots_map. cbn [omap list_omap find_first]. unfold slot_matches at 1.
  destruct (eo e); cbn [andb].
  - cbn [list_to_map foldr]. case_bool_decide as Hk; subst; simpl.
    + by rewrite lookup_insert_eq.
    + rewrite lookup_insert_ne by done. fold (slots_map es). rewrite IH.
      by destruct (find_first (slot_matches k) es) as [[??]|].
  - fold (slots_map es). rewrite IH. by destruct (find_first (slot_matches k) es) as [[??]|].
Qed.

Lemma slots_distinct_tail e es : slots_distinct (e :: es) -> slots_distinct es.
Proof. clear dependent V. intros Hd i j x y ?????. assert (S i = S j) by eauto. lia. Qed.

Lemma slots_size es :
  slots_distinct es -> size (slots_map es) = length (filter (fun e => eo e = true) es).
Proof.
  induction es as [|e es IH]; intros Hd; [apply map_size_empty|].
  pose proof (IH (slots_distinct_tail _ _ Hd)) as IH'. rewrite filter_cons.
  unfold slots_map in *. cbn [omap list_omap]. destruct (eo e) eqn:He.
  - rewrite decide_True by done. cbn [list_to_map foldr fst snd uncurry length].
    rewrite map_size_insert_None, IH'; [done|].
    change (slots_map es !! ek e = None). rewrite slots_map_lookup.
    replace (find_first (slot_matches (ek e)) es) with (@None (nat * E)); [done|].
    symmetry. apply find_first_None. intros x [j Hj]%list_elem_of_lookup. unfold slot_matches.
    destruct (eo x) eqn:Hx; [|done]. apply bool_decide_eq_false. intros Hk.
    assert (0%nat = S j); [|done]. by apply (Hd 0%nat (S j) e x).
  - by rewrite decide_False by done.
Qed.

Lemma slots_size_le es : slots_distinct es -> (size (slots_map es) <= length es)%nat.
Proof. intros Hd. rewrite slots_size by done. apply length_filter. Qed.

Lemma slots_full es :
  slots_distinct es -> (forall e, e ∈ es -> eo e = true) -> size (slots_map es) = length es.
Proof. intros Hd He. by rewrite slots_size, filter_all. Qed.

Lemma slots_free es :
  slots_distinct es -> (size (slots_map es) < length es)%nat ->
  exists i e, find_first (fun e => negb (eo e)) es = Some (i, e) /\ es !! i = Some e /\ eo e = false.
Proof.
  intros Hd Hs. destruct (find_first _ es) as [[i e]|] eqn:Hf.
  - apply find_first_inv in Hf as (Hi & Ho%negb_true_iff & _). eauto.
  - exfalso. rewrite find_first_None in Hf. rewrite slots_full in Hs; [lia|done|].
    intros e He%Hf. by apply negb_false_iff in He.
Qed.

Lemma slot_found es k i e :
  find_first (slot_matches k) es = Some (i, e) -> es !! i = Some e /\ eo e = true /\ ek e = k.
Proof.
  intros (Hi & [Ho Hk%bool_decide_eq_true]%andb_true_iff & _)%find_first_inv. done.
Qed.

Lemma slot_unique es k i e :
  slots_distinct es -> es !! i = Some e -> slot_matches k e = true ->
  forall j x, j <> i -> es !! j = Some x -> slot_matches k x = false.
Proof.
  unfold slot_matches. intros Hd Hi [Ho Hk%bool_decide_eq_true]%andb_true_iff j x Hj Hx.
  destruct (eo x) eqn:Hox; [|done]. apply bool_decide_eq_false. intros Hkx.
  apply Hj. apply (Hd j i x e); congruence.
Qed.

Lemma slots_map_Some es k c :
  slots_distinct es ->
  slots_map es !! k = Some c <-> exists e, e ∈ es /\ eo e = true /\ ek e = k /\ ev e = c.
Proof.
  intros Hd. rewrite slots_map_lookup. split.
  - destruct (find_first (slot_matches k) es) as [[i e]|] eqn:Hf; [|done]. cbn. intros [= <-].
    apply slot_found in Hf as (Hi & Ho & Hk). exists e. eauto using list_elem_of_lookup_2.
  - intros (e & [i Hi]%list_elem_of_lookup & Ho & Hk & <-).
    assert (slot_matches k e = true) as He by (unfold slot_matches; by rewrite Ho, bool_decide_eq_true_2).
    rewrite (find_first_intro _ _ i e); [done..|]. intros j y Hj. by apply (slot_unique es k i e); [..|lia].
Qed.

(** ** The three writes *)

Lemma slot_update es i e e' :
  slots_distinct es -> es !! i = Some e -> eo e = true -> eo e' = true -> ek e' = ek e ->
  slots_distinct (<[i := e']> es) /\ slots_map (<[i := e']> es) = <[ek e := ev e']> (slots_map es).
Proof.
  intros Hd Hi Ho Ho' Hk'. pose proof (lookup_lt_Some _ _ _ Hi) as Hlen. split.
  - intros j j' x y Hx Hy. apply list_lookup_insert_Some in Hx, Hy.
    destruct Hx as [(<- & <- & _)|(Hj & Hx)], Hy as [(<- & <- & _)|(Hj' & Hy)]; rewrite ?Hk'; intros; eauto.
  - apply map_eq. intros k. rewrite slots_map_lookup, (find_first_update _ _ i e) by
      (done || (intros Hor; apply (slot_unique _ k i e); [done..|];
        destruct Hor as [?|Hor]; [done|]; unfold slot_matches in *; rewrite Ho', Hk' in Hor; by rewrite Ho)).
    unfold slot_matches at 1 2. rewrite Ho, Ho', Hk'. cbn [andb].
    case_bool_decide as Hk; [subst; by rewrite lookup_insert_eq|].
    by rewrite lookup_insert_ne, slots_map_lookup.
Qed.

Lemma slot_clear es i e e' :
  slots_distinct es -> es !! i = Some e -> eo e = true -> eo e' = false ->
  slots_distinct (<[i := e']> es) /\ slots_map (<[i := e']> es) = delete (ek e) (slots_map es).
Proof.
  intros Hd Hi Ho Ho'. split.
  - intros j j' x y Hx Hy. apply list_lookup_insert_Some in Hx, Hy.
    destruct Hx as [(<- & <- & _)|(Hj & Hx)], Hy as [(<- & <- & _)|(Hj' & Hy)]; intros; eauto; congruence.
  - assert (forall k, slot_matches k e' = false) as Hf by (intros k; unfold slot_matches; by rewrite Ho').
    apply map_eq. intros k. rewrite slots_map_lookup, (find_first_update _ _ i e) by
      (done || (intros [?|?]; [by apply (slot_unique _ k i e)|by rewrite Hf in *])).
    rewrite Hf. unfold slot_matches at 1. rewrite Ho. cbn [andb].
    case_bool_decide as Hk; [subst; by rewrite lookup_delete_eq|].
    by rewrite lookup_delete_ne, slots_map_lookup.
Qed.

Lemma slot_fill es i e e' :
  slots_distinct es -> es !! i = Some e -> eo e = false -> eo e' = true ->
  slots_map es !! ek e' = None ->
  slots_distinct (<[i := e']> es) /\ slots_map (<[i := e']> es) = <[ek e' := ev e']> (slots_map es).
Proof.
  intros Hd Hi Ho Ho' Hn. rewrite slots_map_lookup in Hn. apply fmap_None in Hn.
  rewrite find_first_None in Hn.
  assert (forall j x, es !! j = Some x -> eo x = true -> ek x <> ek e') as Hk.
  { intros j x Hx Hox Hkx. specialize (Hn x (list_elem_of_lookup_2 _ _ _ Hx)).
    unfold slot_matches in Hn. rewrite Hox in Hn. by apply bool_decide_eq_false in Hn. }
  split.
  - intros j j' x y Hx Hy. apply list_lookup_insert_Some in Hx, Hy.
    destruct Hx as [(<- & <- & _)|(Hj & Hx)], Hy as [(<- & <- & _)|(Hj' & Hy)]; intros; eauto.
    + exfalso. by apply (Hk j' y).
    + exfalso. by apply (Hk j x).
  - apply map_eq. intros k'. rewrite slots_map_lookup, (find_first_update _ _ i e); [|done|].
    + unfold slot_matches at 1 2. rewrite Ho, Ho'. cbn [andb].
      case_bool_decide as Hkk; [subst; by rewrite lookup_insert_eq|].
      by rewrite lookup_insert_ne, slots_map_lookup.
    + unfold slot_matches. rewrite Ho, Ho'. cbn [andb].
      intros [?|?%bool_decide_eq_true] j x _ Hx; [done|subst].
      by apply Hn, (list_elem_of_lookup_2 _ j).
Qed.
End slots.
