(* ===== verification/Nvs.v ===== *)
(** * Key-value storage of the ESP32

    The calls contact.c, session.c and identity.c make on ESP-IDF's key-value storage. The
    storage is outside the repository: a save is modelled by the writes it makes, a load is
    given the answers of the reads. *)
From S2P Require Import Prelude.

Inductive nvs_op :=
  | nvs_flash_init
  | nvs_set_u32 (k : list Z) (v : Z)
  | nvs_set_blob (k blob : list Z)
  | nvs_commit.

(** What a later read gives for a write that succeeded. *)
Definition reads_back (get_u32 : list Z -> option Z) (get_blob : list Z -> option (list Z))
    (op : nvs_op) : Prop :=
  match op with
  | nvs_set_u32 k v => get_u32 k = Some v
  | nvs_set_blob k b => get_blob k = Some b
  | nvs_flash_init | nvs_commit => True
  end.

(** The decimal index of a key: one digit below 10, two from there on. *)
Lemma decimal_key_inj prefix i j (name := fun idx => prefix ++
    (if (idx <? 10)%nat then [48 + Z.of_nat idx] else [48 + Z.of_nat (idx / 10); 48 + Z.of_nat (idx mod 10)])) :
  (i < 100)%nat -> (j < 100)%nat -> name i = name j -> i = j.
Proof.
  intros Hi Hj E. apply (app_inj_1 prefix prefix) in E as [_ E]; [|done]. revert E.
  pose proof (Nat.div_mod_eq i 10) as Ei. pose proof (Nat.div_mod_eq j 10) as Ej.
  remember (i / 10)%nat as qi. remember (i mod 10)%nat as ri.
  remember (j / 10)%nat as qj. remember (j mod 10)%nat as rj.
  destruct (Nat.ltb_spec i 10), (Nat.ltb_spec j 10); intros [=]; lia.
Qed.
