(* ===== verification/Identity.v ===== *)
(** * Node identity: lunarcore/lunar/identity.c

    Keys derived from a seed, the encrypted record in flash, the identity manager and the
    global functions over it. SHA-256, ChaCha20, [ed25519_public_key] and X25519 are those of
    the crypto directory; signing and verification are arguments (the calls have other
    parameters than the functions of ed25519.c), and so are the random generator's answers,
    the fuses of the chip and the answers of the key-value storage. X25519 is called as it is
    declared (x25519.c, session.c): the output first. A call that finds no health in the random
    generator, or no memory, aborts the program: [None]. *)
From S2P Require Import Prelude Sha256 ChaCha20 Sha512 X25519 Ed25519 Nvs.

(** ** Constants *)

Definition SEED_SIZE : nat := 32.
Definition NONCE_SIZE : nat := 12.

(** "LunarCore Signing v1", "LunarCore Encryption v1". *)
Definition KDF_CONTEXT_SIGNING : list Z :=
  [76; 117; 110; 97; 114; 67; 111; 114; 101; 32; 83; 105; 103; 110; 105; 110; 103; 32; 118; 49].
Definition KDF_CONTEXT_ENCRYPTION : list Z :=
  [76; 117; 110; 97; 114; 67; 111; 114; 101; 32; 69; 110; 99; 114; 121; 112; 116; 105; 111; 110; 32; 118; 49].
(** "LunarCore Storage Key v1" and eight zeros. *)
Definition storage_label : list Z :=
  [76; 117; 110; 97; 114; 67; 111; 114; 101; 32; 83; 116; 111; 114; 97; 103; 101; 32; 75; 101; 121; 32; 118; 49] ++ replicate 8 0.
(** "identity". *)
Definition identity_key : list Z := [105; 100; 101; 110; 116; 105; 116; 121].

(** ** Data *)

Record Identity := mkIdentity {
  signing_key : list Z;
  public_key : list Z;
  encryption_key : list Z;
  encryption_public : list Z;
  created_at : Z
}.

Record EncryptedIdentity := mkEncrypted { ciphertext : list Z; nonce : list Z; tag : list Z }.

Record IdentityManager := mkManager { current : option Identity; storage_key : list Z }.

(** ** Identities *)

Definition identity_derive_key (seed context : list Z) : list Z :=
  let copy_len := if (length context <? 32)%nat then length context else 32%nat in
  let input := take 32 seed ++ take copy_len context ++ replicate (32 - copy_len) 0 in
  sha256_hash input.

(** [x25519_base(out, scalar)] on the two fields: the first is written. *)
Definition x25519_base_call (out scalar : list Z) : list Z * list Z := (x25519_base scalar, scalar).

Definition identity_from_seed (seed : list Z) : Identity :=
  let signing := identity_derive_key seed KDF_CONTEXT_SIGNING in
  let public := ed25519_public_key sha512 signing in
  let encryption := identity_derive_key seed KDF_CONTEXT_ENCRYPTION in
  let '(encryption, encryption_pub) := x25519_base_call encryption (replicate 32 0) in
  mkIdentity signing public encryption encryption_pub 0.

(** [seed]: what fill_random_checked gives; the program aborts on [None]. *)
Definition identity_generate (seed : option (list Z)) : option Identity := identity_from_seed <$> seed.

Definition identity_public_key (identity : Identity) : list Z := public_key identity.
Definition identity_encryption_public_key (identity : Identity) : list Z := encryption_public identity.

Definition identity_node_id (identity : Identity) : Z :=
  let hash := sha256_hash (public_key identity) in
  u32 (hash.[0] .| (hash.[1] .<< 8) .| (hash.[2] .<< 16) .| (hash.[3] .<< 24)).

Definition hex_char (nibble : Z) : Z :=
  if nibble <=? 9 then u8 (48 + nibble) else if nibble <=? 15 then u8 (97 + (nibble - 10)) else 63.

Definition identity_short_id (identity : Identity) : list Z :=
  let hash := sha256_hash (public_key identity) in
  concat ((fun byte => [hex_char (byte .>> 4); hex_char (byte .& 0x0F)]) <$> take 4 hash).

(** The identity and the output after the call: [x25519(encryption_key, their_public, output)]
    writes the key. *)
Definition identity_key_agree (identity : Identity) (their_public output : list Z) : Identity * list Z :=
  (mkIdentity (signing_key identity) (public_key identity) (x25519 their_public output)
     (encryption_public identity) (created_at identity), output).

(** ** The record in flash *)

Definition identity_plaintext (identity : Identity) : list Z :=
  signing_key identity ++ encryption_key identity
  ++ [created_at identity .& 0xFF; (created_at identity .>> 8) .& 0xFF;
      (created_at identity .>> 16) .& 0xFF; (created_at identity .>> 24) .& 0xFF]
  ++ replicate 60 0.

(** [random]: the nonce; the program aborts on [None]. *)
Definition identity_encrypt_for_storage (identity : Identity) (key : list Z) (random : option (list Z))
    : option EncryptedIdentity :=
  match random with
  | None => None
  | Some nonce =>
      let cipher := chacha20_new key nonce in
      let ciphertext := chacha20_encrypt cipher (identity_plaintext identity) in
      Some (mkEncrypted ciphertext nonce (sha256_hash (ciphertext ++ nonce)))
  end.

Definition identity_decrypt_from_storage (encrypted : EncryptedIdentity) (key : list Z) : option Identity :=
  let expected_tag := sha256_hash (ciphertext encrypted ++ nonce encrypted) in
  if negb (constant_time_eq (tag encrypted) expected_tag) then None
  else
    let cipher := chacha20_new key (nonce encrypted) in
    let plaintext := chacha20_decrypt cipher (ciphertext encrypted) in
    let signing := slice plaintext 0 32 in
    let created := plaintext.[64] .| (plaintext.[65] .<< 8) .| (plaintext.[66] .<< 16) .| (plaintext.[67] .<< 24) in
    let public := ed25519_public_key sha512 signing in
    let '(encryption, encryption_pub) := x25519_base_call (slice plaintext 32 32) (replicate 32 0) in
    Some (mkIdentity signing public encryption encryption_pub created).

Definition identity_export_seed (identity : Identity) : list Z := take SEED_SIZE (signing_key identity).

Definition encrypted_identity_to_bytes (encrypted : EncryptedIdentity) : list Z :=
  ciphertext encrypted ++ nonce encrypted ++ tag encrypted.
Definition encrypted_identity_from_bytes (bytes : list Z) : EncryptedIdentity :=
  mkEncrypted (slice bytes 0 128) (slice bytes 128 NONCE_SIZE) (slice bytes (128 + NONCE_SIZE) 32).

(** ** The manager *)

(** [efuse]: eight words of the chip. *)
Definition identity_manager_derive_storage_key (efuse : list Z) : list Z :=
  let efuse_data := concat ((fun v => [v .& 0xFF; (v .>> 8) .& 0xFF; (v .>> 16) .& 0xFF; (v .>> 24) .& 0xFF])
                            <$> efuse) in
  sha256_hash (efuse_data ++ storage_label).

Definition identity_manager_new (efuse : list Z) : IdentityManager :=
  mkManager None (identity_manager_derive_storage_key efuse).

(** [get_blob]: what nvs_open and nvs_get_blob give. *)
Definition identity_manager_load_from_flash (m : IdentityManager) (get_blob : list Z -> option (list Z))
    : option Identity :=
  match get_blob identity_key with
  | Some bytes =>
      if (length bytes =? 128 + NONCE_SIZE + 32)%nat
      then identity_decrypt_from_storage (encrypted_identity_from_bytes bytes) (storage_key m)
      else None
  | None => None
  end.

(** The writes, if the storage opens; [None] when the program aborts. *)
Definition identity_manager_save_to_flash (m : IdentityManager) (identity : Identity)
    (random : option (list Z)) (opened : bool) : option (list nvs_op) :=
  match identity_encrypt_for_storage identity (storage_key m) random with
  | None => None
  | Some encrypted =>
      Some (if opened then [nvs_set_blob identity_key (encrypted_identity_to_bytes encrypted); nvs_commit] else [])
  end.

(** Save and make current. *)
Definition install (m : IdentityManager) (identity : Identity) (random : option (list Z)) (opened : bool)
    : option (IdentityManager * list nvs_op) :=
  match identity_manager_save_to_flash m identity random opened with
  | None => None
  | Some ops => Some (mkManager (Some identity) (storage_key m), ops)
  end.

Definition identity_manager_init (m : IdentityManager) (get_blob : list Z -> option (list Z))
    (seed random : option (list Z)) (opened : bool) : option (IdentityManager * list nvs_op) :=
  match identity_manager_load_from_flash m get_blob with
  | Some loaded => Some (mkManager (Some loaded) (storage_key m), [])
  | None =>
      match identity_generate seed with
      | None => None
      | Some new_identity => install m new_identity random opened
      end
  end.

Definition identity_manager_current (m : IdentityManager) : option Identity := current m.

Definition identity_manager_rotate (m : IdentityManager) (seed random : option (list Z)) (opened : bool)
    : option (IdentityManager * list nvs_op) :=
  match identity_generate seed with
  | None => None
  | Some new_identity => install m new_identity random opened
  end.

Definition identity_manager_import_seed (m : IdentityManager) (seed : list Z) (random : option (list Z))
    (opened : bool) : option (IdentityManager * list nvs_op) :=
  install m (identity_from_seed seed) random opened.

(** ** The global functions *)

(** IDENTITY_MANAGER and IDENTITY_INIT. *)
Record Globals := mkGlobals { IDENTITY_MANAGER : option IdentityManager; IDENTITY_INIT : bool }.

(** What the first call finds: fuses, stored blob, random seed and nonce, storage. *)
Record Env := mkEnv {
  env_efuse : list Z; env_get_blob : list Z -> option (list Z);
  env_seed : option (list Z); env_random : option (list Z); env_opened : bool
}.

Definition globals_init : Globals := mkGlobals None false.

Definition identity_init (env : Env) (g : Globals) : option Globals :=
  if IDENTITY_INIT g then Some g
  else
    match identity_manager_init (identity_manager_new (env_efuse env)) (env_get_blob env) (env_seed env)
            (env_random env) (env_opened env) with
    | Some (manager, _) => Some (mkGlobals (Some manager) true)
    | None => None
    end.

(** [identity_init()] and the manager; without one the program would read address 0. *)
Definition with_manager {A} (env : Env) (g : Globals) (f : IdentityManager -> A) : option (Globals * A) :=
  match identity_init env g with
  | Some g' =>
      match IDENTITY_MANAGER g' with
      | Some manager => Some (g', f manager)
      | None => None
      end
  | None => None
  end.

Definition global_node_id (env : Env) (g : Globals) : option (Globals * Z) :=
  with_manager env g (fun m =>
    match current m with Some id => identity_node_id id | None => 0 end).
Definition global_public_key (env : Env) (g : Globals) : option (Globals * option (list Z)) :=
  with_manager env g (fun m => identity_public_key <$> current m).
Definition global_encryption_public_key (env : Env) (g : Globals) : option (Globals * option (list Z)) :=
  with_manager env g (fun m => identity_encryption_public_key <$> current m).
Definition global_sign (ed25519_sign : list Z -> list Z -> list Z) (env : Env) (g : Globals) (message : list Z)
    : option (Globals * option (list Z)) :=
  with_manager env g (fun m => (fun id => ed25519_sign (signing_key id) message) <$> current m).
(** [None] inside: no identity, the call fails. *)
Definition global_key_agree (env : Env) (g : Globals) (their_public output : list Z)
    : option (Globals * option (list Z)) :=
  match with_manager env g (fun m => m) with
  | Some (g', m) =>
      match current m with
      | Some id =>
          let '(id, output) := identity_key_agree id their_public output in
          Some (mkGlobals (Some (mkManager (Some id) (storage_key m))) (IDENTITY_INIT g'), Some output)
      | None => Some (g', None)
      end
  | None => None
  end.
Definition global_rotate (env : Env) (g : Globals) (seed random : option (list Z)) (opened : bool)
    : option (Globals * list nvs_op * Z) :=
  match with_manager env g (fun m => m) with
  | Some (g', m) =>
      match identity_manager_rotate m seed random opened with
      | Some (m', ops) =>
          Some (mkGlobals (Some m') (IDENTITY_INIT g'), ops,
                match current m' with Some id => identity_node_id id | None => 0 end)
      | None => None
      end
  | None => None
  end.

(** ** Lemmas *)

(** The key every identity ends up with: the product of the scalar zero. *)
Definition shared_key : list Z := x25519_base (replicate 32 0).

Lemma shared_key_ok : length shared_key = 32%nat /\ bytes_ok shared_key.
Proof.
  unfold shared_key, x25519_base.
  assert (bytes_ok (replicate 32 0) /\ bytes_ok X25519.basepoint) as [Hz Hb].
  { split; apply (bool_decide_unpack _); vm_compute; exact I. }
  rewrite x25519_spec by (done || reflexivity). split; [apply length_le_bytes|apply le_bytes_ok].
Qed.

#[local] Opaque sha256_hash sha512 x25519 x25519_base ed25519_public_key chacha20_new chacha20_apply_keystream
  chacha20_encrypt chacha20_decrypt key_stream Z.land Z.lor Z.shiftl Z.shiftr.

(** What the derivation and the storage share: the public part follows from the signing key. *)
Definition derived (signing : list Z) (created : Z) : Identity :=
  mkIdentity signing (ed25519_public_key sha512 signing) shared_key (replicate 32 0) created.

Definition identity_wf (id : Identity) : Prop :=
  length (signing_key id) = 32%nat /\ bytes_ok (signing_key id) /\ length (encryption_key id) = 32%nat
  /\ bytes_ok (encryption_key id)
  /\ public_key id = ed25519_public_key sha512 (signing_key id) /\ fits 32 (created_at id).

Lemma from_seed_derived seed : identity_from_seed seed = derived (identity_derive_key seed KDF_CONTEXT_SIGNING) 0.
Proof. reflexivity. Qed.

Lemma derived_wf signing created : length signing = 32%nat -> bytes_ok signing -> fits 32 created ->
  identity_wf (derived signing created).
Proof. intros. destruct shared_key_ok. unfold identity_wf, derived. cbn [signing_key public_key encryption_key created_at]. by split_and!. Qed.

Lemma derive_key_ok seed context :
  length (identity_derive_key seed context) = 32%nat /\ bytes_ok (identity_derive_key seed context).
Proof. split; [apply (digest_length (H:=sha256_hash))|apply (digest_ok (H:=sha256_hash))]. Qed.

#[local] Opaque identity_derive_key.

Lemma from_seed_wf seed : identity_wf (identity_from_seed seed).
Proof. rewrite from_seed_derived. by apply derived_wf; [apply derive_key_ok| apply derive_key_ok|]. Qed.

Lemma identity_plaintext_eq id :
  identity_plaintext id = signing_key id ++ encryption_key id ++ le_bytes 4 (created_at id) ++ replicate 60 0.
Proof.
  unfold identity_plaintext. rewrite <- wr32_eq, !land_ff, !u8_u8. reflexivity.
Qed.

(** The identity in a plaintext of the record. *)
Definition from_plaintext (plaintext : list Z) : Identity :=
  derived (slice plaintext 0 32)
    (plaintext.[64] .| (plaintext.[65] .<< 8) .| (plaintext.[66] .<< 16) .| (plaintext.[67] .<< 24)).

Lemma decrypt_eq c n t k : identity_decrypt_from_storage (mkEncrypted c n t) k
  = if bool_decide (t = sha256_hash (c ++ n)) then Some (from_plaintext (chacha20_decrypt (chacha20_new k n) c)) else None.
Proof.
  unfold identity_decrypt_from_storage. cbn [ciphertext nonce tag].
  pose proof (constant_time_eq_spec t (sha256_hash (c ++ n))) as Hs.
  case_bool_decide as Ht; destruct (constant_time_eq _ _); cbn [negb].
  - reflexivity.
  - destruct Hs as [_ Hs]. discriminate Hs. exact Ht.
  - destruct Ht. by apply Hs.
  - reflexivity.
Qed.

Lemma from_plaintext_ok id : identity_wf id ->
  from_plaintext (identity_plaintext id) = derived (signing_key id) (created_at id).
Proof.
  intros (Hl & Hb & He & _ & _ & Hc). rewrite identity_plaintext_eq. unfold from_plaintext.
  assert (slice (signing_key id ++ encryption_key id ++ le_bytes 4 (created_at id) ++ replicate 60 0) 0 32
    = signing_key id) as ->.
  { rewrite slice_app_l by lia. apply slice_all. lia. }
  f_equal. set (v := created_at id) in *.
  assert (forall i, (i < 4)%nat ->
    (signing_key id ++ encryption_key id ++ le_bytes 4 v ++ replicate 60 0).[64 + i] = (le_bytes 4 v).[i]) as Hg.
  { intros i Hi. unfold arr. rewrite app_assoc, lookup_app_r by (rewrite length_app; lia).
    rewrite length_app, Hl, He. replace (64 + i - (32 + 32))%nat with i by lia.
    rewrite lookup_app_l by (by rewrite length_le_bytes). done. }
  pose proof (Hg 0%nat ltac:(lia)) as G0. pose proof (Hg 1%nat ltac:(lia)) as G1.
  pose proof (Hg 2%nat ltac:(lia)) as G2. pose proof (Hg 3%nat ltac:(lia)) as G3.
  change (64 + 0)%nat with 64%nat in G0. change (64 + 1)%nat with 65%nat in G1.
  change (64 + 2)%nat with 66%nat in G2. change (64 + 3)%nat with 67%nat in G3. rewrite G0, G1, G2, G3.
  rewrite <- (le_val_fits 4 v) at 5 by done.
  cbn [le_bytes]. unfold arr. cbn [lookup list_lookup default]. apply le32_eq; apply fits_u8.
Qed.

Lemma length_plaintext id : identity_wf id -> length (identity_plaintext id) = 128%nat.
Proof.
  intros (Hl & _ & He & _). rewrite identity_plaintext_eq, !length_app, length_le_bytes, length_replicate. lia.
Qed.

(** A record as the encryption writes it. *)
Definition sealed (id : Identity) (key nonce : list Z) : EncryptedIdentity :=
  let ciphertext := chacha20_encrypt (chacha20_new key nonce) (identity_plaintext id) in
  mkEncrypted ciphertext nonce (sha256_hash (ciphertext ++ nonce)).

Lemma encrypt_sealed id key nonce : identity_encrypt_for_storage id key (Some nonce) = Some (sealed id key nonce).
Proof. reflexivity. Qed.

Lemma sealed_opens id key nonce : identity_wf id ->
  identity_decrypt_from_storage (sealed id key nonce) key = Some (derived (signing_key id) (created_at id)).
Proof.
  intros Hw. unfold sealed. rewrite decrypt_eq, bool_decide_true, decrypt_encrypt by (done || apply chacha_wf_new).
  by rewrite from_plaintext_ok.
Qed.

Lemma sealed_bytes id key iv : identity_wf id -> length iv = NONCE_SIZE ->
  length (encrypted_identity_to_bytes (sealed id key iv)) = 172%nat
  /\ encrypted_identity_from_bytes (encrypted_identity_to_bytes (sealed id key iv)) = sealed id key iv.
Proof.
  intros Hw Hn. pose proof (length_plaintext id Hw) as Hp.
  unfold encrypted_identity_to_bytes, encrypted_identity_from_bytes, sealed. cbn [ciphertext nonce tag].
  set (c := chacha20_encrypt _ _). assert (length c = 128%nat) as Hc.
  { subst c. rewrite <- Hp. Transparent chacha20_encrypt. apply length_apply_keystream, chacha_wf_new.
    Opaque chacha20_encrypt. }
  set (t := sha256_hash _). assert (length t = 32%nat) as Ht by apply digest_length.
  split; [rewrite !length_app, Hc, Hn, Ht; reflexivity|]. f_equal.
  - by apply (slice_cut [] c (iv ++ t)).
  - by apply (slice_cut c iv t).
  - apply (slice_cut (c ++ iv) t []); [by rewrite app_nil_r, <- app_assoc|by rewrite length_app, Hc, Hn|done].
Qed.

(** ** Derivation *)

(** Whatever the seed, the encryption key is the product of the scalar zero and the encryption
    public key is zero: the derived encryption key is overwritten before it is used. Key
    agreement overwrites the private key and leaves the caller's output as it was. *)
Theorem encryption_keys_shared seed seed' their_public output :
  let id := identity_from_seed seed in
  encryption_key id = encryption_key (identity_from_seed seed')
  /\ identity_encryption_public_key id = replicate 32 0
  /\ (identity_key_agree id their_public output).2 = output
  /\ encryption_key (identity_key_agree id their_public output).1 = x25519 their_public output
  /\ public_key (identity_key_agree id their_public output).1 = public_key id.
Proof.
  cbv zeta. rewrite !from_seed_derived. unfold identity_key_agree, identity_encryption_public_key, derived.
  cbn [encryption_key public_key encryption_public fst snd]. split; [reflexivity|]. split; [reflexivity|]. split; [reflexivity|].
  split; reflexivity.
Qed.

(** The exported seed is the signing key, not the seed: importing it gives another identity. *)
Theorem export_is_not_seed :
  (forall seed, identity_export_seed (identity_from_seed seed) = identity_derive_key seed KDF_CONTEXT_SIGNING)
  /\ let id := identity_from_seed (replicate 32 0x42) in
     signing_key (identity_from_seed (identity_export_seed id)) <> signing_key id.
Proof.
  assert (forall seed, identity_export_seed (identity_from_seed seed)
    = identity_derive_key seed KDF_CONTEXT_SIGNING) as He.
  { intros seed. unfold identity_export_seed. rewrite from_seed_derived. cbn [derived signing_key].
    apply take_ge. rewrite (proj1 (derive_key_ok seed _)). unfold SEED_SIZE. lia. }
  split; [exact He|]. cbv zeta. rewrite He, !from_seed_derived. cbn [derived signing_key].
  Transparent identity_derive_key sha256_hash Z.land Z.lor Z.shiftl Z.shiftr.
  apply (bool_decide_unpack _). vm_compute. exact I.
Qed.
#[local] Opaque sha256_hash identity_derive_key Z.land Z.lor Z.shiftl Z.shiftr.

(** The short name is the hexadecimal text of the node's number, low byte first. *)
Theorem short_id_of_node_id id :
  identity_short_id id
  = concat ((fun byte => [hex_char (byte / 16); hex_char (byte mod 16)]) <$> le_bytes 4 (identity_node_id id))
  /\ fits 32 (identity_node_id id).
Proof.
  split; [|apply fits_u32]. unfold identity_short_id, identity_node_id. set (h := sha256_hash _).
  assert (length h = 32%nat) as Hl by apply digest_length. assert (bytes_ok h) as Hh by apply digest_ok.
  do 4 (destruct h as [|? h]; [discriminate Hl|]). unfold arr. cbn [lookup list_lookup default take].
  rewrite !Forall_cons in Hh. destruct Hh as (H0 & H1 & H2 & H3 & _).
  match goal with |- context [u32 (?a .| (?b .<< 8) .| (?c .<< 16) .| (?d .<< 24))] =>
    rewrite (le32_eq a b c d) by done;
    assert (le_bytes 4 (u32 (le_val [a; b; c; d])) = [a; b; c; d]) as -> end.
  { rewrite u32_small; [|apply (le_val_bound [_; _; _; _]); solve_bytes].
    apply (le_bytes_le_val [_; _; _; _]). solve_bytes. }
  f_equal. apply list_fmap_ext. intros _ b _. change 0x0F with (Z.ones 4). rewrite Z.land_ones by done.
  by rewrite Z.shiftr_div_pow2.
Qed.

(** ** Storage *)

(** The record in flash: it opens again, after its 172 bytes, to the identity that was written. *)
Theorem identity_storage_roundtrip seed key iv : length iv = NONCE_SIZE ->
  exists encrypted, identity_encrypt_for_storage (identity_from_seed seed) key (Some iv) = Some encrypted
  /\ length (encrypted_identity_to_bytes encrypted) = 172%nat
  /\ encrypted_identity_from_bytes (encrypted_identity_to_bytes encrypted) = encrypted
  /\ identity_decrypt_from_storage encrypted key = Some (identity_from_seed seed).
Proof.
  intros Hn. exists (sealed (identity_from_seed seed) key iv). pose proof (from_seed_wf seed) as Hw.
  destruct (sealed_bytes _ key iv Hw Hn) as [Hl Hb]. split; [apply encrypt_sealed|].
  split; [exact Hl|]. split; [exact Hb|]. rewrite sealed_opens by done. by rewrite from_seed_derived.
Qed.
Lemma identity_storage_roundtrip_witness :
  exists encrypted,
  identity_encrypt_for_storage (identity_from_seed (replicate 32 0x42)) (replicate 32 0x55) (Some (replicate 12 7))
    = Some encrypted
  /\ length (encrypted_identity_to_bytes encrypted) = 172%nat
  /\ encrypted_identity_from_bytes (encrypted_identity_to_bytes encrypted) = encrypted
  /\ identity_decrypt_from_storage encrypted (replicate 32 0x55) = Some (identity_from_seed (replicate 32 0x42)).
Proof. apply identity_storage_roundtrip. reflexivity. Defined.

Lemma decrypt_xor self c d : chacha_wf self -> length d = length c ->
  chacha20_decrypt self (xor_bytes c d) = xor_bytes (chacha20_decrypt self c) d.
Proof.
  Transparent chacha20_decrypt. intros Hw Hd. unfold chacha20_decrypt. rewrite !apply_keystream_spec by done.
  assert (length (xor_bytes c d) = length c) as -> by (rewrite length_xor_bytes; lia).
  generalize (key_stream self (length c)). clear Hw. revert d Hd.
  induction c as [|x c IH]; intros [|y d] Hd [|z k]; try done. cbn. f_equal; [|apply IH; injection Hd; lia].
  rewrite !Z.lxor_assoc. f_equal. apply Z.lxor_comm. Opaque chacha20_decrypt.
Qed.

(** The tag has no key: every key opens the record, and a record whose ciphertext was changed
    opens to the plaintext changed in the same bits, once its tag is recomputed. *)
Theorem storage_tag_unkeyed id key key' iv delta : length delta = 128%nat -> identity_wf id ->
  let encrypted := sealed id key iv in
  let changed := xor_bytes (ciphertext encrypted) delta in
  is_Some (identity_decrypt_from_storage encrypted key')
  /\ identity_decrypt_from_storage (mkEncrypted changed iv (sha256_hash (changed ++ iv))) key
     = Some (from_plaintext (xor_bytes (identity_plaintext id) delta)).
Proof.
  intros Hd Hw. cbv zeta. split.
  - unfold sealed. rewrite decrypt_eq, bool_decide_true by done. by eexists.
  - rewrite decrypt_eq, bool_decide_true by done. f_equal. f_equal. unfold sealed. cbn [ciphertext].
    assert (length (chacha20_encrypt (chacha20_new key iv) (identity_plaintext id)) = 128%nat) as Hc.
    { rewrite <- (length_plaintext id Hw). Transparent chacha20_encrypt. apply length_apply_keystream, chacha_wf_new.
      Opaque chacha20_encrypt. }
    rewrite decrypt_xor by (apply chacha_wf_new || by rewrite Hc).
    rewrite decrypt_encrypt by apply chacha_wf_new. reflexivity.
Qed.
Lemma storage_tag_unkeyed_witness :
  let id := identity_from_seed (replicate 32 0x42) in
  let encrypted := sealed id (replicate 32 0x55) (replicate 12 7) in
  let changed := xor_bytes (ciphertext encrypted) (replicate 128 1) in
  is_Some (identity_decrypt_from_storage encrypted (replicate 32 0xAA))
  /\ identity_decrypt_from_storage (mkEncrypted changed (replicate 12 7) (sha256_hash (changed ++ replicate 12 7)))
       (replicate 32 0x55)
     = Some (from_plaintext (xor_bytes (identity_plaintext id) (replicate 128 1))).
Proof. apply storage_tag_unkeyed; [reflexivity|apply from_seed_wf]. Defined.

(** ** The manager over reboots *)

(** The answers of the storage that holds [flash], and what a save leaves in it. *)
Definition flash_answer (flash : option (list Z)) (k : list Z) : option (list Z) :=
  if bool_decide (k = identity_key) then flash else None.
Definition write_op (flash : option (list Z)) (op : nvs_op) : option (list Z) :=
  match op with
  | nvs_set_blob k b => if bool_decide (k = identity_key) then Some b else flash
  | _ => flash
  end.

(** One manager and the flash of its board: reboot, rotation, import, key agreement. *)
Inductive board_step (efuse : list Z) :
    IdentityManager * option (list Z) -> IdentityManager * option (list Z) -> Prop :=
  | step_boot m flash seed iv m' ops :
      length iv = NONCE_SIZE ->
      identity_manager_init (identity_manager_new efuse) (flash_answer flash) seed (Some iv) true = Some (m', ops) ->
      board_step efuse (m, flash) (m', foldl write_op flash ops)
  | step_rotate m flash seed iv m' ops :
      length iv = NONCE_SIZE ->
      identity_manager_rotate m seed (Some iv) true = Some (m', ops) ->
      board_step efuse (m, flash) (m', foldl write_op flash ops)
  | step_import m flash seed iv m' ops :
      length iv = NONCE_SIZE ->
      identity_manager_import_seed m seed (Some iv) true = Some (m', ops) ->
      board_step efuse (m, flash) (m', foldl write_op flash ops)
  | step_agree m flash id their_public output :
      current m = Some id ->
      board_step efuse (m, flash)
        (mkManager (Some (identity_key_agree id their_public output).1) (storage_key m), flash).

(** The flash opens, with the board's key, to the keys of the current identity. *)
Definition board_inv (efuse : list Z) (b : IdentityManager * option (list Z)) : Prop :=
  storage_key b.1 = identity_manager_derive_storage_key efuse
  /\ forall id, current b.1 = Some id -> exists id',
       identity_manager_load_from_flash b.1 (flash_answer b.2) = Some id'
       /\ signing_key id' = signing_key id /\ public_key id' = public_key id.

Lemma load_key m m' get : storage_key m = storage_key m' ->
  identity_manager_load_from_flash m get = identity_manager_load_from_flash m' get.
Proof. intros E. unfold identity_manager_load_from_flash. by rewrite E. Qed.

Lemma install_inv efuse m flash seed iv m' ops : length iv = NONCE_SIZE ->
  storage_key m = identity_manager_derive_storage_key efuse ->
  install m (identity_from_seed seed) (Some iv) true = Some (m', ops) ->
  board_inv efuse (m', foldl write_op flash ops).
Proof.
  intros Hn Hk. unfold install, identity_manager_save_to_flash. rewrite encrypt_sealed. intros Hs.
  apply (inj Some) in Hs. apply pair_equal_spec in Hs as [<- <-].
  destruct (sealed_bytes _ (storage_key m) iv (from_seed_wf seed) Hn) as [Hl Hb].
  split; [exact Hk|]. cbn [fst snd current]. intros id Hid. apply (inj Some) in Hid as <-.
  exists (derived (signing_key (identity_from_seed seed)) (created_at (identity_from_seed seed))).
  split; [|by rewrite from_seed_derived]. cbn [foldl write_op].
  unfold identity_manager_load_from_flash, flash_answer. rewrite !bool_decide_true by done.
  cbn [storage_key]. rewrite Hl. change (172 =? 128 + NONCE_SIZE + 32)%nat with true. cbv iota.
  rewrite Hb. by apply sealed_opens, from_seed_wf.
Qed.

Lemma board_step_inv efuse b b' :
  board_inv efuse b -> board_step efuse b b' -> board_inv efuse b'.
Proof.
  intros [Hk Hinv]. destruct 1 as [m flash seed iv m' ops Hn H|m flash seed iv m' ops Hn H
    |m flash seed iv m' ops Hn H|m flash id their_public output H]; cbn [fst snd] in Hk, Hinv.
  - unfold identity_manager_init in H.
    match type of H with match ?r with _ => _ end = _ => destruct r as [loaded|] eqn:El end.
    + apply (inj Some) in H. apply pair_equal_spec in H as [<- <-]. split; [reflexivity|].
      cbn [fst snd current foldl]. intros id Hid. apply (inj Some) in Hid as <-. exists loaded.
      split; [|done]. rewrite <- El. by apply load_key.
    + destruct seed as [seed|]; [|discriminate H]. by apply (install_inv efuse (identity_manager_new efuse) flash seed iv).
  - destruct seed as [seed|]; [|discriminate H]. by apply (install_inv efuse m flash seed iv).
  - by apply (install_inv efuse m flash seed iv).
  - split; [exact Hk|]. cbn [fst snd current]. intros id2 Hid. apply (inj Some) in Hid as <-.
    destruct (Hinv id H) as (id' & Hl & Hs & Hp). exists id'. split; [|by split].
    rewrite <- Hl. by apply load_key.
Qed.

Lemma board_reachable efuse flash b :
  rtc (board_step efuse) (identity_manager_new efuse, flash) b -> board_inv efuse b.
Proof.
  intros H. remember (identity_manager_new efuse, flash) as b0 eqn:E.
  assert (board_inv efuse b0) as Hi by (subst b0; by split).
  clear E. induction H as [|b1 b2 b3 Hs _ IH]; [done|]. apply IH, (board_step_inv _ _ _ Hi Hs).
Qed.

(** A board keeps its identity: after any sequence of reboots, rotations, imports and key
    agreements, the next start loads an identity with the same signing key, public key and node
    number, without a write and whatever the random generator does. *)
Theorem identity_survives_reboot efuse flash0 m flash id seed random opened :
  rtc (board_step efuse) (identity_manager_new efuse, flash0) (m, flash) -> current m = Some id ->
  exists id', identity_manager_init (identity_manager_new efuse) (flash_answer flash) seed random opened
    = Some (mkManager (Some id') (storage_key m), [])
  /\ signing_key id' = signing_key id /\ public_key id' = public_key id
  /\ identity_node_id id' = identity_node_id id.
Proof.
  intros H Hc. destruct (board_reachable _ _ _ H) as [Hk Hi]. cbn [fst snd] in Hk, Hi.
  destruct (Hi id Hc) as (id' & Hl & Hs & Hp). exists id'. split; [|split_and!; [done..|]].
  - unfold identity_manager_init. rewrite (load_key _ m) by (by rewrite Hk). rewrite Hl. by rewrite Hk.
  - unfold identity_node_id. by rewrite Hp.
Qed.
Lemma identity_survives_reboot_witness :
  exists m flash id,
    rtc (board_step (replicate 8 1)) (identity_manager_new (replicate 8 1), None) (m, flash)
    /\ current m = Some id
    /\ exists id', identity_manager_init (identity_manager_new (replicate 8 1)) (flash_answer flash) None None false
         = Some (mkManager (Some id') (storage_key m), [])
       /\ signing_key id' = signing_key id /\ public_key id' = public_key id
       /\ identity_node_id id' = identity_node_id id.
Proof.
  assert (exists b', rtc (board_step (replicate 8 1)) (identity_manager_new (replicate 8 1), None) b'
    /\ current b'.1 = Some (identity_from_seed (replicate 32 0x42))) as ([m flash] & Hr & Hc).
  { eexists. split; [eapply rtc_once, (step_boot _ _ None (Some (replicate 32 0x42)) (replicate 12 7)); reflexivity|].
    reflexivity. }
  exists m, flash, (identity_from_seed (replicate 32 0x42)). split; [exact Hr|]. split; [exact Hc|].
  exact (identity_survives_reboot (replicate 8 1) None m flash _ None None false Hr Hc).
Defined.

(** ** The global functions *)

(** IDENTITY_INIT is set once the manager has an identity. *)
Definition globals_ok (g : Globals) : Prop :=
  g = globals_init
  \/ exists id key, g = mkGlobals (Some (mkManager (Some id) key)) true.

Lemma identity_init_ok env g : globals_ok g -> is_Some (env_seed env) -> is_Some (env_random env) ->
  exists id key, identity_init env g = Some (mkGlobals (Some (mkManager (Some id) key)) true).
Proof.
  intros [->|(id & key & ->)] [seed Hs] [iv Hr]; [|by exists id, key].
  unfold identity_init, globals_init. cbn [IDENTITY_INIT]. unfold identity_manager_init. rewrite Hs, Hr.
  match goal with |- context [identity_manager_load_from_flash ?m ?g] =>
    destruct (identity_manager_load_from_flash m g) as [loaded|] end.
  - by eexists _, _.
  - cbn [identity_generate fmap option_fmap option_map]. unfold install, identity_manager_save_to_flash.
    rewrite encrypt_sealed. by eexists _, _.
Qed.

(** Every global function answers: the first call makes the manager and its identity, later calls
    find them, so all callers see the same node number and keys until a rotation; key agreement
    and rotation keep the globals ready for the next call. *)
Theorem global_identity env g : globals_ok g -> is_Some (env_seed env) -> is_Some (env_random env) ->
  exists id g', globals_ok g' /\ identity_init env g = Some g'
  /\ (forall env', identity_init env' g' = Some g'
      /\ global_node_id env' g' = Some (g', identity_node_id id)
      /\ global_public_key env' g' = Some (g', Some (public_key id))
      /\ global_encryption_public_key env' g' = Some (g', Some (encryption_public id))
      /\ (forall sign message, global_sign sign env' g' message = Some (g', Some (sign (signing_key id) message)))
      /\ (forall their_public output, exists g2, globals_ok g2
          /\ global_key_agree env' g' their_public output = Some (g2, Some output)
          /\ global_node_id env' g2 = Some (g2, identity_node_id id))
      /\ (forall seed iv opened, exists g2 ops, globals_ok g2
          /\ global_rotate env' g' (Some seed) (Some iv) opened
             = Some (g2, ops, identity_node_id (identity_from_seed seed))
          /\ global_node_id env' g2 = Some (g2, identity_node_id (identity_from_seed seed)))).
Proof.
  intros Hg Hs Hr. destruct (identity_init_ok env g Hg Hs Hr) as (id & key & Hi).
  exists id, (mkGlobals (Some (mkManager (Some id) key)) true).
  split; [by right; exists id, key|]. split; [exact Hi|]. intros env'.
  split; [reflexivity|]. split; [reflexivity|]. split; [reflexivity|]. split; [reflexivity|].
  split; [reflexivity|]. split.
  - intros their_public output.
    exists (mkGlobals (Some (mkManager (Some (identity_key_agree id their_public output).1) key)) true).
    split; [right; by eexists _, _|]. split; reflexivity.
  - intros seed iv opened. exists (mkGlobals (Some (mkManager (Some (identity_from_seed seed)) key)) true).
    eexists. split; [right; by eexists _, _|]. split; reflexivity.
Qed.
Lemma global_identity_witness :
  let env := mkEnv (replicate 8 1) (fun _ => None) (Some (replicate 32 0x42)) (Some (replicate 12 7)) true in
  exists id g', globals_ok g' /\ identity_init env globals_init = Some g'
  /\ (forall env', identity_init env' g' = Some g'
      /\ global_node_id env' g' = Some (g', identity_node_id id)
      /\ global_public_key env' g' = Some (g', Some (public_key id))
      /\ global_encryption_public_key env' g' = Some (g', Some (encryption_public id))
      /\ (forall sign message, global_sign sign env' g' message = Some (g', Some (sign (signing_key id) message)))
      /\ (forall their_public output, exists g2, globals_ok g2
          /\ global_key_agree env' g' their_public output = Some (g2, Some output)
          /\ global_node_id env' g2 = Some (g2, identity_node_id id))
      /\ (forall seed iv opened, exists g2 ops, globals_ok g2
          /\ global_rotate env' g' (Some seed) (Some iv) opened
             = Some (g2, ops, identity_node_id (identity_from_seed seed))
          /\ global_node_id env' g2 = Some (g2, identity_node_id (identity_from_seed seed)))).
Proof. apply global_identity; [by left|by eexists|by eexists]. Defined.
