(* ===== verification/Contact.v ===== *)
(** * Contacts: lunarcore/lunar/contact.h, contact.c and vec_helpers.c

    The signed introduction message (ContactHello), its encoding, the contact
    record and its storage form, the 64-slot contact store and its persistence.
    The hash is used under the interface [Digest], Ed25519 under [Signature] below;
    the ESP-IDF key-value storage ([nvs_open] and the rest) is outside the repository: what
    [nvs_open], [nvs_get_u32] and [nvs_get_blob] answer are arguments. *)
From stdpp Require Import gmap.
From S2P Require Import Prelude Sha256 SlotMap Nvs.

(** ** contact.h *)

Definition CONTACT_HELLO_VERSION : Z := 0x03.
Definition MAX_DID_LENGTH : nat := 128.
Definition MAX_NAME_LENGTH : nat := 64.
Definition MAX_CONTACTS : nat := 64.

Inductive ContactHelloError :=
  | CONTACT_HELLO_ERROR_NONE
  | CONTACT_HELLO_ERROR_INVALID_VERSION
  | CONTACT_HELLO_ERROR_INVALID_FORMAT
  | CONTACT_HELLO_ERROR_SIGNATURE_INVALID
  | CONTACT_HELLO_ERROR_BUFFER_TOO_SMALL
  | CONTACT_HELLO_ERROR_DID_TOO_LONG
  | CONTACT_HELLO_ERROR_NAME_TOO_LONG.

#[global] Instance ContactHelloError_eq_dec : EqDecision ContactHelloError.
Proof. solve_decision. Defined.

Inductive TrustLevel :=
  TRUST_LEVEL_UNKNOWN | TRUST_LEVEL_SEEN | TRUST_LEVEL_VERIFIED | TRUST_LEVEL_TRUSTED.

#[global] Instance TrustLevel_eq_dec : EqDecision TrustLevel.
Proof. solve_decision. Defined.

(** The enumerator's value, [(uint8_t)contact->trust]. *)
Definition trust_value (t : TrustLevel) : Z :=
  match t with
  | TRUST_LEVEL_UNKNOWN => 0 | TRUST_LEVEL_SEEN => 1
  | TRUST_LEVEL_VERIFIED => 2 | TRUST_LEVEL_TRUSTED => 3
  end.

Record ContactHello := mkHello {
  version : Z;                 (* uint8_t *)
  timestamp : Z;               (* uint64_t *)
  did : list Z;                (* HeaplessVec128 *)
  ed25519_public : list Z;     (* uint8_t[32] *)
  x25519_public : list Z;      (* uint8_t[32] *)
  name : list Z;               (* HeaplessVec64 *)
  avatar_hash : list Z;        (* uint8_t[32] *)
  signature : list Z           (* uint8_t[64] *)
}.

#[global] Instance ContactHello_eq_dec : EqDecision ContactHello.
Proof. solve_decision. Defined.

Record Contact := mkContact {
  hello : ContactHello;
  trust : TrustLevel;
  petname : list Z;            (* HeaplessVec64 *)
  last_seen : Z;               (* uint64_t *)
  message_count : Z            (* uint32_t *)
}.

#[global] Instance Contact_eq_dec : EqDecision Contact.
Proof. solve_decision. Defined.

Record ContactMapEntry := mkEntry {
  en_key : list Z;             (* uint8_t[8] *)
  en_value : Contact;
  occupied : bool
}.

#[global] Instance ContactMapEntry_eq_dec : EqDecision ContactMapEntry.
Proof. solve_decision. Defined.

Record ContactStore := mkStore { entries : list ContactMapEntry; count : Z }.

(** ** vec_helpers.c

    [data[0 .. len)] of a vector is the list; a failing [push] or
    [extend_from_slice] leaves the vector as it was. *)

Definition heapless_vec128_extend_from_slice (vec data : list Z) : option (list Z) :=
  vec_extend MAX_DID_LENGTH vec data.

Definition heapless_vec64_extend_from_slice (vec data : list Z) : option (list Z) :=
  vec_extend MAX_NAME_LENGTH vec data.

Definition heapless_vec256_extend_from_slice (vec data : list Z) : list Z :=
  if (length vec + length data <=? 256)%nat then vec ++ data else vec.

Definition heapless_vec512_extend_from_slice (vec data : list Z) : list Z :=
  if (length vec + length data <=? 512)%nat then vec ++ data else vec.

Definition heapless_vec256_push (vec : list Z) (byte : Z) : list Z :=
  if (length vec <? 256)%nat then vec ++ [byte] else vec.

Definition heapless_vec512_push (vec : list Z) (byte : Z) : list Z :=
  if (length vec <? 512)%nat then vec ++ [byte] else vec.

(** ** ContactHello *)

(** The result is the struct after the call and the code returned. *)
Definition contact_hello_new (hello0 : ContactHello) (ts : Z) (did_ : list Z)
    (ed_public x_public : list Z) (name_ : list Z) (avatar : option (list Z))
    : ContactHello * ContactHelloError :=
  if (MAX_DID_LENGTH <? length did_)%nat then (hello0, CONTACT_HELLO_ERROR_DID_TOO_LONG)
  else if (MAX_NAME_LENGTH <? length name_)%nat then (hello0, CONTACT_HELLO_ERROR_NAME_TOO_LONG)
  else
    let with_did d n :=
      mkHello (version hello0) (timestamp hello0) d (ed25519_public hello0)
        (x25519_public hello0) n (avatar_hash hello0) (signature hello0) in
    match heapless_vec128_extend_from_slice [] did_ with
    | None => (with_did [] (name hello0), CONTACT_HELLO_ERROR_DID_TOO_LONG)
    | Some d =>
      match heapless_vec64_extend_from_slice [] name_ with
      | None => (with_did d [], CONTACT_HELLO_ERROR_NAME_TOO_LONG)
      | Some n =>
        (mkHello CONTACT_HELLO_VERSION ts d ed_public x_public n
           (match avatar with Some a => a | None => replicate 32 0 end) (replicate 64 0),
         CONTACT_HELLO_ERROR_NONE)
      end
    end.

(** [ts_bytes], [last_seen_bytes]. *)
Definition u64_to_bytes (v : Z) : list Z :=
  [u8 (v .& 0xFF); u8 ((v .>> 8) .& 0xFF); u8 ((v .>> 16) .& 0xFF); u8 ((v .>> 24) .& 0xFF);
   u8 ((v .>> 32) .& 0xFF); u8 ((v .>> 40) .& 0xFF); u8 ((v .>> 48) .& 0xFF);
   u8 ((v .>> 56) .& 0xFF)].

Definition u64_of_bytes (b : list Z) : Z :=
  b.[0] .| (b.[1] .<< 8) .| (b.[2] .<< 16) .| (b.[3] .<< 24) .| (b.[4] .<< 32)
  .| (b.[5] .<< 40) .| (b.[6] .<< 48) .| (b.[7] .<< 56).

(** [did_len_bytes], [hello_len_bytes]. *)
Definition u16_to_bytes (v : Z) : list Z := [u8 (v .& 0xFF); u8 ((v .>> 8) .& 0xFF)].
Definition u16_of_bytes (b : list Z) : Z := b.[0] .| (b.[1] .<< 8).

(** [count_bytes]. *)
Definition u32_to_bytes (v : Z) : list Z :=
  [u8 (v .& 0xFF); u8 ((v .>> 8) .& 0xFF); u8 ((v .>> 16) .& 0xFF); u8 ((v .>> 24) .& 0xFF)].
Definition u32_of_bytes (b : list Z) : Z :=
  b.[0] .| (b.[1] .<< 8) .| (b.[2] .<< 16) .| (b.[3] .<< 24).

Definition contact_hello_encode_for_signing (hello : ContactHello) : list Z :=
  let buf := [] in
  let buf := heapless_vec256_push buf (version hello) in
  let buf := heapless_vec256_extend_from_slice buf (u64_to_bytes (timestamp hello)) in
  let did_len := u16 (Z.of_nat (length (did hello))) in
  let buf := heapless_vec256_extend_from_slice buf (u16_to_bytes did_len) in
  let buf := heapless_vec256_extend_from_slice buf (did hello) in
  let buf := heapless_vec256_extend_from_slice buf (ed25519_public hello) in
  let buf := heapless_vec256_extend_from_slice buf (x25519_public hello) in
  let buf := heapless_vec256_push buf (u8 (Z.of_nat (length (name hello)))) in
  let buf := heapless_vec256_extend_from_slice buf (name hello) in
  heapless_vec256_extend_from_slice buf (avatar_hash hello).

(** Ed25519 as contact.c uses it: [sign private_key message] is the 64 bytes of the
    signature and [verify public_key message signature] the verdict. *)
Section ed25519.
Context (ed25519_sign : list Z -> list Z -> list Z)
        (ed25519_verify : list Z -> list Z -> list Z -> bool).

Definition contact_hello_sign (h : ContactHello) (private_key : list Z) : ContactHello :=
  let data_to_sign := contact_hello_encode_for_signing h in
  let sig := ed25519_sign private_key data_to_sign in
  mkHello (version h) (timestamp h) (did h) (ed25519_public h) (x25519_public h) (name h)
    (avatar_hash h) sig.

Definition contact_hello_verify (h : ContactHello) : bool * ContactHelloError :=
  let data := contact_hello_encode_for_signing h in
  (ed25519_verify (ed25519_public h) data (signature h), CONTACT_HELLO_ERROR_NONE).
End ed25519.

Definition contact_hello_encode (hello : ContactHello) : list Z :=
  let signed_data := contact_hello_encode_for_signing hello in
  let buf := heapless_vec512_extend_from_slice [] signed_data in
  heapless_vec512_extend_from_slice buf (signature hello).

(** [inl] is the error returned, with the output struct untouched. *)
Definition contact_hello_decode (data : list Z) : ContactHelloError + ContactHello :=
  let data_len := length data in
  if (data_len <? 1 + 8 + 2 + 32 + 32 + 1 + 32 + 64)%nat
  then inl CONTACT_HELLO_ERROR_INVALID_FORMAT else
  let pos := 0%nat in
  let version := data.[pos] in
  if negb (version =? CONTACT_HELLO_VERSION) then inl CONTACT_HELLO_ERROR_INVALID_VERSION else
  let pos := (pos + 1)%nat in
  let timestamp := u64_of_bytes (slice data pos 8) in
  let pos := (pos + 8)%nat in
  let did_len := Z.to_nat (u16_of_bytes (slice data pos 2)) in
  let pos := (pos + 2)%nat in
  if (MAX_DID_LENGTH <? did_len)%nat || (data_len <? pos + did_len)%nat
  then inl CONTACT_HELLO_ERROR_DID_TOO_LONG else
  match heapless_vec128_extend_from_slice [] (slice data pos did_len) with
  | None => inl CONTACT_HELLO_ERROR_DID_TOO_LONG
  | Some did =>
  let pos := (pos + did_len)%nat in
  if (data_len <? pos + 32)%nat then inl CONTACT_HELLO_ERROR_INVALID_FORMAT else
  let ed25519_public := slice data pos 32 in
  let pos := (pos + 32)%nat in
  if (data_len <? pos + 32)%nat then inl CONTACT_HELLO_ERROR_INVALID_FORMAT else
  let x25519_public := slice data pos 32 in
  let pos := (pos + 32)%nat in
  if (data_len <=? pos)%nat then inl CONTACT_HELLO_ERROR_INVALID_FORMAT else
  let name_len := Z.to_nat (data.[pos]) in
  let pos := (pos + 1)%nat in
  if (MAX_NAME_LENGTH <? name_len)%nat || (data_len <? pos + name_len)%nat
  then inl CONTACT_HELLO_ERROR_NAME_TOO_LONG else
  match heapless_vec64_extend_from_slice [] (slice data pos name_len) with
  | None => inl CONTACT_HELLO_ERROR_NAME_TOO_LONG
  | Some name =>
  let pos := (pos + name_len)%nat in
  if (data_len <? pos + 32)%nat then inl CONTACT_HELLO_ERROR_INVALID_FORMAT else
  let avatar_hash := slice data pos 32 in
  let pos := (pos + 32)%nat in
  if (data_len <? pos + 64)%nat then inl CONTACT_HELLO_ERROR_INVALID_FORMAT else
  let signature := slice data pos 64 in
  inr (mkHello version timestamp did ed25519_public x25519_public name avatar_hash signature)
  end
  end.

(** "YCH:" *)
Definition qr_prefix : list Z := [89; 67; 72; 58].

Definition contact_hello_to_qr_data (hello : ContactHello) : list Z :=
  let buf := heapless_vec512_extend_from_slice [] qr_prefix in
  let encoded := contact_hello_encode hello in
  heapless_vec512_extend_from_slice buf encoded.

Definition contact_hello_from_qr_data (data : list Z) : ContactHelloError + ContactHello :=
  if (length data <? 4)%nat || negb (bool_decide (slice data 0 4 = qr_prefix))
  then inl CONTACT_HELLO_ERROR_INVALID_FORMAT
  else contact_hello_decode (drop 4 data).

(** ** Contact *)

Definition contact_from_hello (h : ContactHello) : Contact :=
  mkContact h TRUST_LEVEL_UNKNOWN [] 0 0.

Definition contact_set_petname (c : Contact) (name : list Z) : Contact :=
  let petname := match heapless_vec64_extend_from_slice [] name with
                 | Some p => p | None => [] end in
  mkContact (hello c) (trust c) petname (last_seen c) (message_count c).

Definition contact_display_name (c : Contact) : list Z :=
  if (0 <? length (petname c))%nat then petname c else name (hello c).

Definition contact_serialize (c : Contact) : list Z :=
  let buf := [] in
  let hello_encoded := contact_hello_encode (hello c) in
  let hello_len := u16 (Z.of_nat (length hello_encoded)) in
  let buf := heapless_vec512_extend_from_slice buf (u16_to_bytes hello_len) in
  let buf := heapless_vec512_extend_from_slice buf hello_encoded in
  let buf := heapless_vec512_push buf (trust_value (trust c)) in
  let buf := heapless_vec512_push buf (u8 (Z.of_nat (length (petname c)))) in
  let buf := heapless_vec512_extend_from_slice buf (petname c) in
  let buf := heapless_vec512_extend_from_slice buf (u64_to_bytes (last_seen c)) in
  heapless_vec512_extend_from_slice buf (u32_to_bytes (message_count c)).

Definition trust_of_byte (b : Z) : TrustLevel :=
  match b with
  | 0 => TRUST_LEVEL_UNKNOWN
  | 1 => TRUST_LEVEL_SEEN
  | 2 => TRUST_LEVEL_VERIFIED
  | 3 => TRUST_LEVEL_TRUSTED
  | _ => TRUST_LEVEL_UNKNOWN
  end.

(** [None] is [return false]. A petname too long for its vector is dropped, its
    bytes skipped. *)
Definition contact_deserialize (data : list Z) : option Contact :=
  let data_len := length data in
  if (data_len <? 2)%nat then None else
  let pos := 0%nat in
  let hello_len := Z.to_nat (u16_of_bytes (slice data pos 2)) in
  let pos := (pos + 2)%nat in
  if (data_len <? pos + hello_len)%nat then None else
  match contact_hello_decode (slice data pos hello_len) with
  | inl _ => None
  | inr h =>
  let pos := (pos + hello_len)%nat in
  if (data_len <=? pos)%nat then None else
  let trust := trust_of_byte (data.[pos]) in
  let pos := (pos + 1)%nat in
  if (data_len <=? pos)%nat then None else
  let petname_len := Z.to_nat (data.[pos]) in
  let pos := (pos + 1)%nat in
  if (data_len <? pos + petname_len)%nat then None else
  let petname := match heapless_vec64_extend_from_slice [] (slice data pos petname_len) with
                 | Some p => p | None => [] end in
  let pos := (pos + petname_len)%nat in
  if (data_len <? pos + 8)%nat then None else
  let last_seen := u64_of_bytes (slice data pos 8) in
  let pos := (pos + 8)%nat in
  if (data_len <? pos + 4)%nat then None else
  let message_count := u32_of_bytes (slice data pos 4) in
  Some (mkContact h trust petname last_seen message_count)
  end.

(** ** The contact store *)

(** The loop leaves what was in the unoccupied slots. *)
Definition contact_store_new (store : ContactStore) : ContactStore :=
  mkStore ((fun e => mkEntry (en_key e) (en_value e) false) <$> entries store) 0.

(** FNV-1a, with the 32-bit [size_t] of the target. *)
Definition hash_key (key : list Z) : nat :=
  let hash := foldl (fun hash k => u32 ((hash .^ k) * 16777619)) 2166136261 key in
  Z.to_nat (hash mod Z.of_nat MAX_CONTACTS).

(** The test of the search loops, [occupied && keys_equal(key, k)]. *)
Definition entry_is (k : list Z) (e : ContactMapEntry) : bool :=
  occupied e && bool_decide (en_key e = k).

Definition contact_store_get (store : ContactStore) (fingerprint : list Z) : option Contact :=
  (fun ie => en_value ie.2) <$> find_first (entry_is fingerprint) (entries store).

(** The pointer [contact_store_get_mut] returns, with the write [f] its caller makes
    through it. *)
Definition contact_store_get_mut (store : ContactStore) (fingerprint : list Z)
    (f : Contact -> Contact) : ContactStore :=
  match find_first (entry_is fingerprint) (entries store) with
  | Some (i, e) => mkStore (<[i := mkEntry (en_key e) (f (en_value e)) (occupied e)]> (entries store))
                     (count store)
  | None => store
  end.

Definition contact_store_remove (store : ContactStore) (fingerprint : list Z)
    : ContactStore * option Contact :=
  match find_first (entry_is fingerprint) (entries store) with
  | Some (i, e) =>
    (mkStore (<[i := mkEntry (en_key e) (en_value e) false]> (entries store)) (u32 (count store - 1)),
     Some (en_value e))
  | None => (store, None)
  end.

Definition contact_store_len (store : ContactStore) : Z := count store.
Definition contact_store_is_empty (store : ContactStore) : bool := count store =? 0.

Definition contact_store_find_by_pubkey (store : ContactStore) (pk : list Z) : option Contact :=
  (fun ie => en_value ie.2) <$>
  find_first (fun e => occupied e && bool_decide (ed25519_public (hello (en_value e)) = pk))
    (entries store).

(** [contact_store_add]'s second loop, at most [n] more probes from offset [i]. *)
Fixpoint probe (es : list ContactMapEntry) (idx i n : nat) : option nat :=
  match n with
  | O => None
  | S n =>
    let probe_idx := ((idx + i) mod MAX_CONTACTS)%nat in
    match es !! probe_idx with
    | Some e => if negb (occupied e) then Some probe_idx else probe es idx (S i) n
    | None => None
    end
  end.

(** [store->count] is a [size_t]. *)
Definition store_put (store : ContactStore) (i : nat) (key : list Z) (c : Contact) : ContactStore :=
  mkStore (<[i := mkEntry key c true]> (entries store)) (u32 (count store + 1)).

Section store.
Context (sha256_hash : list Z -> list Z).

Definition contact_hello_fingerprint (h : ContactHello) : list Z :=
  take 8 (sha256_hash (ed25519_public h)).

Definition contact_key (c : Contact) : list Z := contact_hello_fingerprint (hello c).

Definition contact_store_add (store : ContactStore) (c : Contact)
    : ContactStore * ContactHelloError :=
  let key := contact_key c in
  match find_first (entry_is key) (entries store) with
  | Some (i, e) =>
    (mkStore (<[i := mkEntry (en_key e) c (occupied e)]> (entries store)) (count store),
     CONTACT_HELLO_ERROR_NONE)
  | None =>
    match probe (entries store) (hash_key key) 0 MAX_CONTACTS with
    | Some i => (store_put store i key c, CONTACT_HELLO_ERROR_NONE)
    | None => (store, CONTACT_HELLO_ERROR_BUFFER_TOO_SMALL)
    end
  end.

(** ** Persistence

    [save] is the sequence of writes it makes, in order. *)

(** "cnt_count" and "cnt_0" ... "cnt_63". *)
Definition cnt_count : list Z := [99; 110; 116; 95; 99; 111; 117; 110; 116].

Definition key_name (idx : nat) : list Z :=
  [99; 110; 116; 95] ++
  (if (idx <? 10)%nat then [48 + Z.of_nat idx]
   else [48 + Z.of_nat (idx / 10); 48 + Z.of_nat (idx mod 10)]).

Fixpoint save_entries (es : list ContactMapEntry) (idx : nat) : list nvs_op :=
  match es with
  | [] => []
  | e :: es =>
    if negb (occupied e) then save_entries es idx
    else nvs_set_blob (key_name idx) (contact_serialize (en_value e)) :: save_entries es (S idx)
  end.

(** [open1], [open2]: whether the first [nvs_open], and the second one after
    [nvs_flash_init], succeeds. *)
Definition contact_store_save_to_nvs (open1 open2 : bool) (store : ContactStore)
    : list nvs_op * ContactHelloError :=
  let writes := nvs_set_u32 cnt_count (u32 (count store)) :: save_entries (entries store) 0
                ++ [nvs_commit] in
  if open1 then (writes, CONTACT_HELLO_ERROR_NONE)
  else if open2 then (nvs_flash_init :: writes, CONTACT_HELLO_ERROR_NONE)
  else ([nvs_flash_init], CONTACT_HELLO_ERROR_BUFFER_TOO_SMALL).

Section load.
Context (nvs_get_u32 : list Z -> option Z) (nvs_get_blob : list Z -> option (list Z)).

(** One iteration of the load loop, on the store and [loaded]. *)
Definition load_step (st : ContactStore * nat) (idx : nat) : ContactStore * nat :=
  let '(store, loaded) := st in
  match nvs_get_blob (key_name idx) with
  | Some blob =>
    if (0 <? length blob)%nat then
      match contact_deserialize blob with
      | Some c =>
        match find_first (fun e => negb (occupied e)) (entries store) with
        | Some (i, _) => (store_put store i (contact_key c) c, S loaded)
        | None => st
        end
      | None => st
      end
    else st
  | None => st
  end.

Definition contact_store_load_from_nvs (opened : bool) (store : ContactStore)
    : ContactStore * nat * ContactHelloError :=
  if negb opened then (store, 0%nat, CONTACT_HELLO_ERROR_NONE) else
  match nvs_get_u32 cnt_count with
  | None => (store, 0%nat, CONTACT_HELLO_ERROR_NONE)
  | Some count =>
    let count := if Z.of_nat MAX_CONTACTS <? count then Z.of_nat MAX_CONTACTS else count in
    (foldl load_step (store, 0%nat) (seq 0 (Z.to_nat count)), CONTACT_HELLO_ERROR_NONE)
  end.
End load.
End store.

(** ** Integers on the wire *)

Lemma u64_to_bytes_le v : u64_to_bytes v = le_bytes 8 v.
Proof. apply wr64_eq. Qed.
Lemma u32_to_bytes_le v : u32_to_bytes v = le_bytes 4 v.
Proof. apply wr32_eq. Qed.
Lemma u16_to_bytes_le v : u16_to_bytes v = le_bytes 2 v.
Proof. unfold u16_to_bytes. norm_le_bytes. by rewrite !u8_u8. Qed.

Lemma u64_of_le_bytes v : fits 64 v -> u64_of_bytes (le_bytes 8 v) = v.
Proof.
  intros Hv. pose proof (le_bytes_ok 8 v). rewrite <- (le_val_fits 8 v) at 2 by done.
  by apply le64_eq.
Qed.
Lemma u32_of_le_bytes v : fits 32 v -> u32_of_bytes (le_bytes 4 v) = v.
Proof.
  intros Hv. pose proof (le_bytes_ok 4 v) as Hb. rewrite <- (le_val_fits 4 v) at 2 by done.
  cbn [le_bytes] in Hb. rewrite !Forall_cons in Hb. destruct Hb as (?&?&?&?&_). by apply le32_eq.
Qed.
Lemma u16_of_le_bytes v : fits 16 v -> u16_of_bytes (le_bytes 2 v) = v.
Proof.
  intros Hv. pose proof (le_bytes_ok 2 v) as Hb. rewrite <- (le_val_fits 2 v) at 2 by done.
  cbn [le_bytes] in Hb. rewrite !Forall_cons in Hb. destruct Hb as (?&?&_). by apply le16_eq.
Qed.

(** ** The encoding of a hello *)

Record hello_wf (h : ContactHello) : Prop := {
  wf_version : version h = CONTACT_HELLO_VERSION;
  wf_timestamp : fits 64 (timestamp h);
  wf_did : (length (did h) <= MAX_DID_LENGTH)%nat;
  wf_ed25519 : length (ed25519_public h) = 32%nat;
  wf_x25519 : length (x25519_public h) = 32%nat;
  wf_name : (length (name h) <= MAX_NAME_LENGTH)%nat;
  wf_avatar : length (avatar_hash h) = 32%nat;
  wf_signature : length (signature h) = 64%nat
}.

(** Bytes of the DID and the name together: at most 148 leave room for every field in
    the 256-byte buffer that is signed. *)
Definition text_len (h : ContactHello) : nat := length (did h) + length (name h).

Definition hello_head (h : ContactHello) : list Z :=
  [version h] ++ le_bytes 8 (timestamp h) ++ le_bytes 2 (Z.of_nat (length (did h))) ++ did h
  ++ ed25519_public h ++ x25519_public h ++ [Z.of_nat (length (name h))].

(** What follows the head: beyond 148 bytes of text the avatar hash, beyond 180 the
    name (and then the avatar hash fits again) is left out. *)
Definition hello_tail (h : ContactHello) : list Z :=
  (if (text_len h <=? 180)%nat then name h else [])
  ++ (if (text_len h <=? 148)%nat || (180 <? text_len h)%nat then avatar_hash h else []).

Lemma length_hello_head h : hello_wf h -> length (hello_head h) = (76 + length (did h))%nat.
Proof.
  intros [_ _ _ He Hx _ _ _]. unfold hello_head.
  rewrite !length_app, !length_le_bytes, He, Hx. simpl. lia.
Qed.

Lemma vec256_fits v d :
  (length v + length d <= 256)%nat -> heapless_vec256_extend_from_slice v d = v ++ d.
Proof. unfold heapless_vec256_extend_from_slice. by intros ->%Nat.leb_le. Qed.
Lemma vec256_full v d :
  (256 < length v + length d)%nat -> heapless_vec256_extend_from_slice v d = v.
Proof. unfold heapless_vec256_extend_from_slice. by intros ->%Nat.leb_gt. Qed.
Lemma vec256_push_fits v b : (length v < 256)%nat -> heapless_vec256_push v b = v ++ [b].
Proof. unfold heapless_vec256_push. by intros ->%Nat.ltb_lt. Qed.
Lemma vec512_fits v d :
  (length v + length d <= 512)%nat -> heapless_vec512_extend_from_slice v d = v ++ d.
Proof. unfold heapless_vec512_extend_from_slice. by intros ->%Nat.leb_le. Qed.
Lemma vec512_push_fits v b : (length v < 512)%nat -> heapless_vec512_push v b = v ++ [b].
Proof. unfold heapless_vec512_push. by intros ->%Nat.ltb_lt. Qed.

(** Takes the false branch of the leftmost comparison. *)
Ltac skip_if :=
  match goal with
  | |- context [(?a <? ?b)%nat] => replace (a <? b)%nat with false by (symmetry; apply Nat.ltb_ge; lia)
  | |- context [(?a <=? ?b)%nat] => replace (a <=? b)%nat with false by (symmetry; apply Nat.leb_gt; lia)
  end; cbn [orb].

(** Solves a capacity condition from the field lengths in the context. *)
Ltac room :=
  unfold MAX_DID_LENGTH, MAX_NAME_LENGTH, CONTACT_HELLO_VERSION in *;
  rewrite ?length_app, ?length_le_bytes; cbn [length]; rewrite ?length_app; lia.

Lemma small_u8 n : (n <= 64)%nat -> u8 (Z.of_nat n) = Z.of_nat n.
Proof. intros. apply u8_small. unfold fits. lia. Qed.
Lemma small_u16 n : (n <= 512)%nat -> u16 (Z.of_nat n) = Z.of_nat n.
Proof. intros. apply u16_small. unfold fits. lia. Qed.

Lemma encode_for_signing_form h :
  hello_wf h -> contact_hello_encode_for_signing h = hello_head h ++ hello_tail h.
Proof.
  intros [Hv Ht Hd He Hx Hn Ha Hs]. unfold contact_hello_encode_for_signing. cbn zeta.
  rewrite u64_to_bytes_le, u16_to_bytes_le, small_u8, small_u16 by room.
  rewrite (vec256_push_fits [] (version h)) by (simpl; lia).
  rewrite (vec256_fits _ (le_bytes 8 _)), (vec256_fits _ (le_bytes 2 _)), (vec256_fits _ (did h)),
    (vec256_fits _ (ed25519_public h)), (vec256_fits _ (x25519_public h)), vec256_push_fits by room.
  rewrite <- !app_assoc. cbn [app]. fold (hello_head h).
  unfold hello_tail, text_len. set (hd := _ :: _).
  assert (hd = hello_head h) as -> by reflexivity.
  assert (length (hello_head h) = 76 + length (did h))%nat as Hh by (by apply length_hello_head).
  destruct (Nat.leb_spec (length (did h) + length (name h)) 180).
  - rewrite (vec256_fits _ (name h)) by room.
    destruct (Nat.leb_spec (length (did h) + length (name h)) 148); cbn [orb].
    + rewrite vec256_fits by room. by rewrite app_assoc.
    + destruct (Nat.ltb_spec 180 (length (did h) + length (name h))); [lia|].
      rewrite vec256_full by room. cbn [app]. by rewrite !app_nil_r.
  - rewrite (vec256_full _ (name h)) by room. rewrite vec256_fits by room.
    destruct (Nat.leb_spec (length (did h) + length (name h)) 148); [lia|].
    destruct (Nat.ltb_spec 180 (length (did h) + length (name h))); [done|lia].
Qed.

Lemma length_hello_tail h : hello_wf h -> (length (hello_tail h) <= 180 - length (did h))%nat.
Proof.
  intros [_ _ Hd _ _ Hn Ha _]. unfold hello_tail, text_len, MAX_DID_LENGTH, MAX_NAME_LENGTH in *.
  rewrite length_app.
  destruct (Nat.leb_spec (length (did h) + length (name h)) 180);
  destruct (Nat.leb_spec (length (did h) + length (name h)) 148);
  destruct (Nat.ltb_spec 180 (length (did h) + length (name h))); cbn [orb length]; lia.
Qed.

Lemma encode_form h :
  hello_wf h -> contact_hello_encode h = hello_head h ++ hello_tail h ++ signature h.
Proof.
  intros Hw. pose proof (length_hello_head h Hw). pose proof (length_hello_tail h Hw).
  pose proof (wf_signature h Hw). pose proof (wf_did h Hw).
  unfold contact_hello_encode. cbn zeta. rewrite encode_for_signing_form by done.
  rewrite (vec512_fits []), vec512_fits by (cbn [app length]; room). cbn [app].
  by rewrite <- app_assoc.
Qed.

Lemma head_cuts h rest (Hw : hello_wf h) (d := hello_head h ++ rest) (n := length (did h)) :
  d.[0] = version h /\ slice d 1 8 = le_bytes 8 (timestamp h)
  /\ slice d 9 2 = le_bytes 2 (Z.of_nat n) /\ slice d 11 n = did h
  /\ slice d (11 + n) 32 = ed25519_public h /\ slice d (43 + n) 32 = x25519_public h
  /\ d.[75 + n] = Z.of_nat (length (name h))
  /\ forall off len, slice d (76 + n + off) len = slice rest off len.
Proof.
  pose proof (length_hello_head h Hw) as Hl. destruct Hw as [Hv Ht Hd He Hx Hn Ha Hs].
  set (v := [version h]). set (ts := le_bytes 8 (timestamp h)). set (dl := le_bytes 2 (Z.of_nat n)).
  assert (d = v ++ ts ++ dl ++ did h ++ ed25519_public h ++ x25519_public h
              ++ Z.of_nat (length (name h)) :: rest) as E.
  { unfold d, hello_head. by rewrite <- !app_assoc. }
  assert (length v = 1%nat) by done.
  assert (length ts = 8%nat) by apply length_le_bytes.
  assert (length dl = 2%nat) by apply length_le_bytes.
  split_and!.
  - by rewrite E.
  - by apply (slice_cut v ts _ _ _ _ E).
  - apply (slice_cut (v ++ ts) dl (drop (11) d)); [|rewrite length_app; lia|done].
    rewrite E. unfold ts, dl. by rewrite <- !app_assoc.
  - apply (slice_cut (v ++ ts ++ dl) (did h) (ed25519_public h ++ x25519_public h
              ++ Z.of_nat (length (name h)) :: rest)); [|rewrite !length_app; lia|done].
    rewrite E. by rewrite <- !app_assoc.
  - apply (slice_cut (v ++ ts ++ dl ++ did h) _ (x25519_public h
              ++ Z.of_nat (length (name h)) :: rest)); [|rewrite !length_app; lia|done].
    rewrite E. by rewrite <- !app_assoc.
  - apply (slice_cut (v ++ ts ++ dl ++ did h ++ ed25519_public h) _
              (Z.of_nat (length (name h)) :: rest)); [|rewrite !length_app; lia|done].
    rewrite E. by rewrite <- !app_assoc.
  - apply (arr_cut (v ++ ts ++ dl ++ did h ++ ed25519_public h ++ x25519_public h) _ rest);
      [|rewrite !length_app; lia].
    rewrite E. by rewrite <- !app_assoc.
  - intros off len. unfold d. rewrite slice_app_r by lia. f_equal. lia.
Qed.

(** Decoding after an intact head: name, avatar hash and signature are cut from what
    follows it. *)
Lemma decode_head h rest (n := length (name h)) :
  hello_wf h -> (96 <= length (did h) + length rest)%nat ->
  contact_hello_decode (hello_head h ++ rest) =
  if (length rest <? n)%nat then inl CONTACT_HELLO_ERROR_NAME_TOO_LONG
  else if (length rest <? n + 96)%nat then inl CONTACT_HELLO_ERROR_INVALID_FORMAT
  else inr (mkHello (version h) (timestamp h) (did h) (ed25519_public h) (x25519_public h)
              (slice rest 0 n) (slice rest n 32) (slice rest (n + 32) 64)).
Proof.
  intros Hw Hlen. destruct (head_cuts h rest Hw) as (C0 & C1 & C2 & C3 & C4 & C5 & C6 & C7).
  pose proof (length_hello_head h Hw) as Hl. destruct Hw as [Hv Ht Hd He Hx Hn Ha Hs].
  assert (length (hello_head h ++ rest) = 76 + length (did h) + length rest)%nat as HL
    by (rewrite length_app; lia).
  unfold MAX_DID_LENGTH, MAX_NAME_LENGTH in *.
  unfold contact_hello_decode. cbn zeta. rewrite HL.
  set (data := hello_head h ++ rest) in *.
  change (0 + 1)%nat with 1%nat. change (1 + 8)%nat with 9%nat. change (9 + 2)%nat with 11%nat.
  rewrite C0, Hv, C1, C2, u64_of_le_bytes, Z.eqb_refl by done. cbn [negb].
  rewrite u16_of_le_bytes, Nat2Z.id by (unfold fits; lia). rewrite C3.
  unfold MAX_DID_LENGTH, MAX_NAME_LENGTH, heapless_vec128_extend_from_slice. do 3 skip_if.
  rewrite vec_extend_Some by done. cbn [app]. do 2 skip_if.
  replace (11 + length (did h) + 32)%nat with (43 + length (did h))%nat by lia.
  replace (43 + length (did h) + 32)%nat with (75 + length (did h))%nat by lia.
  replace (75 + length (did h) + 1)%nat with (76 + length (did h))%nat by lia.
  rewrite C4, C5, C6, Nat2Z.id. skip_if. fold n. skip_if.
  destruct (Nat.ltb_spec (length rest) n).
  { destruct (Nat.ltb_spec (76 + length (did h) + length rest) (76 + length (did h) + n)); [done|lia]. }
  skip_if. unfold heapless_vec64_extend_from_slice.
  replace (slice data (76 + length (did h)) n) with (slice rest 0 n) by (rewrite <- C7; f_equal; lia).
  rewrite vec_extend_Some by (rewrite length_slice; unfold MAX_NAME_LENGTH; simpl; lia). cbn [app].
  destruct (Nat.ltb_spec (length rest) (n + 96)).
  { repeat match goal with |- context [(?a <? ?b)%nat] => destruct (Nat.ltb_spec a b) end; done || lia. }
  do 2 skip_if.
  by rewrite <- (C7 n 32%nat), <- (C7 (n + 32)%nat 64%nat), Nat.add_assoc.
Qed.

Lemma slice_step (l : list Z) off n : drop off l = slice l off n ++ drop (off + n) l.
Proof. unfold slice. by rewrite <- drop_drop, take_drop. Qed.

Lemma arr_step l off : (off < length l)%nat -> drop off l = l.[off] :: drop (off + 1) l.
Proof.
  intros [b Hb]%lookup_lt_is_Some. unfold arr. rewrite Hb. rewrite (drop_S l b) by done.
  by rewrite Nat.add_comm.
Qed.

Lemma byte_at l i : bytes_ok l -> byte_ok (l.[i]).
Proof.
  intros Hl. unfold arr. destruct (l !! i) eqn:E; [by apply (Forall_lookup_1 _ _ _ _ Hl E)|done].
Qed.

Lemma le_bytes_of_u64 l : bytes_ok l -> length l = 8%nat -> le_bytes 8 (u64_of_bytes l) = l /\ fits 64 (u64_of_bytes l).
Proof.
  intros Hl Hn. assert (u64_of_bytes l = le_val l) as ->.
  { do 8 (destruct l as [|? l]; [done|]). destruct l; [|done]. by apply le64_eq. }
  split; [rewrite <- Hn; by apply le_bytes_le_val | by apply (le_val_bound l) in Hl; rewrite Hn in Hl].
Qed.

Lemma le_bytes_of_u16 l : bytes_ok l -> length l = 2%nat -> le_bytes 2 (u16_of_bytes l) = l /\ fits 16 (u16_of_bytes l).
Proof.
  intros Hl Hn. assert (u16_of_bytes l = le_val l) as ->.
  { do 2 (destruct l as [|? l]; [done|]). destruct l; [|done]. rewrite !Forall_cons in Hl.
    destruct Hl as (?&?&_). by apply le16_eq. }
  split; [rewrite <- Hn; by apply le_bytes_le_val | by apply (le_val_bound l) in Hl; rewrite Hn in Hl].
Qed.

(** Enters the branch of a decoder that does not return an error. *)
Ltac pass_if H :=
  match type of H with
  | (if ?c then _ else _) = _ =>
    let E := fresh "E" in
    destruct c eqn:E; [done|]; rewrite ?orb_false_iff, ?Nat.ltb_ge, ?Nat.leb_gt, ?negb_false_iff in E
  end.

Lemma decode_sound data h :
  bytes_ok data -> contact_hello_decode data = inr h ->
  hello_wf h /\ exists rest, data = hello_head h ++ name h ++ avatar_hash h ++ signature h ++ rest.
Proof.
  intros Hb H. unfold contact_hello_decode in H. cbn zeta in H.
  change (0 + 1)%nat with 1%nat in H. change (1 + 8)%nat with 9%nat in H.
  change (9 + 2)%nat with 11%nat in H.
  do 2 pass_if H. apply Z.eqb_eq in E0.
  set (dl := Z.to_nat (u16_of_bytes (slice data 9 2))) in *. pass_if H. destruct E1 as [E1 E1'].
  unfold heapless_vec128_extend_from_slice, heapless_vec64_extend_from_slice in H.
  rewrite vec_extend_Some in H by (rewrite length_slice; simpl; lia).
  do 3 pass_if H.
  set (nl := Z.to_nat (data.[11 + dl + 32 + 32])) in *. pass_if H. destruct E5 as [E5 E5'].
  rewrite vec_extend_Some in H by (rewrite length_slice; simpl; lia).
  do 2 pass_if H. cbn [app] in H. apply (inj inr) in H as <-.
  pose proof (byte_at data (11 + dl + 32 + 32) Hb) as Hnl.
  destruct (le_bytes_of_u64 (slice data 1 8)) as [T1 T2]; [auto with word|apply length_slice; lia|].
  destruct (le_bytes_of_u16 (slice data 9 2)) as [D1 D2]; [auto with word|apply length_slice; lia|].
  split.
  - split; cbn [version timestamp did ed25519_public x25519_public name avatar_hash signature];
      rewrite ?length_slice by lia; done.
  - exists (drop (11 + dl + 32 + 32 + 1 + nl + 32 + 64) data).
    unfold hello_head. cbn [version timestamp did ed25519_public x25519_public name avatar_hash signature].
    rewrite T1, !length_slice by lia. unfold dl at 1, nl at 1. unfold fits in Hnl, D2. rewrite !Z2Nat.id by lia. rewrite D1.
    transitivity (drop 0 data); [by rewrite drop_0|].
    rewrite (arr_step _ 0) by lia. change (0 + 1)%nat with 1%nat.
    rewrite (slice_step data 1 8), (slice_step data (1 + 8) 2), (slice_step data (1 + 8 + 2) dl),
      (slice_step data (_ + dl) 32), (slice_step data (_ + dl + 32) 32), (arr_step _ (_ + 32 + 32)),
      (slice_step data (_ + 1) nl), (slice_step data (_ + nl) 32), (slice_step data (_ + nl + 32) 64) by lia.
    rewrite <- !app_assoc. cbn [app]. done.
Qed.

Lemma hello_decode_encode h :
  hello_wf h ->
  contact_hello_decode (contact_hello_encode h) =
  if (text_len h <=? 148)%nat then inr h else inl CONTACT_HELLO_ERROR_INVALID_FORMAT.
Proof.
  intros Hw. rewrite encode_form by done. pose proof Hw as [_ _ Hd _ _ Hn Ha Hs].
  unfold MAX_DID_LENGTH, MAX_NAME_LENGTH in *.
  unfold hello_tail, text_len. rewrite <- app_assoc.
  destruct (Nat.leb_spec (length (did h) + length (name h)) 148).
  - replace (length (did h) + length (name h) <=? 180)%nat with true by (symmetry; apply Nat.leb_le; lia).
    cbn [orb]. rewrite decode_head by (try done; rewrite !length_app; lia).
    rewrite !length_app. do 2 skip_if.
    rewrite (slice_cut [] (name h) (avatar_hash h ++ signature h)),
      (slice_cut (name h) (avatar_hash h) (signature h)),
      (slice_cut (name h ++ avatar_hash h) (signature h) []) by
      (rewrite ?app_nil_r, ?length_app, ?app_assoc; (done || lia)).
    by destruct h.
  - rewrite Nat.ltb_antisym. destruct (Nat.leb_spec (length (did h) + length (name h)) 180);
      cbn [orb negb app]; (rewrite decode_head by (try done; rewrite ?length_app; lia));
      rewrite length_app; skip_if; by rewrite (proj2 (Nat.ltb_lt _ _)) by lia.
Qed.

Lemma length_encode h : hello_wf h -> (140 <= length (contact_hello_encode h) <= 320)%nat.
Proof.
  intros Hw. rewrite encode_form, !length_app, length_hello_head by done.
  pose proof (length_hello_tail h Hw). pose proof (wf_signature h Hw). pose proof (wf_did h Hw).
  unfold MAX_DID_LENGTH in *. lia.
Qed.

(** ** The storage form of a contact *)

Record contact_wf (c : Contact) : Prop := {
  wf_hello : hello_wf (hello c);
  wf_petname : (length (petname c) <= MAX_NAME_LENGTH)%nat;
  wf_last_seen : fits 64 (last_seen c);
  wf_message_count : fits 32 (message_count c)
}.

Lemma trust_of_value t : trust_of_byte (trust_value t) = t.
Proof. by destruct t. Qed.

Lemma serialize_form c (e := contact_hello_encode (hello c)) :
  contact_wf c ->
  contact_serialize c =
  le_bytes 2 (Z.of_nat (length e)) ++ e ++ [trust_value (trust c)]
  ++ [Z.of_nat (length (petname c))] ++ petname c ++ le_bytes 8 (last_seen c)
  ++ le_bytes 4 (message_count c).
Proof.
  intros [Hh Hp _ _]. pose proof (length_encode _ Hh). fold e in H.
  unfold contact_serialize. cbn zeta. fold e. unfold MAX_NAME_LENGTH in *.
  rewrite u64_to_bytes_le, u32_to_bytes_le, u16_to_bytes_le, small_u8, small_u16 by lia.
  rewrite (vec512_fits [] (le_bytes 2 _)), (vec512_fits _ e), (vec512_push_fits _ (trust_value _)),
    vec512_push_fits, (vec512_fits _ (petname c)), (vec512_fits _ (le_bytes 8 _)), vec512_fits
    by (cbn [app length]; room).
  cbn [app]. by rewrite <- !app_assoc.
Qed.

(** The side conditions of [slice_cut] and [arr_cut] on a list [d] of named pieces. *)
Ltac cut_side d t n H2 H8 :=
  first [ done | unfold d, t, n; by rewrite <- ?app_assoc
        | rewrite ?length_app, ?H2, ?H8; try unfold t; try unfold n; cbn [length]; lia ].

Lemma deserialize_serialize c :
  contact_wf c ->
  contact_deserialize (contact_serialize c) =
  if (text_len (hello c) <=? 148)%nat then Some c else None.
Proof.
  intros Hw. rewrite serialize_form by done. destruct Hw as [Hh Hp Hl Hm].
  pose proof (length_encode _ Hh) as He. unfold MAX_NAME_LENGTH in *.
  set (e := contact_hello_encode (hello c)) in *.
  set (l2 := le_bytes 2 (Z.of_nat (length e))). set (t := [trust_value (trust c)]).
  set (p := petname c) in *. set (n := [Z.of_nat (length p)]).
  set (l8 := le_bytes 8 (last_seen c)). set (l4 := le_bytes 4 (message_count c)).
  assert (length l2 = 2%nat) as H2 by apply length_le_bytes.
  assert (length l8 = 8%nat) as H8 by apply length_le_bytes.
  assert (length l4 = 4%nat) as H4 by apply length_le_bytes.
  set (d := l2 ++ e ++ t ++ n ++ p ++ l8 ++ l4).
  assert (length d = 2 + length e + 1 + 1 + length p + 8 + 4)%nat as Hd.
  { unfold d. rewrite !length_app, H2, H8, H4. unfold t, n. cbn [length]. lia. }
  unfold contact_deserialize. cbn zeta. rewrite Hd. change (0 + 2)%nat with 2%nat. skip_if.
  rewrite (slice_cut [] l2 (e ++ t ++ n ++ p ++ l8 ++ l4)) by done. unfold l2.
  rewrite u16_of_le_bytes, Nat2Z.id by (unfold fits; lia). skip_if.
  rewrite (slice_cut l2 e (t ++ n ++ p ++ l8 ++ l4)) by done.
  replace (contact_hello_decode e) with
    (if (text_len (hello c) <=? 148)%nat then inr (hello c) else inl CONTACT_HELLO_ERROR_INVALID_FORMAT)
    by (symmetry; by apply hello_decode_encode).
  destruct (Nat.leb_spec (text_len (hello c)) 148); [|done]. do 2 skip_if.
  rewrite (arr_cut (l2 ++ e) (trust_value (trust c)) (n ++ p ++ l8 ++ l4) d (2 + length e)), trust_of_value,
    (arr_cut (l2 ++ e ++ t) (Z.of_nat (length p)) (p ++ l8 ++ l4) d (2 + length e + 1)), Nat2Z.id by cut_side d t n H2 H8.
  do 2 skip_if. rewrite (slice_cut (l2 ++ e ++ t ++ n) p (l8 ++ l4) d (2 + length e + 1 + 1)) by cut_side d t n H2 H8.
  unfold heapless_vec64_extend_from_slice. rewrite vec_extend_Some by done. skip_if.
  rewrite (slice_cut (l2 ++ e ++ t ++ n ++ p) l8 l4 d (2 + length e + 1 + 1 + length p)), (slice_cut (l2 ++ e ++ t ++ n ++ p ++ l8) l4 [] d (2 + length e + 1 + 1 + length p + 8))
    by (rewrite ?app_nil_r; cut_side d t n H2 H8).
  unfold l8, l4. rewrite u64_of_le_bytes, u32_of_le_bytes by done. by destruct c.
Qed.

(** ** The store as a finite map

    The specification of the store: a map of at most 64 contacts by fingerprint. *)

Abbreviation entries_map := (slots_map en_key en_value occupied).
Abbreviation distinct_keys := (slots_distinct en_key occupied).

Definition store_map (s : ContactStore) : gmap (list Z) Contact := entries_map (entries s).

Record store_wf (s : ContactStore) : Prop := {
  wf_slots : length (entries s) = MAX_CONTACTS;
  wf_keys : distinct_keys (entries s);
  wf_count : count s = Z.of_nat (size (store_map s))
}.

(** The lookup of [entry_is], which is the [slot_matches] of the table. *)
Lemma entries_map_lookup es k :
  entries_map es !! k = (fun ie => en_value ie.2) <$> find_first (entry_is k) es.
Proof. apply slots_map_lookup. Qed.

Lemma probe_inv es idx i n j :
  probe es idx i n = Some j -> exists e, es !! j = Some e /\ occupied e = false.
Proof.
  revert i. induction n as [|n IH]; intros i; [done|]. cbn [probe].
  destruct (es !! ((idx + i) mod MAX_CONTACTS)%nat) as [e|] eqn:He; [|done]. destruct (occupied e) eqn:Ho; cbn [negb]; [apply IH|].
  intros [= <-]. eauto.
Qed.

Lemma probe_None es idx i n :
  length es = MAX_CONTACTS -> probe es idx i n = None ->
  forall k, (i <= k < i + n)%nat ->
  exists e, es !! ((idx + k) mod MAX_CONTACTS)%nat = Some e /\ occupied e = true.
Proof.
  intros Hl. revert i. induction n as [|n IH]; intros i Hp k Hk; [lia|]. cbn [probe] in Hp.
  destruct (lookup_lt_is_Some_2 es ((idx + i) mod MAX_CONTACTS)) as [e He].
  { rewrite Hl. by apply Nat.mod_upper_bound. }
  rewrite He in Hp. destruct (occupied e) eqn:Ho; cbn [negb] in Hp; [|done].
  destruct (decide (k = i)) as [->|]; [eauto|]. apply (IH (S i)); [done|lia].
Qed.

(** The probe sequence visits every slot. *)
Lemma probe_full es idx e :
  length es = MAX_CONTACTS -> probe es idx 0 MAX_CONTACTS = None -> e ∈ es -> occupied e = true.
Proof.
  intros Hl Hp [j Hj]%list_elem_of_lookup. pose proof (lookup_lt_Some _ _ _ Hj) as Hlt.
  rewrite Hl in Hlt. unfold MAX_CONTACTS in *.
  destruct (probe_None es idx 0 64 Hl Hp ((j + 64 - idx mod 64) mod 64)%nat) as (e' & He & Ho).
  { pose proof (Nat.mod_upper_bound (j + 64 - idx mod 64) 64). unfold MAX_CONTACTS. lia. }
  assert ((idx + (j + 64 - idx mod 64) mod 64) mod 64 = j)%nat as E by div_lia.
  unfold MAX_CONTACTS in He. rewrite E in He. congruence.
Qed.

Lemma store_map_get s k : contact_store_get s k = store_map s !! k.
Proof. symmetry. apply entries_map_lookup. Qed.

Lemma store_size s : store_wf s -> (size (store_map s) <= MAX_CONTACTS)%nat.
Proof. intros [Hl Hd _]. rewrite <- Hl. by apply slots_size_le. Qed.

Lemma put_spec s i e k c :
  store_wf s -> entries s !! i = Some e -> occupied e = false -> store_map s !! k = None ->
  store_wf (store_put s i k c) /\ store_map (store_put s i k c) = <[k := c]> (store_map s).
Proof.
  intros Hw Hi Ho Hn. pose proof Hw as [Hl Hd Hc].
  destruct (slot_fill en_key en_value occupied (entries s) i e (mkEntry k c true)) as [Hd' Hm]; [done..|]. split; [|done].
  assert (length (entries (store_put s i k c)) = MAX_CONTACTS) as Hl'
    by (unfold store_put; cbn [entries]; by rewrite length_insert).
  pose proof (slots_size_le en_key en_value occupied _ Hd') as Hs. rewrite Hm in Hs.
  cbn [en_key en_value] in Hm, Hs. rewrite map_size_insert_None in Hs by done. split; [done|done|].
  unfold store_map, store_put in *. cbn [entries count] in *.
  rewrite Hm, map_size_insert_None, Hc by done. rewrite Hl' in Hs. unfold MAX_CONTACTS in Hs.
  rewrite u32_small by (unfold fits; lia). lia.
Qed.

Lemma new_spec s0 :
  length (entries s0) = MAX_CONTACTS ->
  store_wf (contact_store_new s0) /\ store_map (contact_store_new s0) = ∅.
Proof.
  intros Hl. assert (store_map (contact_store_new s0) = ∅) as Hm.
  { unfold store_map, entries_map, contact_store_new. cbn [entries]. clear Hl.
    induction (entries s0) as [|e es IH]; [done|apply IH]. }
  split; [|done]. split; [cbn [contact_store_new entries]; by rewrite length_fmap| |].
  - intros i j x y (e & -> & _)%list_lookup_fmap_Some _ [=].
  - by rewrite Hm, map_size_empty.
Qed.

Lemma add_spec H s c (k := contact_key H c) :
  store_wf s ->
  let '(s', err) := contact_store_add H s c in
  store_wf s' /\
  if decide (store_map s !! k = None /\ size (store_map s) = MAX_CONTACTS)
  then err = CONTACT_HELLO_ERROR_BUFFER_TOO_SMALL /\ s' = s
  else err = CONTACT_HELLO_ERROR_NONE /\ store_map s' = <[k := c]> (store_map s).
Proof.
  intros Hw. pose proof Hw as [Hl Hd Hc]. unfold contact_store_add. cbn zeta. fold k.
  pose proof (entries_map_lookup (entries s) k) as Hk. fold (store_map s) in Hk.
  destruct (find_first (entry_is k) (entries s)) as [[i e]|] eqn:Hf.
  - apply (slot_found en_key occupied) in Hf as (Hi & Ho & <-). cbn in Hk.
    rewrite decide_False by (rewrite Hk; by intros [??]).
    destruct (slot_update en_key en_value occupied (entries s) i e (mkEntry (en_key e) c true)) as [Hd' Hm]; [done..|]. rewrite Ho.
    split; [|done]. split; [cbn [entries]; by rewrite length_insert|done|].
    unfold store_map in *. cbn [entries count].
    rewrite Hm, map_size_insert_Some by (by rewrite Hk). done.
  - cbn in Hk. destruct (probe (entries s) (hash_key k) 0 MAX_CONTACTS) as [i|] eqn:Hp.
    + apply probe_inv in Hp as (e & Hi & Ho).
      destruct (put_spec s i e k c) as [Hw' Hm]; [done..|]. split; [done|].
      rewrite decide_False; [done|]. intros [_ Hs]. pose proof (store_size _ Hw') as Hs'.
      rewrite Hm, map_size_insert_None in Hs' by done. lia.
    + split; [done|]. rewrite decide_True; [done|]. split; [done|].
      unfold store_map. rewrite slots_size by done.
      assert (filter (fun e => occupied e = true) (entries s) = entries s) as ->; [|done].
      apply filter_all. intros e He. by apply (probe_full (entries s) (hash_key k)).
Qed.

Lemma remove_spec s k :
  store_wf s ->
  let '(s', out) := contact_store_remove s k in
  store_wf s' /\ store_map s' = delete k (store_map s) /\ out = store_map s !! k.
Proof.
  intros Hw. pose proof Hw as [Hl Hd Hc]. unfold contact_store_remove.
  pose proof (entries_map_lookup (entries s) k) as Hk. fold (store_map s) in Hk.
  destruct (find_first (entry_is k) (entries s)) as [[i e]|] eqn:Hf.
  - apply (slot_found en_key occupied) in Hf as (Hi & Ho & <-). cbn in Hk.
    destruct (slot_clear en_key en_value occupied (entries s) i e (mkEntry (en_key e) (en_value e) false)) as [Hd' Hm]; [done..|].
    split; [|done]. split; [cbn [entries]; by rewrite length_insert|done|].
    pose proof (store_size s Hw) as Hs. unfold store_map in *. cbn [entries count].
    rewrite Hm, map_size_delete_Some by done. unfold MAX_CONTACTS in Hs.
    assert (size (entries_map (entries s)) <> 0)%nat.
    { intros E%map_size_empty_inv. rewrite E in Hk. by rewrite lookup_empty in Hk. }
    rewrite Hc, u32_small by (unfold fits; lia). lia.
  - cbn in Hk. rewrite delete_id by done. done.
Qed.

Lemma get_mut_spec s k f :
  store_wf s ->
  store_wf (contact_store_get_mut s k f)
  /\ store_map (contact_store_get_mut s k f) = alter f k (store_map s).
Proof.
  intros Hw. pose proof Hw as [Hl Hd Hc]. unfold contact_store_get_mut.
  pose proof (entries_map_lookup (entries s) k) as Hk. fold (store_map s) in Hk.
  destruct (find_first (entry_is k) (entries s)) as [[i e]|] eqn:Hf.
  - apply (slot_found en_key occupied) in Hf as (Hi & Ho & <-). cbn in Hk. rewrite Ho.
    destruct (slot_update en_key en_value occupied (entries s) i e (mkEntry (en_key e) (f (en_value e)) true)) as [Hd' Hm]; [done..|].
    assert (alter f (en_key e) (store_map s) = <[en_key e := f (en_value e)]> (store_map s)) as ->.
    { apply map_eq. intros k. destruct (decide (en_key e = k)) as [<-|].
      - by rewrite lookup_alter_eq, Hk, lookup_insert_eq.
      - by rewrite lookup_alter_ne, lookup_insert_ne. }
    split; [|done]. split; [cbn [entries]; by rewrite length_insert|done|].
    unfold store_map in *. cbn [entries count]. rewrite Hm, map_size_insert_Some by (by rewrite Hk). done.
  - cbn in Hk. split; [done|]. symmetry. by apply alter_id'.
Qed.

(** ** Persistence *)

(** The contacts [save] writes, in the order of their slots. *)
Definition saved (es : list ContactMapEntry) : list Contact :=
  omap (fun e => if occupied e then Some (en_value e) else None) es.

(** A contact whose texts leave room for the whole hello. *)
Abbreviation intact := (fun c => (text_len (hello c) <= 148)%nat).

Lemma key_name_inj i j : (i < 64)%nat -> (j < 64)%nat -> key_name i = key_name j -> i = j.
Proof. intros Hi Hj. apply (decimal_key_inj [99; 110; 116; 95]); lia. Qed.

Lemma saved_reads get_u32 get_blob es idx :
  Forall (reads_back get_u32 get_blob) (save_entries es idx) ->
  forall i c, saved es !! i = Some c -> get_blob (key_name (idx + i)) = Some (contact_serialize c).
Proof.
  revert idx. induction es as [|e es IH]; intros idx; [done|].
  unfold saved. cbn [save_entries omap list_omap]. destruct (occupied e); cbn [negb]; [|apply IH].
  rewrite Forall_cons. intros [Hr Hf] [|i] c Hc.
  - injection Hc as <-. by rewrite Nat.add_0_r.
  - rewrite Nat.add_succ_r. by apply (IH (S idx)).
Qed.

Lemma saved_elem es c : c ∈ saved es <-> exists e, e ∈ es /\ occupied e = true /\ en_value e = c.
Proof.
  unfold saved. rewrite list_elem_of_omap. split.
  - intros (e & He & Ho). exists e. by destruct (occupied e); simplify_eq.
  - intros (e & He & Ho & <-). exists e. by rewrite Ho.
Qed.

Lemma length_saved es : length (saved es) = length (filter (fun e => occupied e = true) es).
Proof.
  induction es as [|e es IH]; [done|]. unfold saved. rewrite filter_cons. cbn [omap list_omap].
  destruct (occupied e); [rewrite decide_True by done|by rewrite decide_False by done].
  cbn [length]. by f_equal.
Qed.

Section persistence.
Context (H : list Z -> list Z).
Abbreviation key := (contact_key H).

(** Every slot is filed under the fingerprint of its contact. *)
Definition keyed (es : list ContactMapEntry) : Prop :=
  forall e, e ∈ es -> occupied e = true -> en_key e = key (en_value e) /\ contact_wf (en_value e).

Lemma saved_nodup es : distinct_keys es -> keyed es -> NoDup (key <$> saved es).
Proof.
  induction es as [|e es IH]; intros Hd Hk; [constructor|].
  assert (NoDup (key <$> saved es)) as Hn.
  { apply IH; [by apply slots_distinct_tail in Hd|]. intros e' He'. apply Hk. by right. }
  unfold saved. cbn [omap list_omap]. destruct (occupied e) eqn:Ho; [|done]. cbn [fmap list_fmap].
  constructor; [|done]. intros (c & Hkc & (e' & He' & Ho' & <-)%saved_elem)%list_elem_of_fmap.
  apply list_elem_of_lookup in He' as Hj. destruct Hj as [j Hj].
  assert (0%nat = S j); [|done]. apply (Hd 0%nat (S j) e e'); try done.
  destruct (Hk e) as [-> _]; [by left|done|]. destruct (Hk e') as [-> _]; [by right|done|done].
Qed.

Context (get_blob : list Z -> option (list Z)).

Lemma load_step_saved s n idx c :
  contact_wf c -> get_blob (key_name idx) = Some (contact_serialize c) ->
  load_step H get_blob (s, n) idx =
  if (text_len (hello c) <=? 148)%nat then
    match find_first (fun e => negb (occupied e)) (entries s) with
    | Some (i, _) => (store_put s i (key c) c, S n)
    | None => (s, n)
    end
  else (s, n).
Proof.
  intros Hw Hb. unfold load_step. rewrite Hb, deserialize_serialize by done.
  replace (0 <? length (contact_serialize c))%nat with true; [by destruct (text_len (hello c) <=? 148)%nat|].
  symmetry. apply Nat.ltb_lt. rewrite serialize_form, length_app, length_le_bytes by done. lia.
Qed.

Lemma load_contacts cs idx s n :
  store_wf s -> NoDup (key <$> cs) -> (size (store_map s) + length cs <= MAX_CONTACTS)%nat ->
  (forall c, c ∈ cs -> contact_wf c /\ store_map s !! key c = None) ->
  (forall i c, cs !! i = Some c -> get_blob (key_name (idx + i)) = Some (contact_serialize c)) ->
  exists s', foldl (load_step H get_blob) (s, n) (seq idx (length cs))
             = (s', n + length (filter intact cs))%nat
  /\ store_wf s'
  /\ store_map s' = list_to_map ((fun c => (key c, c)) <$> filter intact cs) ∪ store_map s.
Proof.
  revert idx s n. induction cs as [|c cs IH]; intros idx s n Hw Hn Hs Hc Hb.
  { exists s. rewrite Nat.add_0_r. split_and!; [done|done|]. symmetry.
    apply (left_id_L (∅ : gmap (list Z) Contact) (∪)). }
  cbn [length seq foldl]. destruct (Hc c) as [Hcw Hck]; [by left|].
  pose proof (Hb 0%nat c eq_refl) as Hb0. rewrite Nat.add_0_r in Hb0.
  rewrite (load_step_saved s n idx c) by done.
  cbn [length] in Hs. inversion Hn as [|?? Hk Hn']; subst.
  assert (forall i c', cs !! i = Some c' -> get_blob (key_name (S idx + i)) = Some (contact_serialize c')) as Hb'.
  { intros i c' Hi. rewrite Nat.add_succ_comm. by apply Hb. }
  rewrite filter_cons. destruct (Nat.leb_spec (text_len (hello c)) 148).
  - destruct (slots_free en_key en_value occupied (entries s)) as (i & e & -> & Hi & Ho);
      [apply Hw|rewrite wf_slots by done; unfold store_map in Hs; lia|].
    destruct (put_spec s i e (key c) c) as [Hw' Hm]; [done..|].
    destruct (IH (S idx) (store_put s i (key c) c) (S n)) as (s' & Hf & Hws & Hms); try done.
    + rewrite Hm, map_size_insert_None by done. lia.
    + intros c' Hc'. destruct (Hc c') as [? Hck']; [by right|]. split; [done|].
      rewrite Hm, lookup_insert_ne; [done|]. intros E. apply Hk. rewrite E.
      by apply list_elem_of_fmap_2.
    + exists s'. rewrite decide_True by done. cbn [length fmap list_fmap list_to_map foldr uncurry fst snd].
      rewrite Hf. split_and!; [f_equal; lia|done|].
      rewrite Hms, Hm. change (foldr _ _ _) with
        (list_to_map (M := gmap (list Z) Contact) ((fun c => (key c, c)) <$> filter intact cs)).
      rewrite <- insert_union_l. symmetry. apply insert_union_r.
      apply not_elem_of_list_to_map_1. rewrite <- list_fmap_compose.
      intros (c' & E & Hc')%list_elem_of_fmap. apply Hk. cbn in E. rewrite E.
      apply list_elem_of_filter in Hc' as [_ ?]. by apply list_elem_of_fmap_2.
  - destruct (IH (S idx) s n) as (s' & Hf & Hws & Hms); try done; [lia| |].
    + intros c' Hc'. apply Hc. by right.
    + exists s'. rewrite decide_False by lia. done.
Qed.

Lemma saved_filter_nodup es :
  distinct_keys es -> keyed es ->
  NoDup (fst ∘ (fun c => (key c, c)) <$> filter intact (saved es)).
Proof.
  intros Hd Hk. apply (sublist_NoDup _ (key <$> saved es)); [by apply saved_nodup|].
  apply (fmap_sublist key), sublist_filter.
Qed.

Lemma saved_map es :
  distinct_keys es -> keyed es ->
  list_to_map ((fun c => (key c, c)) <$> filter intact (saved es)) =
  filter (fun kc => (text_len (hello kc.2) <= 148)%nat) (entries_map es).
Proof.
  intros Hd Hk. apply map_eq. intros k. apply option_eq. intros c.
  rewrite <- elem_of_list_to_map; cycle 1.
  { rewrite <- list_fmap_compose. by apply saved_filter_nodup. }
  rewrite map_lookup_filter_Some, slots_map_Some, list_elem_of_fmap by done. cbn [snd]. split.
  - intros (c' & [= -> ->] & [Ht (e & He & Ho & <-)%saved_elem]%list_elem_of_filter).
    split; [|done]. exists e. destruct (Hk e He Ho). eauto.
  - intros ((e & He & Ho & <- & <-) & Ht). exists (en_value e). destruct (Hk e He Ho) as [-> _].
    split; [done|]. apply list_elem_of_filter. split; [done|]. apply saved_elem. eauto.
Qed.

Lemma load_saved get_u32 s s0 :
  store_wf s -> keyed (entries s) -> store_wf s0 -> store_map s0 = ∅ ->
  get_u32 cnt_count = Some (Z.of_nat (size (store_map s))) ->
  Forall (reads_back get_u32 get_blob) (save_entries (entries s) 0) ->
  exists s', contact_store_load_from_nvs H get_u32 get_blob true s0
             = (s', size (store_map s'), CONTACT_HELLO_ERROR_NONE)
  /\ store_wf s'
  /\ store_map s' = filter (fun kc => (text_len (hello kc.2) <= 148)%nat) (store_map s).
Proof.
  intros Hw Hk Hw0 H0 Hc Hf. pose proof Hw as [Hl Hd _]. pose proof (store_size s Hw) as Hs.
  assert (length (saved (entries s)) = size (store_map s)) as Hn
    by (unfold store_map; by rewrite length_saved, slots_size).
  unfold contact_store_load_from_nvs. rewrite Hc. cbn [negb].
  rewrite (proj2 (Z.ltb_ge (Z.of_nat MAX_CONTACTS) _)), Nat2Z.id, <- Hn by lia.
  destruct (load_contacts (saved (entries s)) 0 s0 0) as (s' & -> & Hws & Hms); try done.
  - by apply saved_nodup.
  - rewrite H0, map_size_empty. lia.
  - intros c (e & He & Ho & <-)%saved_elem. rewrite H0, lookup_empty. split; [|done].
    by destruct (Hk e He Ho).
  - by apply (saved_reads get_u32).
  - rewrite H0, (right_id_L ∅ (∪)), saved_map in Hms by done. exists s'.
    split_and!; [|done|done]. do 2 f_equal. rewrite Hms, <- saved_map by done.
    rewrite <- length_map_to_list, map_to_list_to_map; [by rewrite length_fmap|].
    rewrite <- list_fmap_compose. by apply saved_filter_nodup.
Qed.
End persistence.

(** ** Properties *)

(** The signature scheme as contact.c relies on it: signatures are 64 bytes, and what
    a key signed its public key verifies. *)
Class Signature (sign : list Z -> list Z -> list Z) (verify : list Z -> list Z -> list Z -> bool)
    (public : list Z -> list Z) : Prop := {
  sign_length : forall sk m, length (sign sk m) = 64%nat;
  verify_sign : forall sk m, verify (public sk) m (sign sk m) = true
}.

(** Two hellos that differ in nothing but the signature. *)
Definition with_signature (h : ContactHello) (s : list Z) : ContactHello :=
  mkHello (version h) (timestamp h) (did h) (ed25519_public h) (x25519_public h) (name h)
    (avatar_hash h) s.

Definition with_avatar (h : ContactHello) (a : list Z) : ContactHello :=
  mkHello (version h) (timestamp h) (did h) (ed25519_public h) (x25519_public h) (name h)
    a (signature h).

Lemma with_signature_wf h s : hello_wf h -> length s = 64%nat -> hello_wf (with_signature h s).
Proof. intros [] ?. by split. Qed.

(** Concrete data for the witnesses. *)
Definition sample_hello (d n : nat) : ContactHello :=
  mkHello CONTACT_HELLO_VERSION 1700000000 (replicate d 100) (replicate 32 7) (replicate 32 8)
    (replicate n 110) (replicate 32 9) (replicate 64 0).

Lemma sample_hello_wf d n : (d <= 128)%nat -> (n <= 64)%nat -> hello_wf (sample_hello d n).
Proof. intros. split; cbn; rewrite ?length_replicate; done. Qed.

Definition sample_sign (sk m : list Z) : list Z := replicate 64 (u8 (le_val sk + le_val m)).
Definition sample_verify (pk m s : list Z) : bool := bool_decide (s = sample_sign pk m).

#[local] Instance sample_signature : Signature sample_sign sample_verify id.
Proof. split; intros; [apply length_replicate | by apply bool_decide_eq_true_2]. Qed.

Definition sample_hash (m : list Z) : list Z := take 32 (m ++ replicate 32 0).
Definition sample_store : ContactStore :=
  contact_store_new (mkStore (replicate 64 (mkEntry [] (contact_from_hello (sample_hello 20 10)) true)) 5).
Definition sample_contact (d n : nat) : Contact := contact_from_hello (sample_hello d n).

Lemma sample_contact_wf d n : (d <= 128)%nat -> (n <= 64)%nat -> contact_wf (sample_contact d n).
Proof.
  intros. split; [by apply sample_hello_wf|apply Nat.le_0_l| |]; unfold fits; cbn; lia.
Qed.

Lemma sample_store_wf : store_wf sample_store /\ store_map sample_store = ∅.
Proof. by apply new_spec. Qed.

(** A well-formed hello whose DID and name have at most 148 bytes together decodes,
    from its encoding and from its QR text, to itself; with longer texts the encoder drops
    fields and the decoder answers INVALID_FORMAT. Conversely whatever decodes is a
    well-formed hello, and the input is its fields in order, followed by bytes that are
    ignored. *)
Theorem contact_hello_roundtrip (h : ContactHello) :
  (hello_wf h ->
   let result := if (text_len h <=? 148)%nat then inr h else inl CONTACT_HELLO_ERROR_INVALID_FORMAT in
   contact_hello_decode (contact_hello_encode h) = result
   /\ contact_hello_from_qr_data (contact_hello_to_qr_data h) = result)
  /\ (forall data, bytes_ok data -> contact_hello_decode data = inr h ->
      hello_wf h
      /\ exists rest, data = hello_head h ++ name h ++ avatar_hash h ++ signature h ++ rest).
Proof.
  split; [|intros data; apply decode_sound]. intros Hw. cbn zeta.
  rewrite <- hello_decode_encode by done. split; [done|].
  pose proof (length_encode h Hw). unfold contact_hello_to_qr_data. cbn zeta.
  rewrite (vec512_fits [] qr_prefix), vec512_fits by (cbn [length app qr_prefix]; lia).
  unfold contact_hello_from_qr_data. rewrite length_app. cbn [length app qr_prefix Nat.add].
  rewrite (proj2 (Nat.ltb_ge _ 4)), bool_decide_eq_true_2 by (done || lia). done.
Qed.

Lemma contact_hello_roundtrip_witness :
  contact_hello_decode (contact_hello_encode (sample_hello 100 48)) = inr (sample_hello 100 48)
  /\ contact_hello_decode (contact_hello_encode (sample_hello 100 49))
     = inl CONTACT_HELLO_ERROR_INVALID_FORMAT.
Proof.
  split.
  - destruct (contact_hello_roundtrip (sample_hello 100 48)) as [R _].
    destruct R as [R _]; [apply sample_hello_wf; lia|exact R].
  - destruct (contact_hello_roundtrip (sample_hello 100 49)) as [R _].
    destruct R as [R _]; [apply sample_hello_wf; lia|exact R].
Defined.

(** A hello signed with the key of its public key verifies. When the texts of two
    hellos leave room (148 bytes), the signed bytes are the same only if all fields but the
    signature are: the signature covers the whole hello. With 149 to 180 bytes of text the
    avatar hash is not covered: replacing it leaves the verdict as it is. *)
Theorem signature_covers_hello sign verify public `{!Signature sign verify public} (h : ContactHello)
    (Hw : hello_wf h) :
  (forall sk, ed25519_public h = public sk ->
   contact_hello_verify verify (contact_hello_sign sign h sk) = (true, CONTACT_HELLO_ERROR_NONE))
  /\ (forall h', hello_wf h' -> (text_len h <= 148)%nat -> (text_len h' <= 148)%nat ->
      contact_hello_encode_for_signing h = contact_hello_encode_for_signing h' <->
      h' = with_signature h (signature h'))
  /\ (forall a, length a = 32%nat -> (148 < text_len h <= 180)%nat ->
      contact_hello_verify verify (with_avatar h a) = contact_hello_verify verify h).
Proof.
  split_and!.
  - intros sk Hpk. unfold contact_hello_verify, contact_hello_sign. cbn [ed25519_public signature].
    f_equal. transitivity (verify (ed25519_public h) (contact_hello_encode_for_signing h)
      (sign sk (contact_hello_encode_for_signing h))); [done|]. rewrite Hpk. apply verify_sign.
  - intros h' Hw' Ht Ht'. split.
    + intros E. pose proof (wf_signature h' Hw') as Hs.
      pose proof (hello_decode_encode _ (with_signature_wf h (signature h') Hw Hs)) as D.
      pose proof (hello_decode_encode h' Hw') as D'.
      assert (contact_hello_encode (with_signature h (signature h')) = contact_hello_encode h') as E'.
      { unfold contact_hello_encode. cbn zeta. rewrite <- E. done. }
      rewrite E', D' in D. unfold text_len in *. cbn [with_signature did name] in D.
      rewrite !(proj2 (Nat.leb_le _ _)) in D by done. by apply (inj inr) in D.
    + intros E. by rewrite E.
  - intros a Ha Ht. unfold contact_hello_verify. cbn [with_avatar ed25519_public signature].
    assert (hello_wf (with_avatar h a)) by (destruct Hw; by split).
    rewrite !encode_for_signing_form by done. unfold hello_tail, text_len in *.
    cbn [with_avatar did name avatar_hash]. rewrite Nat.ltb_antisym.
    rewrite (proj2 (Nat.leb_le _ 180)), (proj2 (Nat.leb_gt _ 148)) by lia. done.
Qed.

Lemma signature_covers_hello_witness :
  contact_hello_verify sample_verify (contact_hello_sign sample_sign (sample_hello 100 50) (replicate 32 7))
  = (true, CONTACT_HELLO_ERROR_NONE)
  /\ contact_hello_verify sample_verify (with_avatar (sample_hello 100 50) (replicate 32 1))
     = contact_hello_verify sample_verify (sample_hello 100 50).
Proof.
  destruct (signature_covers_hello sample_sign sample_verify id (sample_hello 100 50))
    as (S1 & _ & S3); [apply sample_hello_wf; lia|].
  split; [by apply S1|]. apply S3; [done|cbn; lia].
Defined.

(** C9. The store implements a map of at most 64 contacts by fingerprint: a new store is
    empty; [get], [len] and [is_empty] read the map; [add] inserts, except that a 65th
    fingerprint gets BUFFER_TOO_SMALL and changes nothing; [remove] returns and deletes; a
    write through [get_mut] alters one contact. Every operation preserves the invariant (64
    slots, no fingerprint in two of them, an exact count). *)
Theorem contact_store_refines_map H (s : ContactStore) (Hw : store_wf s) :
  (forall s0, length (entries s0) = MAX_CONTACTS ->
   store_wf (contact_store_new s0) /\ store_map (contact_store_new s0) = ∅)
  /\ (forall k, contact_store_get s k = store_map s !! k)
  /\ contact_store_len s = Z.of_nat (size (store_map s))
  /\ (contact_store_is_empty s = true <-> store_map s = ∅)
  /\ (forall c, let '(s', err) := contact_store_add H s c in
      store_wf s' /\
      if decide (store_map s !! contact_key H c = None /\ size (store_map s) = MAX_CONTACTS)
      then err = CONTACT_HELLO_ERROR_BUFFER_TOO_SMALL /\ s' = s
      else err = CONTACT_HELLO_ERROR_NONE /\ store_map s' = <[contact_key H c := c]> (store_map s))
  /\ (forall k, let '(s', out) := contact_store_remove s k in
      store_wf s' /\ store_map s' = delete k (store_map s) /\ out = store_map s !! k)
  /\ (forall k f, store_wf (contact_store_get_mut s k f)
      /\ store_map (contact_store_get_mut s k f) = alter f k (store_map s)).
Proof.
  split; [apply new_spec|]. split; [apply store_map_get|]. split; [apply Hw|]. split.
  - unfold contact_store_is_empty. rewrite (wf_count s Hw), Z.eqb_eq, <- map_size_empty_iff. lia.
  - split; [|split].
    + intros c. by apply add_spec.
    + intros k. by apply remove_spec.
    + intros k f. by apply get_mut_spec.
Qed.

Lemma contact_store_refines_map_witness :
  (contact_store_add sample_hash sample_store (sample_contact 20 10)).2 = CONTACT_HELLO_ERROR_NONE
  /\ contact_store_get sample_store (replicate 8 7) = None.
Proof.
  destruct (contact_store_refines_map sample_hash sample_store) as (_ & G & _ & _ & A & _).
  { apply sample_store_wf. }
  split.
  - specialize (A (sample_contact 20 10)).
    destruct (contact_store_add sample_hash sample_store (sample_contact 20 10)) as [s' err].
    destruct A as [_ A]. destruct sample_store_wf as [_ E]. rewrite decide_False in A; [apply A|].
    rewrite E, map_size_empty. intros [_ ?]. done.
  - rewrite G. destruct sample_store_wf as [_ E]. by rewrite E, lookup_empty.
Defined.

(** Persistence: [save] writes the count and one blob per contact, under names that
    differ for the 64 indices, and fails only when [nvs_open] fails twice. Loading what was
    written into an empty store restores the map, except the contacts whose hello has more
    than 148 bytes of text; the number returned is the number of contacts restored. *)
Theorem contact_store_save_load H (s s0 : ContactStore) (get_u32 : list Z -> option Z)
    (get_blob : list Z -> option (list Z)) (open1 open2 : bool)
    (Hw : store_wf s) (Hk : keyed H (entries s)) (Hw0 : store_wf s0) (H0 : store_map s0 = ∅)
    (Hr : Forall (reads_back get_u32 get_blob) (contact_store_save_to_nvs open1 open2 s).1) :
  (forall i j, (i < j < 64)%nat -> key_name i <> key_name j)
  /\ ((contact_store_save_to_nvs open1 open2 s).2 = CONTACT_HELLO_ERROR_NONE <-> open1 || open2 = true)
  /\ (open1 || open2 = true ->
      exists s', contact_store_load_from_nvs H get_u32 get_blob true s0
                 = (s', size (store_map s'), CONTACT_HELLO_ERROR_NONE)
      /\ store_wf s'
      /\ store_map s' = filter (fun kc => (text_len (hello kc.2) <= 148)%nat) (store_map s)).
Proof.
  split; [intros i j Hij E%key_name_inj; lia|].
  split; [destruct open1, open2; cbn; split; congruence|].
  intros Ho. pose proof (store_size s Hw) as Hs. unfold MAX_CONTACTS in Hs.
  assert (Forall (reads_back get_u32 get_blob)
    (nvs_set_u32 cnt_count (u32 (count s)) :: save_entries (entries s) 0 ++ [nvs_commit])) as Hr'.
  { destruct open1, open2; try done; by inversion Hr. }
  apply Forall_cons in Hr' as [Hc [Hf _]%Forall_app]. cbn [reads_back] in Hc.
  rewrite (wf_count s Hw), u32_small in Hc by (unfold fits; lia).
  apply load_saved; done.
Qed.

(** A store with one contact. *)
Definition sample_saved : ContactStore :=
  (contact_store_add sample_hash sample_store (sample_contact 20 10)).1.

Lemma contact_store_save_load_witness :
  exists s', contact_store_load_from_nvs sample_hash (fun _ => Some 1)
    (fun _ => Some (contact_serialize (sample_contact 20 10))) true sample_store
    = (s', size (store_map s'), CONTACT_HELLO_ERROR_NONE) /\ store_wf s'.
Proof.
  destruct sample_store_wf as [Hw Hm].
  pose proof (add_spec sample_hash sample_store (sample_contact 20 10) Hw) as A.
  destruct (contact_store_save_load sample_hash sample_saved sample_store (fun _ => Some 1)
    (fun _ => Some (contact_serialize (sample_contact 20 10))) true true) as (_ & _ & L).
  - unfold sample_saved. revert A.
    destruct (contact_store_add sample_hash sample_store (sample_contact 20 10)). intros [A _]. exact A.
  - intros e He Ho.
    assert (Forall (fun e => occupied e = false \/ e = mkEntry (replicate 8 7) (sample_contact 20 10) true)
      (entries sample_saved)) as Hf.
    { apply (bool_decide_unpack _). vm_compute. exact I. }
    rewrite Forall_forall in Hf. destruct (Hf e He) as [Hn| ->]; [by rewrite Hn in Ho|].
    split; [vm_compute; done|apply sample_contact_wf; lia].
  - exact Hw.
  - exact Hm.
  - vm_compute. repeat constructor.
  - destruct L as (s' & L & Hs & _); [done|]. exists s'. split; [exact L|exact Hs].
Defined.
