(* ===== verification/Kiss.v ===== *)
(** * KISS framing: lunarcore/lunar/rnode.c, first part

    The frames a Reticulum host exchanges with an RNode over the serial link: FEND
    delimiters, FESC escapes, the byte-at-a-time parser. [RNode] holds the command
    handler. rnode.c ends with a second, self-contained copy of these types made for
    its tests; the copy is not modelled. *)
From S2P Require Import Prelude.

(** ** Constants and commands *)

Definition FEND : Z := 0xC0.
Definition FESC : Z := 0xDB.
Definition TFEND : Z := 0xDC.
Definition TFESC : Z := 0xDD.

Definition MAX_DATA_SIZE : nat := 512.
Definition MAX_FRAME_SIZE : nat := MAX_DATA_SIZE * 2 + 4.

Definition KISS_CMD_DATA_FRAME : Z := 0x00.

Inductive RNodeCommand :=
  | RNODE_CMD_FREQUENCY | RNODE_CMD_BANDWIDTH | RNODE_CMD_TX_POWER
  | RNODE_CMD_SPREADING_FACTOR | RNODE_CMD_CODING_RATE | RNODE_CMD_RADIO_STATE
  | RNODE_CMD_RADIO_LOCK | RNODE_CMD_DETECT | RNODE_CMD_LEAVE | RNODE_CMD_SAVE_CONFIG
  | RNODE_CMD_RESET_CONFIG | RNODE_CMD_BOOTLOADER | RNODE_CMD_PROMISC | RNODE_CMD_READY
  | RNODE_CMD_PREAMBLE_LENGTH | RNODE_CMD_SYMBOL_TIMEOUT | RNODE_CMD_SYNC_WORD
  | RNODE_CMD_CRC_MODE | RNODE_CMD_IMPLICIT_HEADER | RNODE_CMD_LDRO | RNODE_CMD_STAT_RX
  | RNODE_CMD_STAT_TX | RNODE_CMD_STAT_RSSI | RNODE_CMD_STAT_SNR | RNODE_CMD_STAT_BATTERY
  | RNODE_CMD_STAT_CHANNEL | RNODE_CMD_AIRTIME_LIMIT | RNODE_CMD_AIRTIME_USAGE
  | RNODE_CMD_BLINK | RNODE_CMD_LED_INTENSITY | RNODE_CMD_RANDOM | RNODE_CMD_PLATFORM
  | RNODE_CMD_MCU | RNODE_CMD_BOARD | RNODE_CMD_ROM_INFO | RNODE_CMD_FW_VERSION
  | RNODE_CMD_PROTOCOL_VERSION | RNODE_CMD_HARDWARE_SERIAL | RNODE_CMD_SIGNATURE
  | RNODE_CMD_TCXO_VOLTAGE | RNODE_CMD_ERROR | RNODE_CMD_ROM_DATA | RNODE_CMD_INFO
  | RNODE_CMD_DATA_RSSI.

#[global] Instance RNodeCommand_eq_dec : EqDecision RNodeCommand.
Proof. solve_decision. Defined.

(** The enumerator's value, [(uint8_t)cmd]. *)
Definition rnode_command_value (c : RNodeCommand) : Z :=
  match c with
  | RNODE_CMD_FREQUENCY => 0x01 | RNODE_CMD_BANDWIDTH => 0x02 | RNODE_CMD_TX_POWER => 0x03
  | RNODE_CMD_SPREADING_FACTOR => 0x04 | RNODE_CMD_CODING_RATE => 0x05
  | RNODE_CMD_RADIO_STATE => 0x06 | RNODE_CMD_RADIO_LOCK => 0x07 | RNODE_CMD_DETECT => 0x08
  | RNODE_CMD_LEAVE => 0x0A | RNODE_CMD_SAVE_CONFIG => 0x0B
  | RNODE_CMD_RESET_CONFIG => 0x0C | RNODE_CMD_BOOTLOADER => 0x0D
  | RNODE_CMD_PROMISC => 0x0E | RNODE_CMD_READY => 0x0F | RNODE_CMD_PREAMBLE_LENGTH => 0x10
  | RNODE_CMD_SYMBOL_TIMEOUT => 0x11 | RNODE_CMD_SYNC_WORD => 0x12
  | RNODE_CMD_CRC_MODE => 0x13 | RNODE_CMD_IMPLICIT_HEADER => 0x14 | RNODE_CMD_LDRO => 0x15
  | RNODE_CMD_STAT_RX => 0x21 | RNODE_CMD_STAT_TX => 0x22 | RNODE_CMD_STAT_RSSI => 0x23
  | RNODE_CMD_STAT_SNR => 0x24 | RNODE_CMD_STAT_BATTERY => 0x25
  | RNODE_CMD_STAT_CHANNEL => 0x26 | RNODE_CMD_AIRTIME_LIMIT => 0x27
  | RNODE_CMD_AIRTIME_USAGE => 0x28 | RNODE_CMD_BLINK => 0x30
  | RNODE_CMD_LED_INTENSITY => 0x31 | RNODE_CMD_RANDOM => 0x40 | RNODE_CMD_PLATFORM => 0x48
  | RNODE_CMD_MCU => 0x49 | RNODE_CMD_BOARD => 0x4A | RNODE_CMD_ROM_INFO => 0x4B
  | RNODE_CMD_FW_VERSION => 0x50 | RNODE_CMD_PROTOCOL_VERSION => 0x51
  | RNODE_CMD_HARDWARE_SERIAL => 0x55 | RNODE_CMD_SIGNATURE => 0x56
  | RNODE_CMD_TCXO_VOLTAGE => 0x60 | RNODE_CMD_ERROR => 0x90 | RNODE_CMD_ROM_DATA => 0xA0
  | RNODE_CMD_INFO => 0xB0 | RNODE_CMD_DATA_RSSI => 0xFE
  end.

Definition rnode_command_from_byte (b : Z) : option RNodeCommand :=
  match b with
  | 0x01 => Some RNODE_CMD_FREQUENCY | 0x02 => Some RNODE_CMD_BANDWIDTH
  | 0x03 => Some RNODE_CMD_TX_POWER | 0x04 => Some RNODE_CMD_SPREADING_FACTOR
  | 0x05 => Some RNODE_CMD_CODING_RATE | 0x06 => Some RNODE_CMD_RADIO_STATE
  | 0x07 => Some RNODE_CMD_RADIO_LOCK | 0x08 => Some RNODE_CMD_DETECT
  | 0x0A => Some RNODE_CMD_LEAVE | 0x0B => Some RNODE_CMD_SAVE_CONFIG
  | 0x0C => Some RNODE_CMD_RESET_CONFIG | 0x0D => Some RNODE_CMD_BOOTLOADER
  | 0x0E => Some RNODE_CMD_PROMISC | 0x0F => Some RNODE_CMD_READY
  | 0x10 => Some RNODE_CMD_PREAMBLE_LENGTH | 0x11 => Some RNODE_CMD_SYMBOL_TIMEOUT
  | 0x12 => Some RNODE_CMD_SYNC_WORD | 0x13 => Some RNODE_CMD_CRC_MODE
  | 0x14 => Some RNODE_CMD_IMPLICIT_HEADER | 0x15 => Some RNODE_CMD_LDRO
  | 0x21 => Some RNODE_CMD_STAT_RX | 0x22 => Some RNODE_CMD_STAT_TX
  | 0x23 => Some RNODE_CMD_STAT_RSSI | 0x24 => Some RNODE_CMD_STAT_SNR
  | 0x25 => Some RNODE_CMD_STAT_BATTERY | 0x26 => Some RNODE_CMD_STAT_CHANNEL
  | 0x27 => Some RNODE_CMD_AIRTIME_LIMIT | 0x28 => Some RNODE_CMD_AIRTIME_USAGE
  | 0x30 => Some RNODE_CMD_BLINK | 0x31 => Some RNODE_CMD_LED_INTENSITY
  | 0x40 => Some RNODE_CMD_RANDOM | 0x48 => Some RNODE_CMD_PLATFORM
  | 0x49 => Some RNODE_CMD_MCU | 0x4A => Some RNODE_CMD_BOARD
  | 0x4B => Some RNODE_CMD_ROM_INFO | 0x50 => Some RNODE_CMD_FW_VERSION
  | 0x51 => Some RNODE_CMD_PROTOCOL_VERSION | 0x55 => Some RNODE_CMD_HARDWARE_SERIAL
  | 0x56 => Some RNODE_CMD_SIGNATURE | 0x60 => Some RNODE_CMD_TCXO_VOLTAGE
  | 0x90 => Some RNODE_CMD_ERROR | 0xA0 => Some RNODE_CMD_ROM_DATA
  | 0xB0 => Some RNODE_CMD_INFO | 0xFE => Some RNODE_CMD_DATA_RSSI
  | _ => None
  end.

(** ** Frames *)

(** [Vec_u8_MAX_DATA] and [Vec_u8_MAX_FRAME]: a push onto a full vector returns false
    and is ignored by every caller. *)
Definition vec_u8_max_data_push (vec : list Z) (value : Z) : list Z :=
  if (MAX_DATA_SIZE <=? length vec)%nat then vec else vec ++ [value].

Definition vec_u8_max_frame_push (vec : list Z) (value : Z) : list Z :=
  if (MAX_FRAME_SIZE <=? length vec)%nat then vec else vec ++ [value].

Record KissFrame := mkKissFrame { kf_command : Z; kf_data : list Z }.

#[global] Instance KissFrame_eq_dec : EqDecision KissFrame.
Proof. solve_decision. Defined.

Definition kiss_frame_new (command : Z) : KissFrame := mkKissFrame command [].

Definition kiss_frame_data_frame (data : list Z) : option KissFrame :=
  if (MAX_DATA_SIZE <? length data)%nat then None
  else Some (mkKissFrame KISS_CMD_DATA_FRAME (foldl vec_u8_max_data_push [] data)).

Definition kiss_frame_command_frame (cmd : RNodeCommand) (data : list Z) : option KissFrame :=
  if (MAX_DATA_SIZE <? length data)%nat then None
  else Some (mkKissFrame (rnode_command_value cmd) (foldl vec_u8_max_data_push [] data)).

Definition escape_byte (buf : list Z) (byte : Z) : list Z :=
  if byte =? FEND then vec_u8_max_frame_push (vec_u8_max_frame_push buf FESC) TFEND
  else if byte =? FESC then vec_u8_max_frame_push (vec_u8_max_frame_push buf FESC) TFESC
  else vec_u8_max_frame_push buf byte.

Definition kiss_frame_encode (frame : KissFrame) : list Z :=
  let buf := vec_u8_max_frame_push [] FEND in
  let buf := escape_byte buf (kf_command frame) in
  let buf := foldl escape_byte buf (kf_data frame) in
  vec_u8_max_frame_push buf FEND.

Definition kiss_frame_port (frame : KissFrame) : Z := (kf_command frame .>> 4) .& 0x0F.
Definition kiss_frame_cmd_type (frame : KissFrame) : Z := kf_command frame .& 0x0F.

(** ** The parser *)

Inductive KissState := WAIT_START | WAIT_COMMAND | READ_DATA | ESCAPE.

Record KissParser := mkKissParser { kp_state : KissState; kp_command : Z; kp_data : list Z }.

Definition kiss_parser_new : KissParser := mkKissParser WAIT_START 0 [].
Definition kiss_parser_reset (parser : KissParser) : KissParser := mkKissParser WAIT_START 0 [].

Definition kiss_parser_feed (parser : KissParser) (byte : Z) : KissParser * option KissFrame :=
  match kp_state parser with
  | WAIT_START =>
      if byte =? FEND then (mkKissParser WAIT_COMMAND (kp_command parser) [], None)
      else (parser, None)
  | WAIT_COMMAND =>
      if byte =? FEND then (parser, None)
      else if byte =? FESC then (mkKissParser ESCAPE (kp_command parser) (kp_data parser), None)
      else (mkKissParser READ_DATA byte (kp_data parser), None)
  | READ_DATA =>
      if byte =? FEND then
        (kiss_parser_reset parser, Some (mkKissFrame (kp_command parser) (kp_data parser)))
      else if byte =? FESC then (mkKissParser ESCAPE (kp_command parser) (kp_data parser), None)
      else (mkKissParser READ_DATA (kp_command parser)
              (vec_u8_max_data_push (kp_data parser) byte), None)
  | ESCAPE =>
      let unescaped := if byte =? TFEND then FEND else if byte =? TFESC then FESC else byte in
      (mkKissParser READ_DATA (kp_command parser)
         (vec_u8_max_data_push (kp_data parser) unescaped), None)
  end.

(** The parser over a byte string, with the frames it hands out. *)
Fixpoint kiss_feed_all (p : KissParser) (bytes : list Z) : KissParser * list KissFrame :=
  match bytes with
  | [] => (p, [])
  | b :: bytes =>
      let '(p, f) := kiss_parser_feed p b in
      let '(p, fs) := kiss_feed_all p bytes in
      (p, match f with Some f => f :: fs | None => fs end)
  end.

(** ** The encoding *)

Definition escaped (b : Z) : list Z :=
  if b =? FEND then [FESC; TFEND] else if b =? FESC then [FESC; TFESC] else [b].

Definition escape (l : list Z) : list Z := concat (escaped <$> l).

Lemma escape_cons b l : escape (b :: l) = escaped b ++ escape l.
Proof. done. Qed.

Lemma length_escape l : (length (escape l) <= 2 * length l)%nat.
Proof.
  induction l as [|b l IH]; [done|]. rewrite escape_cons, length_app. unfold escaped.
  destruct (b =? FEND), (b =? FESC); simpl; lia.
Qed.

Lemma frame_push_fits v b : (length v < MAX_FRAME_SIZE)%nat -> vec_u8_max_frame_push v b = v ++ [b].
Proof. unfold vec_u8_max_frame_push. by intros ->%Nat.leb_gt. Qed.

Lemma data_push_fits v b : (length v < MAX_DATA_SIZE)%nat -> vec_u8_max_data_push v b = v ++ [b].
Proof. unfold vec_u8_max_data_push. by intros ->%Nat.leb_gt. Qed.

Lemma data_push_le v b : (length v <= MAX_DATA_SIZE)%nat -> (length (vec_u8_max_data_push v b) <= MAX_DATA_SIZE)%nat.
Proof.
  intros. unfold vec_u8_max_data_push. destruct (Nat.leb_spec MAX_DATA_SIZE (length v)); [done|].
  rewrite length_app. simpl. lia.
Qed.

Lemma data_pushes v l :
  (length v + length l <= MAX_DATA_SIZE)%nat -> foldl vec_u8_max_data_push v l = v ++ l.
Proof.
  revert v. induction l as [|b l IH]; intros v Hl; simpl in *; [by rewrite app_nil_r|].
  rewrite data_push_fits by lia. rewrite IH; [by rewrite <- app_assoc|]. rewrite length_app. simpl. lia.
Qed.

Lemma escape_byte_fits v b :
  (length v + length (escaped b) <= MAX_FRAME_SIZE)%nat -> escape_byte v b = v ++ escaped b.
Proof.
  unfold escape_byte, escaped. destruct (b =? FEND), (b =? FESC); cbn [length]; intros.
  1,2,3: rewrite (frame_push_fits v) by lia; rewrite frame_push_fits by (rewrite length_app; cbn [length]; lia);
    by rewrite <- app_assoc.
  rewrite frame_push_fits by lia. done.
Qed.

Lemma escape_bytes_fit v l :
  (length v + length (escape l) <= MAX_FRAME_SIZE)%nat -> foldl escape_byte v l = v ++ escape l.
Proof.
  revert v. induction l as [|b l IH]; intros v Hl; simpl; [by rewrite app_nil_r|].
  rewrite escape_cons, length_app in Hl. rewrite escape_byte_fits by lia.
  rewrite IH by (rewrite length_app; lia). by rewrite <- app_assoc.
Qed.

(** No push of the encoder fails: twice 514 bytes are the capacity of its buffer. *)
Lemma kiss_encode_form f :
  (length (kf_data f) <= MAX_DATA_SIZE)%nat ->
  kiss_frame_encode f = FEND :: escaped (kf_command f) ++ escape (kf_data f) ++ [FEND].
Proof.
  intros Hl. pose proof (length_escape (kf_data f)) as He.
  assert (length (escaped (kf_command f)) <= 2)%nat as Hc
    by (unfold escaped; destruct (kf_command f =? FEND), (kf_command f =? FESC); simpl; lia).
  unfold MAX_DATA_SIZE in Hl. unfold kiss_frame_encode. cbn zeta.
  rewrite (frame_push_fits []) by (unfold MAX_FRAME_SIZE, MAX_DATA_SIZE; cbn [length]; lia).
  rewrite escape_byte_fits by (unfold MAX_FRAME_SIZE, MAX_DATA_SIZE; cbn [length app]; lia).
  rewrite escape_bytes_fit, frame_push_fits
    by (unfold MAX_FRAME_SIZE, MAX_DATA_SIZE; rewrite ?length_app; cbn [length app]; rewrite ?length_app; lia).
  cbn [app]. by rewrite <- app_assoc.
Qed.

(** ** Parsing what was encoded *)

Lemma kiss_feed_app p l1 l2 :
  kiss_feed_all p (l1 ++ l2) =
  let '(p1, f1) := kiss_feed_all p l1 in
  let '(p2, f2) := kiss_feed_all p1 l2 in (p2, f1 ++ f2).
Proof.
  revert p. induction l1 as [|b l1 IH]; intros p; simpl.
  - by destruct (kiss_feed_all p l2).
  - destruct (kiss_parser_feed p b) as [p' o]. rewrite IH.
    destruct (kiss_feed_all p' l1) as [p1 f1], (kiss_feed_all p1 l2) as [p2 f2]. by destruct o.
Qed.

Lemma kiss_feed_escaped c d b :
  (length d < MAX_DATA_SIZE)%nat ->
  kiss_feed_all (mkKissParser READ_DATA c d) (escaped b) = (mkKissParser READ_DATA c (d ++ [b]), []).
Proof.
  intros Hd. unfold escaped. destruct (Z.eqb_spec b FEND) as [->|H1]; [|destruct (Z.eqb_spec b FESC) as [->|H2]];
    cbn; rewrite ?(proj2 (Z.eqb_neq b _) H1), ?(proj2 (Z.eqb_neq b _) H2); by rewrite data_push_fits.
Qed.

Lemma kiss_feed_data c d l :
  (length d + length l <= MAX_DATA_SIZE)%nat ->
  kiss_feed_all (mkKissParser READ_DATA c d) (escape l) = (mkKissParser READ_DATA c (d ++ l), []).
Proof.
  revert d. induction l as [|b l IH]; intros d Hl; simpl in Hl; [by rewrite app_nil_r|].
  rewrite escape_cons, kiss_feed_app, kiss_feed_escaped by lia. rewrite IH by (rewrite length_app; simpl; lia).
  by rewrite <- app_assoc.
Qed.

Lemma kiss_feed_noise p noise :
  kp_state p = WAIT_START -> FEND ∉ noise -> kiss_feed_all p noise = (p, []).
Proof.
  intros Hp. induction noise as [|b l IH]; intros Hn; [done|].
  apply not_elem_of_cons in Hn as [Hb Hn]. cbn [kiss_feed_all]. unfold kiss_parser_feed.
  rewrite Hp, (proj2 (Z.eqb_neq b FEND)) by congruence. by rewrite IH.
Qed.

(** What the parser makes of an encoded frame: a command byte that had to be escaped is
    taken for data of a frame with command 0. *)
Definition delivered (f : KissFrame) : KissFrame :=
  if (kf_command f =? FEND) || (kf_command f =? FESC)
  then mkKissFrame KISS_CMD_DATA_FRAME (kf_command f :: kf_data f) else f.

Lemma kiss_feed_frame f :
  (length (kf_data (delivered f)) <= MAX_DATA_SIZE)%nat ->
  kiss_feed_all kiss_parser_new (FEND :: escaped (kf_command f) ++ escape (kf_data f) ++ [FEND])
  = (kiss_parser_new, [delivered f]).
Proof.
  intros Hl. destruct f as [c d]. unfold delivered in *. cbn [kf_command kf_data] in *.
  change (FEND :: escaped c ++ escape d ++ [FEND]) with ([FEND] ++ escaped c ++ escape d ++ [FEND]).
  assert (kiss_feed_all kiss_parser_new [FEND] = (mkKissParser WAIT_COMMAND 0 [], [])) as E by done.
  rewrite kiss_feed_app, E. cbv beta iota. unfold escaped.
  destruct (Z.eqb_spec c FEND) as [->|H1]; [|destruct (Z.eqb_spec c FESC) as [->|H2]]; cbn [orb kf_data] in *.
  - rewrite (kiss_feed_app _ [FESC; TFEND]). cbn in Hl.
    change (kiss_feed_all (mkKissParser WAIT_COMMAND 0 []) [FESC; TFEND])
      with (mkKissParser READ_DATA 0 [FEND], @nil KissFrame).
    cbv beta iota. rewrite kiss_feed_app, kiss_feed_data by (cbn; lia). done.
  - rewrite (kiss_feed_app _ [FESC; TFESC]). cbn in Hl.
    change (kiss_feed_all (mkKissParser WAIT_COMMAND 0 []) [FESC; TFESC])
      with (mkKissParser READ_DATA 0 [FESC], @nil KissFrame).
    cbv beta iota. rewrite kiss_feed_app, kiss_feed_data by (cbn; lia). done.
  - rewrite (kiss_feed_app _ [c]). cbn [kiss_feed_all]. unfold kiss_parser_feed at 1. cbn [kp_state].
    rewrite (proj2 (Z.eqb_neq c FEND)), (proj2 (Z.eqb_neq c FESC)) by done. cbn [kp_data].
    cbv beta iota. rewrite kiss_feed_app, kiss_feed_data by (cbn; lia). done.
Qed.

(** Every frame preceded by line noise. *)
Definition kiss_stream (segs : list (list Z * KissFrame)) : list Z :=
  concat ((fun s => s.1 ++ kiss_frame_encode s.2) <$> segs).

Definition kiss_seg_ok (s : list Z * KissFrame) : Prop :=
  (FEND ∉ s.1) /\ (length (kf_data s.2) <= MAX_DATA_SIZE)%nat
  /\ (length (kf_data (delivered s.2)) <= MAX_DATA_SIZE)%nat.

#[global] Instance kiss_seg_ok_dec s : Decision (kiss_seg_ok s).
Proof. unfold kiss_seg_ok. apply _. Defined.

(** C11. KISS round trip: from a stream of encoded frames, with any noise without FEND before
    each, the parser delivers the frames in order and waits for the next one; only a frame
    whose command byte is FEND or FESC comes out changed, as a data frame that carries the
    command byte in front of its data. *)
Theorem kiss_stream_roundtrip segs (Hs : Forall kiss_seg_ok segs) :
  kiss_feed_all kiss_parser_new (kiss_stream segs) = (kiss_parser_new, (fun s => delivered s.2) <$> segs).
Proof.
  induction Hs as [|[noise f] segs (Hn & Hl & Hd) _ IH]; [done|].
  unfold kiss_stream in *. cbn [fmap list_fmap concat fst snd] in *.
  rewrite <- app_assoc, kiss_feed_app, kiss_feed_noise by done.
  rewrite kiss_feed_app, kiss_encode_form, kiss_feed_frame by done. by rewrite IH.
Qed.

Lemma kiss_stream_roundtrip_witness :
  kiss_feed_all kiss_parser_new
    (kiss_stream [([1; 2], mkKissFrame 0 [FEND; 7; FESC]); ([], mkKissFrame FESC [5])])
  = (kiss_parser_new, [mkKissFrame 0 [FEND; 7; FESC]; mkKissFrame 0 [FESC; 5]]).
Proof.
  apply (kiss_stream_roundtrip
    [([1; 2], mkKissFrame 0 [FEND; 7; FESC]); ([], mkKissFrame FESC [5])]).
  apply (bool_decide_unpack _). vm_compute. exact I.
Defined.

(** ** Soundness of the parser *)

Definition unescape (b : Z) : Z := if b =? TFEND then FEND else if b =? TFESC then FESC else b.

(** [unescapes wire data]: the data bytes that a stretch of wire bytes stands for; bytes
    beyond the 512th are lost. *)
Inductive unescapes : list Z -> list Z -> Prop :=
  | unescapes_nil : unescapes [] []
  | unescapes_plain l d b :
      unescapes l d -> b <> FEND -> b <> FESC -> unescapes (l ++ [b]) (vec_u8_max_data_push d b)
  | unescapes_escape l d b :
      unescapes l d -> unescapes (l ++ [FESC; b]) (vec_u8_max_data_push d (unescape b)).
#[local] Hint Constructors unescapes : core.

Lemma unescapes_bound l d : unescapes l d -> (length d <= MAX_DATA_SIZE)%nat.
Proof. induction 1; [simpl; lia|by apply data_push_le..]. Qed.

(** [reads body c d]: between delimiters, [body] is a frame with command [c] and data
    [d]: a plain command byte and the rest, or everything as data when it starts with
    an escape. *)
Definition reads (body : list Z) (c : Z) (d : list Z) : Prop :=
  (exists rest, body = c :: rest /\ c <> FEND /\ c <> FESC /\ unescapes rest d)
  \/ (exists rest, body = FESC :: rest /\ c = KISS_CMD_DATA_FRAME /\ unescapes body d).

Lemma reads_plain body c d b :
  reads body c d -> b <> FEND -> b <> FESC -> reads (body ++ [b]) c (vec_u8_max_data_push d b).
Proof.
  intros [(r & -> & ? & ? & ?)|(r & -> & ? & ?)] ??; [left|right]; exists (r ++ [b]); split_and!; auto;
    by apply (unescapes_plain (FESC :: r)).
Qed.

Lemma reads_escape body c d b :
  reads body c d -> reads (body ++ [FESC; b]) c (vec_u8_max_data_push d (unescape b)).
Proof.
  intros [(r & -> & ? & ? & ?)|(r & -> & ? & ?)]; [left|right]; exists (r ++ [FESC; b]); split_and!; auto;
    by apply (unescapes_escape (FESC :: r)).
Qed.

(** The state of the parser after the bytes [h]. *)
Definition kiss_inv (p : KissParser) (h : list Z) : Prop :=
  match kp_state p with
  | WAIT_START => p = kiss_parser_new
  | WAIT_COMMAND => p = mkKissParser WAIT_COMMAND 0 [] /\ exists pre, h = pre ++ [FEND]
  | READ_DATA => exists pre body, h = pre ++ FEND :: body /\ reads body (kp_command p) (kp_data p)
  | ESCAPE => exists pre body, h = pre ++ FEND :: body ++ [FESC]
      /\ (reads body (kp_command p) (kp_data p) \/ body = [] /\ kp_command p = 0 /\ kp_data p = [])
  end.

Lemma kiss_feed_inv p h b :
  kiss_inv p h ->
  let '(p', o) := kiss_parser_feed p b in
  kiss_inv p' (h ++ [b]) /\
  match o with
  | Some f => b = FEND /\ exists pre body, h = pre ++ FEND :: body /\ reads body (kf_command f) (kf_data f)
  | None => True
  end.
Proof.
  destruct p as [st c d]. unfold kiss_inv, kiss_parser_feed. cbn [kp_state kp_command kp_data].
  destruct st.
  - intros [= -> ->]. destruct (Z.eqb_spec b FEND) as [->|]; split; cbn; eauto.
  - intros [[= -> ->] [pre ->]]. destruct (Z.eqb_spec b FEND) as [->|Hb]; [split; cbn; eauto|].
    destruct (Z.eqb_spec b FESC) as [->|Hb']; (split; [|done]); cbn.
    + exists pre, []. split; [by rewrite <- app_assoc|]. auto.
    + exists pre, [b]. split; [by rewrite <- app_assoc|]. left. exists []. auto.
  - intros (pre & body & -> & Hr). destruct (Z.eqb_spec b FEND) as [->|Hb]; [split; cbn; eauto|].
    destruct (Z.eqb_spec b FESC) as [->|Hb']; (split; [|done]); cbn.
    + exists pre, body. split; [by rewrite <- app_assoc|auto].
    + exists pre, (body ++ [b]). split; [by rewrite <- app_assoc|]. by apply reads_plain.
  - intros (pre & body & -> & Hr). split; [|done]. cbn.
    exists pre, (body ++ [FESC; b]). split; [by rewrite <- !app_assoc; cbn; rewrite <- app_assoc|].
    destruct Hr as [Hr|(-> & -> & ->)]; [by apply reads_escape|].
    right. exists [b]. split; [done|]. split; [done|]. by apply (unescapes_escape []).
Qed.

Lemma kiss_feed_all_inv p h bs : kiss_inv p h -> kiss_inv (kiss_feed_all p bs).1 (h ++ bs).
Proof.
  revert p h. induction bs as [|b bs IH]; intros p h Hp; cbn [kiss_feed_all]; [by rewrite app_nil_r|].
  pose proof (kiss_feed_inv p h b Hp) as Hf. destruct (kiss_parser_feed p b) as [p' o].
  destruct Hf as [Hf _]. specialize (IH p' (h ++ [b]) Hf). rewrite <- app_assoc in IH.
  by destruct (kiss_feed_all p' bs).
Qed.

(** Soundness of the KISS parser: whatever was received before, a frame is handed out
    only at a FEND, and it is what the bytes since an earlier FEND stand for, its data cut
    at 512 bytes. *)
Theorem kiss_parser_sound bs b f :
  (kiss_parser_feed (kiss_feed_all kiss_parser_new bs).1 b).2 = Some f ->
  b = FEND /\ (length (kf_data f) <= MAX_DATA_SIZE)%nat
  /\ exists pre body, bs = pre ++ FEND :: body /\ reads body (kf_command f) (kf_data f).
Proof.
  intros Hf. pose proof (kiss_feed_all_inv kiss_parser_new [] bs eq_refl) as Hi. cbn [app] in Hi.
  apply (kiss_feed_inv _ _ b) in Hi. destruct (kiss_parser_feed _ b) as [p' o]. cbn in Hf. subst o.
  destruct Hi as (_ & Hb & pre & body & Hbs & Hr). split; [done|]. split; [|eauto].
  destruct Hr as [(? & _ & _ & _ & Hu)|(? & _ & _ & Hu)]; by apply unescapes_bound in Hu.
Qed.

Lemma kiss_parser_sound_witness :
  (kiss_parser_feed (kiss_feed_all kiss_parser_new [9; FEND; 6; FESC; TFEND]).1 FEND).2
  = Some (mkKissFrame 6 [FEND])
  /\ exists pre body, [9; FEND; 6; FESC; TFEND] = pre ++ FEND :: body /\ reads body 6 [FEND].
Proof.
  split; [reflexivity|].
  apply (kiss_parser_sound [9; FEND; 6; FESC; TFEND] FEND (mkKissFrame 6 [FEND])). reflexivity.
Defined.
