(* ===== verification/RNode.v ===== *)
(** * The RNode handler: lunarcore/lunar/rnode.c

    Radio configuration, statistics, identity and the command interpreter behind the KISS
    frames of [Kiss]. The digest of the identity is computed by the extern sha256_hash, a
    parameter here. packet_airtime_ms (single-precision floating point) is not modelled. *)
From S2P Require Import Prelude Sha256 Kiss.

(** ** Configuration *)

Inductive RNodeState :=
  RNODE_STATE_OFFLINE | RNODE_STATE_ONLINE | RNODE_STATE_TRANSMITTING | RNODE_STATE_RECEIVING.

#[global] Instance RNodeState_eq_dec : EqDecision RNodeState.
Proof. solve_decision. Defined.

Record RNodeConfig := mkConfig {
  frequency : Z;          (* uint32_t *)
  bandwidth : Z;          (* uint32_t *)
  tx_power : Z;           (* int8_t *)
  spreading_factor : Z;   (* uint8_t *)
  coding_rate : Z;        (* uint8_t *)
  preamble_length : Z;    (* uint16_t *)
  sync_word : Z;          (* uint8_t *)
  crc_enabled : bool;
  implicit_header : bool;
  ldro : bool
}.

#[global] Instance RNodeConfig_eq_dec : EqDecision RNodeConfig.
Proof. solve_decision. Defined.

Definition rnode_config_default : RNodeConfig :=
  mkConfig 868100000 125000 14 9 5 8 0x12 true false false.

Definition set_frequency (c : RNodeConfig) (v : Z) : RNodeConfig :=
  mkConfig v (bandwidth c) (tx_power c) (spreading_factor c) (coding_rate c) (preamble_length c)
    (sync_word c) (crc_enabled c) (implicit_header c) (ldro c).
Definition set_bandwidth (c : RNodeConfig) (v : Z) : RNodeConfig :=
  mkConfig (frequency c) v (tx_power c) (spreading_factor c) (coding_rate c) (preamble_length c)
    (sync_word c) (crc_enabled c) (implicit_header c) (ldro c).
Definition set_tx_power (c : RNodeConfig) (v : Z) : RNodeConfig :=
  mkConfig (frequency c) (bandwidth c) v (spreading_factor c) (coding_rate c) (preamble_length c)
    (sync_word c) (crc_enabled c) (implicit_header c) (ldro c).
Definition set_spreading_factor (c : RNodeConfig) (v : Z) : RNodeConfig :=
  mkConfig (frequency c) (bandwidth c) (tx_power c) v (coding_rate c) (preamble_length c)
    (sync_word c) (crc_enabled c) (implicit_header c) (ldro c).
Definition set_coding_rate (c : RNodeConfig) (v : Z) : RNodeConfig :=
  mkConfig (frequency c) (bandwidth c) (tx_power c) (spreading_factor c) v (preamble_length c)
    (sync_word c) (crc_enabled c) (implicit_header c) (ldro c).
Definition set_preamble_length (c : RNodeConfig) (v : Z) : RNodeConfig :=
  mkConfig (frequency c) (bandwidth c) (tx_power c) (spreading_factor c) (coding_rate c) v
    (sync_word c) (crc_enabled c) (implicit_header c) (ldro c).
Definition set_sync_word (c : RNodeConfig) (v : Z) : RNodeConfig :=
  mkConfig (frequency c) (bandwidth c) (tx_power c) (spreading_factor c) (coding_rate c)
    (preamble_length c) v (crc_enabled c) (implicit_header c) (ldro c).
Definition set_crc_enabled (c : RNodeConfig) (v : bool) : RNodeConfig :=
  mkConfig (frequency c) (bandwidth c) (tx_power c) (spreading_factor c) (coding_rate c)
    (preamble_length c) (sync_word c) v (implicit_header c) (ldro c).
Definition set_implicit_header (c : RNodeConfig) (v : bool) : RNodeConfig :=
  mkConfig (frequency c) (bandwidth c) (tx_power c) (spreading_factor c) (coding_rate c)
    (preamble_length c) (sync_word c) (crc_enabled c) v (ldro c).
Definition set_ldro (c : RNodeConfig) (v : bool) : RNodeConfig :=
  mkConfig (frequency c) (bandwidth c) (tx_power c) (spreading_factor c) (coding_rate c)
    (preamble_length c) (sync_word c) (crc_enabled c) (implicit_header c) v.

Definition rnode_config_eu868 : RNodeConfig := set_frequency rnode_config_default 868100000.
Definition rnode_config_us915 : RNodeConfig := set_frequency rnode_config_default 915000000.

Definition rnode_config_bandwidth_to_hz (bw_value : Z) : Z :=
  match bw_value with
  | 0 => 125000
  | 1 => 250000
  | 2 => 500000
  | _ => 125000
  end.

Definition rnode_config_hz_to_bandwidth (hz : Z) : Z :=
  if hz <=? 187500 then 0 else if hz <=? 375000 then 1 else 2.

Definition rnode_config_coding_rate_to_ratio (cr : Z) : Z * Z := (4, cr).

Definition rnode_config_should_enable_ldro (c : RNodeConfig) : bool :=
  if bandwidth c <=? 125000 then 11 <=? spreading_factor c
  else if bandwidth c <=? 250000 then 12 <=? spreading_factor c
  else false.

(** ** Statistics, identity, handler *)

Record RNodeStats := mkStats {
  rx_count : Z;       (* uint32_t *)
  rx_bytes : Z;       (* uint64_t *)
  tx_count : Z;       (* uint32_t *)
  tx_bytes : Z;       (* uint64_t *)
  last_rssi : Z;      (* int16_t *)
  last_snr : Z;       (* int8_t *)
  airtime_used : Z;   (* uint64_t *)
  channel_busy : Z    (* uint64_t *)
}.

Definition rnode_stats_default : RNodeStats := mkStats 0 0 0 0 0 0 0 0.

(** The four strings, without their terminating zero. *)
Record RNodeIdentity := mkIdentity {
  serial : list Z;
  platform : list Z;
  mcu : list Z;
  board : list Z;
  fw_version : list Z;
  protocol_version : Z;
  hw_revision : Z
}.

(** "ESP32-S3", "LunarNode", "1.0.0-lunarcore". *)
Definition str_esp32 : list Z := [69; 83; 80; 51; 50; 45; 83; 51].
Definition str_lunarnode : list Z := [76; 117; 110; 97; 114; 78; 111; 100; 101].
Definition str_version : list Z := [49; 46; 48; 46; 48; 45; 108; 117; 110; 97; 114; 99; 111; 114; 101].

Definition rnode_identity_default : RNodeIdentity :=
  mkIdentity (replicate 16 0) str_esp32 str_esp32 str_lunarnode str_version 1 1.

(** [data[64]]: serial, up to 8 bytes of the platform zero-padded, the two revision
    bytes, zeros. *)
Definition rnode_identity_data (i : RNodeIdentity) : list Z :=
  let p := take 8 (platform i) in
  serial i ++ p ++ replicate (8 - length p) 0 ++ [protocol_version i; hw_revision i] ++ replicate 38 0.

Record RNodeHandler := mkHandler {
  parser : KissParser;
  config : RNodeConfig;
  state : RNodeState;
  locked : bool;
  promiscuous : bool;
  stats : RNodeStats;
  identity : RNodeIdentity;
  random_seed : Z;      (* uint32_t *)
  battery_mv : Z;       (* uint16_t *)
  led_intensity : Z;    (* uint8_t *)
  airtime_limit : Z     (* uint32_t *)
}.

Definition rnode_handler_new : RNodeHandler :=
  mkHandler kiss_parser_new rnode_config_default RNODE_STATE_OFFLINE false false
    rnode_stats_default rnode_identity_default 0 0 64 0.

Definition with_parser (h : RNodeHandler) (p : KissParser) : RNodeHandler :=
  mkHandler p (config h) (state h) (locked h) (promiscuous h) (stats h) (identity h)
    (random_seed h) (battery_mv h) (led_intensity h) (airtime_limit h).
Definition with_config (h : RNodeHandler) (c : RNodeConfig) : RNodeHandler :=
  mkHandler (parser h) c (state h) (locked h) (promiscuous h) (stats h) (identity h)
    (random_seed h) (battery_mv h) (led_intensity h) (airtime_limit h).
Definition with_state (h : RNodeHandler) (s : RNodeState) : RNodeHandler :=
  mkHandler (parser h) (config h) s (locked h) (promiscuous h) (stats h) (identity h)
    (random_seed h) (battery_mv h) (led_intensity h) (airtime_limit h).
Definition with_locked (h : RNodeHandler) (b : bool) : RNodeHandler :=
  mkHandler (parser h) (config h) (state h) b (promiscuous h) (stats h) (identity h)
    (random_seed h) (battery_mv h) (led_intensity h) (airtime_limit h).
Definition with_promiscuous (h : RNodeHandler) (b : bool) : RNodeHandler :=
  mkHandler (parser h) (config h) (state h) (locked h) b (stats h) (identity h)
    (random_seed h) (battery_mv h) (led_intensity h) (airtime_limit h).
Definition with_stats (h : RNodeHandler) (s : RNodeStats) : RNodeHandler :=
  mkHandler (parser h) (config h) (state h) (locked h) (promiscuous h) s (identity h)
    (random_seed h) (battery_mv h) (led_intensity h) (airtime_limit h).
Definition with_identity (h : RNodeHandler) (i : RNodeIdentity) : RNodeHandler :=
  mkHandler (parser h) (config h) (state h) (locked h) (promiscuous h) (stats h) i
    (random_seed h) (battery_mv h) (led_intensity h) (airtime_limit h).
Definition with_seed (h : RNodeHandler) (v : Z) : RNodeHandler :=
  mkHandler (parser h) (config h) (state h) (locked h) (promiscuous h) (stats h) (identity h)
    v (battery_mv h) (led_intensity h) (airtime_limit h).
Definition with_battery (h : RNodeHandler) (v : Z) : RNodeHandler :=
  mkHandler (parser h) (config h) (state h) (locked h) (promiscuous h) (stats h) (identity h)
    (random_seed h) v (led_intensity h) (airtime_limit h).
Definition with_led (h : RNodeHandler) (v : Z) : RNodeHandler :=
  mkHandler (parser h) (config h) (state h) (locked h) (promiscuous h) (stats h) (identity h)
    (random_seed h) (battery_mv h) v (airtime_limit h).
Definition with_airtime_limit (h : RNodeHandler) (v : Z) : RNodeHandler :=
  mkHandler (parser h) (config h) (state h) (locked h) (promiscuous h) (stats h) (identity h)
    (random_seed h) (battery_mv h) (led_intensity h) v.

Definition rnode_handler_with_identity (i : RNodeIdentity) : RNodeHandler :=
  with_identity rnode_handler_new i.

Definition rnode_handler_set_serial (h : RNodeHandler) (s : list Z) : RNodeHandler :=
  let i := identity h in
  with_identity h (mkIdentity s (platform i) (mcu i) (board i) (fw_version i) (protocol_version i)
                     (hw_revision i)).

Definition rnode_handler_set_battery_voltage (h : RNodeHandler) (mv : Z) : RNodeHandler := with_battery h mv.
Definition rnode_handler_set_random_seed (h : RNodeHandler) (seed : Z) : RNodeHandler := with_seed h seed.

Definition rnode_handler_next_random (h : RNodeHandler) : RNodeHandler * Z :=
  let s := u32 (random_seed h * 1103515245 + 12345) in (with_seed h s, s).

Definition rnode_handler_feed_serial (h : RNodeHandler) (byte : Z) : RNodeHandler * option KissFrame :=
  let '(p, f) := kiss_parser_feed (parser h) byte in (with_parser h p, f).

(** ** The command interpreter *)

(** [data[0] << 24 | ...] and its inverse, [freq_bytes] and the like. *)
Definition read_be32 (d : list Z) : Z := (d.[0] .<< 24) .| (d.[1] .<< 16) .| (d.[2] .<< 8) .| d.[3].
Definition be32_bytes (v : Z) : list Z :=
  [(v .>> 24) .& 0xFF; (v .>> 16) .& 0xFF; (v .>> 8) .& 0xFF; v .& 0xFF].
Definition be16_bytes (v : Z) : list Z := [(v .>> 8) .& 0xFF; v .& 0xFF].

Definition flag (b : bool) : Z := if b then 1 else 0.
Definition i8_min (a b : Z) : Z := if a <? b then a else b.
Definition i8_max (a b : Z) : Z := if b <? a then a else b.
Definition u8_min (a b : Z) : Z := if a <? b then a else b.
Definition u8_max (a b : Z) : Z := if b <? a then a else b.
Definition u64_min (a b : Z) : Z := if a <? b then a else b.

(** A parameter is written when the frame holds [n] bytes of it and the radio is not
    locked; either way the reply tells the value in force. *)
Definition set_param (h : RNodeHandler) (d : list Z) (n : nat) (c : RNodeConfig) : RNodeHandler :=
  if (n <=? length d)%nat && negb (locked h) then with_config h c else h.

Definition radio_command (h : RNodeHandler) (cmd : RNodeCommand) (d : list Z)
    : option (RNodeHandler * option KissFrame) :=
  let c := config h in
  match cmd with
  | RNODE_CMD_FREQUENCY =>
      let h := set_param h d 4 (set_frequency c (read_be32 d)) in
      Some (h, kiss_frame_command_frame RNODE_CMD_FREQUENCY (be32_bytes (frequency (config h))))
  | RNODE_CMD_BANDWIDTH =>
      let h := set_param h d 4 (set_bandwidth c (read_be32 d)) in
      Some (h, kiss_frame_command_frame RNODE_CMD_BANDWIDTH (be32_bytes (bandwidth (config h))))
  | RNODE_CMD_TX_POWER =>
      let h := set_param h d 1 (set_tx_power c (i8_min (i8_max (i8 d.[0]) (-9)) 22)) in
      Some (h, kiss_frame_command_frame RNODE_CMD_TX_POWER [u8 (tx_power (config h))])
  | RNODE_CMD_SPREADING_FACTOR =>
      let c := set_spreading_factor c (u8_min (u8_max d.[0] 7) 12) in
      let h := set_param h d 1 (set_ldro c (rnode_config_should_enable_ldro c)) in
      Some (h, kiss_frame_command_frame RNODE_CMD_SPREADING_FACTOR [spreading_factor (config h)])
  | RNODE_CMD_CODING_RATE =>
      let h := set_param h d 1 (set_coding_rate c (u8_min (u8_max d.[0] 5) 8)) in
      Some (h, kiss_frame_command_frame RNODE_CMD_CODING_RATE [coding_rate (config h)])
  | RNODE_CMD_PREAMBLE_LENGTH =>
      let h := set_param h d 2 (set_preamble_length c ((d.[0] .<< 8) .| d.[1])) in
      Some (h, kiss_frame_command_frame RNODE_CMD_PREAMBLE_LENGTH (be16_bytes (preamble_length (config h))))
  | RNODE_CMD_SYNC_WORD =>
      let h := set_param h d 1 (set_sync_word c d.[0]) in
      Some (h, kiss_frame_command_frame RNODE_CMD_SYNC_WORD [sync_word (config h)])
  | RNODE_CMD_CRC_MODE =>
      let h := set_param h d 1 (set_crc_enabled c (negb (d.[0] =? 0))) in
      Some (h, kiss_frame_command_frame RNODE_CMD_CRC_MODE [flag (crc_enabled (config h))])
  | RNODE_CMD_IMPLICIT_HEADER =>
      let h := set_param h d 1 (set_implicit_header c (negb (d.[0] =? 0))) in
      Some (h, kiss_frame_command_frame RNODE_CMD_IMPLICIT_HEADER [flag (implicit_header (config h))])
  | RNODE_CMD_LDRO =>
      let h := set_param h d 1 (set_ldro c (negb (d.[0] =? 0))) in
      Some (h, kiss_frame_command_frame RNODE_CMD_LDRO [flag (ldro (config h))])
  | _ => None
  end.

Section rnode.
Context (sha256_hash : list Z -> list Z).

Definition rnode_identity_hash (i : RNodeIdentity) : list Z := sha256_hash (rnode_identity_data i).

Definition state_command (h : RNodeHandler) (cmd : RNodeCommand) (d : list Z)
    : option (RNodeHandler * option KissFrame) :=
  let has := (1 <=? length d)%nat in
  let on := negb (d.[0] =? 0) in
  let i := identity h in
  match cmd with
  | RNODE_CMD_RADIO_STATE =>
      let h := if has then with_state h (if on then RNODE_STATE_ONLINE else RNODE_STATE_OFFLINE) else h in
      Some (h, kiss_frame_command_frame RNODE_CMD_RADIO_STATE
                 [flag (negb (bool_decide (state h = RNODE_STATE_OFFLINE)))])
  | RNODE_CMD_RADIO_LOCK =>
      let h := if has then with_locked h on else h in
      Some (h, kiss_frame_command_frame RNODE_CMD_RADIO_LOCK [flag (locked h)])
  | RNODE_CMD_PROMISC =>
      let h := if has then with_promiscuous h on else h in
      Some (h, kiss_frame_command_frame RNODE_CMD_PROMISC [flag (promiscuous h)])
  | RNODE_CMD_DETECT => Some (h, kiss_frame_command_frame RNODE_CMD_DETECT [0x01; hw_revision i])
  | RNODE_CMD_READY => Some (h, kiss_frame_command_frame RNODE_CMD_READY [0x01])
  | RNODE_CMD_FW_VERSION => Some (h, kiss_frame_command_frame RNODE_CMD_FW_VERSION (fw_version i))
  | RNODE_CMD_PROTOCOL_VERSION =>
      Some (h, kiss_frame_command_frame RNODE_CMD_PROTOCOL_VERSION [protocol_version i])
  | RNODE_CMD_PLATFORM => Some (h, kiss_frame_command_frame RNODE_CMD_PLATFORM (platform i))
  | RNODE_CMD_MCU => Some (h, kiss_frame_command_frame RNODE_CMD_MCU (mcu i))
  | RNODE_CMD_BOARD => Some (h, kiss_frame_command_frame RNODE_CMD_BOARD (board i))
  | RNODE_CMD_HARDWARE_SERIAL => Some (h, kiss_frame_command_frame RNODE_CMD_HARDWARE_SERIAL (serial i))
  | RNODE_CMD_SIGNATURE => Some (h, kiss_frame_command_frame RNODE_CMD_SIGNATURE (rnode_identity_hash i))
  | _ => None
  end.

Definition stat_command (h : RNodeHandler) (cmd : RNodeCommand) (d : list Z)
    : RNodeHandler * option KissFrame :=
  let s := stats h in
  match cmd with
  | RNODE_CMD_STAT_RX => (h, kiss_frame_command_frame RNODE_CMD_STAT_RX (be32_bytes (rx_count s)))
  | RNODE_CMD_STAT_TX => (h, kiss_frame_command_frame RNODE_CMD_STAT_TX (be32_bytes (tx_count s)))
  | RNODE_CMD_STAT_RSSI => (h, kiss_frame_command_frame RNODE_CMD_STAT_RSSI (be16_bytes (last_rssi s)))
  | RNODE_CMD_STAT_SNR => (h, kiss_frame_command_frame RNODE_CMD_STAT_SNR [u8 (last_snr s)])
  | RNODE_CMD_STAT_BATTERY =>
      (h, kiss_frame_command_frame RNODE_CMD_STAT_BATTERY (be16_bytes (battery_mv h)))
  | RNODE_CMD_STAT_CHANNEL =>
      let util :=
        if 0 <? channel_busy s then u8 (u64_min (u64 (airtime_used s * 100) / channel_busy s) 100) else 0 in
      (h, kiss_frame_command_frame RNODE_CMD_STAT_CHANNEL [util])
  | RNODE_CMD_AIRTIME_LIMIT =>
      let h := if (4 <=? length d)%nat then with_airtime_limit h (read_be32 d) else h in
      (h, kiss_frame_command_frame RNODE_CMD_AIRTIME_LIMIT (be32_bytes (airtime_limit h)))
  | RNODE_CMD_AIRTIME_USAGE =>
      (h, kiss_frame_command_frame RNODE_CMD_AIRTIME_USAGE (be32_bytes (u32 (airtime_used s mod 0xFFFFFFFF))))
  | RNODE_CMD_BLINK => (h, kiss_frame_command_frame RNODE_CMD_BLINK [0x01])
  | RNODE_CMD_LED_INTENSITY =>
      let h := if (1 <=? length d)%nat then with_led h d.[0] else h in
      (h, kiss_frame_command_frame RNODE_CMD_LED_INTENSITY [led_intensity h])
  | RNODE_CMD_RANDOM =>
      let '(h, r) := rnode_handler_next_random h in
      (h, kiss_frame_command_frame RNODE_CMD_RANDOM (be32_bytes r))
  | RNODE_CMD_LEAVE => (with_state h RNODE_STATE_OFFLINE, None)
  | RNODE_CMD_SAVE_CONFIG => (h, kiss_frame_command_frame RNODE_CMD_SAVE_CONFIG [0x01])
  | RNODE_CMD_RESET_CONFIG =>
      let h := if negb (locked h) then with_config h rnode_config_default else h in
      (h, kiss_frame_command_frame RNODE_CMD_RESET_CONFIG [0x01])
  | RNODE_CMD_BOOTLOADER => (h, kiss_frame_command_frame RNODE_CMD_BOOTLOADER [0x01])
  | RNODE_CMD_ERROR =>
      (h, if (0 <? length d)%nat then kiss_frame_command_frame RNODE_CMD_ERROR d else None)
  | _ => (h, kiss_frame_command_frame RNODE_CMD_ERROR [0xFF])
  end.

(** The cases of the switch, in three groups. *)
Definition rnode_handler_process_frame (h : RNodeHandler) (frame : KissFrame)
    : RNodeHandler * option KissFrame :=
  if kf_command frame =? KISS_CMD_DATA_FRAME then (h, None)
  else match rnode_command_from_byte (kf_command frame) with
  | None => (h, kiss_frame_command_frame RNODE_CMD_ERROR [0xFF])
  | Some cmd =>
    match radio_command h cmd (kf_data frame) with
    | Some r => r
    | None =>
      match state_command h cmd (kf_data frame) with
      | Some r => r
      | None => stat_command h cmd (kf_data frame)
      end
    end
  end.

(** A packet too long for a frame leaves [out_frame] as it was. *)
Definition rnode_handler_process_lora_packet (h : RNodeHandler) (data : list Z) (rssi snr : Z)
    (out_frame : KissFrame) : RNodeHandler * KissFrame :=
  let s := stats h in
  let h := with_stats h (mkStats (u32 (rx_count s + 1)) (u64 (rx_bytes s + Z.of_nat (length data)))
             (tx_count s) (tx_bytes s) rssi snr (airtime_used s) (channel_busy s)) in
  (h, match kiss_frame_data_frame data with Some f => f | None => out_frame end).
End rnode.

(** ** Well-typed states *)

Definition config_ok (c : RNodeConfig) : Prop :=
  fits 32 (frequency c) /\ fits 32 (bandwidth c) /\ -9 <= tx_power c <= 22
  /\ 7 <= spreading_factor c <= 12 /\ 5 <= coding_rate c <= 8
  /\ fits 16 (preamble_length c) /\ byte_ok (sync_word c).

Definition stats_ok (s : RNodeStats) : Prop :=
  fits 32 (rx_count s) /\ fits 64 (rx_bytes s) /\ fits 32 (tx_count s) /\ fits 64 (tx_bytes s)
  /\ -0x8000 <= last_rssi s < 0x8000 /\ -0x80 <= last_snr s < 0x80
  /\ fits 64 (airtime_used s) /\ fits 64 (channel_busy s).

Definition identity_ok (i : RNodeIdentity) : Prop :=
  bytes_ok (serial i) /\ bytes_ok (platform i) /\ bytes_ok (mcu i) /\ bytes_ok (board i)
  /\ bytes_ok (fw_version i) /\ byte_ok (protocol_version i) /\ byte_ok (hw_revision i).

Definition parser_ok (p : KissParser) : Prop :=
  byte_ok (kp_command p) /\ bytes_ok (kp_data p) /\ (length (kp_data p) <= MAX_DATA_SIZE)%nat.

(** Every field within its C type, the radio parameters within what the radio takes. *)
Record handler_ok (h : RNodeHandler) : Prop := {
  ok_parser : parser_ok (parser h);
  ok_config : config_ok (config h);
  ok_stats : stats_ok (stats h);
  ok_identity : identity_ok (identity h);
  ok_seed : fits 32 (random_seed h);
  ok_battery : fits 16 (battery_mv h);
  ok_led : byte_ok (led_intensity h);
  ok_limit : fits 32 (airtime_limit h)
}.

Definition frame_ok (f : KissFrame) : Prop :=
  byte_ok (kf_command f) /\ bytes_ok (kf_data f) /\ (length (kf_data f) <= MAX_DATA_SIZE)%nat.

Definition reply_ok (r : option KissFrame) : Prop :=
  match r with Some f => frame_ok f | None => True end.

Lemma rnode_command_byte_ok cmd : byte_ok (rnode_command_value cmd).
Proof. destruct cmd; unfold fits; simpl; lia. Qed.

Lemma command_frame_eq cmd d :
  (length d <= MAX_DATA_SIZE)%nat ->
  kiss_frame_command_frame cmd d = Some (mkKissFrame (rnode_command_value cmd) d).
Proof.
  intros Hl. unfold kiss_frame_command_frame. rewrite (proj2 (Nat.ltb_ge _ _)) by done.
  by rewrite data_pushes.
Qed.

Lemma command_frame_ok cmd d : bytes_ok d -> reply_ok (kiss_frame_command_frame cmd d).
Proof.
  intros Hd. destruct (decide (length d <= MAX_DATA_SIZE)%nat) as [Hl|Hl].
  - rewrite command_frame_eq by done. split_and!; [apply rnode_command_byte_ok|done|done].
  - unfold kiss_frame_command_frame. rewrite (proj2 (Nat.ltb_lt _ _)) by lia. exact I.
Qed.

Lemma land_ff_ok x : byte_ok (x .& 0xFF).
Proof. rewrite land_ff. apply fits_u8. Qed.
Lemma flag_ok b : byte_ok (flag b).
Proof. destruct b; unfold fits; simpl; lia. Qed.
#[local] Hint Resolve land_ff_ok flag_ok fits_u8 : word.

Lemma be32_bytes_ok v : bytes_ok (be32_bytes v).
Proof. unfold be32_bytes. solve_bytes. Qed.
Lemma be16_bytes_ok v : bytes_ok (be16_bytes v).
Proof. unfold be16_bytes. solve_bytes. Qed.
Lemma bytes_ok_1 x : byte_ok x -> bytes_ok [x].
Proof. intros. solve_bytes. Qed.
#[local] Hint Resolve be32_bytes_ok be16_bytes_ok bytes_ok_1 command_frame_ok : word.

Lemma fits_shiftl8 w k x : 0 <= k -> 0 <= w -> fits w x -> fits (w + k) (x .<< k).
Proof.
  intros Hk Hw Hx. rewrite Z.shiftl_mul_pow2 by done. unfold fits in *. rewrite Z.pow_add_r by done. nia.
Qed.

Lemma read_be32_fits d : bytes_ok d -> fits 32 (read_be32 d).
Proof.
  intros Hd.
  pose proof (fun i => arr_byte d i Hd) as Hb. unfold read_be32.
  repeat apply fits_lor; try lia.
  - by apply (fits_shiftl8 8 24).
  - apply (fits_mono (8 + 16)); [by apply fits_shiftl8|lia].
  - apply (fits_mono (8 + 8)); [by apply fits_shiftl8|lia].
  - by apply (fits_mono 8).
Qed.

Lemma clamp_power x : -9 <= i8_min (i8_max x (-9)) 22 <= 22.
Proof. unfold i8_min, i8_max. destruct (Z.ltb_spec (-9) x); [destruct (Z.ltb_spec x 22)|]; simpl; lia. Qed.
Lemma clamp_u8 lo hi x : lo <= hi -> lo <= u8_min (u8_max x lo) hi <= hi.
Proof.
  intros. unfold u8_min, u8_max. destruct (Z.ltb_spec lo x).
  - destruct (Z.ltb_spec x hi); lia.
  - destruct (Z.ltb_spec lo hi); lia.
Qed.

Lemma with_config_ok h c : handler_ok h -> config_ok c -> handler_ok (with_config h c).
Proof. intros [] ?. by split. Qed.

Lemma set_param_ok h d n c : handler_ok h -> config_ok c -> handler_ok (set_param h d n c).
Proof. intros. unfold set_param. destruct (_ && _); [by apply with_config_ok|done]. Qed.

Lemma default_config_ok : config_ok rnode_config_default.
Proof. repeat split; unfold fits; simpl; lia. Qed.

Lemma radio_command_ok h cmd d :
  handler_ok h -> bytes_ok d ->
  match radio_command h cmd d with
  | Some (h', r) => handler_ok h' /\ reply_ok r
  | None => True
  end.
Proof.
  intros Hh Hd. pose proof (ok_config h Hh) as (H1 & H2 & H3 & H4 & H5 & H6 & H7).
  pose proof (arr_byte d 0 Hd) as D0. pose proof (arr_byte d 1 Hd) as D1.
  pose proof (read_be32_fits d Hd) as D4.
  assert (forall n c, config_ok c -> handler_ok (set_param h d n c)) as Hset by (intros; by apply set_param_ok).
  assert (fits 16 ((d.[0] .<< 8) .| d.[1])) as D2.
  { apply fits_lor; [lia|by apply (fits_shiftl8 8 8)|]. eapply fits_mono; [exact D1|lia]. }
  pose proof (clamp_power (i8 d.[0])). pose proof (clamp_u8 7 12 d.[0]). pose proof (clamp_u8 5 8 d.[0]).
  destruct cmd; cbn [radio_command]; try exact I.
  all: match goal with |- handler_ok (set_param _ _ ?n ?c) /\ _ =>
         assert (config_ok c) as Hc by (repeat split; cbn; first [assumption|apply fits_u8|lia|apply H1|apply H2|apply H6|apply H7|apply D0|apply D2|apply D4]);
         specialize (Hset n c Hc) end.
  all: split; [done|]. all: apply command_frame_ok; auto with word.
  all: apply bytes_ok_1; apply ok_config in Hset as (_ & _ & _ & ? & ? & _ & ?); try done.
  all: unfold fits; lia.
Qed.

Lemma state_command_ok H `{!Digest H} h cmd d :
  handler_ok h ->
  match state_command H h cmd d with
  | Some (h', r) => handler_ok h' /\ reply_ok r
  | None => True
  end.
Proof.
  intros Hh. destruct (ok_identity h Hh) as (I1 & I2 & I3 & I4 & I5 & I6 & I7).
  assert (byte_ok 1) as B1 by (unfold fits; lia).
  destruct cmd; cbn [state_command]; try exact I.
  all: split; [|apply command_frame_ok; auto with word].
  all: try exact Hh.
  all: try (destruct (1 <=? length d)%nat; [|exact Hh]; destruct Hh; by split).
  unfold rnode_identity_hash. apply digest_ok.
Qed.


Lemma stat_command_ok h cmd d :
  handler_ok h -> bytes_ok d ->
  let '(h', r) := stat_command h cmd d in handler_ok h' /\ reply_ok r.
Proof.
  intros Hh Hd. assert (byte_ok 1) as B1 by (unfold fits; lia).
  assert (byte_ok 255) as B2 by (unfold fits; lia).
  pose proof (arr_byte d 0 Hd) as D0. pose proof (read_be32_fits d Hd) as D4.
  destruct cmd; cbn [stat_command]; try (split; [exact Hh|apply command_frame_ok; auto with word]; fail).
  - split; [destruct Hh; by split|exact I].
  - split; [|apply command_frame_ok; auto with word].
    destruct (negb (locked h)); [apply with_config_ok; [done|apply default_config_ok]|done].
  - split; [done|]. apply command_frame_ok, bytes_ok_1.
    destruct (0 <? _); [auto with word|unfold fits; lia].
  - assert (handler_ok (if (4 <=? length d)%nat then with_airtime_limit h (read_be32 d) else h)) as Hh'
      by (destruct (4 <=? length d)%nat; [destruct Hh; by split|done]).
    split; [done|apply command_frame_ok; auto with word].
  - assert (handler_ok (if (1 <=? length d)%nat then with_led h d.[0] else h)) as Hh'
      by (destruct (1 <=? length d)%nat; [destruct Hh; by split|done]).
    split; [done|apply command_frame_ok, bytes_ok_1, Hh'].
  - cbn [rnode_handler_next_random]. split; [|apply command_frame_ok; auto with word].
    destruct Hh; split; try done. apply fits_u32.
  - split; [done|]. destruct (0 <? length d)%nat; [by apply command_frame_ok|exact I].
Qed.

Lemma process_frame_ok H `{!Digest H} h f :
  handler_ok h -> frame_ok f ->
  let '(h', r) := rnode_handler_process_frame H h f in handler_ok h' /\ reply_ok r.
Proof.
  intros Hh (_ & Hd & _). unfold rnode_handler_process_frame.
  destruct (kf_command f =? KISS_CMD_DATA_FRAME); [done|].
  destruct (rnode_command_from_byte (kf_command f)) as [cmd|].
  2:{ split; [done|]. apply command_frame_ok, bytes_ok_1. unfold fits. lia. }
  pose proof (radio_command_ok h cmd (kf_data f) Hh Hd) as H1.
  destruct (radio_command h cmd (kf_data f)) as [[h1 r1]|]; [done|].
  pose proof (state_command_ok H h cmd (kf_data f) Hh) as H2.
  destruct (state_command H h cmd (kf_data f)) as [[h2 r2]|]; [done|].
  by apply stat_command_ok.
Qed.

(** ** Runs *)

Inductive rnode_event :=
  | SerialByte (b : Z)
  | LoraPacket (data : list Z) (rssi snr : Z)
  | SetSerial (s : list Z)
  | SetBattery (mv : Z)
  | SetSeed (v : Z).

Definition rnode_event_ok (e : rnode_event) : Prop :=
  match e with
  | SerialByte b => byte_ok b
  | LoraPacket data rssi snr =>
      bytes_ok data /\ -0x8000 <= rssi < 0x8000 /\ -0x80 <= snr < 0x80
  | SetSerial s => bytes_ok s
  | SetBattery mv => fits 16 mv
  | SetSeed v => fits 32 v
  end.

(** A byte from the host: the parser, and the interpreter when a frame is complete. *)
Definition rnode_serial (H : list Z -> list Z) (h : RNodeHandler) (b : Z) : RNodeHandler * option KissFrame :=
  let '(h, f) := rnode_handler_feed_serial h b in
  match f with Some f => rnode_handler_process_frame H h f | None => (h, None) end.

Definition rnode_step (H : list Z -> list Z) (h : RNodeHandler) (e : rnode_event) : RNodeHandler :=
  match e with
  | SerialByte b => (rnode_serial H h b).1
  | LoraPacket data rssi snr =>
      (rnode_handler_process_lora_packet h data rssi snr (kiss_frame_new KISS_CMD_DATA_FRAME)).1
  | SetSerial s => rnode_handler_set_serial h s
  | SetBattery mv => rnode_handler_set_battery_voltage h mv
  | SetSeed v => rnode_handler_set_random_seed h v
  end.

Definition rnode_run (H : list Z -> list Z) (h : RNodeHandler) (es : list rnode_event) : RNodeHandler :=
  foldl (rnode_step H) h es.

Lemma data_push_ok d b : bytes_ok d -> byte_ok b -> bytes_ok (vec_u8_max_data_push d b).
Proof. intros. unfold vec_u8_max_data_push. destruct (_ <=? _)%nat; solve_bytes. Qed.

Lemma kiss_feed_ok p b :
  parser_ok p -> byte_ok b -> parser_ok (kiss_parser_feed p b).1 /\ reply_ok (kiss_parser_feed p b).2.
Proof.
  intros (Hc & Hd & Hl) Hb. assert (parser_ok kiss_parser_new) as Hn by (split_and!; [done|constructor|apply Nat.le_0_l]).
  pose proof (data_push_ok (kp_data p) b Hd Hb). pose proof (data_push_le (kp_data p) b Hl).
  unfold kiss_parser_feed. destruct (kp_state p).
  1,2,3: destruct (b =? FEND); [|try destruct (b =? FESC)]; cbn [fst snd reply_ok].
  all: repeat split; cbn; try done; try apply Hc; try apply Hb; try lia.
  - apply data_push_ok; [done|]. destruct (b =? TFEND), (b =? TFESC); done.
  - by apply data_push_le.
Qed.

Lemma rnode_serial_ok H `{!Digest H} h b :
  handler_ok h -> byte_ok b ->
  handler_ok (rnode_serial H h b).1 /\ reply_ok (rnode_serial H h b).2.
Proof.
  intros Hh Hb. destruct (kiss_feed_ok (parser h) b (ok_parser h Hh) Hb) as [Hp Hf].
  unfold rnode_serial, rnode_handler_feed_serial.
  destruct (kiss_parser_feed (parser h) b) as [p f]. cbn [fst snd] in *.
  assert (handler_ok (with_parser h p)) as Hh' by (destruct Hh; by split).
  destruct f as [f|]; [|done].
  pose proof (process_frame_ok H (with_parser h p) f Hh' Hf) as Hr.
  by destruct (rnode_handler_process_frame H (with_parser h p) f).
Qed.

Lemma rnode_step_ok H `{!Digest H} h e :
  handler_ok h -> rnode_event_ok e -> handler_ok (rnode_step H h e).
Proof.
  intros Hh He. destruct e; cbn [rnode_step] in *.
  - by apply rnode_serial_ok.
  - pose proof (ok_stats h Hh) as (? & ? & ? & ? & ? & ? & ? & ?). destruct He as (? & ? & ?).
    destruct Hh. split; try done. unfold stats_ok. cbn.
    split; [apply fits_u32|]. split; [apply fits_u64|]. repeat (split; [assumption|]). assumption.
  - pose proof (ok_identity h Hh) as (? & ? & ? & ? & ? & ? & ?). destruct Hh. by split.
  - destruct Hh. by split.
  - destruct Hh. by split.
Qed.

Lemma rnode_new_ok : handler_ok rnode_handler_new.
Proof. split; apply (bool_decide_unpack _); vm_compute; exact I. Qed.

Lemma rnode_run_ok H `{!Digest H} es :
  Forall rnode_event_ok es -> handler_ok (rnode_run H rnode_handler_new es).
Proof.
  intros He. unfold rnode_run. pose proof rnode_new_ok as Hh. revert Hh.
  generalize rnode_handler_new. induction He as [|e es He _ IH]; intros h Hh; [done|].
  cbn [foldl]. apply IH. by apply rnode_step_ok.
Qed.

(** ** The interpreter, case by case *)

Lemma command_from_value cmd : rnode_command_from_byte (rnode_command_value cmd) = Some cmd.
Proof. by destruct cmd. Qed.

Lemma command_from_byte_value b cmd :
  rnode_command_from_byte b = Some cmd -> b = rnode_command_value cmd.
Proof.
  unfold rnode_command_from_byte. intros Hb.
  repeat match type of Hb with context [match ?x with _ => _ end] => destruct x; try discriminate Hb end;
    by injection Hb as <-.
Qed.

Lemma radio_not_data cmd h d x :
  radio_command h cmd d = Some x -> (rnode_command_value cmd =? KISS_CMD_DATA_FRAME) = false.
Proof. by destruct cmd. Qed.

Lemma process_radio H h cmd d x :
  radio_command h cmd d = Some x ->
  rnode_handler_process_frame H h (mkKissFrame (rnode_command_value cmd) d) = x.
Proof.
  intros Hr. unfold rnode_handler_process_frame. cbn [kf_command kf_data].
  by rewrite (radio_not_data cmd h d x), command_from_value, Hr.
Qed.

Lemma set_param_locked h d n c : locked h = true -> set_param h d n c = h.
Proof. intros Hl. unfold set_param. by rewrite Hl, andb_false_r. Qed.

Lemma set_param_short h d n c : (length d < n)%nat -> set_param h d n c = h.
Proof. intros Hl. unfold set_param. by rewrite (proj2 (Nat.leb_gt _ _)). Qed.

Lemma set_param_set h d n c :
  locked h = false -> (n <= length d)%nat -> set_param h d n c = with_config h c.
Proof. intros Hl Hn. unfold set_param. by rewrite Hl, (proj2 (Nat.leb_le _ _)). Qed.

Lemma radio_command_locked h cmd d h1 r1 :
  radio_command h cmd d = Some (h1, r1) -> locked h = true -> h1 = h.
Proof.
  intros E Hl. destruct cmd; try discriminate E; cbn [radio_command] in E;
    rewrite set_param_locked in E by done; by apply (inj Some), pair_eq in E as [<- _].
Qed.

Lemma radio_command_empty h cmd h1 r1 : radio_command h cmd [] = Some (h1, r1) -> h1 = h.
Proof.
  intros E. destruct cmd; try discriminate E; cbn [radio_command] in E;
    rewrite set_param_short in E by (simpl; lia); by apply (inj Some), pair_eq in E as [<- _].
Qed.

Lemma radio_command_query h cmd d h1 r1 :
  radio_command h cmd d = Some (h1, r1) -> radio_command h1 cmd [] = Some (h1, r1).
Proof.
  intros E. destruct cmd; try discriminate E; cbn [radio_command] in E |- *;
    apply (inj Some), pair_eq in E as [<- <-]; by rewrite set_param_short by (simpl; lia).
Qed.

Lemma read_be32_val d : bytes_ok d -> (4 <= length d)%nat -> read_be32 d = be_val (take 4 d).
Proof.
  intros Hd Hl. do 4 (destruct d as [|? d]; [simpl in Hl; lia|]). cbn [take].
  rewrite !Forall_cons in Hd. destruct Hd as (? & ? & ? & ? & _). unfold read_be32, arr.
  cbn [lookup list_lookup default from_option id]. by apply be32_eq.
Qed.

Lemma read_be16_val d :
  bytes_ok d -> (2 <= length d)%nat -> (d.[0] .<< 8) .| d.[1] = be_val (take 2 d).
Proof.
  intros Hd Hl. do 2 (destruct d as [|? d]; [simpl in Hl; lia|]). cbn [take].
  rewrite !Forall_cons in Hd. destruct Hd as (? & ? & _). unfold arr. cbn [lookup list_lookup default from_option id].
  rewrite Z.lor_comm. by apply le16_eq.
Qed.

Lemma radio_command_value h cmd d h1 r1 :
  radio_command h cmd d = Some (h1, r1) -> locked h = false -> bytes_ok d -> (4 <= length d)%nat ->
  match cmd with
  | RNODE_CMD_FREQUENCY => frequency (config h1) = be_val (take 4 d)
  | RNODE_CMD_BANDWIDTH => bandwidth (config h1) = be_val (take 4 d)
  | RNODE_CMD_PREAMBLE_LENGTH => preamble_length (config h1) = be_val (take 2 d)
  | RNODE_CMD_TX_POWER => tx_power (config h1) = Z.max (-9) (Z.min 22 (i8 d.[0]))
  | RNODE_CMD_SPREADING_FACTOR => spreading_factor (config h1) = Z.max 7 (Z.min 12 d.[0])
      /\ ldro (config h1) = rnode_config_should_enable_ldro (config h1)
  | RNODE_CMD_CODING_RATE => coding_rate (config h1) = Z.max 5 (Z.min 8 d.[0])
  | _ => True
  end.
Proof.
  intros E Hl Hd Hn. destruct cmd; try discriminate E; try exact I; cbn [radio_command] in E;
    rewrite set_param_set in E by (done || lia); apply (inj Some), pair_eq in E as [<- _];
    cbn [with_config config].
  - by apply read_be32_val.
  - by apply read_be32_val.
  - cbn [tx_power set_tx_power]. unfold i8_min, i8_max.
    destruct (Z.ltb_spec (-9) (i8 d.[0])); [destruct (Z.ltb_spec (i8 d.[0]) 22)|]; simpl; lia.
  - split; [|done]. cbn [spreading_factor set_spreading_factor set_ldro]. unfold u8_min, u8_max.
    destruct (Z.ltb_spec 7 d.[0]); [destruct (Z.ltb_spec d.[0] 12)|]; simpl; lia.
  - cbn [coding_rate set_coding_rate]. unfold u8_min, u8_max.
    destruct (Z.ltb_spec 5 d.[0]); [destruct (Z.ltb_spec d.[0] 8)|]; simpl; lia.
  - apply read_be16_val; [done|lia].
Qed.

Lemma process_frame_locked H h f :
  locked h = true -> kf_command f <> rnode_command_value RNODE_CMD_RADIO_LOCK ->
  let h' := (rnode_handler_process_frame H h f).1 in config h' = config h /\ locked h' = true.
Proof.
  intros Hl Hf. cbn zeta. unfold rnode_handler_process_frame.
  destruct (kf_command f =? KISS_CMD_DATA_FRAME); [done|].
  destruct (rnode_command_from_byte (kf_command f)) as [cmd|] eqn:Hc; [|done].
  apply command_from_byte_value in Hc. rewrite Hc in Hf.
  destruct (radio_command h cmd (kf_data f)) as [[h1 r1]|] eqn:Hr.
  { apply radio_command_locked in Hr as ->; done. }
  clear Hr Hc. destruct cmd; cbn [state_command stat_command fst]; try (by destruct Hf);
    try (split; [reflexivity|exact Hl]).
  all: try (destruct (1 <=? length (kf_data f))%nat; split; [reflexivity|exact Hl|reflexivity|exact Hl]).
  - rewrite Hl. split; [reflexivity|exact Hl].
  - destruct (4 <=? length (kf_data f))%nat; (split; [reflexivity|exact Hl]).
Qed.

(** ** Properties *)

(** C12. The state of the RNode stays well typed: after any bytes from the host, packets from
    the radio and settings, every field is in the range of its C type, the spreading factor
    is 7 to 12, the coding rate 5 to 8, the power -9 to 22 dBm, and every reply is a frame of
    bytes that fits its buffer. *)
Theorem rnode_well_typed H `{!Digest H} es b (He : Forall rnode_event_ok es) (Hb : byte_ok b) :
  let h := rnode_run H rnode_handler_new es in
  handler_ok h /\ handler_ok (rnode_serial H h b).1 /\ reply_ok (rnode_serial H h b).2.
Proof.
  cbn zeta. pose proof (rnode_run_ok H es He) as Hh. split; [done|]. by apply rnode_serial_ok.
Qed.

Lemma rnode_well_typed_witness :
  handler_ok (rnode_run sha256_hash rnode_handler_new
    (SerialByte <$> [FEND; 0x04; 99; FEND] ++ [FEND; 0x03; 0x80; FEND])).
Proof.
  apply (rnode_well_typed sha256_hash
    (SerialByte <$> [FEND; 0x04; 99; FEND] ++ [FEND; 0x03; 0x80; FEND]) 0).
  - repeat (apply Forall_cons_2; [apply (bool_decide_unpack _); vm_compute; exact I|]). apply Forall_nil_2.
  - apply (bool_decide_unpack _). vm_compute. exact I.
Defined.

(** The lock protects the radio: while it is locked, no frame but a RADIO_LOCK command
    changes the configuration or the lock, over any sequence of frames, RESET_CONFIG
    included. *)
Theorem rnode_lock_freezes H h fs (Hl : locked h = true)
    (Hf : Forall (fun f => kf_command f <> rnode_command_value RNODE_CMD_RADIO_LOCK) fs) :
  let h' := foldl (fun h f => (rnode_handler_process_frame H h f).1) h fs in
  config h' = config h /\ locked h' = true.
Proof.
  cbn zeta. revert h Hl. induction Hf as [|f fs Hf _ IH]; intros h Hl; [done|].
  cbn [foldl]. destruct (process_frame_locked H h f Hl Hf) as [Hc Hl'].
  rewrite <- Hc. by apply IH.
Qed.

Lemma rnode_lock_freezes_witness :
  let h := with_locked rnode_handler_new true in
  config (foldl (fun h f => (rnode_handler_process_frame sha256_hash h f).1) h
    [mkKissFrame 0x01 [1; 2; 3; 4]; mkKissFrame 0x0C []]) = rnode_config_default.
Proof.
  apply (rnode_lock_freezes sha256_hash (with_locked rnode_handler_new true)
    [mkKissFrame 0x01 [1; 2; 3; 4]; mkKissFrame 0x0C []]); [reflexivity|].
  apply (bool_decide_unpack _). vm_compute. exact I.
Defined.

(** Setting and reading back: for each of the ten radio parameters, the reply to a
    command is the value in force afterwards (an empty command changes nothing and gets the
    same reply), a locked or truncated command changes nothing, and an unlocked one stores
    the value sent, clamped for power, spreading factor and coding rate. *)
Theorem rnode_set_and_query H h cmd d h1 r1
    (Hr : radio_command h cmd d = Some (h1, r1)) :
  rnode_handler_process_frame H h (mkKissFrame (rnode_command_value cmd) d) = (h1, r1)
  /\ rnode_handler_process_frame H h1 (mkKissFrame (rnode_command_value cmd) []) = (h1, r1)
  /\ (locked h = true -> h1 = h)
  /\ (d = [] -> h1 = h)
  /\ (locked h = false -> bytes_ok d -> (4 <= length d)%nat ->
      match cmd with
      | RNODE_CMD_FREQUENCY => frequency (config h1) = be_val (take 4 d)
      | RNODE_CMD_BANDWIDTH => bandwidth (config h1) = be_val (take 4 d)
      | RNODE_CMD_PREAMBLE_LENGTH => preamble_length (config h1) = be_val (take 2 d)
      | RNODE_CMD_TX_POWER => tx_power (config h1) = Z.max (-9) (Z.min 22 (i8 d.[0]))
      | RNODE_CMD_SPREADING_FACTOR => spreading_factor (config h1) = Z.max 7 (Z.min 12 d.[0])
          /\ ldro (config h1) = rnode_config_should_enable_ldro (config h1)
      | RNODE_CMD_CODING_RATE => coding_rate (config h1) = Z.max 5 (Z.min 8 d.[0])
      | _ => True
      end).
Proof.
  split; [by apply process_radio|]. split; [|split; [|split]].
  - apply process_radio. by apply (radio_command_query h cmd d).
  - intros Hl. by apply (radio_command_locked h cmd d h1 r1).
  - intros ->. by apply (radio_command_empty h cmd h1 r1).
  - intros. by apply (radio_command_value h cmd d h1 r1).
Qed.

Lemma rnode_set_and_query_witness :
  exists h1 r1, radio_command rnode_handler_new RNODE_CMD_TX_POWER [127; 0; 0; 0] = Some (h1, r1)
  /\ tx_power (config h1) = 22
  /\ rnode_handler_process_frame sha256_hash h1 (mkKissFrame 3 []) = (h1, r1).
Proof.
  eexists _, _. split; [reflexivity|].
  destruct (rnode_set_and_query sha256_hash rnode_handler_new RNODE_CMD_TX_POWER [127; 0; 0; 0] _ _ eq_refl)
    as (_ & Q & _ & _ & V).
  split; [|exact Q]. apply V; [reflexivity| |simpl; lia]. apply (bool_decide_unpack _). vm_compute. exact I.
Defined.
