(* ===== verification/Session.v ===== *)
(** * Encrypted sessions: lunarcore/lunar/session.c

    The double ratchet of the firmware: message headers, the table of skipped message keys,
    the two ratchets, encryption and decryption of a message, serialisation and the table of
    sessions. HKDF and SHA-256 are those of Hmac.v and Sha256.v; the block cipher is used
    under the interface [BlockCipher] (both AES of aes.c are instances); X25519 and what
    [fill_random] returns are arguments. session.c declares [hkdf_derive] with other
    parameter names than hkdf.c has: the arguments are passed by position. *)
From stdpp Require Import gmap.
From S2P Require Import Prelude SlotMap Sha256 Hmac Ctr Aes AesMin Keyed Nvs.

(** ** Constants and data *)

Definition MAX_MESSAGES_BEFORE_RATCHET : Z := 100.
Definition MAX_SKIPPED_KEYS : nat := 100.
Definition SESSION_SERIALIZED_SIZE : nat := 225.
Definition MAX_PERSISTED_SESSIONS : nat := 32.
Definition HEAPLESS_VEC_CAPACITY : nat := 256.
Definition HASHER_DATA_CAPACITY : nat := 512.

(** "session-hint-v1", "lunarpunk-root-key-v2", "lunarpunk-chain-key-v2",
    "lunarpunk-message-key-v2" *)
Definition SESSION_HINT_INFO : list Z :=
  [115; 101; 115; 115; 105; 111; 110; 45; 104; 105; 110; 116; 45; 118; 49].
Definition ROOT_KEY_INFO : list Z :=
  [108; 117; 110; 97; 114; 112; 117; 110; 107; 45; 114; 111; 111; 116; 45; 107; 101; 121; 45; 118; 50].
Definition CHAIN_KEY_INFO : list Z :=
  [108; 117; 110; 97; 114; 112; 117; 110; 107; 45; 99; 104; 97; 105; 110; 45; 107; 101; 121; 45; 118; 50].
Definition MESSAGE_KEY_INFO : list Z :=
  [108; 117; 110; 97; 114; 112; 117; 110; 107; 45; 109; 101; 115; 115; 97; 103; 101; 45; 107; 101; 121; 45; 118; 50].

(** The string literals passed as the second argument of [hkdf_derive]. *)
Definition str_root : list Z := [114; 111; 111; 116].
Definition str_chain : list Z := [99; 104; 97; 105; 110].
Definition str_chain_advance : list Z := [99; 104; 97; 105; 110; 45; 97; 100; 118; 97; 110; 99; 101].
Definition str_send : list Z := [115; 101; 110; 100].
Definition str_recv : list Z := [114; 101; 99; 118].
Definition str_hint : list Z := [104; 105; 110; 116].
Definition initiator_salt : list Z :=
  [105; 110; 105; 116; 105; 97; 116; 111; 114; 45; 115; 97; 108; 116; 45; 118; 49].
Definition responder_salt : list Z :=
  [114; 101; 115; 112; 111; 110; 100; 101; 114; 45; 115; 97; 108; 116; 45; 118; 49].

Definition heapless_vec_extend_from_slice (vec data : list Z) : option (list Z) :=
  vec_extend HEAPLESS_VEC_CAPACITY vec data.

Inductive SessionError :=
  | SESSION_ERROR_NONE
  | SESSION_ERROR_NOT_ESTABLISHED
  | SESSION_ERROR_INVALID_FORMAT
  | SESSION_ERROR_DECRYPTION_FAILED
  | SESSION_ERROR_OLD_CHAIN
  | SESSION_ERROR_TOO_MANY_SKIPPED
  | SESSION_ERROR_KEY_DERIVATION_FAILED.

#[global] Instance SessionError_eq_dec : EqDecision SessionError.
Proof. solve_decision. Defined.

(** What a call gives: the outputs, an error code (outputs not to be used), or a write
    past the end of [hasher_data], after which C promises nothing. *)
Inductive Outcome (A : Type) :=
  | Ok (a : A)
  | Err (e : SessionError)
  | Overflow.
Arguments Ok {A} a.
Arguments Err {A} e.
Arguments Overflow {A}.

#[global] Instance Outcome_eq_dec {A} `{EqDecision A} : EqDecision (Outcome A).
Proof. solve_decision. Defined.

Record SkippedKeyEntry := mkSkipped {
  sk_prefix : list Z;          (* uint8_t[8] *)
  sk_num : Z;                  (* uint64_t *)
  sk_key : list Z;             (* uint8_t[32] *)
  sk_occupied : bool
}.

Record SkippedKeysMap := mkSkippedMap {
  sk_entries : list SkippedKeyEntry;   (* [MAX_SKIPPED_KEYS] *)
  sk_count : Z                         (* size_t *)
}.

Record MessageHeader := mkHeader {
  dh_public : list Z;          (* uint8_t[32] *)
  prev_chain_len : Z;          (* uint64_t *)
  message_num : Z              (* uint64_t *)
}.

Record Session := mkSession {
  root_key : list Z;
  send_chain_key : list Z;
  recv_chain_key : list Z;
  send_ratchet_private : list Z;
  send_ratchet_public : list Z;
  recv_ratchet_public : list Z;
  send_count : Z;              (* uint64_t *)
  recv_count : Z;              (* uint64_t *)
  prev_recv_chain : Z;         (* uint64_t *)
  last_ratchet_time : Z;       (* uint64_t *)
  skipped_keys : SkippedKeysMap;
  established : bool
}.

Record SessionParams := mkParams {
  shared_secret : list Z;
  our_private : list Z;
  their_public : list Z;
  is_initiator : bool
}.

#[global] Instance SkippedKeyEntry_eq_dec : EqDecision SkippedKeyEntry.
Proof. solve_decision. Defined.
#[global] Instance SkippedKeysMap_eq_dec : EqDecision SkippedKeysMap.
Proof. solve_decision. Defined.
#[global] Instance MessageHeader_eq_dec : EqDecision MessageHeader.
Proof. solve_decision. Defined.
#[global] Instance Session_eq_dec : EqDecision Session.
Proof. solve_decision. Defined.

(** ** Skipped message keys *)

Definition empty_skipped : SkippedKeyEntry := mkSkipped (replicate 8 0) 0 (replicate 32 0) false.

Definition skipped_keys_map_init : SkippedKeysMap :=
  mkSkippedMap (replicate MAX_SKIPPED_KEYS empty_skipped) 0.

(** Into the first free slot; a key that is there already is not looked for. *)
Definition skipped_keys_map_insert (map : SkippedKeysMap) (key_prefix : list Z) (num : Z)
    (message_key : list Z) : SkippedKeysMap * bool :=
  match find_first (fun e => negb (sk_occupied e)) (sk_entries map) with
  | Some (i, _) =>
      (mkSkippedMap (<[i := mkSkipped key_prefix num message_key true]> (sk_entries map))
         (u32 (sk_count map + 1)), true)
  | None => (map, false)
  end.

Definition skipped_is (key_prefix : list Z) (num : Z) (e : SkippedKeyEntry) : bool :=
  sk_occupied e && bool_decide (sk_prefix e = key_prefix) && (sk_num e =? num).

Definition skipped_keys_map_remove (map : SkippedKeysMap) (key_prefix : list Z) (num : Z)
    : SkippedKeysMap * option (list Z) :=
  match find_first (skipped_is key_prefix num) (sk_entries map) with
  | Some (i, e) =>
      (mkSkippedMap (<[i := mkSkipped (sk_prefix e) (sk_num e) (sk_key e) false]> (sk_entries map))
         (u32 (sk_count map - 1)), Some (sk_key e))
  | None => (map, None)
  end.

(** ** Message headers *)

Definition message_header_encode (header : MessageHeader) : list Z :=
  dh_public header ++ le_bytes 8 (prev_chain_len header) ++ le_bytes 8 (message_num header).

Definition message_header_decode (data : list Z) : option MessageHeader :=
  if (length data <? 48)%nat then None
  else Some (mkHeader (slice data 0 32) (le_val (slice data 32 8)) (le_val (slice data 40 8))).

(** ** Key derivation and authentication *)

(** [None] when the copies do not fit into [hasher_data]. *)
Definition compute_tag (key header ciphertext : list Z) : option (list Z) :=
  let inner := zip_with Z.lxor (take 32 (replicate 64 0x36)) key ++ replicate 32 0x36 in
  let outer := zip_with Z.lxor (take 32 (replicate 64 0x5c)) key ++ replicate 32 0x5c in
  let hasher_data := inner ++ header ++ ciphertext in
  if (length hasher_data <=? HASHER_DATA_CAPACITY)%nat then
    let inner_hash := sha256_hash hasher_data in
    Some (take 16 (sha256_hash (outer ++ inner_hash)))
  else None.

Definition with_send_chain (s : Session) (k : list Z) : Session :=
  mkSession (root_key s) k (recv_chain_key s) (send_ratchet_private s) (send_ratchet_public s)
    (recv_ratchet_public s) (send_count s) (recv_count s) (prev_recv_chain s) (last_ratchet_time s)
    (skipped_keys s) (established s).
Definition with_send_count (s : Session) (n : Z) : Session :=
  mkSession (root_key s) (send_chain_key s) (recv_chain_key s) (send_ratchet_private s)
    (send_ratchet_public s) (recv_ratchet_public s) n (recv_count s) (prev_recv_chain s)
    (last_ratchet_time s) (skipped_keys s) (established s).
Definition with_recv_chain (s : Session) (k : list Z) (n : Z) : Session :=
  mkSession (root_key s) (send_chain_key s) k (send_ratchet_private s) (send_ratchet_public s)
    (recv_ratchet_public s) (send_count s) n (prev_recv_chain s) (last_ratchet_time s)
    (skipped_keys s) (established s).
Definition with_skipped (s : Session) (m : SkippedKeysMap) : Session :=
  mkSession (root_key s) (send_chain_key s) (recv_chain_key s) (send_ratchet_private s)
    (send_ratchet_public s) (recv_ratchet_public s) (send_count s) (recv_count s)
    (prev_recv_chain s) (last_ratchet_time s) m (established s).

(** The key of message [n] of a chain and the next chain key. *)
Definition derive_message_key (chain : list Z) (n : Z) : list Z :=
  kdf chain (le_bytes 8 n) MESSAGE_KEY_INFO 32.
Definition advance_chain (chain : list Z) : list Z := kdf chain str_chain_advance CHAIN_KEY_INFO 32.

Definition should_ratchet (s : Session) : bool := MAX_MESSAGES_BEFORE_RATCHET <=? send_count s.

(** The loop of [skip_message_keys]; [fuel] is [until - recv_count], at most 100. *)
Fixpoint skip_loop (fuel : nat) (s : Session) (until : Z) : Session :=
  match fuel with
  | O => s
  | S fuel =>
      if recv_count s <? until then
        let message_key := derive_message_key (recv_chain_key s) (recv_count s) in
        let key_prefix := take 8 (recv_ratchet_public s) in
        let s := with_skipped s
          (skipped_keys_map_insert (skipped_keys s) key_prefix (recv_count s) message_key).1 in
        let new_chain := advance_chain (recv_chain_key s) in
        skip_loop fuel (with_recv_chain s new_chain (u64 (recv_count s + 1))) until
      else s
  end.

Definition skip_message_keys (s : Session) (until : Z) : Session * SessionError :=
  let to_skip := if recv_count s <? until then until - recv_count s else 0 in
  if Z.of_nat MAX_SKIPPED_KEYS <? to_skip then (s, SESSION_ERROR_TOO_MANY_SKIPPED)
  else (skip_loop (Z.to_nat to_skip) s until, SESSION_ERROR_NONE).

Definition get_message_key (s : Session) (header : MessageHeader)
    : Session * (SessionError + list Z) :=
  let key_prefix := take 8 (dh_public header) in
  match skipped_keys_map_remove (skipped_keys s) key_prefix (message_num header) with
  | (map, Some message_key) => (with_skipped s map, inr message_key)
  | (_, None) =>
      let '(s, err) :=
        if recv_count s <? message_num header then skip_message_keys s (message_num header)
        else (s, SESSION_ERROR_NONE) in
      if bool_decide (err = SESSION_ERROR_NONE) then
        let message_key := derive_message_key (recv_chain_key s) (message_num header) in
        let new_chain := advance_chain (recv_chain_key s) in
        (with_recv_chain s new_chain (u64 (message_num header + 1)), inr message_key)
      else (s, inl err)
  end.

Definition session_uninitialized : Session :=
  mkSession (replicate 32 0) (replicate 32 0) (replicate 32 0) (replicate 32 0) (replicate 32 0)
    (replicate 32 0) 0 0 0 0 skipped_keys_map_init false.

Definition session_is_established (s : Session) : bool := established s.

Definition session_derive_session_hint (s : Session) (epoch : Z) : list Z :=
  kdf (root_key s ++ le_bytes 8 epoch) str_hint SESSION_HINT_INFO 4.

(** Clamping of a private key. *)
Definition clamp (key : list Z) : list Z :=
  let key := <[0%nat := key.[0] .& 248]> key in
  let key := <[31%nat := key.[31] .& 127]> key in
  <[31%nat := key.[31] .| 64]> key.

Section protocol.
Context (aes256 : list Z -> list Z -> list Z)      (* aes256_new, aes256_encrypt_block *)
        (x25519 : list Z -> list Z -> list Z)      (* scalar, point *)
        (x25519_base : list Z -> list Z).          (* scalar *)

(** [random] is what [fill_random] writes. *)
Definition advance_send_ratchet (s : Session) (random : list Z) : Session :=
  let new_private := clamp random in
  let new_public := x25519_base new_private in
  let dh_output := x25519 new_private (recv_ratchet_public s) in
  let kdf_input := root_key s ++ dh_output in
  mkSession (kdf kdf_input str_root ROOT_KEY_INFO 32) (kdf kdf_input str_chain CHAIN_KEY_INFO 32)
    (recv_chain_key s) new_private new_public (recv_ratchet_public s) 0 (recv_count s)
    (recv_count s) (last_ratchet_time s) (skipped_keys s) (established s).

Definition advance_recv_ratchet (s : Session) (their_new_public : list Z) : Session :=
  let dh_output := x25519 (send_ratchet_private s) their_new_public in
  let kdf_input := root_key s ++ dh_output in
  mkSession (kdf kdf_input str_root ROOT_KEY_INFO 32) (send_chain_key s)
    (kdf kdf_input str_chain CHAIN_KEY_INFO 32) (send_ratchet_private s) (send_ratchet_public s)
    their_new_public (send_count s) 0 (prev_recv_chain s) (last_ratchet_time s) (skipped_keys s)
    (established s).

Definition session_new (params : SessionParams) : Session :=
  let salt := if is_initiator params then initiator_salt else responder_salt in
  let root := kdf (shared_secret params) salt ROOT_KEY_INFO 32 in
  let dh_output := x25519 (our_private params) (their_public params) in
  let kdf_input := root ++ dh_output in
  let send := kdf kdf_input str_send CHAIN_KEY_INFO 32 in
  let recv := kdf kdf_input str_recv CHAIN_KEY_INFO 32 in
  mkSession root (if is_initiator params then send else recv) (if is_initiator params then recv else send)
    (our_private params) (x25519_base (our_private params)) (their_public params) 0 0 0 0
    skipped_keys_map_init true.

(** AES-256 in counter mode: the nonce is the message number, then the block counter. *)
Definition ctr_block (message_key : list Z) (num block_counter : Z) : list Z :=
  aes256 message_key (le_bytes 8 num ++ le_bytes 8 block_counter).

Definition aes256_ctr (message_key : list Z) (num : Z) (data : list Z) : list Z :=
  ctr_loop 16 (ctr_block message_key num) (fun c => u64 (c + 1)) (length data) 0 data.

Definition session_encrypt (s : Session) (plaintext random : list Z)
    : Session * Outcome (MessageHeader * list Z) :=
  if negb (established s) then (s, Err SESSION_ERROR_NOT_ESTABLISHED) else
  let message_key := derive_message_key (send_chain_key s) (send_count s) in
  let s := with_send_chain s (advance_chain (send_chain_key s)) in
  let header := mkHeader (send_ratchet_public s) (prev_recv_chain s) (send_count s) in
  match heapless_vec_extend_from_slice [] plaintext with
  | None => (s, Err SESSION_ERROR_INVALID_FORMAT)
  | Some ciphertext =>
      let ciphertext := aes256_ctr message_key (send_count s) ciphertext in
      match compute_tag message_key (message_header_encode header) ciphertext with
      | None => (s, Overflow)
      | Some tag =>
          match heapless_vec_extend_from_slice ciphertext tag with
          | None => (s, Err SESSION_ERROR_INVALID_FORMAT)
          | Some ciphertext =>
              let s := with_send_count s (u64 (send_count s + 1)) in
              let s := if should_ratchet s then advance_send_ratchet s random else s in
              (s, Ok (header, ciphertext))
          end
      end
  end.

Definition session_decrypt (s : Session) (header : MessageHeader) (ciphertext : list Z)
    : Session * Outcome (list Z) :=
  if negb (established s) then (s, Err SESSION_ERROR_NOT_ESTABLISHED) else
  if (length ciphertext <? 16)%nat then (s, Err SESSION_ERROR_INVALID_FORMAT) else
  let '(s, err) :=
    if bool_decide (dh_public header = recv_ratchet_public s) then (s, SESSION_ERROR_NONE)
    else
      let '(s, err) := skip_message_keys s (prev_chain_len header) in
      if bool_decide (err = SESSION_ERROR_NONE)
      then (advance_recv_ratchet s (dh_public header), SESSION_ERROR_NONE) else (s, err) in
  if negb (bool_decide (err = SESSION_ERROR_NONE)) then (s, Err err) else
  match get_message_key s header with
  | (s, inl err) => (s, Err err)
  | (s, inr message_key) =>
      let tag_start := (length ciphertext - 16)%nat in
      let received_tag := slice ciphertext tag_start 16 in
      let ct_without_tag := take tag_start ciphertext in
      match compute_tag message_key (message_header_encode header) ct_without_tag with
      | None => (s, Overflow)
      | Some expected_tag =>
          if negb (constant_time_eq received_tag expected_tag)
          then (s, Err SESSION_ERROR_DECRYPTION_FAILED)
          else match heapless_vec_extend_from_slice [] ct_without_tag with
          | None => (s, Err SESSION_ERROR_INVALID_FORMAT)
          | Some plaintext => (s, Ok (aes256_ctr message_key (message_num header) plaintext))
          end
      end
  end.
End protocol.

(** ** Serialisation *)

Definition session_serialize (s : Session) : list Z :=
  root_key s ++ send_chain_key s ++ recv_chain_key s ++ send_ratchet_private s
  ++ send_ratchet_public s ++ recv_ratchet_public s
  ++ le_bytes 8 (send_count s) ++ le_bytes 8 (recv_count s) ++ le_bytes 8 (prev_recv_chain s)
  ++ le_bytes 8 (last_ratchet_time s) ++ [if established s then 1 else 0].

Definition session_deserialize (data : list Z) : option Session :=
  if (length data <? SESSION_SERIALIZED_SIZE)%nat then None else
  Some (mkSession (slice data 0 32) (slice data 32 32) (slice data 64 32) (slice data 96 32)
    (slice data 128 32) (slice data 160 32) (le_val (slice data 192 8)) (le_val (slice data 200 8))
    (le_val (slice data 208 8)) (le_val (slice data 216 8)) skipped_keys_map_init
    (negb (data.[224] =? 0))).

(** ** The table of sessions *)

Record SessionEntry := mkSessionEntry {
  peer_key : list Z;           (* uint8_t[8] *)
  se_session : Session;
  se_occupied : bool
}.

Record SessionManager := mkManager {
  sm_entries : list SessionEntry;      (* [MAX_PERSISTED_SESSIONS] *)
  sm_count : nat                       (* size_t, at most 32 *)
}.

#[global] Instance SessionEntry_eq_dec : EqDecision SessionEntry.
Proof. solve_decision. Defined.

Definition zero_session : Session := session_uninitialized.

Definition session_manager_new : SessionManager :=
  mkManager (replicate MAX_PERSISTED_SESSIONS (mkSessionEntry (replicate 8 0) zero_session false)) 0.

Definition session_is (key : list Z) (e : SessionEntry) : bool :=
  se_occupied e && bool_decide (peer_key e = key).

Definition session_manager_get_session (m : SessionManager) (peer_public : list Z) : option Session :=
  (fun ie => se_session ie.2) <$> find_first (session_is (take 8 peer_public)) (sm_entries m).

(** The caller's writes through the pointer [session_manager_get_session] returns. *)
Definition session_manager_update (m : SessionManager) (peer_public : list Z) (f : Session -> Session)
    : SessionManager :=
  match find_first (session_is (take 8 peer_public)) (sm_entries m) with
  | Some (i, e) =>
      mkManager (<[i := mkSessionEntry (peer_key e) (f (se_session e)) (se_occupied e)]> (sm_entries m))
        (sm_count m)
  | None => m
  end.

(** Into the first slot that is free or has the key; nothing happens when there is none. *)
Definition session_manager_create_session (x25519 : list Z -> list Z -> list Z)
    (x25519_base : list Z -> list Z) (m : SessionManager) (params : SessionParams) : SessionManager :=
  let key := take 8 (their_public params) in
  match find_first (fun e => negb (se_occupied e) || bool_decide (peer_key e = key)) (sm_entries m) with
  | Some (i, _) =>
      mkManager (<[i := mkSessionEntry key (session_new x25519 x25519_base params) true]> (sm_entries m))
        (if (sm_count m <=? i)%nat then S i else sm_count m)
  | None => m
  end.

(** [while (count > 0 && !entries[count - 1].occupied) count--] *)
Fixpoint trim_count (entries : list SessionEntry) (count : nat) : nat :=
  match count with
  | O => O
  | S c => if default false (se_occupied <$> entries !! c) then S c else trim_count entries c
  end.

Definition session_manager_remove_session (m : SessionManager) (peer_public : list Z) : SessionManager :=
  match find_first (session_is (take 8 peer_public)) (sm_entries m) with
  | Some (i, e) =>
      let entries := <[i := mkSessionEntry (peer_key e) (se_session e) false]> (sm_entries m) in
      mkManager entries (if (S i =? sm_count m)%nat then trim_count entries (sm_count m) else sm_count m)
  | None => m
  end.

Definition session_manager_session_count (m : SessionManager) : nat :=
  foldl (fun count e => if se_occupied e then S count else count) 0%nat (sm_entries m).

(** ** Persistence (the ESP32 build)

    As for the contacts, a save is its sequence of writes and a load is given what
    [nvs_get_u32] and [nvs_get_blob] answer. *)

(** "sess_count" and "sess_0" ... "sess_31". *)
Definition sess_count : list Z := [115; 101; 115; 115; 95; 99; 111; 117; 110; 116].

Definition sess_key_name (idx : nat) : list Z :=
  [115; 101; 115; 115; 95] ++
  (if (idx <? 10)%nat then [48 + Z.of_nat idx]
   else [48 + Z.of_nat (idx / 10); 48 + Z.of_nat (idx mod 10)]).

Fixpoint save_sessions (es : list SessionEntry) (idx active_count : nat) : list nvs_op :=
  match es with
  | [] => []
  | e :: es =>
      if (idx <? active_count)%nat then
        if negb (se_occupied e) then save_sessions es idx active_count
        else nvs_set_blob (sess_key_name idx) (peer_key e ++ session_serialize (se_session e))
             :: save_sessions es (S idx) active_count
      else []
  end.

Definition session_manager_save_to_nvs (open1 open2 : bool) (m : SessionManager)
    : list nvs_op * SessionError :=
  let active_count := session_manager_session_count m in
  let writes := nvs_set_u32 sess_count (Z.of_nat active_count)
                :: save_sessions (sm_entries m) 0 active_count ++ [nvs_commit] in
  if open1 then (writes, SESSION_ERROR_NONE)
  else if open2 then (nvs_flash_init :: writes, SESSION_ERROR_NONE)
  else ([nvs_flash_init], SESSION_ERROR_KEY_DERIVATION_FAILED).

Section load.
Context (nvs_get_u32 : list Z -> option Z) (nvs_get_blob : list Z -> option (list Z)).

(** One iteration of the load loop, on the table and [loaded]. *)
Definition load_session (st : SessionManager * nat) (idx : nat) : SessionManager * nat :=
  let '(m, loaded) := st in
  match nvs_get_blob (sess_key_name idx) with
  | Some blob =>
      if (length blob =? 8 + SESSION_SERIALIZED_SIZE)%nat then
        match find_first (fun e => negb (se_occupied e)) (sm_entries m) with
        | Some (i, e) =>
            match session_deserialize (drop 8 blob) with
            | Some s =>
                (mkManager (<[i := mkSessionEntry (take 8 blob) s true]> (sm_entries m))
                   (if (sm_count m <=? i)%nat then S i else sm_count m), S loaded)
            | None =>
                (mkManager (<[i := mkSessionEntry (take 8 blob) (se_session e) false]> (sm_entries m))
                   (sm_count m), loaded)
            end
        | None => st
        end
      else st
  | None => st
  end.

Definition session_manager_load_from_nvs (opened : bool) (m : SessionManager) : SessionManager * nat :=
  if negb opened then (m, 0%nat) else
  match nvs_get_u32 sess_count with
  | None => (m, 0%nat)
  | Some count =>
      let count := if Z.of_nat MAX_PERSISTED_SESSIONS <? count then Z.of_nat MAX_PERSISTED_SESSIONS else count in
      foldl load_session (m, 0%nat) (seq 0 (Z.to_nat count))
  end.
End load.

(** ** Facts about the building blocks *)

Lemma message_key_ok chain n :
  length (derive_message_key chain n) = 32%nat /\ bytes_ok (derive_message_key chain n).
Proof. unfold derive_message_key. apply kdf_ok. lia. Qed.

(** The tag is HMAC-SHA-256, cut to 16 bytes, when the copies fit. *)
Lemma compute_tag_hmac key header ct :
  length key = 32%nat ->
  compute_tag key header ct =
  if (length header + length ct <=? 448)%nat then Some (take 16 (hmac_sha256_mac key (header ++ ct))) else None.
Proof.
  intros Hk. unfold compute_tag. cbn zeta. rewrite !tag_pad, !length_app, length_xor_bytes by done.
  rewrite length_replicate. assert (length (rfc_key sha256_hash key) = 64%nat) as ->.
  { unfold rfc_key. rewrite Hk. cbn [Nat.ltb Nat.leb]. rewrite length_app, length_replicate. lia. }
  rewrite hmac_sha256_mac_rfc. unfold rfc_hmac, HASHER_DATA_CAPACITY.
  replace (64 `min` 64 + (length header + length ct) <=? 512)%nat with (length header + length ct <=? 448)%nat
    by (destruct (Nat.leb_spec (length header + length ct) 448), (Nat.leb_spec (64 `min` 64 + (length header + length ct)) 512); lia).
  done.
Qed.

Lemma compute_tag_Some key header ct :
  length key = 32%nat -> (length header + length ct <= 448)%nat ->
  exists tag, compute_tag key header ct = Some tag /\ length tag = 16%nat.
Proof.
  intros Hk Hl. rewrite compute_tag_hmac by done. rewrite (proj2 (Nat.leb_le _ _) Hl). eexists. split; [done|].
  rewrite length_take, hmac_sha256_mac_rfc, length_rfc_hmac by apply _. lia.
Qed.

Section ctr.
Context (aes256 : list Z -> list Z -> list Z) `{!BlockCipher aes256}.

Lemma ctr_block_length key num c :
  length key = 32%nat -> bytes_ok key -> length (ctr_block aes256 key num c) = 16%nat.
Proof.
  intros Hl Hk. unfold ctr_block. apply cipher_length; [done..|]. split; [by rewrite length_app, !length_le_bytes|].
  apply Forall_app. split; apply le_bytes_ok.
Qed.

(** Decrypting with the key and number of the encryption restores the data. *)
Lemma aes256_ctr_involutive key num data :
  length key = 32%nat -> bytes_ok key ->
  length (aes256_ctr aes256 key num data) = length data
  /\ aes256_ctr aes256 key num (aes256_ctr aes256 key num data) = data.
Proof.
  intros Hl Hk. unfold aes256_ctr.
  assert (forall st : Z, True -> length (ctr_block aes256 key num st) = 16%nat) as Hb
    by (intros; by apply ctr_block_length).
  rewrite (length_ctr_loop 16 _ _ (fun _ => True)) by (done || lia). split; [done|].
  apply (ctr_loop_involutive 16 _ _ (fun _ => True)); (done || lia).
Qed.
End ctr.
