(* ===== verification/SessionChain.v ===== *)
(** * One sending chain of a session

    What session.c promises within a chain: the messages one side encrypts before its next
    ratchet are decrypted by the other side in whatever order they arrive. Also the exact
    outcome of [get_message_key], and what a message that is replayed or forged does to the
    receiver. *)
From stdpp Require Import gmap.
From S2P Require Import Prelude SlotMap Sha256 Hmac Ctr Aes AesMin Keyed Session.

(** Nothing below looks into the key derivation. *)
#[local] Opaque kdf hkdf_derive sha256_hash.

(** ** The table of skipped keys as a finite map *)

Definition skipped_id (e : SkippedKeyEntry) : list Z * Z := (sk_prefix e, sk_num e).

Definition skipped_map (m : SkippedKeysMap) : gmap (list Z * Z) (list Z) :=
  slots_map skipped_id sk_key sk_occupied (sk_entries m).

Record skipped_wf (m : SkippedKeysMap) : Prop := {
  skw_slots : length (sk_entries m) = MAX_SKIPPED_KEYS;
  skw_keys : slots_distinct skipped_id sk_occupied (sk_entries m)
}.

Lemma skipped_is_matches p n e : skipped_is p n e = slot_matches skipped_id sk_occupied (p, n) e.
Proof.
  unfold skipped_is, slot_matches, skipped_id. rewrite <- andb_assoc. f_equal. apply eq_true_iff_eq.
  rewrite andb_true_iff, !bool_decide_eq_true, Z.eqb_eq. split; [by intros [-> ->]|by intros [= -> ->]].
Qed.

Lemma find_first_ext {A} (P Q : A -> bool) l : (forall x, P x = Q x) -> find_first P l = find_first Q l.
Proof. intros E. induction l as [|x l IH]; [done|]. cbn. by rewrite E, IH. Qed.

Lemma skipped_insert_spec m p n k :
  skipped_wf m -> skipped_map m !! (p, n) = None -> (size (skipped_map m) < MAX_SKIPPED_KEYS)%nat ->
  let '(m', ok) := skipped_keys_map_insert m p n k in
  ok = true /\ skipped_wf m' /\ skipped_map m' = <[(p, n) := k]> (skipped_map m).
Proof.
  intros [Hl Hd] Hn Hs. unfold skipped_keys_map_insert.
  destruct (slots_free skipped_id sk_key sk_occupied (sk_entries m)) as (i & e & -> & Hi & Ho); [done|by rewrite Hl|].
  destruct (slot_fill skipped_id sk_key sk_occupied (sk_entries m) i e (mkSkipped p n k true)) as [Hd' Hm]; [done..|].
  split; [done|]. split; [|exact Hm]. split; [cbn [sk_entries]; by rewrite length_insert|exact Hd'].
Qed.

Lemma skipped_remove_spec m p n :
  skipped_wf m ->
  let '(m', out) := skipped_keys_map_remove m p n in
  out = skipped_map m !! (p, n) /\ skipped_wf m' /\ skipped_map m' = delete (p, n) (skipped_map m).
Proof.
  intros Hw. pose proof Hw as [Hl Hd]. unfold skipped_keys_map_remove, skipped_map.
  rewrite (slots_map_lookup skipped_id sk_key sk_occupied (sk_entries m) (p, n)).
  rewrite (find_first_ext (skipped_is p n) (slot_matches skipped_id sk_occupied (p, n))) by apply skipped_is_matches.
  destruct (find_first _ (sk_entries m)) as [[i e]|] eqn:Hf.
  - apply (slot_found skipped_id sk_occupied) in Hf as (Hi & Ho & He).
    destruct (slot_clear skipped_id sk_key sk_occupied (sk_entries m) i e
      (mkSkipped (sk_prefix e) (sk_num e) (sk_key e) false)) as [Hd' Hm]; [done..|].
    split; [done|]. rewrite <- He. split; [|exact Hm]. split; [cbn [sk_entries]; by rewrite length_insert|exact Hd'].
  - split; [done|]. split; [done|]. symmetry. apply delete_id.
    rewrite (slots_map_lookup skipped_id sk_key sk_occupied). by rewrite Hf.
Qed.

Lemma skipped_init_spec : skipped_wf skipped_keys_map_init /\ skipped_map skipped_keys_map_init = ∅.
Proof.
  split; [split; [done|]|done]. intros i j x y Hx _ Ho _ _.
  apply list_elem_of_lookup_2, elem_of_replicate in Hx as [-> _]. done.
Qed.

(** ** One chain *)

Section chain.
Context (c0 pub : list Z) (n0 : Z) (Hn0 : 0 <= n0).

Abbreviation pfx := (take 8 pub).

(** The chain key before message [i] of the chain and the key of that message; the
    messages are numbered from [n0]. *)
Definition chain_key (i : nat) : list Z := Nat.iter i advance_chain c0.
Definition chain_message_key (i : nat) : list Z := derive_message_key (chain_key i) (n0 + Z.of_nat i).

(** The receiver after [m] chain steps, the messages of [D] delivered; the table held [s0]
    keys of other chains. *)
Record receiving (s0 : nat) (r : Session) (m : nat) (D : list nat) : Prop := {
  rc_established : established r = true;
  rc_public : recv_ratchet_public r = pub;
  rc_count : recv_count r = n0 + Z.of_nat m;
  rc_chain : recv_chain_key r = chain_key m;
  rc_table : skipped_wf (skipped_keys r);
  rc_pending : forall i, (i < m)%nat -> i ∉ D ->
    skipped_map (skipped_keys r) !! (pfx, n0 + Z.of_nat i) = Some (chain_message_key i);
  rc_fresh : forall i, (m <= i)%nat -> skipped_map (skipped_keys r) !! (pfx, n0 + Z.of_nat i) = None;
  rc_size : (size (skipped_map (skipped_keys r)) + length D <= s0 + m)%nat
}.

(** Skipping a stretch of messages files their keys. *)
Lemma skip_loop_receiving s0 d r m D :
  receiving s0 r m D -> (s0 + m + d <= MAX_SKIPPED_KEYS)%nat -> fits 64 (n0 + Z.of_nat (m + d)) ->
  receiving s0 (skip_loop d r (n0 + Z.of_nat (m + d))) (m + d) D.
Proof using Hn0.
  revert r m. induction d as [|d IH]; intros r m Hr Hs Hf; [by rewrite Nat.add_0_r in *|].
  cbn [skip_loop]. pose proof Hr as [He Hp Hc Hk Hw Hpend Hfresh Hsz].
  rewrite Hc, (proj2 (Z.ltb_lt _ _)) by lia. cbn [with_skipped recv_chain_key recv_count recv_ratchet_public].
  pose proof (skipped_insert_spec (skipped_keys r) pfx (n0 + Z.of_nat m) (chain_message_key m) Hw
    (Hfresh m (le_n m)) ltac:(unfold MAX_SKIPPED_KEYS in *; lia)) as Hi.
  rewrite Hp, Hk. change (derive_message_key (chain_key m) (n0 + Z.of_nat m)) with (chain_message_key m).
  destruct (skipped_keys_map_insert _ _ _ _) as [m' ok]. destruct Hi as (_ & Hw' & Hm'). cbn [fst].
  replace (m + S d)%nat with (S m + d)%nat in * by lia. rewrite Hc.
  rewrite u64_small by (unfold fits in *; lia).
  apply IH; [|lia|done]. split; cbn [with_recv_chain with_skipped established recv_ratchet_public
    recv_count recv_chain_key skipped_keys]; try done.
  - lia.
  - intros i Hi Hd. rewrite Hm'. destruct (decide (i = m)) as [->|]; [by rewrite lookup_insert_eq|].
    rewrite lookup_insert_ne by (intros [=]; lia). apply Hpend; [lia|done].
  - intros i Hi. rewrite Hm', lookup_insert_ne by (intros [=]; lia). apply Hfresh. lia.
  - rewrite Hm', map_size_insert_None by (apply Hfresh; lia). lia.
Qed.

(** The number in a header selects the key of that message. *)
Lemma get_message_key_receiving s0 r m D i pl :
  receiving s0 r m D -> i ∉ D -> (s0 + S i <= MAX_SKIPPED_KEYS)%nat -> fits 64 (n0 + Z.of_nat i + 1) ->
  exists r' m', get_message_key r (mkHeader pub pl (n0 + Z.of_nat i)) = (r', inr (chain_message_key i))
  /\ receiving s0 r' m' (i :: D).
Proof using Hn0.
  intros Hr HD Hs Hf. pose proof Hr as [He Hp Hc Hk Hw Hpend Hfresh Hsz].
  unfold get_message_key. cbn [dh_public message_num].
  pose proof (skipped_remove_spec (skipped_keys r) pfx (n0 + Z.of_nat i) Hw) as Hrem.
  destruct (skipped_keys_map_remove _ _ _) as [mp out]. destruct Hrem as (-> & Hw' & Hm').
  destruct (decide (i < m)%nat) as [Hi|Hi].
  - rewrite Hpend by done. eexists _, m. split; [reflexivity|]. pose proof (Hpend i Hi HD) as Hl.
    split; cbn [with_skipped established recv_ratchet_public recv_count recv_chain_key skipped_keys]; try done.
    + intros j Hj [Hne HjD]%not_elem_of_cons. rewrite Hm', lookup_delete_ne by (intros [=]; lia). by apply Hpend.
    + intros j Hj. rewrite Hm', lookup_delete_ne by (intros [=]; lia). by apply Hfresh.
    + rewrite Hm', map_size_delete_Some by done.
      assert (size (skipped_map (skipped_keys r)) <> 0)%nat.
      { intros E%map_size_empty_inv. rewrite E, lookup_empty in Hl. done. }
      cbn [length]. lia.
  - rewrite Hfresh by lia.
    assert (exists r1, (if recv_count r <? n0 + Z.of_nat i then skip_message_keys r (n0 + Z.of_nat i)
      else (r, SESSION_ERROR_NONE)) = (r1, SESSION_ERROR_NONE) /\ receiving s0 r1 i D) as (r1 & -> & Hr1).
    { destruct (Z.ltb_spec (recv_count r) (n0 + Z.of_nat i)) as [Hlt|Hge].
      - unfold skip_message_keys. rewrite (proj2 (Z.ltb_lt _ _) Hlt), (proj2 (Z.ltb_ge _ _))
          by (unfold MAX_SKIPPED_KEYS in *; lia).
        pose proof (skip_loop_receiving s0 (i - m) r m D Hr ltac:(lia)) as Hskip.
        replace (m + (i - m))%nat with i in Hskip by lia.
        replace (Z.to_nat (n0 + Z.of_nat i - recv_count r)) with (i - m)%nat by lia.
        eexists. split; [reflexivity|]. apply Hskip. unfold fits in *. lia.
      - assert (i = m) as -> by lia. eauto. }
    rewrite bool_decide_eq_true_2 by done. destruct Hr1 as [He1 Hp1 Hc1 Hk1 Hw1 Hpend1 Hfresh1 Hsz1].
    rewrite Hk1. eexists _, (S i). split; [reflexivity|].
    split; cbn [with_recv_chain established recv_ratchet_public recv_count recv_chain_key skipped_keys]; try done.
    + rewrite u64_small by done. lia.
    + intros j Hj [Hne HjD]%not_elem_of_cons. apply Hpend1; [lia|done].
    + intros j Hj. apply Hfresh1. lia.
    + cbn [length]. lia.
Qed.

Context (aes256 : list Z -> list Z -> list Z) `{!BlockCipher aes256}
        (x25519 : list Z -> list Z -> list Z) (x25519_base : list Z -> list Z).
Context (Hpub : length pub = 32%nat).

(** The message the sender puts on the air. *)
Definition sealed (header : MessageHeader) (key plaintext : list Z) : list Z :=
  let ct := aes256_ctr aes256 key (message_num header) plaintext in
  ct ++ default [] (compute_tag key (message_header_encode header) ct).

Lemma length_header h : length (dh_public h) = 32%nat -> length (message_header_encode h) = 48%nat.
Proof. intros Hl. unfold message_header_encode. rewrite !length_app, !length_le_bytes, Hl. done. Qed.

(** With the key of the message, the message opens. *)
Lemma decrypt_sealed s0 r m D i pl pt (h := mkHeader pub pl (n0 + Z.of_nat i)) :
  receiving s0 r m D -> i ∉ D -> (s0 + S i <= MAX_SKIPPED_KEYS)%nat -> fits 64 (n0 + Z.of_nat i + 1) ->
  (length pt <= 240)%nat ->
  exists r' m', session_decrypt aes256 x25519 r h (sealed h (chain_message_key i) pt) = (r', Ok pt)
  /\ receiving s0 r' m' (i :: D).
Proof using All.
  intros Hr HD Hs Hf Hpt. destruct (get_message_key_receiving s0 r m D i pl Hr HD Hs Hf) as (r' & m' & Hg & Hr').
  exists r', m'. split; [|done]. destruct (message_key_ok (chain_key i) (n0 + Z.of_nat i)) as [Hkl Hkb].
  fold (chain_message_key i) in Hkl, Hkb.
  destruct (aes256_ctr_involutive aes256 (chain_message_key i) (n0 + Z.of_nat i) pt Hkl Hkb) as [Hlen Hinv].
  unfold sealed. cbn [h message_num]. set (ct := aes256_ctr _ _ _ pt) in *.
  destruct (compute_tag_Some (chain_message_key i) (message_header_encode h) ct Hkl) as (tag & Htag & Htl).
  { rewrite length_header by done. lia. }
  rewrite Htag. cbn [default from_option id]. unfold session_decrypt.
  rewrite (rc_established _ _ _ _ Hr), (rc_public _ _ _ _ Hr). cbn [negb h dh_public].
  rewrite bool_decide_eq_true_2 by done. fold h.
  rewrite (proj2 (Nat.ltb_ge _ _)) by (rewrite length_app; lia).
  rewrite bool_decide_eq_true_2 by done. cbn [negb]. fold h in Hg. rewrite Hg, length_app, Htl, Nat.add_sub.
  rewrite take_app_length, Htag.
  assert (slice (ct ++ tag) (length ct) 16 = tag) as ->.
  { unfold slice. rewrite drop_app_length. rewrite <- Htl. apply firstn_all. }
  rewrite (proj2 (constant_time_eq_spec tag tag)) by done. cbn [negb].
  unfold heapless_vec_extend_from_slice.
  rewrite vec_extend_Some by (unfold HEAPLESS_VEC_CAPACITY; cbn [length app]; lia). cbn [app].
  cbn [h message_num]. by rewrite Hinv.
Qed.

(** The sender before message [j] of the chain. *)
Record sending (pl : Z) (s : Session) (j : nat) : Prop := {
  sd_established : established s = true;
  sd_public : send_ratchet_public s = pub;
  sd_prev : prev_recv_chain s = pl;
  sd_count : send_count s = n0 + Z.of_nat j;
  sd_chain : send_chain_key s = chain_key j
}.

Lemma encrypt_sending pl s j pt rnd (h := mkHeader pub pl (n0 + Z.of_nat j)) :
  sending pl s j -> n0 + Z.of_nat j < MAX_MESSAGES_BEFORE_RATCHET -> (length pt <= 240)%nat ->
  exists s', session_encrypt aes256 x25519 x25519_base s pt rnd = (s', Ok (h, sealed h (chain_message_key j) pt))
  /\ (n0 + Z.of_nat (S j) < MAX_MESSAGES_BEFORE_RATCHET -> sending pl s' (S j)).
Proof using All.
  intros [He Hp Hpl Hc Hk] Hj Hpt. unfold MAX_MESSAGES_BEFORE_RATCHET in Hj.
  destruct (message_key_ok (chain_key j) (n0 + Z.of_nat j)) as [Hkl Hkb].
  fold (chain_message_key j) in Hkl, Hkb.
  destruct (aes256_ctr_involutive aes256 (chain_message_key j) (n0 + Z.of_nat j) pt Hkl Hkb) as [Hlen _].
  unfold session_encrypt, sealed. rewrite He. cbn [negb]. unfold heapless_vec_extend_from_slice.
  rewrite vec_extend_Some by (unfold HEAPLESS_VEC_CAPACITY; cbn [length app]; lia). cbn [app].
  cbn [with_send_chain send_ratchet_public prev_recv_chain send_count].
  rewrite Hc, Hk, Hp, Hpl. change (derive_message_key (chain_key j) (n0 + Z.of_nat j)) with (chain_message_key j).
  fold h. cbn [h message_num]. set (ct := aes256_ctr _ _ _ pt) in *.
  destruct (compute_tag_Some (chain_message_key j) (message_header_encode h) ct Hkl) as (tag & Htag & Htl).
  { rewrite length_header by done. lia. }
  rewrite Htag. cbn [default from_option id].
  rewrite vec_extend_Some by (unfold HEAPLESS_VEC_CAPACITY; lia).
  eexists. split; [reflexivity|]. intros Hnext. unfold MAX_MESSAGES_BEFORE_RATCHET in Hnext.
  unfold should_ratchet, MAX_MESSAGES_BEFORE_RATCHET. cbn [with_send_count send_count].
  rewrite u64_small by (unfold fits; lia). rewrite (proj2 (Z.leb_gt _ _)) by lia.
  split; cbn [with_send_count with_send_chain established send_ratchet_public prev_recv_chain send_count send_chain_key];
    try done. lia.
Qed.
End chain.

(** ** Runs *)

Section runs.
Context (aes256 : list Z -> list Z -> list Z) (x25519 : list Z -> list Z -> list Z)
        (x25519_base : list Z -> list Z).

(** One side encrypts messages, each with the bytes [fill_random] would return, one after
    the other; the other side decrypts what arrives. *)
Fixpoint encrypt_all (s : Session) (msgs : list (list Z * list Z))
    : list (Outcome (MessageHeader * list Z)) :=
  match msgs with
  | [] => []
  | (pt, rnd) :: msgs =>
      let '(s, out) := session_encrypt aes256 x25519 x25519_base s pt rnd in out :: encrypt_all s msgs
  end.

Fixpoint decrypt_all (s : Session) (arrivals : list (MessageHeader * list Z)) : list (Outcome (list Z)) :=
  match arrivals with
  | [] => []
  | (h, ct) :: arrivals =>
      let '(s, out) := session_decrypt aes256 x25519 s h ct in out :: decrypt_all s arrivals
  end.
End runs.

(** The receiver [r] is at the point of the chain where the sender [s] is, and holds no
    skipped key of this chain. *)
Record in_step (s r : Session) : Prop := {
  is_sender : established s = true;
  is_receiver : established r = true;
  is_public : recv_ratchet_public r = send_ratchet_public s /\ length (send_ratchet_public s) = 32%nat;
  is_chain : recv_chain_key r = send_chain_key s;
  is_count : recv_count r = send_count s /\ 0 <= send_count s;
  is_table : skipped_wf (skipped_keys r);
  is_fresh : forall n, skipped_map (skipped_keys r) !! (take 8 (send_ratchet_public s), n) = None
}.

Lemma in_step_sending s r : in_step s r ->
  sending (send_chain_key s) (send_ratchet_public s) (send_count s) (prev_recv_chain s) s 0.
Proof. intros []. split; try done. cbn [Z.of_nat]. lia. Qed.

Lemma in_step_receiving s r : in_step s r ->
  receiving (send_chain_key s) (send_ratchet_public s) (send_count s)
    (size (skipped_map (skipped_keys r))) r 0 [].
Proof.
  intros [_ He [Hp _] Hk [Hc _] Hw Hf]. split; try done; try (cbn; lia).
Qed.

Section delivery.
Context (aes256 : list Z -> list Z -> list Z) `{!BlockCipher aes256}
        (x25519 : list Z -> list Z -> list Z) (x25519_base : list Z -> list Z).
Context (c0 pub : list Z) (n0 pl : Z) (Hn0 : 0 <= n0) (Hpub : length pub = 32%nat).

(** Message [i] as it goes over the air. *)
Definition air (msgs : list (list Z * list Z)) (i : nat) : MessageHeader * list Z :=
  let h := mkHeader pub pl (n0 + Z.of_nat i) in
  (h, sealed aes256 h (chain_message_key c0 n0 i) (default [] (fst <$> msgs !! i))).

Lemma encrypt_all_sending msgs : forall s,
  sending c0 pub n0 pl s 0 -> n0 + Z.of_nat (length msgs) <= MAX_MESSAGES_BEFORE_RATCHET ->
  Forall (fun m => (length m.1 <= 240)%nat) msgs ->
  encrypt_all aes256 x25519 x25519_base s msgs = (fun i => Ok (air msgs i)) <$> seq 0 (length msgs).
Proof using All.
  enough (forall l j s, (forall i, l !! i = msgs !! (j + i)%nat) -> (j + length l = length msgs)%nat ->
    (l <> [] -> sending c0 pub n0 pl s j) -> n0 + Z.of_nat (length msgs) <= MAX_MESSAGES_BEFORE_RATCHET ->
    Forall (fun m => (length m.1 <= 240)%nat) l ->
    encrypt_all aes256 x25519 x25519_base s l = (fun i => Ok (air msgs i)) <$> seq j (length l)) as Hg.
  { intros s Hs Hc Hl. by apply Hg. }
  induction l as [|[pt rnd] l IH]; intros j s Hl Hj Hs Hc Hf; [done|]. cbn [length] in Hj.
  apply Forall_cons in Hf as [Hpt Hf]. cbn [encrypt_all length seq fmap list_fmap].
  destruct (encrypt_sending c0 pub n0 Hn0 aes256 x25519 x25519_base Hpub pl s j pt rnd) as (s' & -> & Hs');
    [by apply Hs|lia|done|].
  pose proof (Hl 0%nat) as H0. cbn in H0. rewrite Nat.add_0_r in H0. f_equal.
  - unfold air. by rewrite <- H0.
  - apply IH; try done; [|lia|].
    + intros i. specialize (Hl (S i)). cbn in Hl. by rewrite Nat.add_succ_r in Hl.
    + intros Hne. apply Hs'. destruct l; [done|]. cbn [length] in Hj. lia.
Qed.

Lemma decrypt_all_receiving msgs order : forall s0 r m D,
  receiving c0 pub n0 s0 r m D -> (s0 + length msgs <= MAX_SKIPPED_KEYS)%nat ->
  n0 + Z.of_nat (length msgs) <= MAX_MESSAGES_BEFORE_RATCHET ->
  Forall (fun m => (length m.1 <= 240)%nat) msgs ->
  NoDup order -> Forall (fun i => (i < length msgs)%nat) order -> (forall i, i ∈ order -> i ∉ D) ->
  decrypt_all aes256 x25519 r (air msgs <$> order) = (fun i => Ok (default [] (fst <$> msgs !! i))) <$> order.
Proof using All.
  intros s0 r m D Hr Hs Hc Hf Hd Hlt HD. revert r m D Hr HD.
  induction order as [|i order IH]; intros r m D Hr HD; [done|].
  apply NoDup_cons in Hd as [Hi Hd]. apply Forall_cons in Hlt as [Hil Hlt].
  destruct (lookup_lt_is_Some_2 msgs i Hil) as [[pt rnd] Hpt]. pose proof (Forall_lookup_1 _ _ _ _ Hf Hpt) as Hptl.
  assert (air msgs i = (mkHeader pub pl (n0 + Z.of_nat i),
    sealed aes256 (mkHeader pub pl (n0 + Z.of_nat i)) (chain_message_key c0 n0 i) pt)) as Ea
    by (unfold air; by rewrite Hpt).
  rewrite !fmap_cons, Ea, Hpt. cbn [decrypt_all].
  destruct (decrypt_sealed c0 pub n0 Hn0 aes256 x25519 x25519_base Hpub s0 r m D i pl pt) as (r' & m' & -> & Hr'); try done.
  - apply HD. by left.
  - lia.
  - unfold fits, MAX_MESSAGES_BEFORE_RATCHET in *. lia.
  - f_equal. apply (IH Hd Hlt r' m' (i :: D) Hr'). intros j Hj. apply not_elem_of_cons. split.
    + intros ->. done.
    + apply HD. by right.
Qed.
End delivery.

Lemma omap_seq {A} (f : nat -> A) n order :
  Forall (fun i => (i < n)%nat) order -> omap (fun i => (f <$> seq 0 n) !! i) order = f <$> order.
Proof.
  induction 1 as [|i order Hi _ IH]; [done|]. cbn [omap list_omap fmap list_fmap].
  rewrite list_lookup_fmap, lookup_seq_lt by done. cbn. by rewrite <- IH.
Qed.

(** ** The outcome of [get_message_key] *)

Lemma skip_loop_chain d s :
  0 <= recv_count s -> fits 64 (recv_count s + Z.of_nat d) ->
  let s' := skip_loop d s (recv_count s + Z.of_nat d) in
  recv_chain_key s' = chain_key (recv_chain_key s) d
  /\ recv_count s' = recv_count s + Z.of_nat d
  /\ root_key s' = root_key s /\ recv_ratchet_public s' = recv_ratchet_public s
  /\ send_chain_key s' = send_chain_key s /\ send_count s' = send_count s /\ established s' = established s.
Proof.
  revert s. induction d as [|d IH]; intros s H0 Hf; [cbn; split_and!; (done || lia)|].
  cbn [skip_loop]. rewrite (proj2 (Z.ltb_lt _ _)) by lia.
  set (s1 := with_recv_chain _ _ _). cbn [with_skipped recv_chain_key recv_count] in s1.
  assert (recv_count s1 = recv_count s + 1) as E1.
  { cbn. apply u64_small. unfold fits in *. lia. }
  replace (recv_count s + Z.of_nat (S d)) with (recv_count s1 + Z.of_nat d) by lia.
  destruct (IH s1) as (Ek & En & Hr & Hp & Hs & Hc & He); [lia|rewrite E1; unfold fits in *; lia|].
  cbn zeta. rewrite Ek, En, Hr, Hp, Hs, Hc, He. split_and!; try done.
  unfold chain_key. cbn [s1 with_recv_chain recv_chain_key]. by rewrite Nat.iter_succ_r.
Qed.

(** A number that is due or that the chain has passed. *)
Lemma get_message_key_passed s h :
  skipped_wf (skipped_keys s) ->
  skipped_map (skipped_keys s) !! (take 8 (dh_public h), message_num h) = None ->
  message_num h <= recv_count s -> fits 64 (message_num h + 1) ->
  get_message_key s h =
  (with_recv_chain s (advance_chain (recv_chain_key s)) (message_num h + 1),
   inr (derive_message_key (recv_chain_key s) (message_num h))).
Proof.
  intros Hw Hn Hle Hf. unfold get_message_key.
  pose proof (skipped_remove_spec (skipped_keys s) (take 8 (dh_public h)) (message_num h) Hw) as Hrem.
  destruct (skipped_keys_map_remove _ _ _) as [m out]. destruct Hrem as (-> & _ & _).
  rewrite Hn, (proj2 (Z.ltb_ge _ _)), bool_decide_eq_true_2 by done. by rewrite u64_small.
Qed.

(** ** Samples *)

Definition sample_aes (key block : list Z) : list Z := Aes.aes256_encrypt_block (Aes.aes256_new key) block.
(** A commutative stand-in for X25519: the public key is the private one, the shared secret
    the bytewise exclusive or. *)
Definition sample_x25519 (scalar point : list Z) : list Z := xor_bytes scalar point.
Definition sample_x25519_base (scalar : list Z) : list Z := scalar.

Definition sample_sender : Session :=
  mkSession (range 32) (zseq 32 32) (replicate 32 7) (zseq 64 32) (zseq 64 32) (zseq 96 32) 0 0 0 0
    skipped_keys_map_init true.
Definition sample_receiver : Session :=
  mkSession (range 32) (replicate 32 7) (zseq 32 32) (zseq 96 32) (zseq 96 32) (zseq 64 32) 0 0 0 0
    skipped_keys_map_init true.
Definition sample_messages : list (list Z * list Z) :=
  (fun n => (zseq (Z.of_nat n) (20 * n), replicate 32 0)) <$> seq 1 4.

Definition sample_sent : list (MessageHeader * list Z) :=
  omap (fun out => match out with Ok m => Some m | _ => None end)
    (encrypt_all sample_aes sample_x25519 sample_x25519_base sample_sender sample_messages).
Definition sample_forgery : MessageHeader * list Z := (mkHeader (zseq 64 32) 0 0, replicate 40 0).
Definition sample_arrivals (msgs : list (MessageHeader * list Z)) : list (Outcome (list Z)) :=
  decrypt_all sample_aes sample_x25519 sample_receiver msgs.

Lemma sample_in_step : in_step sample_sender sample_receiver.
Proof.
  destruct skipped_init_spec as [Hw Hm]. by split.
Qed.

(** ** Properties *)

(** C2. Out-of-order delivery. Once two sides are in step, up to 100 messages of at most 240
    bytes that one side encrypts go out without an error, and the other side decrypts any
    selection of them, arriving in any order and each at most once, to the plaintexts. *)
Theorem session_chain_delivery (aes256 : list Z -> list Z -> list Z) `{!BlockCipher aes256}
    (x25519 : list Z -> list Z -> list Z) (x25519_base : list Z -> list Z)
    (s r : Session) (msgs : list (list Z * list Z)) (order : list nat) :
  in_step s r ->
  send_count s + Z.of_nat (length msgs) <= MAX_MESSAGES_BEFORE_RATCHET ->
  (size (skipped_map (skipped_keys r)) + length msgs <= MAX_SKIPPED_KEYS)%nat ->
  Forall (fun m => (length m.1 <= 240)%nat) msgs ->
  NoDup order -> Forall (fun i => (i < length msgs)%nat) order ->
  exists sent, encrypt_all aes256 x25519 x25519_base s msgs = Ok <$> sent
  /\ length sent = length msgs
  /\ decrypt_all aes256 x25519 r (omap (fun i => sent !! i) order)
     = (fun i => Ok (default [] (fst <$> msgs !! i))) <$> order.
Proof.
  intros Hs Hc Ht Hl Hd Ho. pose proof (in_step_sending s r Hs) as Hsend.
  pose proof (in_step_receiving s r Hs) as Hrecv. destruct Hs as [_ _ [_ Hp] _ [_ H0] _ _].
  exists (air aes256 (send_chain_key s) (send_ratchet_public s) (send_count s) (prev_recv_chain s) msgs
          <$> seq 0 (length msgs)).
  rewrite omap_seq by done. split_and!.
  - rewrite <- list_fmap_compose. by apply encrypt_all_sending.
  - by rewrite length_fmap, length_seq.
  - eapply decrypt_all_receiving; try done. intros i _. apply not_elem_of_nil.
Qed.

Lemma session_chain_delivery_witness :
  exists sent, encrypt_all sample_aes sample_x25519 sample_x25519_base sample_sender sample_messages = Ok <$> sent
  /\ length sent = 4%nat
  /\ decrypt_all sample_aes sample_x25519 sample_receiver (omap (fun i => sent !! i) [2; 0; 3]%nat)
     = (fun i => Ok (default [] (fst <$> sample_messages !! i))) <$> [2; 0; 3]%nat.
Proof.
  apply (session_chain_delivery sample_aes sample_x25519 sample_x25519_base sample_sender sample_receiver
    sample_messages [2; 0; 3]%nat).
  - exact sample_in_step.
  - apply (bool_decide_unpack _); vm_compute; exact I.
  - apply (bool_decide_unpack _); vm_compute; exact I.
  - apply (bool_decide_unpack _); vm_compute; exact I.
  - apply (bool_decide_unpack _); vm_compute; exact I.
  - apply (bool_decide_unpack _); vm_compute; exact I.
Defined.

(** C27. [get_message_key], every branch. A key that was skipped is returned and removed; more
    than 100 messages ahead is refused and changes nothing; otherwise the chain is advanced
    to the number asked for, the key of the position reached is returned and the counter is
    set behind the number. A number the chain has passed is not refused: it is answered
    with the key of the current position, and the counter moves back. *)
Theorem get_message_key_branches (s : Session) (h : MessageHeader)
    (id := (take 8 (dh_public h), message_num h)) (ahead := Z.to_nat (message_num h - recv_count s)) :
  skipped_wf (skipped_keys s) -> 0 <= recv_count s -> fits 64 (message_num h + 1) ->
  match skipped_map (skipped_keys s) !! id with
  | Some key => exists m, get_message_key s h = (with_skipped s m, inr key)
      /\ skipped_wf m /\ skipped_map m = delete id (skipped_map (skipped_keys s))
  | None =>
      if decide (ahead <= MAX_SKIPPED_KEYS)%nat
      then exists s', get_message_key s h
             = (s', inr (derive_message_key (chain_key (recv_chain_key s) ahead) (message_num h)))
           /\ recv_chain_key s' = chain_key (recv_chain_key s) (S ahead)
           /\ recv_count s' = message_num h + 1
           /\ (ahead = 0%nat -> skipped_keys s' = skipped_keys s)
      else get_message_key s h = (s, inl SESSION_ERROR_TOO_MANY_SKIPPED)
  end.
Proof.
  intros Hw H0 Hf. unfold get_message_key. subst id.
  pose proof (skipped_remove_spec (skipped_keys s) (take 8 (dh_public h)) (message_num h) Hw) as Hrem.
  destruct (skipped_keys_map_remove _ _ _) as [m out]. destruct Hrem as (-> & Hw' & Hm).
  destruct (skipped_map (skipped_keys s) !! _) as [key|]; [by exists m|].
  unfold skip_message_keys. destruct (Z.ltb_spec (recv_count s) (message_num h)) as [Hlt|Hge].
  - fold ahead. destruct (decide _) as [Ha|Ha].
    + rewrite (proj2 (Z.ltb_ge _ _)) by (unfold MAX_SKIPPED_KEYS in *; lia).
      assert (skip_loop ahead s (message_num h) = skip_loop ahead s (recv_count s + Z.of_nat ahead)) as ->
        by (f_equal; lia).
      destruct (skip_loop_chain ahead s) as (Ek & En & _); [done|unfold fits in *; lia|].
      rewrite bool_decide_eq_true_2 by done. eexists. split; [by rewrite Ek|].
      cbn [with_recv_chain recv_chain_key recv_count skipped_keys]. split_and!; [done|by apply u64_small|lia].
    + rewrite (proj2 (Z.ltb_lt _ _)) by (unfold MAX_SKIPPED_KEYS in *; lia). done.
  - assert (ahead = 0%nat) as -> by lia. rewrite decide_True by lia.
    rewrite bool_decide_eq_true_2 by done. eexists. split; [reflexivity|].
    cbn [with_recv_chain recv_chain_key recv_count skipped_keys]. split_and!; [done|by apply u64_small|done].
Qed.

Lemma get_message_key_branches_witness :
  exists s', get_message_key sample_receiver (mkHeader (zseq 64 32) 0 3)
    = (s', inr (derive_message_key (chain_key (zseq 32 32) 3) 3))
  /\ recv_chain_key s' = chain_key (zseq 32 32) 4
  /\ recv_count s' = 4 /\ (3%nat = 0%nat -> skipped_keys s' = skipped_keys sample_receiver).
Proof.
  apply (get_message_key_branches sample_receiver (mkHeader (zseq 64 32) 0 3)).
  - apply skipped_init_spec.
  - apply (bool_decide_unpack _); vm_compute; exact I.
  - apply (bool_decide_unpack _); vm_compute; exact I.
Defined.

(** C25. Decryption commits before it verifies. A message with the number that is due moves the
    receiver on and uses up its key whether or not the tag is right: every ciphertext
    leaves the same session, and a second message with that number is checked with another
    key. On the sample sides a forged message makes the genuine one that follows fail, and
    a message delivered twice makes the next one fail. *)
Theorem forged_message_burns_key (aes256 : list Z -> list Z -> list Z)
    (x25519 : list Z -> list Z -> list Z) (s : Session) (h : MessageHeader) (ct ct' : list Z) :
  established s = true -> dh_public h = recv_ratchet_public s -> length (dh_public h) = 32%nat ->
  skipped_wf (skipped_keys s) ->
  (forall n, skipped_map (skipped_keys s) !! (take 8 (dh_public h), n) = None) ->
  message_num h = recv_count s -> 0 <= recv_count s -> fits 64 (recv_count s + 1) ->
  (16 <= length ct <= 416)%nat -> (16 <= length ct' <= 416)%nat ->
  let s' := (session_decrypt aes256 x25519 s h ct).1 in
  (session_decrypt aes256 x25519 s h ct').1 = s'
  /\ recv_count s' = recv_count s + 1
  /\ recv_chain_key s' = advance_chain (recv_chain_key s)
  /\ (exists s'', get_message_key s' h
      = (s'', inr (derive_message_key (advance_chain (recv_chain_key s)) (message_num h))))
  /\ sample_arrivals (sample_forgery :: take 1 sample_sent)
     = [Err SESSION_ERROR_DECRYPTION_FAILED; Err SESSION_ERROR_DECRYPTION_FAILED]
  /\ sample_arrivals (omap (fun i => sample_sent !! i) [0; 0; 1]%nat)
     = [Ok (zseq 1 20); Err SESSION_ERROR_DECRYPTION_FAILED; Err SESSION_ERROR_DECRYPTION_FAILED].
Proof.
  intros He Hp Hpl Hw Hfresh Hn H0 Hf Hc Hc'.
  pose proof (get_message_key_passed s h Hw (Hfresh _) ltac:(lia) ltac:(by rewrite Hn)) as E.
  set (s1 := with_recv_chain _ _ _) in E.
  assert (forall c, (16 <= length c <= 416)%nat -> (session_decrypt aes256 x25519 s h c).1 = s1) as Hd.
  { intros c Hl. unfold session_decrypt. rewrite He, Hp. cbn [negb].
    rewrite (proj2 (Nat.ltb_ge _ _)), bool_decide_eq_true_2 by (done || lia).
    rewrite bool_decide_eq_true_2 by done. cbn [negb]. rewrite E.
    destruct (compute_tag _ _ _) as [t|]; [|done]. destruct (constant_time_eq _ _); [|done]. cbn [negb].
    by destruct (heapless_vec_extend_from_slice _ _). }
  cbn zeta. rewrite !Hd by done. split; [done|]. split; [by rewrite <- Hn|]. split; [done|]. split.
  - assert (recv_count s1 = message_num h + 1) as Hc1 by done.
    pose proof (get_message_key_passed s1 h Hw (Hfresh _) ltac:(lia) ltac:(by rewrite Hn)) as E1.
    change (recv_chain_key s1) with (advance_chain (recv_chain_key s)) in E1. rewrite E1. by eexists.
  - split; vm_compute; reflexivity.
Qed.

Lemma forged_message_burns_key_witness :
  let h := mkHeader (zseq 64 32) 0 0 in
  let s' := (session_decrypt sample_aes sample_x25519 sample_receiver h (replicate 16 0)).1 in
  (session_decrypt sample_aes sample_x25519 sample_receiver h (replicate 40 1)).1 = s'
  /\ recv_count s' = 1.
Proof.
  pose proof (forged_message_burns_key sample_aes sample_x25519 sample_receiver (mkHeader (zseq 64 32) 0 0)
    (replicate 16 0) (replicate 40 1) eq_refl eq_refl eq_refl (proj1 skipped_init_spec)
    (fun n => eq_refl) eq_refl ltac:(apply (bool_decide_unpack _); vm_compute; exact I)
    ltac:(apply (bool_decide_unpack _); vm_compute; exact I) ltac:(cbn; lia) ltac:(cbn; lia)) as (E & En & _).
  exact (conj E En).
Defined.

(** Encryption, every outcome. A session that is not established is refused unchanged. A
    plaintext of more than 240 bytes is refused with INVALID_FORMAT after the sending chain
    has been advanced and without counting a message, so the next message has the number of
    the refused one but the key of its successor. Anything else goes out, 16 bytes longer,
    under the current number; the hundredth message starts a new chain. *)
Theorem session_encrypt_outcome (aes256 : list Z -> list Z -> list Z) `{!BlockCipher aes256}
    (x25519 : list Z -> list Z -> list Z) (x25519_base : list Z -> list Z) (s : Session) (pt rnd : list Z)
    (s1 := with_send_chain s (advance_chain (send_chain_key s))) :
  fits 64 (send_count s + 1) -> length (send_ratchet_public s) = 32%nat ->
  session_encrypt aes256 x25519 x25519_base s pt rnd =
  if negb (established s) then (s, Err SESSION_ERROR_NOT_ESTABLISHED)
  else if (240 <? length pt)%nat then (s1, Err SESSION_ERROR_INVALID_FORMAT)
  else
    let h := mkHeader (send_ratchet_public s) (prev_recv_chain s) (send_count s) in
    let s2 := with_send_count s1 (send_count s + 1) in
    (if MAX_MESSAGES_BEFORE_RATCHET <=? send_count s + 1 then advance_send_ratchet x25519 x25519_base s2 rnd else s2,
     Ok (h, sealed aes256 h (derive_message_key (send_chain_key s) (send_count s)) pt)).
Proof.
  intros Hf Hp. unfold session_encrypt. destruct (established s); [|done]. cbn [negb].
  set (key := derive_message_key (send_chain_key s) (send_count s)).
  destruct (message_key_ok (send_chain_key s) (send_count s)) as [Hkl Hkb]. fold key in Hkl, Hkb.
  fold s1. unfold heapless_vec_extend_from_slice.
  destruct (aes256_ctr_involutive aes256 key (send_count s) pt Hkl Hkb) as [Hlen _].
  destruct (decide (length pt <= HEAPLESS_VEC_CAPACITY)%nat) as [Hc|Hc]; unfold HEAPLESS_VEC_CAPACITY in *.
  - rewrite (vec_extend_Some 256 [] pt) by (cbn [length]; lia). cbn [app].
    cbn [s1 with_send_chain send_ratchet_public prev_recv_chain send_count].
    set (h := mkHeader (send_ratchet_public s) (prev_recv_chain s) (send_count s)).
    unfold sealed. cbn [h message_num]. fold h. set (ct := aes256_ctr _ _ _ pt) in *.
    destruct (compute_tag_Some key (message_header_encode h) ct Hkl) as (tag & Htag & Htl).
    { rewrite length_header by done. lia. }
    rewrite Htag. cbn [default from_option id]. destruct (Nat.ltb_spec 240 (length pt)) as [Hl|Hl].
    + by rewrite vec_extend_None by lia.
    + rewrite vec_extend_Some by lia. fold s1. unfold should_ratchet. cbn [with_send_count send_count].
      rewrite u64_small by done. by destruct (MAX_MESSAGES_BEFORE_RATCHET <=? send_count s + 1).
  - rewrite (vec_extend_None 256 [] pt) by (cbn [length]; lia).
    by rewrite (proj2 (Nat.ltb_lt 240 (length pt))) by lia.
Qed.

Lemma session_encrypt_outcome_witness :
  session_encrypt sample_aes sample_x25519 sample_x25519_base sample_sender (replicate 241 0) []
  = (with_send_chain sample_sender (advance_chain (zseq 32 32)), Err SESSION_ERROR_INVALID_FORMAT).
Proof.
  refine (session_encrypt_outcome sample_aes sample_x25519 sample_x25519_base sample_sender (replicate 241 0) [] _ eq_refl).
  apply (bool_decide_unpack _); vm_compute; exact I.
Defined.

(** Sides that take different roles do not get in step. [session_new] derives the root key,
    and from it both chain keys, under a salt that depends on the role, so an initiator and
    a responder with the same shared secret and the same X25519 output hold different root
    and chain keys, whatever X25519 is used for the root keys. *)
Theorem session_roles_disagree (x25519 : list Z -> list Z -> list Z) (x25519_base : list Z -> list Z)
    (priv_a priv_b : list Z) (secret := range 32) :
  let a := session_new x25519 x25519_base (mkParams secret priv_a (x25519_base priv_b) true) in
  let b := session_new x25519 x25519_base (mkParams secret priv_b (x25519_base priv_a) false) in
  root_key a <> root_key b
  /\ (let a := session_new sample_x25519 sample_x25519_base (mkParams secret (zseq 64 32) (zseq 96 32) true) in
      let b := session_new sample_x25519 sample_x25519_base (mkParams secret (zseq 96 32) (zseq 64 32) false) in
      send_chain_key a <> recv_chain_key b).
Proof.
  cbn zeta. split.
  - cbn [session_new root_key is_initiator shared_secret]. apply (bool_decide_unpack _). vm_compute. exact I.
  - apply (bool_decide_unpack _). vm_compute. exact I.
Qed.
