(* ===== verification/SessionStore.v ===== *)
(** * Serialised sessions and the table of sessions

    Round trips of the session record and of the message header, what the operations of the
    session table do to the sessions of all peers, and the round trip through the key-value
    storage. *)
From S2P Require Import Prelude Nvs SlotMap Keyed Session.

#[local] Opaque kdf.

(** ** Records of fixed layout *)

Record session_wf (s : Session) : Prop := {
  sw_root : length (root_key s) = 32%nat;
  sw_send : length (send_chain_key s) = 32%nat;
  sw_recv : length (recv_chain_key s) = 32%nat;
  sw_private : length (send_ratchet_private s) = 32%nat;
  sw_public : length (send_ratchet_public s) = 32%nat;
  sw_peer : length (recv_ratchet_public s) = 32%nat;
  sw_counters : Forall (fits 64) [send_count s; recv_count s; prev_recv_chain s; last_ratchet_time s]
}.

(** What storage keeps of a session: the skipped keys are dropped. *)
Definition stored (s : Session) : Session := with_skipped s skipped_keys_map_init.

Lemma le_val_8 v : fits 64 v -> le_val (le_bytes 8 v) = v.
Proof. intros Hv. by apply (le_val_fits 8). Qed.

Lemma length_serialize s : session_wf s -> length (session_serialize s) = SESSION_SERIALIZED_SIZE.
Proof.
  intros []. unfold session_serialize. rewrite !length_app, !length_le_bytes. cbn [length].
  by rewrite sw_root0, sw_send0, sw_recv0, sw_private0, sw_public0, sw_peer0.
Qed.

(** The field [x] of the buffer [l], after [pre]. *)
Ltac cut_field pre x post l off n :=
  rewrite (slice_cut pre x post l off n) by (subst l; rewrite ?length_app, <- ?app_assoc; (done || lia)).

Lemma deserialize_serialize_session s rest :
  session_wf s -> session_deserialize (session_serialize s ++ rest) = Some (stored s).
Proof.
  intros Hw. pose proof (length_serialize s Hw) as Hl. destruct Hw as [L1 L2 L3 L4 L5 L6 Hc].
  rewrite !Forall_cons in Hc. destruct Hc as (C1 & C2 & C3 & C4 & _).
  unfold session_deserialize. rewrite (proj2 (Nat.ltb_ge _ _)) by (rewrite length_app, Hl; lia).
  unfold session_serialize.
  set (r := root_key s) in *. set (sc := send_chain_key s) in *. set (rc := recv_chain_key s) in *.
  set (pr := send_ratchet_private s) in *. set (pu := send_ratchet_public s) in *.
  set (pe := recv_ratchet_public s) in *.
  set (n1 := le_bytes 8 (send_count s)). set (n2 := le_bytes 8 (recv_count s)).
  set (n3 := le_bytes 8 (prev_recv_chain s)). set (n4 := le_bytes 8 (last_ratchet_time s)).
  set (b := if established s then 1 else 0). rewrite <- !app_assoc. cbn [app].
  assert (length n1 = 8 /\ length n2 = 8 /\ length n3 = 8 /\ length n4 = 8)%nat as (N1 & N2 & N3 & N4)
    by (split_and!; apply length_le_bytes).
  set (l := r ++ sc ++ rc ++ pr ++ pu ++ pe ++ n1 ++ n2 ++ n3 ++ n4 ++ b :: rest).
  cut_field (@nil Z) r (sc ++ rc ++ pr ++ pu ++ pe ++ n1 ++ n2 ++ n3 ++ n4 ++ b :: rest) l 0%nat 32%nat.
  cut_field r sc (rc ++ pr ++ pu ++ pe ++ n1 ++ n2 ++ n3 ++ n4 ++ b :: rest) l 32%nat 32%nat.
  cut_field (r ++ sc) rc (pr ++ pu ++ pe ++ n1 ++ n2 ++ n3 ++ n4 ++ b :: rest) l 64%nat 32%nat.
  cut_field (r ++ sc ++ rc) pr (pu ++ pe ++ n1 ++ n2 ++ n3 ++ n4 ++ b :: rest) l 96%nat 32%nat.
  cut_field (r ++ sc ++ rc ++ pr) pu (pe ++ n1 ++ n2 ++ n3 ++ n4 ++ b :: rest) l 128%nat 32%nat.
  cut_field (r ++ sc ++ rc ++ pr ++ pu) pe (n1 ++ n2 ++ n3 ++ n4 ++ b :: rest) l 160%nat 32%nat.
  cut_field (r ++ sc ++ rc ++ pr ++ pu ++ pe) n1 (n2 ++ n3 ++ n4 ++ b :: rest) l 192%nat 8%nat.
  cut_field (r ++ sc ++ rc ++ pr ++ pu ++ pe ++ n1) n2 (n3 ++ n4 ++ b :: rest) l 200%nat 8%nat.
  cut_field (r ++ sc ++ rc ++ pr ++ pu ++ pe ++ n1 ++ n2) n3 (n4 ++ b :: rest) l 208%nat 8%nat.
  cut_field (r ++ sc ++ rc ++ pr ++ pu ++ pe ++ n1 ++ n2 ++ n3) n4 (b :: rest) l 216%nat 8%nat.
  rewrite (arr_cut (r ++ sc ++ rc ++ pr ++ pu ++ pe ++ n1 ++ n2 ++ n3 ++ n4) b rest l 224)
    by (subst l; rewrite ?length_app, <- ?app_assoc; (done || lia)).
  subst n1 n2 n3 n4. rewrite !le_val_8 by done. subst b. unfold stored, with_skipped.
  by destruct (established s).
Qed.

Lemma header_decode_encode h rest :
  length (dh_public h) = 32%nat -> fits 64 (prev_chain_len h) -> fits 64 (message_num h) ->
  message_header_decode (message_header_encode h ++ rest) = Some h.
Proof.
  intros Hl Hp Hn. unfold message_header_decode, message_header_encode. rewrite <- !app_assoc.
  set (n1 := le_bytes 8 (prev_chain_len h)). set (n2 := le_bytes 8 (message_num h)).
  assert (length n1 = 8 /\ length n2 = 8)%nat as [N1 N2] by (split; apply length_le_bytes).
  set (l := dh_public h ++ n1 ++ n2 ++ rest).
  rewrite (proj2 (Nat.ltb_ge _ _)) by (subst l; rewrite !length_app; lia).
  cut_field (@nil Z) (dh_public h) (n1 ++ n2 ++ rest) l 0%nat 32%nat.
  cut_field (dh_public h) n1 (n2 ++ rest) l 32%nat 8%nat.
  cut_field (dh_public h ++ n1) n2 rest l 40%nat 8%nat.
  subst n1 n2. rewrite !le_val_8 by done. by destruct h.
Qed.

(** ** The session table *)

Record manager_wf (m : SessionManager) : Prop := {
  mw_slots : length (sm_entries m) = MAX_PERSISTED_SESSIONS;
  mw_count : forall i e, sm_entries m !! i = Some e -> se_occupied e = true -> (i < sm_count m)%nat;
  mw_bound : (sm_count m <= MAX_PERSISTED_SESSIONS)%nat
}.

Lemma session_is_false k e : se_occupied e = false \/ peer_key e <> k -> session_is k e = false.
Proof.
  unfold session_is. intros [->|Hk]; [done|]. rewrite (bool_decide_eq_false_2 _ Hk). apply andb_false_r.
Qed.

(** A write to a slot that does not belong to [k] before or after is not seen under [k]. *)
Lemma find_other_slot es i e e' k :
  es !! i = Some e -> session_is k e = false -> session_is k e' = false ->
  find_first (session_is k) (<[i := e']> es) = find_first (session_is k) es.
Proof.
  intros Hi He He'. rewrite (find_first_update _ es i e) by (done || (rewrite He, He'; by intros [|])).
  by rewrite He', He.
Qed.

(** The first slot [session_manager_create_session] accepts. *)
Lemma create_slot_inv es k i e :
  find_first (fun e => negb (se_occupied e) || bool_decide (peer_key e = k)) es = Some (i, e) ->
  es !! i = Some e /\ (se_occupied e = false \/ peer_key e = k)
  /\ forall j x, (j < i)%nat -> es !! j = Some x -> session_is k x = false.
Proof.
  intros (Hi & Hp & Hb)%find_first_inv. split; [done|]. split.
  - apply orb_true_iff in Hp as [Hp%negb_true_iff|Hp%bool_decide_eq_true]; auto.
  - intros j x Hj Hx. pose proof (Hb j x Hj Hx) as Hn. cbn beta in Hn.
    apply orb_false_iff in Hn as [_ Hn%bool_decide_eq_false]. apply session_is_false. by right.
Qed.

Lemma trim_count_spec es n :
  (trim_count es n <= n)%nat
  /\ forall i e, (i < n)%nat -> es !! i = Some e -> se_occupied e = true -> (i < trim_count es n)%nat.
Proof.
  induction n as [|n [IHl IH]]; [split; [done|lia]|]. cbn [trim_count].
  destruct (es !! n) as [e|] eqn:E; cbn.
  - destruct (se_occupied e) eqn:Ho; [split; [done|lia]|]. split; [lia|]. intros i x Hi Hx Hox.
    apply (IH i x); [|done..]. destruct (decide (i = n)) as [->|]; [congruence|lia].
  - split; [lia|]. intros i x Hi Hx Hox. apply (IH i x); [|done..].
    destruct (decide (i = n)) as [->|]; [congruence|lia].
Qed.

Lemma count_occupied es n :
  foldl (fun count e => if se_occupied e then S count else count) n es
  = (n + length (filter (fun e => se_occupied e = true) es))%nat.
Proof.
  revert n. induction es as [|e es IH]; intros n; [cbn; lia|]. cbn [foldl]. rewrite IH, filter_cons.
  destruct (se_occupied e) eqn:E; [rewrite decide_True by done; cbn [length]; lia|].
  by rewrite decide_False by done.
Qed.

Lemma manager_new_wf : manager_wf session_manager_new.
Proof.
  split; [done| |cbn; lia]. intros i e Hi Ho.
  apply list_elem_of_lookup_2, elem_of_replicate in Hi as [-> _]. done.
Qed.

Lemma new_free x : x ∈ sm_entries session_manager_new -> se_occupied x = false.
Proof. by intros [-> _]%elem_of_replicate. Qed.

Lemma create_wf x25519 base m params :
  manager_wf m -> manager_wf (session_manager_create_session x25519 base m params).
Proof.
  intros [Hl Hc Hb]. unfold session_manager_create_session.
  destruct (find_first _ _) as [[i e]|] eqn:Hf; [|done]. apply create_slot_inv in Hf as (Hi & _).
  apply lookup_lt_Some in Hi. split; cbn [sm_entries sm_count].
  - by rewrite length_insert.
  - intros j x Hj Ho. apply list_lookup_insert_Some in Hj as [(<- & _ & _)|[_ Hj]].
    + destruct (Nat.leb_spec (sm_count m) i); lia.
    + pose proof (Hc j x Hj Ho). destruct (Nat.leb_spec (sm_count m) i); lia.
  - destruct (Nat.leb_spec (sm_count m) i); lia.
Qed.

Lemma remove_wf m peer : manager_wf m -> manager_wf (session_manager_remove_session m peer).
Proof.
  intros [Hl Hc Hb]. unfold session_manager_remove_session.
  destruct (find_first _ _) as [[i e]|] eqn:Hf; [|done]. apply find_first_inv in Hf as (Hi & _).
  set (es := <[i := _]> (sm_entries m)).
  assert (forall j x, es !! j = Some x -> se_occupied x = true -> (j < sm_count m)%nat) as Hc'.
  { intros j x Hj Ho. apply list_lookup_insert_Some in Hj as [(_ & <- & _)|[_ Hj]]; [done|eauto]. }
  destruct (trim_count_spec es (sm_count m)) as [Ht1 Ht2].
  split; cbn [sm_entries sm_count]; [subst es; by rewrite length_insert| |destruct (_ =? _)%nat; lia].
  intros j x Hj Ho. pose proof (Hc' j x Hj Ho). destruct (_ =? _)%nat; [by eapply Ht2|done].
Qed.

Lemma update_wf m peer f : manager_wf m -> manager_wf (session_manager_update m peer f).
Proof.
  intros [Hl Hc Hb]. unfold session_manager_update.
  destruct (find_first _ _) as [[i e]|] eqn:Hf; [|done]. apply find_first_inv in Hf as (Hi & _).
  split; cbn [sm_entries sm_count]; [by rewrite length_insert| |done].
  intros j x Hj Ho. apply list_lookup_insert_Some in Hj as [(<- & <- & _)|[_ Hj]]; eauto.
Qed.

(** ** Saving and loading *)

Definition entry_wf (e : SessionEntry) : Prop :=
  length (peer_key e) = 8%nat /\ session_wf (se_session e).

(** The occupied slots in order, and what a load makes of one. *)
Definition live (es : list SessionEntry) : list SessionEntry := filter (fun e => se_occupied e = true) es.
Definition restored (e : SessionEntry) : SessionEntry := mkSessionEntry (peer_key e) (stored (se_session e)) true.

Definition session_in (es : list SessionEntry) (k : list Z) : option Session :=
  (fun ie => se_session ie.2) <$> find_first (session_is k) es.

Lemma session_in_cons e es k :
  session_in (e :: es) k = if session_is k e then Some (se_session e) else session_in es k.
Proof.
  unfold session_in. cbn [find_first]. destruct (session_is k e); [done|].
  by destruct (find_first (session_is k) es) as [[??]|].
Qed.

Lemma session_in_restored es free k :
  (forall e, e ∈ free -> se_occupied e = false) ->
  session_in ((restored <$> live es) ++ free) k = stored <$> session_in es k.
Proof.
  intros Hf. induction es as [|e es IH].
  - cbn [live filter list_filter fmap list_fmap app]. unfold session_in.
    rewrite (proj2 (find_first_None (session_is k) free)); [done|].
    intros x Hx. apply session_is_false. left. by apply Hf.
  - rewrite session_in_cons. unfold live. rewrite filter_cons.
    destruct (se_occupied e) eqn:Ho.
    + rewrite decide_True by done. cbn [fmap list_fmap app]. rewrite session_in_cons.
      assert (session_is k (restored e) = session_is k e) as -> by (unfold session_is; by rewrite Ho).
      destruct (session_is k e); [done|exact IH].
    + rewrite decide_False by done.
      rewrite (session_is_false k e) by by left. exact IH.
Qed.

Lemma save_sessions_reads get_u32 get_blob es idx :
  Forall (reads_back get_u32 get_blob) (save_sessions es idx (idx + length (live es))) ->
  forall i e, live es !! i = Some e ->
  get_blob (sess_key_name (idx + i)) = Some (peer_key e ++ session_serialize (se_session e)).
Proof.
  revert idx. induction es as [|e es IH]; intros idx Hf i e' He; [done|].
  cbn [save_sessions] in Hf. unfold live in Hf, He. rewrite filter_cons in Hf, He.
  destruct (se_occupied e) eqn:Ho.
  - rewrite decide_True in Hf, He by done. cbn [length negb] in Hf.
    rewrite (proj2 (Nat.ltb_lt _ _)) in Hf by lia. apply Forall_cons in Hf as [Hr Hf].
    destruct i as [|i]; [injection He as <-; by rewrite Nat.add_0_r|].
    rewrite Nat.add_succ_r. apply (IH (S idx)); [|exact He].
    by rewrite <- Nat.add_succ_comm in Hf.
  - rewrite decide_False in Hf, He by done. cbn [negb] in Hf.
    destruct (Nat.ltb_spec idx (idx + length (live es))) as [Hlt|Hge].
    + unfold live in Hlt. rewrite (proj2 (Nat.ltb_lt _ _) Hlt) in Hf. by apply (IH idx).
    + apply lookup_lt_Some in He. unfold live in Hge. lia.
Qed.

Lemma load_session_free get_blob m n idx e loaded free :
  entry_wf e -> get_blob (sess_key_name idx) = Some (peer_key e ++ session_serialize (se_session e)) ->
  sm_entries m = loaded ++ free -> (0 < length free)%nat ->
  (forall x, x ∈ loaded -> se_occupied x = true) -> (forall x, x ∈ free -> se_occupied x = false) ->
  load_session get_blob (m, n) idx =
  (mkManager (loaded ++ restored e :: drop 1 free)
     (if (sm_count m <=? length loaded)%nat then S (length loaded) else sm_count m), S n).
Proof.
  intros [Hk Hw] Hb Hm Hfree Ho Hf. unfold load_session. rewrite Hb.
  rewrite length_app, Hk, (length_serialize _ Hw). cbn [Nat.add Nat.eqb].
  destruct free as [|x free]; [cbn in Hfree; lia|].
  assert (find_first (fun e => negb (se_occupied e)) (sm_entries m) = Some (length loaded, x)) as ->.
  { apply find_first_intro.
    - by rewrite Hm, lookup_app_r, Nat.sub_diag by lia.
    - rewrite Hf by by left. done.
    - intros j y Hj Hy. rewrite Hm, lookup_app_l in Hy by done.
      rewrite (Ho y) by by eapply list_elem_of_lookup_2. done. }
  rewrite drop_app_length' by done. rewrite <- (app_nil_r (session_serialize _)), deserialize_serialize_session by done.
  rewrite take_app_length' by done.
  by rewrite Hm, insert_app_r_alt, Nat.sub_diag by lia.
Qed.

Lemma load_sessions get_blob l : forall idx m n loaded free,
  Forall entry_wf l ->
  (forall i e, l !! i = Some e ->
     get_blob (sess_key_name (idx + i)) = Some (peer_key e ++ session_serialize (se_session e))) ->
  sm_entries m = loaded ++ free -> (length l <= length free)%nat -> sm_count m = length loaded ->
  (forall x, x ∈ loaded -> se_occupied x = true) -> (forall x, x ∈ free -> se_occupied x = false) ->
  foldl (load_session get_blob) (m, n) (seq idx (length l))
  = (mkManager (loaded ++ (restored <$> l) ++ drop (length l) free) (length loaded + length l), n + length l)%nat.
Proof.
  induction l as [|e l IH]; intros idx m n loaded free Hw Hb Hm Hl Hc Ho Hf.
  { cbn [length seq foldl fmap list_fmap app]. rewrite drop_0, !Nat.add_0_r, <- Hm, <- Hc. by destruct m. }
  apply Forall_cons in Hw as [He Hw]. cbn [length seq foldl] in *.
  pose proof (Hb 0%nat e eq_refl) as Hb0. rewrite Nat.add_0_r in Hb0.
  rewrite (load_session_free get_blob m n idx e loaded free) by (done || lia).
  rewrite Hc, Nat.leb_refl.
  rewrite (IH (S idx) _ (S n) (loaded ++ [restored e]) (drop 1 free)); try done.
  - rewrite length_app, <- !app_assoc, drop_drop. cbn [length fmap list_fmap app].
    replace (length loaded + 1 + length l)%nat with (length loaded + S (length l))%nat by lia.
    by replace (S n + length l)%nat with (n + S (length l))%nat by lia.
  - intros i x Hi. rewrite Nat.add_succ_comm. by apply Hb.
  - cbn [sm_entries]. by rewrite <- app_assoc.
  - rewrite length_drop. lia.
  - cbn [sm_count]. rewrite length_app. cbn [length]. lia.
  - intros x [Hx|Hx%list_elem_of_singleton]%elem_of_app; [by apply Ho|by subst].
  - intros x Hx. apply Hf. rewrite <- (take_drop 1 free). apply elem_of_app. by right.
Qed.

(** ** Lookups after an operation *)

Lemma create_lookup_other x25519 base m params k' :
  k' <> take 8 (their_public params) ->
  session_in (sm_entries (session_manager_create_session x25519 base m params)) k' = session_in (sm_entries m) k'.
Proof.
  intros Hk. unfold session_manager_create_session, session_in.
  destruct (find_first (fun e => _ || _) _) as [[i e]|] eqn:Hf; [|done].
  apply create_slot_inv in Hf as (Hi & He & _). cbn [sm_entries]. rewrite (find_other_slot _ i e); [done|done|..].
  - apply session_is_false. destruct He as [He|He]; [by left|]. right. by rewrite He.
  - apply session_is_false. right. by intros <-.
Qed.

Lemma create_lookup x25519 base m params (k := take 8 (their_public params)) :
  length (sm_entries m) = MAX_PERSISTED_SESSIONS ->
  let m' := session_manager_create_session x25519 base m params in
  session_in (sm_entries m') k = Some (session_new x25519 base params)
  \/ m' = m /\ session_in (sm_entries m) k = None /\ session_manager_session_count m = MAX_PERSISTED_SESSIONS.
Proof.
  intros Hl. unfold session_manager_create_session. fold k.
  destruct (find_first (fun e => _ || _) _) as [[i e]|] eqn:Hf.
  - left. apply create_slot_inv in Hf as (Hi & _ & Hb). cbn [sm_entries]. unfold session_in.
    rewrite (find_first_intro (session_is k) _ i (mkSessionEntry k (session_new x25519 base params) true)); [done|..].
    + apply list_lookup_insert_eq. by eapply lookup_lt_Some.
    + unfold session_is. cbn. by rewrite bool_decide_eq_true_2.
    + intros j y Hj Hy. rewrite list_lookup_insert_ne in Hy by lia. by apply (Hb j).
  - right. split; [done|]. rewrite find_first_None in Hf. split.
    + unfold session_in. rewrite (proj2 (find_first_None _ _)); [done|]. intros x Hx. apply session_is_false.
      right. specialize (Hf x Hx). by apply orb_false_iff in Hf as [_ Hf%bool_decide_eq_false].
    + unfold session_manager_session_count. rewrite count_occupied, filter_all, Hl; [done|].
      intros x Hx. specialize (Hf x Hx). by apply orb_false_iff in Hf as [Hf%negb_false_iff _].
Qed.

Lemma remove_lookup_other m peer k' :
  k' <> take 8 peer ->
  session_in (sm_entries (session_manager_remove_session m peer)) k' = session_in (sm_entries m) k'.
Proof.
  intros Hk. unfold session_manager_remove_session, session_in.
  destruct (find_first _ (sm_entries m)) as [[i e]|] eqn:Hf; [|done].
  apply find_first_inv in Hf as (Hi & [_ He%bool_decide_eq_true]%andb_true_iff & _). cbn [sm_entries].
  rewrite (find_other_slot _ i e); [done|done|..]; apply session_is_false; [|by left].
  right. by rewrite He.
Qed.

Lemma remove_lookup m peer :
  slots_distinct peer_key se_occupied (sm_entries m) ->
  session_in (sm_entries (session_manager_remove_session m peer)) (take 8 peer) = None.
Proof.
  intros Hd. unfold session_manager_remove_session, session_in.
  destruct (find_first _ (sm_entries m)) as [[i e]|] eqn:Hf; [|by rewrite Hf].
  apply find_first_inv in Hf as (Hi & Hm & _). cbn [sm_entries].
  rewrite (find_first_update _ _ i e); [by rewrite Hm|done|].
  intros _. exact (slot_unique peer_key se_occupied _ _ i e Hd Hi Hm).
Qed.

Lemma update_lookup m peer f k' :
  session_in (sm_entries (session_manager_update m peer f)) k'
  = if decide (k' = take 8 peer) then f <$> session_in (sm_entries m) k' else session_in (sm_entries m) k'.
Proof.
  unfold session_manager_update, session_in.
  destruct (find_first (session_is (take 8 peer)) (sm_entries m)) as [[i e]|] eqn:Hf.
  - apply find_first_inv in Hf as Hf'. destruct Hf' as (Hi & Hm & Hb).
    pose proof Hm as [_ He%bool_decide_eq_true]%andb_true_iff. cbn [sm_entries].
    destruct (decide (k' = take 8 peer)) as [->|Hk].
    + rewrite Hf. rewrite (find_first_intro (session_is (take 8 peer)) _ i
        (mkSessionEntry (peer_key e) (f (se_session e)) (se_occupied e))); [done|..|exact Hm|].
      * apply list_lookup_insert_eq. by eapply lookup_lt_Some.
      * intros j y Hj Hy. rewrite list_lookup_insert_ne in Hy by lia. by apply (Hb j).
    + rewrite (find_other_slot _ i e); [done|done|..]; apply session_is_false; right; cbn; by rewrite He.
  - destruct (decide _) as [->|]; [by rewrite Hf|done].
Qed.

(** ** Properties *)

(** Round trips of the fixed layouts. A session serialises to 225 bytes, which read back,
    whatever follows them, as the same session without its skipped message keys; fewer bytes
    are refused. A message header of 48 bytes reads back as itself. *)
Theorem session_records_roundtrip (s : Session) (h : MessageHeader) (rest : list Z) :
  session_wf s -> length (dh_public h) = 32%nat -> fits 64 (prev_chain_len h) -> fits 64 (message_num h) ->
  length (session_serialize s) = SESSION_SERIALIZED_SIZE
  /\ session_deserialize (session_serialize s ++ rest) = Some (stored s)
  /\ (forall n, (n < SESSION_SERIALIZED_SIZE)%nat -> session_deserialize (take n (session_serialize s)) = None)
  /\ length (message_header_encode h) = 48%nat
  /\ message_header_decode (message_header_encode h ++ rest) = Some h
  /\ (forall n, (n < 48)%nat -> message_header_decode (take n (message_header_encode h)) = None).
Proof.
  intros Hw Hl Hp Hn. pose proof (length_serialize s Hw) as Hs.
  assert (length (message_header_encode h) = 48%nat) as Hh
    by (unfold message_header_encode; by rewrite !length_app, !length_le_bytes, Hl).
  split_and!; [done|by apply deserialize_serialize_session| |done|by apply header_decode_encode|].
  - intros n Hlt. unfold session_deserialize. rewrite (proj2 (Nat.ltb_lt _ _)); [done|].
    rewrite length_take, Hs. lia.
  - intros n Hlt. unfold message_header_decode. rewrite (proj2 (Nat.ltb_lt _ _)); [done|].
    rewrite length_take, Hh. lia.
Qed.

Definition sample_session : Session :=
  mkSession (range 32) (zseq 1 32) (zseq 2 32) (zseq 3 32) (zseq 4 32) (zseq 5 32) 7 0xffffffffffffffff 3 0
    skipped_keys_map_init true.

Lemma sample_session_wf : session_wf sample_session.
Proof. split; try done. apply (bool_decide_unpack _); vm_compute; exact I. Qed.

Lemma session_records_roundtrip_witness :
  length (session_serialize sample_session) = SESSION_SERIALIZED_SIZE
  /\ session_deserialize (session_serialize sample_session ++ [1; 2]) = Some (stored sample_session).
Proof.
  destruct (session_records_roundtrip sample_session (mkHeader (range 32) 1 2) [1; 2] sample_session_wf eq_refl)
    as (H1 & H2 & _); [apply (bool_decide_unpack _); vm_compute; exact I..|]. exact (conj H1 H2).
Defined.

(** The session table. Creating a session makes it the one found under the peer's first
    eight key bytes and leaves every other peer's session alone; it changes nothing only
    when all slots are taken by other peers. Removing a session, and writing through the
    pointer of a lookup, also leave the other peers alone; a removed peer is gone unless the
    table held a second slot for it. All of them keep the bound on the occupied slots. *)
Theorem session_manager_lookup (x25519 : list Z -> list Z -> list Z) (x25519_base : list Z -> list Z)
    (m : SessionManager) (params : SessionParams) (peer : list Z) (f : Session -> Session)
    (get := fun m k => session_in (sm_entries m) k)
    (created := session_manager_create_session x25519 x25519_base m params)
    (k := take 8 (their_public params)) (kp := take 8 peer) :
  manager_wf m ->
  (forall p, session_manager_get_session m p = get m (take 8 p))
  /\ manager_wf created /\ manager_wf (session_manager_remove_session m peer)
  /\ manager_wf (session_manager_update m peer f)
  /\ (forall k', k' <> k -> get created k' = get m k')
  /\ (get created k = Some (session_new x25519 x25519_base params)
      \/ created = m /\ get m k = None /\ session_manager_session_count m = MAX_PERSISTED_SESSIONS)
  /\ (forall k', k' <> kp -> get (session_manager_remove_session m peer) k' = get m k'
      /\ get (session_manager_update m peer f) k' = get m k')
  /\ get (session_manager_update m peer f) kp = f <$> get m kp
  /\ (slots_distinct peer_key se_occupied (sm_entries m) -> get (session_manager_remove_session m peer) kp = None).
Proof.
  intros Hw. split; [done|]. split; [by apply create_wf|]. split; [by apply remove_wf|].
  split; [by apply update_wf|]. split; [apply create_lookup_other|].
  split; [apply create_lookup, (mw_slots m Hw)|]. unfold get. split; [|split].
  - intros k' Hk. rewrite remove_lookup_other, update_lookup, decide_False by done. done.
  - by rewrite update_lookup, decide_True.
  - apply remove_lookup.
Qed.

Lemma session_manager_lookup_witness :
  let params := mkParams (range 32) (zseq 1 32) (zseq 9 32) true in
  let created := session_manager_create_session xor_bytes id session_manager_new params in
  session_in (sm_entries created) (zseq 9 8) = Some (session_new xor_bytes id params)
  \/ created = session_manager_new /\ session_in (sm_entries session_manager_new) (zseq 9 8) = None
     /\ session_manager_session_count session_manager_new = MAX_PERSISTED_SESSIONS.
Proof.
  exact (proj1 (proj2 (proj2 (proj2 (proj2 (proj2 (session_manager_lookup xor_bytes id session_manager_new
    (mkParams (range 32) (zseq 1 32) (zseq 9 32) true) (range 8) id manager_new_wf))))))).
Defined.

(** The table can hold a peer twice: when a slot before the peer's is free, a new session
    for the peer goes there and the old one stays. Removing the peer then brings the old
    session back. *)
Theorem session_manager_stale_session
    (session := fun n peer => mkParams (replicate 32 n) (range 32) peer true)
    (create := fun m n peer => session_manager_create_session xor_bytes id m (session n peer)) :
  let a := zseq 1 32 in
  let b := zseq 2 32 in
  let m := create (create session_manager_new 1 a) 2 b in
  let m := create (session_manager_remove_session m a) 3 b in
  session_manager_session_count m = 2%nat
  /\ session_manager_get_session m b = Some (session_new xor_bytes id (session 3 b))
  /\ session_manager_get_session (session_manager_remove_session m b) b
     = Some (session_new xor_bytes id (session 2 b))
  /\ ~ slots_distinct peer_key se_occupied (sm_entries m).
Proof.
  cbn zeta. split; [reflexivity|]. split; [reflexivity|].
  split; [reflexivity|]. intros Hd.
  set (es := sm_entries _) in Hd.
  assert ((peer_key <$> es !! 0%nat, peer_key <$> es !! 1%nat, se_occupied <$> es !! 0%nat, se_occupied <$> es !! 1%nat)
    = (Some (zseq 2 8), Some (zseq 2 8), Some true, Some true)) as E by reflexivity.
  clearbody es. destruct (es !! 0%nat) as [x|] eqn:Hx; [|done]. destruct (es !! 1%nat) as [y|] eqn:Hy; [|done].
  injection E as Ex Ey Ox Oy. assert (0%nat = 1%nat); [|done]. apply (Hd 0%nat 1%nat x y Hx Hy Ox Oy). congruence.
Qed.

(** C39. Persistence. What is saved from any table and loaded into an empty one is found again
    under every peer, without the skipped keys, in the order of the slots; the number of
    loaded sessions is the number of occupied slots. *)
Theorem session_manager_save_load (m : SessionManager)
    (get_u32 : list Z -> option Z) (get_blob : list Z -> option (list Z)) :
  manager_wf m -> Forall entry_wf (live (sm_entries m)) ->
  Forall (reads_back get_u32 get_blob) (session_manager_save_to_nvs true true m).1 ->
  let '(m', loaded) := session_manager_load_from_nvs get_u32 get_blob true session_manager_new in
  loaded = session_manager_session_count m
  /\ (forall p, session_manager_get_session m' p = stored <$> session_manager_get_session m p)
  /\ sm_count m' = loaded.
Proof.
  intros Hw He Hr. assert (session_manager_session_count m = length (live (sm_entries m))) as Hn
    by apply (count_occupied (sm_entries m) 0).
  assert (length (live (sm_entries m)) <= MAX_PERSISTED_SESSIONS)%nat as Hl
    by (rewrite <- (mw_slots m Hw); apply length_filter).
  cbn [session_manager_save_to_nvs fst] in Hr. apply Forall_cons in Hr as [Hc Hr].
  apply Forall_app in Hr as [Hr _]. cbn [reads_back] in Hc. rewrite Hn in Hc, Hr.
  unfold session_manager_load_from_nvs. cbn [negb]. rewrite Hc.
  rewrite (proj2 (Z.ltb_ge _ _)), Nat2Z.id by lia.
  rewrite (load_sessions get_blob (live (sm_entries m)) 0 session_manager_new 0 []
    (sm_entries session_manager_new)); try done.
  - split; [by rewrite Hn|]. split; [|done]. intros p. cbn [sm_entries app].
    apply (session_in_restored (sm_entries m)). intros e He'. apply new_free.
    rewrite <- (take_drop (length (live (sm_entries m))) (sm_entries session_manager_new)).
    apply elem_of_app. by right.
  - intros i e Hi. exact (save_sessions_reads get_u32 get_blob _ 0 Hr i e Hi).
  - intros x Hx. apply not_elem_of_nil in Hx. done.
  - apply new_free.
Qed.

Definition sample_manager : SessionManager :=
  mkManager (<[0%nat := mkSessionEntry (range 8) sample_session true]> (sm_entries session_manager_new)) 1.

Lemma sample_manager_wf : manager_wf sample_manager.
Proof.
  split; [done| |vm_compute; lia]. intros i e Hi Ho. apply list_lookup_insert_Some in Hi as [(<- & _)|[_ Hi]]; [vm_compute; lia|].
  by rewrite (new_free e) in Ho by by eapply list_elem_of_lookup_2.
Qed.

Lemma session_manager_save_load_witness :
  let blob := range 8 ++ session_serialize sample_session in
  let '(m', loaded) := session_manager_load_from_nvs (fun _ => Some 1) (fun _ => Some blob) true session_manager_new in
  loaded = 1%nat
  /\ (forall p, session_manager_get_session m' p = stored <$> session_manager_get_session sample_manager p)
  /\ sm_count m' = loaded.
Proof.
  apply (session_manager_save_load sample_manager (fun _ => Some 1)
    (fun _ => Some (range 8 ++ session_serialize sample_session)) sample_manager_wf).
  - apply Forall_singleton. split; [reflexivity|exact sample_session_wf].
  - vm_compute. repeat (apply Forall_cons; split); try apply Forall_nil_2; reflexivity.
Defined.
