(* ===== verification/Rng.v ===== *)
(** * Random numbers: lunarcore/lunar/rng.c

    The health monitor over the hardware generator, the mixing of samples and the functions the
    other modules call. The atomic variables are the fields of one record, updated one operation
    after the other; the n-th reads of the data register and of the timer register are arguments,
    [raw n] and [timer n], and the record counts the reads. *)
From S2P Require Import Prelude.

Definition MAX_REPETITION_COUNT : Z := 8.
Definition APT_WINDOW_SIZE : Z := 512.
Definition MIN_SAMPLES_FOR_HEALTH : nat := 64.
Definition MIN_ENTROPY_SCALED : Z := 24.

Record Rng := mkRng {
  RNG_HEALTHY : bool;
  SAMPLE_COUNT : Z;
  REPETITION_COUNT : Z;
  LAST_VALUE : Z;
  FAILURE_COUNT : Z;
  BIT_COUNTS : list Z;
  INITIALIZED : bool;
  RNG_WARNING_COUNT : Z;
  raw_reads : nat;
  timer_reads : nat
}.

Definition rng_start : Rng := mkRng false 0 0 0 0 (replicate 32 0) false 0 0 0.

(** Stores to one variable. *)
Definition store_healthy (b : bool) (r : Rng) : Rng :=
  mkRng b (SAMPLE_COUNT r) (REPETITION_COUNT r) (LAST_VALUE r) (FAILURE_COUNT r) (BIT_COUNTS r) (INITIALIZED r)
    (RNG_WARNING_COUNT r) (raw_reads r) (timer_reads r).
Definition store_failures (n : Z) (r : Rng) : Rng :=
  mkRng (RNG_HEALTHY r) (SAMPLE_COUNT r) (REPETITION_COUNT r) (LAST_VALUE r) n (BIT_COUNTS r) (INITIALIZED r)
    (RNG_WARNING_COUNT r) (raw_reads r) (timer_reads r).
Definition store_repetition (n : Z) (r : Rng) : Rng :=
  mkRng (RNG_HEALTHY r) (SAMPLE_COUNT r) n (LAST_VALUE r) (FAILURE_COUNT r) (BIT_COUNTS r) (INITIALIZED r)
    (RNG_WARNING_COUNT r) (raw_reads r) (timer_reads r).
Definition store_samples (n : Z) (r : Rng) : Rng :=
  mkRng (RNG_HEALTHY r) n (REPETITION_COUNT r) (LAST_VALUE r) (FAILURE_COUNT r) (BIT_COUNTS r) (INITIALIZED r)
    (RNG_WARNING_COUNT r) (raw_reads r) (timer_reads r).
Definition store_last (n : Z) (r : Rng) : Rng :=
  mkRng (RNG_HEALTHY r) (SAMPLE_COUNT r) (REPETITION_COUNT r) n (FAILURE_COUNT r) (BIT_COUNTS r) (INITIALIZED r)
    (RNG_WARNING_COUNT r) (raw_reads r) (timer_reads r).
Definition store_bits (l : list Z) (r : Rng) : Rng :=
  mkRng (RNG_HEALTHY r) (SAMPLE_COUNT r) (REPETITION_COUNT r) (LAST_VALUE r) (FAILURE_COUNT r) l (INITIALIZED r)
    (RNG_WARNING_COUNT r) (raw_reads r) (timer_reads r).
Definition store_initialized (r : Rng) : Rng :=
  mkRng (RNG_HEALTHY r) (SAMPLE_COUNT r) (REPETITION_COUNT r) (LAST_VALUE r) (FAILURE_COUNT r) (BIT_COUNTS r) true
    (RNG_WARNING_COUNT r) (raw_reads r) (timer_reads r).

Definition log_rng_warning (r : Rng) : Rng :=
  mkRng (RNG_HEALTHY r) (SAMPLE_COUNT r) (REPETITION_COUNT r) (LAST_VALUE r) (FAILURE_COUNT r) (BIT_COUNTS r)
    (INITIALIZED r) (u32 (RNG_WARNING_COUNT r + 1)) (raw_reads r) (timer_reads r).

Definition warning_count (r : Rng) : Z := RNG_WARNING_COUNT r.
Definition is_healthy (r : Rng) : bool := RNG_HEALTHY r.

(** ** Health *)

(** One bit's share of the estimate, 0 to 8. *)
Definition bit_entropy (samples ones : Z) : Z :=
  let expected := samples / 2 in
  let diff := if expected <? ones then ones - expected else expected - ones in
  if expected <=? diff then 0
  else
    let max_val := if 0 <? expected then expected else 1 in
    let ratio := u32 (8 * diff) / max_val in
    if ratio <? 8 then 8 - ratio else 0.

Definition estimate_entropy (r : Rng) : Z :=
  let samples := SAMPLE_COUNT r in
  if samples <? Z.of_nat MIN_SAMPLES_FOR_HEALTH then 0
  else foldl (fun total ones => u32 (total + bit_entropy samples ones)) 0 (BIT_COUNTS r) / 32.

Definition reassess_health (r : Rng) : Rng :=
  let failures := FAILURE_COUNT r in
  let entropy := estimate_entropy r in
  let r :=
    if (failures =? 0) && (MIN_ENTROPY_SCALED <=? entropy) then store_healthy true r
    else if entropy <? MIN_ENTROPY_SCALED then log_rng_warning (store_healthy false r)
    else r in
  let r := if 0 <? failures then store_failures (failures - 1) r else r in
  if SAMPLE_COUNT r mod (APT_WINDOW_SIZE * 4) =? 0 then store_bits (replicate 32 0) r else r.

Definition count_bits (value : Z) (counts : list Z) : list Z :=
  imap (fun i n => if (value .>> Z.of_nat i) .& 1 =? 1 then u32 (n + 1) else n) counts.

(** The repetition test. *)
Definition check_repetition (value : Z) (r : Rng) : Rng :=
  let last := LAST_VALUE r in
  let r := store_last value r in
  if value =? last then
    let rep := u32 (REPETITION_COUNT r + 1) in
    let r := store_repetition rep r in
    if MAX_REPETITION_COUNT <=? rep
    then log_rng_warning (store_healthy false (store_failures (u32 (FAILURE_COUNT r + 1)) r))
    else r
  else store_repetition 0 r.

Definition update_health_state (value : Z) (r : Rng) : Rng :=
  let count := SAMPLE_COUNT r in
  let r := store_samples (u32 (count + 1)) r in
  let r := check_repetition value r in
  let r := store_bits (count_bits value (BIT_COUNTS r)) r in
  if (0 <? count) && (count mod APT_WINDOW_SIZE =? 0) then reassess_health r else r.

(** ** Random numbers *)

Definition mix_entropy (a b c : Z) : Z :=
  let h := a in
  let h := h .^ (u32 (b .<< 13) .| (b .>> 19)) in
  let h := u32 (h * 0x85EBCA6B) in
  let h := h .^ ((c .>> 7) .| u32 (c .<< 25)) in
  let h := u32 (h * 0xC2B2AE35) in
  h .^ (h .>> 16).

Section Hardware.
Context (raw timer : nat -> Z).

Definition hw_rng_raw (r : Rng) : Z * Rng :=
  (raw (raw_reads r),
   mkRng (RNG_HEALTHY r) (SAMPLE_COUNT r) (REPETITION_COUNT r) (LAST_VALUE r) (FAILURE_COUNT r) (BIT_COUNTS r)
     (INITIALIZED r) (RNG_WARNING_COUNT r) (S (raw_reads r)) (timer_reads r)).

Definition read_timer_entropy (r : Rng) : Z * Rng :=
  (timer (timer_reads r),
   mkRng (RNG_HEALTHY r) (SAMPLE_COUNT r) (REPETITION_COUNT r) (LAST_VALUE r) (FAILURE_COUNT r) (BIT_COUNTS r)
     (INITIALIZED r) (RNG_WARNING_COUNT r) (raw_reads r) (S (timer_reads r))).

Definition raw_random_u32_with_health (r : Rng) : Z * Rng :=
  let '(value, r) := hw_rng_raw r in (value, update_health_state value r).

(** [n] samples whose values are dropped. *)
Definition collect_samples (n : nat) (r : Rng) : Rng :=
  Nat.iter n (fun r => (raw_random_u32_with_health r).2) r.

Definition init (r : Rng) : Rng :=
  if INITIALIZED r then r
  else
    let r := store_initialized r in
    let r := store_failures 0 (store_repetition 0 (store_samples 0 r)) in
    let r := collect_samples MIN_SAMPLES_FOR_HEALTH r in
    let healthy := (FAILURE_COUNT r =? 0) && (MIN_ENTROPY_SCALED <=? estimate_entropy r) in
    let r := store_healthy healthy r in
    if negb healthy then log_rng_warning r else r.

(** One round of the mixing applied while unhealthy. *)
Definition compensate (i : Z) (st : Z * Rng) : Z * Rng :=
  let '(result, r) := st in
  let '(extra, r) := raw_random_u32_with_health r in
  let '(time, r) := read_timer_entropy r in
  (mix_entropy result extra (u32 (time + i)), r).

Definition random_u32 (r : Rng) : Z * Rng :=
  let r := if negb (INITIALIZED r) then init r else r in
  let healthy := RNG_HEALTHY r in
  let '(r1, r) := raw_random_u32_with_health r in
  let '(r2, r) := raw_random_u32_with_health r in
  let '(time_entropy, r) := read_timer_entropy r in
  let result := mix_entropy r1 r2 time_entropy in
  if negb healthy then
    let r := log_rng_warning r in
    foldl (fun st i => compensate i st) (result, r) [0; 1; 2; 3]
  else (result, r).

Definition random_u32_checked (r : Rng) : option Z * Rng :=
  if negb (is_healthy r) then (None, r)
  else let '(value, r) := random_u32 r in (Some value, r).

(** The loop of [fill_random] from [offset]; [fuel] bounds its turns. *)
Fixpoint fill_loop (fuel : nat) (dest : list Z) (len offset : nat) (r : Rng) : option (list Z * Rng) :=
  if (offset <? len)%nat then
    match fuel with
    | O => None
    | S fuel =>
        let '(random, r) := random_u32 r in
        let bytes := [u8 (random .& 0xFF); u8 ((random .>> 8) .& 0xFF); u8 ((random .>> 16) .& 0xFF);
                      u8 ((random .>> 24) .& 0xFF)] in
        let remaining := (len - offset)%nat in
        let to_copy := if (remaining <? 4)%nat then remaining else 4%nat in
        fill_loop fuel (take offset dest ++ take to_copy bytes ++ drop (offset + to_copy) dest) len
          (offset + to_copy) r
    end
  else Some (dest, r).

Definition fill_random (dest : list Z) (len : nat) (r : Rng) : option (list Z * Rng) :=
  let r := if negb (INITIALIZED r) then init r else r in
  fill_loop len dest len 0 r.

Definition fill_random_checked (dest : list Z) (len : nat) (r : Rng) : option (bool * list Z * Rng) :=
  if negb (is_healthy r) then Some (false, dest, r)
  else
    match fill_random dest len r with
    | Some (dest, r) => Some (true, dest, r)
    | None => None
    end.

Definition recheck_health (r : Rng) : Rng :=
  let r := store_failures 0 r in
  let r := collect_samples MIN_SAMPLES_FOR_HEALTH r in
  reassess_health r.

Record RngHealthStats := mkStats { st_healthy : bool; st_samples : Z; st_failures : Z; st_entropy : Z }.

Definition health_stats (r : Rng) : RngHealthStats :=
  mkStats (RNG_HEALTHY r) (SAMPLE_COUNT r) (FAILURE_COUNT r) (estimate_entropy r).

End Hardware.

(** ** One sample *)

Lemma reassess_fields r : let r' := reassess_health r in
  SAMPLE_COUNT r' = SAMPLE_COUNT r /\ REPETITION_COUNT r' = REPETITION_COUNT r /\ LAST_VALUE r' = LAST_VALUE r
  /\ INITIALIZED r' = INITIALIZED r /\ raw_reads r' = raw_reads r
  /\ FAILURE_COUNT r' = (if 0 <? FAILURE_COUNT r then FAILURE_COUNT r - 1 else FAILURE_COUNT r)
  /\ BIT_COUNTS r' = (if SAMPLE_COUNT r mod 2048 =? 0 then replicate 32 0 else BIT_COUNTS r)
  /\ RNG_HEALTHY r' = (if (FAILURE_COUNT r =? 0) && (24 <=? estimate_entropy r) then true
                       else if estimate_entropy r <? 24 then false else RNG_HEALTHY r).
Proof.
  cbv zeta. unfold reassess_health, MIN_ENTROPY_SCALED. change (APT_WINDOW_SIZE * 4) with 2048.
  generalize (estimate_entropy r) as e. intros e.
  destruct ((FAILURE_COUNT r =? 0) && (24 <=? e)), (e <? 24), (0 <? FAILURE_COUNT r);
    cbn [SAMPLE_COUNT store_healthy store_failures log_rng_warning]; destruct (_ mod 2048 =? 0); by split_and!.
Qed.

(** The counters after a sample, before the periodic assessment. *)
Definition sampled (value : Z) (r : Rng) : Rng :=
  let r := store_samples (u32 (SAMPLE_COUNT r + 1)) r in
  let r := check_repetition value r in
  store_bits (count_bits value (BIT_COUNTS r)) r.

Definition repeated (value : Z) (r : Rng) : bool :=
  (value =? LAST_VALUE r) && (8 <=? u32 (REPETITION_COUNT r + 1)).

Lemma sampled_fields value r : let r' := sampled value r in
  SAMPLE_COUNT r' = u32 (SAMPLE_COUNT r + 1) /\ LAST_VALUE r' = value
  /\ REPETITION_COUNT r' = (if value =? LAST_VALUE r then u32 (REPETITION_COUNT r + 1) else 0)
  /\ FAILURE_COUNT r' = (if repeated value r then u32 (FAILURE_COUNT r + 1) else FAILURE_COUNT r)
  /\ INITIALIZED r' = INITIALIZED r
  /\ BIT_COUNTS r' = count_bits value (BIT_COUNTS r)
  /\ RNG_HEALTHY r' = (if repeated value r then false else RNG_HEALTHY r)
  /\ raw_reads r' = raw_reads r.
Proof.
  cbv zeta. unfold sampled, check_repetition, repeated, MAX_REPETITION_COUNT.
  cbn [LAST_VALUE store_samples store_last REPETITION_COUNT FAILURE_COUNT].
  destruct (value =? LAST_VALUE r); cbn [andb]; [destruct (8 <=? _)|]; by split_and!.
Qed.

Lemma update_eq value r : update_health_state value r
  = if (0 <? SAMPLE_COUNT r) && (SAMPLE_COUNT r mod 512 =? 0) then reassess_health (sampled value r)
    else sampled value r.
Proof. reflexivity. Qed.

Lemma length_count_bits value counts : length (count_bits value counts) = length counts.
Proof. apply length_imap. Qed.

Lemma count_bits_bit value counts i : (i < length counts)%nat ->
  (count_bits value counts).[i] = if Z.testbit value (Z.of_nat i) then u32 (counts.[i] + 1) else counts.[i].
Proof.
  intros Hi. unfold arr, count_bits. rewrite list_lookup_imap.
  destruct (lookup_lt_is_Some_2 counts i Hi) as [n Hn]. rewrite Hn. cbn [fmap option_fmap option_map default].
  change 1 with (Z.ones 1) at 1. rewrite Z.land_ones by done. change (2 ^ 1) with 2.
  rewrite <- Z.bit0_mod, Z.shiftr_spec by done. replace (0 + Z.of_nat i) with (Z.of_nat i) by lia.
  by destruct (Z.testbit value (Z.of_nat i)).
Qed.

(** The counters of a state: 32 of them, below the number of samples. *)
Definition ones (i : nat) (l : list Z) : Z := Z.of_nat (length (filter (fun v => Z.testbit v (Z.of_nat i) = true) l)).

(** The run lengths the repetition test sees. *)
Fixpoint runs (last : Z) (n : Z) (l : list Z) : list Z :=
  match l with
  | [] => []
  | v :: l => let n := if v =? last then n + 1 else 0 in n :: runs v n l
  end.

Definition over_limit (l : list Z) : Z := Z.of_nat (length (filter (fun n => 8 <= n) l)).

Lemma runs_snoc last n l v :
  runs last n (l ++ [v]) = runs last n l ++ [if v =? List.last l last then List.last (runs last n l) n + 1 else 0].
Proof.
  revert last n. induction l as [|w l IH]; intros last n; [done|]. cbn [app runs].
  rewrite IH, !last_cons_default. done.
Qed.

Lemma runs_bound last n l : 0 <= n -> 0 <= List.last (runs last n l) n <= n + Z.of_nat (length l).
Proof.
  revert last n. induction l as [|w l IH]; intros last n Hn; [simpl; lia|]. cbn [runs length].
  rewrite last_cons_default. destruct (w =? last).
  - specialize (IH w (n + 1)). lia.
  - specialize (IH w 0). lia.
Qed.

Lemma over_limit_bound l : 0 <= over_limit l <= Z.of_nat (length l).
Proof. unfold over_limit. pose proof (length_filter (fun n => 8 <= n) l). lia. Qed.

Lemma over_limit_snoc l n : over_limit (l ++ [n]) = over_limit l + if 8 <=? n then 1 else 0.
Proof.
  unfold over_limit. rewrite filter_app, length_app, Nat2Z.inj_add. f_equal. rewrite filter_cons, filter_nil.
  destruct (decide (8 <= n)); destruct (Z.leb_spec 8 n); (done || lia).
Qed.

Lemma length_runs last n l : length (runs last n l) = length l.
Proof. revert last n. induction l as [|w l IH]; intros last n; [done|]. cbn. f_equal. apply IH. Qed.

Lemma ones_snoc i l v : ones i (l ++ [v]) = ones i l + if Z.testbit v (Z.of_nat i) then 1 else 0.
Proof.
  unfold ones. rewrite filter_app, length_app, Nat2Z.inj_add. f_equal. rewrite filter_cons, filter_nil.
  destruct (decide _) as [H|H]; destruct (Z.testbit v (Z.of_nat i)); done.
Qed.
Lemma ones_bound i l : 0 <= ones i l <= Z.of_nat (length l).
Proof. unfold ones. pose proof (length_filter (fun v => Z.testbit v (Z.of_nat i) = true) l). lia. Qed.

(** The state after the samples [l], from cleared counters. *)
Definition counted (l : list Z) (r : Rng) : Prop :=
  SAMPLE_COUNT r = Z.of_nat (length l) /\ LAST_VALUE r = List.last l 0
  /\ REPETITION_COUNT r = List.last (runs 0 0 l) 0 /\ FAILURE_COUNT r = over_limit (runs 0 0 l)
  /\ length (BIT_COUNTS r) = 32%nat /\ forall i, (i < 32)%nat -> (BIT_COUNTS r).[i] = ones i l.

Lemma counted_step l v r : (length l < 512)%nat -> counted l r -> counted (l ++ [v]) (update_health_state v r).
Proof.
  intros Hl (Hs & Hv & Hr & Hf & Hb & Hi).
  assert ((0 <? SAMPLE_COUNT r) && (SAMPLE_COUNT r mod 512 =? 0) = false) as Ha.
  { rewrite Hs. destruct (Z.ltb_spec 0 (Z.of_nat (length l))); [|done].
    rewrite Z.mod_small by lia. cbn [andb]. apply Z.eqb_neq. lia. }
  rewrite update_eq, Ha. destruct (sampled_fields v r) as (Es & Ev & Er & Ef & _ & Eb & _ & _).
  pose proof (runs_bound 0 0 l ltac:(lia)) as Hrb. pose proof (over_limit_bound (runs 0 0 l)) as Hfb.
  rewrite length_runs in Hfb.
  assert (forall x, 0 <= x <= 512 -> u32 (x + 1) = x + 1) as Hu by (intros; words_lia).
  unfold counted. rewrite Es, Ev, Er, Ef, Eb, length_count_bits, runs_snoc, !last_last, over_limit_snoc, length_app.
  split; [rewrite Hs, Hu by lia; cbn [length]; lia|]. split; [done|]. split; [|split; [|split; [exact Hb|]]].
  - rewrite Hv, Hr. destruct (v =? List.last l 0); [|done]. apply Hu. lia.
  - unfold repeated. rewrite Hv, Hr, Hf. clear Er Ef. destruct (v =? List.last l 0); cbn [andb]; [|by rewrite Z.add_0_r].
    rewrite (Hu (List.last _ _)) by lia. destruct (8 <=? _); [apply Hu; lia|lia].
  - intros i Hi'. rewrite count_bits_bit by lia. rewrite (Hi i Hi'), ones_snoc.
    destruct (Z.testbit _ _); [|lia]. apply Hu. pose proof (ones_bound i l). lia.
Qed.

(** ** Samples *)

Section Samples.
Context (raw : nat -> Z).

Lemma update_reads v r : raw_reads (update_health_state v r) = raw_reads r /\ INITIALIZED (update_health_state v r) = INITIALIZED r.
Proof.
  rewrite update_eq. destruct (sampled_fields v r) as (_ & _ & _ & _ & Hi & _ & _ & Hr).
  destruct (_ && _); [|done]. destruct (reassess_fields (sampled v r)) as (_ & _ & _ & Ei & Er & _).
  by rewrite Ei, Er.
Qed.

Lemma sample_reads r : raw_reads (raw_random_u32_with_health raw r).2 = S (raw_reads r)
  /\ INITIALIZED (raw_random_u32_with_health raw r).2 = INITIALIZED r.
Proof. unfold raw_random_u32_with_health, hw_rng_raw. cbn [snd]. destruct (update_reads (raw (raw_reads r))
  (hw_rng_raw raw r).2) as [H1 H2]. by split. Qed.

Lemma collect_reads n r : raw_reads (collect_samples raw n r) = (raw_reads r + n)%nat
  /\ INITIALIZED (collect_samples raw n r) = INITIALIZED r.
Proof.
  unfold collect_samples. induction n as [|n [IH1 IH2]]; [by rewrite Nat.add_0_r|]. rewrite Nat.iter_succ.
  destruct (sample_reads (Nat.iter n (fun r => (raw_random_u32_with_health raw r).2) r)) as [-> ->].
  rewrite IH1. split; [lia|done].
Qed.

Lemma collect_counted n r : (n <= 512)%nat -> counted [] r ->
  counted (raw <$> seq (raw_reads r) n) (collect_samples raw n r).
Proof.
  intros Hn Hr. induction n as [|n IH]; [done|]. rewrite seq_S, fmap_app. unfold collect_samples.
  rewrite Nat.iter_succ. destruct (collect_reads n r) as [Er _]. unfold collect_samples in *.
  set (r' := Nat.iter n _ r) in *. unfold raw_random_u32_with_health, hw_rng_raw. cbn [snd fmap list_fmap].
  rewrite Er. apply counted_step; [rewrite length_fmap, length_seq; lia|].
  destruct (IH ltac:(lia)) as (H1 & H2 & H3 & H4 & H5 & H6). by split_and!.
Qed.

End Samples.

(** Nine equal values in a row. *)
Definition nine (l : list Z) : Prop := exists p v, forall i, (i < 9)%nat -> l !! (p + i)%nat = Some v.

Lemma nine_replicate n last v l : (n < 8)%nat -> v <> last ->
  nine (replicate (S n) last ++ v :: l) <-> nine (v :: l).
Proof.
  intros Hn Hv. split; intros (p & w & H).
  - destruct (decide (S n <= p)%nat) as [Hp|Hp].
    + exists (p - S n)%nat, w. intros i Hi. rewrite <- (H i Hi), (lookup_app_r _ _ (p + i)), length_replicate
        by (rewrite length_replicate; lia). f_equal. lia.
    + exfalso. pose proof (H (n - p)%nat ltac:(lia)) as H1. pose proof (H (S n - p)%nat ltac:(lia)) as H2.
      rewrite lookup_app_l, lookup_replicate_2 in H1 by (rewrite ?length_replicate; lia).
      rewrite lookup_app_r, length_replicate in H2 by (rewrite length_replicate; lia).
      replace (p + (S n - p) - S n)%nat with 0%nat in H2 by lia. cbn in H2. congruence.
  - exists (p + S n)%nat, w. intros i Hi. rewrite lookup_app_r, length_replicate by (rewrite length_replicate; lia).
    rewrite <- (H i Hi). f_equal. lia.
Qed.

Lemma over_limit_cons n l : 0 < over_limit (n :: l) <-> 8 <= n \/ 0 < over_limit l.
Proof.
  unfold over_limit. rewrite filter_cons. destruct (decide (8 <= n)); cbn [length]; lia.
Qed.

Lemma runs_nine last n l : (n < 8)%nat ->
  0 < over_limit (runs last (Z.of_nat n) l) <-> nine (replicate (S n) last ++ l).
Proof.
  revert last n. induction l as [|v l IH]; intros last n Hn.
  - split; [done|]. intros (p & w & H). specialize (H 8%nat ltac:(lia)).
    apply lookup_lt_Some in H. rewrite app_nil_r, length_replicate in H. lia.
  - cbn [runs]. rewrite over_limit_cons. destruct (Z.eqb_spec v last) as [->|Hv].
    + replace (replicate (S n) last ++ last :: l) with (replicate (S (S n)) last ++ l)
        by (rewrite (replicate_S_end (S n)), <- app_assoc; done).
      destruct (decide (n = 7%nat)) as [->|].
      * split; [intros _|left; lia]. exists 0%nat, last. intros i Hi.
        rewrite lookup_app_l by (rewrite length_replicate; lia). apply lookup_replicate_2. lia.
      * replace (Z.of_nat n + 1) with (Z.of_nat (S n)) by lia. rewrite <- (IH last (S n)) by lia. lia.
    + rewrite nine_replicate by done. change (v :: l) with (replicate 1 v ++ l).
      rewrite <- (IH v 0%nat) by lia. change (Z.of_nat 0) with 0. lia.
Qed.

#[local] Opaque collect_samples estimate_entropy.

(** The repetition test of the 64 first samples: [init] counts a failure exactly when nine values
    in a row are equal, the zero LAST_VALUE starts with counting as one. The samples are counted
    bit by bit. *)
Theorem init_repetition_test raw (samples := raw <$> seq 0 64) :
  let r := init raw rng_start in
  (FAILURE_COUNT r = 0 <-> ~ nine (0 :: samples))
  /\ SAMPLE_COUNT r = 64 /\ raw_reads r = 64%nat /\ INITIALIZED r = true
  /\ BIT_COUNTS r = (fun i => ones i samples) <$> seq 0 32.
Proof.
  cbv zeta. unfold init. cbn [INITIALIZED rng_start].
  set (r0 := store_failures _ _).
  assert (counted [] r0) as H0 by (split_and!; try done; intros i Hi;
    do 32 (destruct i as [|i]; [reflexivity|]); lia).
  pose proof (collect_counted raw 64 r0 ltac:(lia) H0) as (Hs & _ & _ & Hf & Hl & Hb).
  destruct (collect_reads raw 64 r0) as [Hr Hi]. change (raw_reads r0) with 0%nat in *.
  fold samples in Hs, Hf, Hb. change MIN_SAMPLES_FOR_HEALTH with 64%nat.
  set (r := collect_samples raw 64 r0) in *. clearbody r.
  assert (forall b, let r' := if negb b then log_rng_warning (store_healthy b r) else store_healthy b r in
    FAILURE_COUNT r' = FAILURE_COUNT r /\ SAMPLE_COUNT r' = SAMPLE_COUNT r /\ raw_reads r' = raw_reads r
    /\ INITIALIZED r' = INITIALIZED r /\ BIT_COUNTS r' = BIT_COUNTS r) as Hw by (intros []; done).
  destruct (Hw ((FAILURE_COUNT r =? 0) && (MIN_ENTROPY_SCALED <=? estimate_entropy r))) as (-> & -> & -> & -> & ->).
  split; [|split_and!; [by rewrite Hs; unfold samples; rewrite length_fmap, length_seq|by rewrite Hr|by rewrite Hi|]].
  - rewrite Hf. pose proof (runs_nine 0 0 samples ltac:(lia)) as Hn. cbn [replicate app] in Hn.
    change (Z.of_nat 0) with 0 in Hn. rewrite <- Hn. pose proof (over_limit_bound (runs 0 0 samples)). lia.
  - apply list_eq. intros i. rewrite list_lookup_fmap. destruct (decide (i < 32)%nat) as [Hi'|Hi'].
    + rewrite lookup_seq_lt by done. specialize (Hb i Hi'). unfold arr in Hb.
      destruct (lookup_lt_is_Some_2 (BIT_COUNTS r) i ltac:(lia)) as [x Hx]. rewrite Hx in Hb |- *. cbn in *. by rewrite Hb.
    + rewrite !lookup_ge_None_2 by (rewrite ?length_seq; lia). done.
Qed.
Transparent estimate_entropy.

(** ** The health flag *)

Lemma bit_entropy_bound samples n : 0 <= bit_entropy samples n <= 8.
Proof.
  unfold bit_entropy. set (expected := samples / 2).
  assert (forall diff, 0 <= (if expected <=? diff then 0
    else if u32 (8 * diff) / (if 0 <? expected then expected else 1) <? 8
         then 8 - u32 (8 * diff) / (if 0 <? expected then expected else 1) else 0) <= 8) as H; [|apply H].
  intros diff. destruct (expected <=? diff); [lia|].
  assert (0 <= u32 (8 * diff) / (if 0 <? expected then expected else 1)) as Hq.
  { apply Z.div_pos; [unfold u32; apply Z.mod_pos_bound; lia|destruct (Z.ltb_spec 0 expected); lia]. }
  destruct (Z.ltb_spec (u32 (8 * diff) / (if 0 <? expected then expected else 1)) 8); lia.
Qed.

Lemma entropy_sum samples l acc : (length l <= 32)%nat -> 0 <= acc <= 8 * (32 - Z.of_nat (length l)) ->
  0 <= foldl (fun total ones => u32 (total + bit_entropy samples ones)) acc l <= 256.
Proof.
  revert acc. induction l as [|n l IH]; intros acc Hl Ha; cbn [foldl length] in *; [lia|].
  pose proof (bit_entropy_bound samples n). apply IH; [lia|]. rewrite u32_small by (unfold fits; lia). lia.
Qed.

(** An estimate is at most 8: an average of 32 numbers up to 8. *)
Lemma estimate_bound r : length (BIT_COUNTS r) = 32%nat -> 0 <= estimate_entropy r <= 8.
Proof.
  intros Hl. unfold estimate_entropy. destruct (_ <? _); [lia|].
  pose proof (entropy_sum (SAMPLE_COUNT r) (BIT_COUNTS r) 0 ltac:(lia) ltac:(lia)).
  split; [apply Z.div_pos; lia|apply Z.div_le_upper_bound; lia].
Qed.
#[local] Opaque estimate_entropy.

(** Unhealthy, with its 32 counters. *)
Definition unhealthy (r : Rng) : Prop := RNG_HEALTHY r = false /\ length (BIT_COUNTS r) = 32%nat.

Lemma reassess_unhealthy r : length (BIT_COUNTS r) = 32%nat -> unhealthy (reassess_health r).
Proof.
  intros Hl. destruct (reassess_fields r) as (_ & _ & _ & _ & _ & _ & Hb & Hh). pose proof (estimate_bound r Hl) as He.
  split; [|rewrite Hb; by destruct (_ =? 0)]. rewrite Hh.
  destruct (Z.leb_spec 24 (estimate_entropy r)); [lia|]. rewrite andb_false_r.
  destruct (Z.ltb_spec (estimate_entropy r) 24); [done|lia].
Qed.

Section Health.
Context (raw timer : nat -> Z).

Lemma update_unhealthy v r : unhealthy r -> unhealthy (update_health_state v r).
Proof.
  intros [Hh Hl]. rewrite update_eq. destruct (sampled_fields v r) as (_ & _ & _ & _ & _ & Hb & Hh' & _).
  assert (length (BIT_COUNTS (sampled v r)) = 32%nat) by (by rewrite Hb, length_count_bits).
  destruct (_ && _); [by apply reassess_unhealthy|]. split; [|done]. rewrite Hh', Hh. by destruct (repeated v r).
Qed.

Lemma sample_unhealthy r : unhealthy r -> unhealthy (raw_random_u32_with_health raw r).2.
Proof. intros H. unfold raw_random_u32_with_health, hw_rng_raw. cbn [snd]. by apply update_unhealthy. Qed.

Lemma collect_unhealthy n r : unhealthy r -> unhealthy (collect_samples raw n r).
Proof.
  Transparent collect_samples. intros H. unfold collect_samples. induction n as [|n IH]; [done|].
  rewrite Nat.iter_succ. by apply sample_unhealthy. Opaque collect_samples.
Qed.

Lemma assessed_unhealthy r : length (BIT_COUNTS r) = 32%nat ->
  unhealthy (let healthy := (FAILURE_COUNT r =? 0) && (MIN_ENTROPY_SCALED <=? estimate_entropy r) in
    let r := store_healthy healthy r in if negb healthy then log_rng_warning r else r).
Proof.
  intros Hl. pose proof (estimate_bound r Hl). unfold MIN_ENTROPY_SCALED. cbv zeta.
  destruct (Z.leb_spec 24 (estimate_entropy r)); [lia|]. by rewrite andb_false_r.
Qed.

Lemma init_unhealthy r : unhealthy r -> unhealthy (init raw r).
Proof.
  intros H. unfold init. destruct (INITIALIZED r); [exact H|].
  refine (assessed_unhealthy _ (proj2 (collect_unhealthy _ _ _))). split; apply H.
Qed.

Lemma compensate_unhealthy i st : unhealthy st.2 -> unhealthy (compensate raw timer i st).2.
Proof.
  destruct st as [result r]. intros H. unfold compensate. apply sample_unhealthy in H. revert H. cbn [snd].
  destruct (raw_random_u32_with_health raw r) as [extra r']. cbn [snd]. by unfold read_timer_entropy.
Qed.

Lemma random_unhealthy r : unhealthy r -> unhealthy (random_u32 raw timer r).2.
Proof.
  intros H. unfold random_u32. set (r0 := if negb (INITIALIZED r) then _ else _).
  assert (unhealthy r0) as H0 by (subst r0; destruct (negb _); [by apply init_unhealthy|done]). clearbody r0.
  apply sample_unhealthy in H0 as H1. destruct (raw_random_u32_with_health raw r0) as [r1 s1]. cbn [snd] in H1.
  apply sample_unhealthy in H1 as H2. destruct (raw_random_u32_with_health raw s1) as [r2 s2]. cbn [snd] in H2.
  unfold read_timer_entropy. rewrite (proj1 H0). cbn [negb foldl].
  by repeat apply compensate_unhealthy.
Qed.

Lemma fill_unhealthy fuel dest len offset r dest' r' :
  unhealthy r -> fill_loop raw timer fuel dest len offset r = Some (dest', r') -> unhealthy r'.
Proof.
  revert dest offset r. induction fuel as [|fuel IH]; intros dest offset r H; cbn [fill_loop];
    destruct (offset <? len)%nat; try discriminate; try by intros [= <- <-].
  apply random_unhealthy in H. destruct (random_u32 raw timer r) as [v r1]. cbn [snd] in H. by apply IH.
Qed.

(** The calls of the other modules. *)
Inductive rng_step : Rng -> Rng -> Prop :=
  | step_init r : rng_step r (init raw r)
  | step_random r : rng_step r (random_u32 raw timer r).2
  | step_random_checked r : rng_step r (random_u32_checked raw timer r).2
  | step_fill r dest len dest' r' : fill_random raw timer dest len r = Some (dest', r') -> rng_step r r'
  | step_fill_checked r dest len ok dest' r' :
      fill_random_checked raw timer dest len r = Some (ok, dest', r') -> rng_step r r'
  | step_recheck r : rng_step r (recheck_health raw r).

Lemma step_unhealthy r r' : rng_step r r' -> unhealthy r -> unhealthy r'.
Proof.
  assert (forall r, unhealthy r -> unhealthy (if negb (INITIALIZED r) then init raw r else r)) as Hinit
    by (intros r0 H; destruct (negb _); [by apply init_unhealthy|done]).
  assert (forall dest len r dest' r', fill_random raw timer dest len r = Some (dest', r') ->
    unhealthy r -> unhealthy r') as Hfill.
  { intros dest len r0 dest' r1 E H. unfold fill_random in E. exact (fill_unhealthy _ _ _ _ _ _ _ (Hinit _ H) E). }
  destruct 1 as [r|r|r|r dest len dest' r' E|r dest len ok dest' r' E|r]; intros H.
  - by apply init_unhealthy.
  - by apply random_unhealthy.
  - unfold random_u32_checked, is_healthy. by rewrite (proj1 H).
  - exact (Hfill _ _ _ _ _ E H).
  - unfold fill_random_checked, is_healthy in E. rewrite (proj1 H) in E. by injection E as _ _ <-.
  - unfold recheck_health. apply reassess_unhealthy. apply collect_unhealthy. split; apply H.
Qed.

End Health.

(** Whatever the hardware gives and whatever is called, the generator is never healthy: the
    estimate of the entropy is at most 8 and the threshold is 24. So [random_u32_checked] never
    has a value and [fill_random_checked] always fails, leaving its buffer as it was. *)
Theorem rng_never_healthy raw timer r : rtc (rng_step raw timer) rng_start r ->
  is_healthy r = false /\ random_u32_checked raw timer r = (None, r)
  /\ forall dest len, fill_random_checked raw timer dest len r = Some (false, dest, r).
Proof.
  intros H. assert (unhealthy r) as [Hh _].
  { remember rng_start as r0 eqn:E. assert (unhealthy r0) as H0 by by subst. clear E.
    induction H as [|r1 r2 r3 Hs _ IH]; [done|]. by apply IH, (step_unhealthy raw timer r1). }
  split; [exact Hh|]. unfold random_u32_checked, fill_random_checked, is_healthy. rewrite Hh. by split.
Qed.
Lemma rng_never_healthy_witness :
  let raw := fun n => u32 (Z.of_nat n * 0x9E3779B9) in
  let timer := fun _ : nat => 0 in
  let r := init raw rng_start in
  is_healthy r = false /\ random_u32_checked raw timer r = (None, r)
  /\ forall dest len, fill_random_checked raw timer dest len r = Some (false, dest, r).
Proof. intros raw timer r. apply (rng_never_healthy raw timer r). apply rtc_once, step_init. Defined.

(** ** Mixing *)

Lemma rotl_eq k x : 0 < k < 32 -> fits 32 x -> u32 (x .<< k) .| (x .>> (32 - k)) = x / 2 ^ (32 - k) + 2 ^ k * (x mod 2 ^ (32 - k)).
Proof.
  intros Hk Hx. rewrite Z.shiftr_div_pow2, Z.shiftl_mul_pow2 by lia.
  assert (2 ^ 32 = 2 ^ (32 - k) * 2 ^ k) as Hp by (rewrite <- Z.pow_add_r by lia; f_equal; lia).
  assert (u32 (x * 2 ^ k) = (x mod 2 ^ (32 - k)) .<< k) as ->.
  { unfold u32. change 0x100000000 with (2 ^ 32). rewrite Hp, Z.mul_mod_distr_r by lia.
    rewrite Z.shiftl_mul_pow2 by lia. done. }
  rewrite Z.lor_comm, lor_shiftl_add; [done|lia|]. unfold fits in *.
  split; [apply Z.div_pos; lia|apply Z.div_lt_upper_bound; lia].
Qed.

Lemma rotl_inj k x y : 0 < k < 32 -> fits 32 x -> fits 32 y ->
  u32 (x .<< k) .| (x .>> (32 - k)) = u32 (y .<< k) .| (y .>> (32 - k)) -> x = y.
Proof.
  intros Hk Hx Hy. rewrite !rotl_eq by done. intros E.
  assert (2 ^ 32 = 2 ^ (32 - k) * 2 ^ k) as Hp by (rewrite <- Z.pow_add_r by lia; f_equal; lia).
  assert (forall z, fits 32 z -> 0 <= z / 2 ^ (32 - k) < 2 ^ k) as Hq.
  { intros z Hz. unfold fits in Hz. split; [apply Z.div_pos; lia|apply Z.div_lt_upper_bound; lia]. }
  pose proof (Hq x Hx). pose proof (Hq y Hy).
  rewrite (Z.div_mod x (2 ^ (32 - k))), (Z.div_mod y (2 ^ (32 - k))) by lia.
  set (a := x / _) in *. set (b := x mod _) in *. set (c := y / _) in *. set (d := y mod _) in *.
  assert (b = d) by nia. subst b. assert (a = c) by nia. congruence.
Qed.

Lemma lxor_inj_l a b b' : a .^ b = a .^ b' -> b = b'.
Proof. intros E. rewrite <- (Z.lxor_0_l b), <- (Z.lxor_0_l b'), <- (Z.lxor_nilpotent a), !Z.lxor_assoc. by rewrite E. Qed.

Lemma rotl_fits k z : 0 < k < 32 -> fits 32 z -> fits 32 (u32 (z .<< k) .| (z .>> (32 - k))).
Proof.
  intros Hk Hz. apply fits_lor; [lia|apply fits_u32|].
  apply (fits_mono (32 - (32 - k))); [apply fits_shiftr; [lia|done]|lia].
Qed.

Lemma mix_eq a b c : mix_entropy a b c =
  let y := u32 ((u32 ((a .^ (u32 (b .<< 13) .| (b .>> (32 - 13)))) * 0x85EBCA6B)
                 .^ (u32 (c .<< 25) .| (c .>> (32 - 25)))) * 0xC2B2AE35) in y .^ (y .>> 16).
Proof. unfold mix_entropy. cbv zeta. by rewrite (Z.lor_comm (c .>> 7)). Qed.

(** Mixing loses nothing of any of its sources: with the two others fixed, each of the two samples
    and the timer value is determined by the result. *)
Theorem mix_entropy_injective a b c x : fits 32 a -> fits 32 b -> fits 32 c -> fits 32 x ->
  (mix_entropy a b c = mix_entropy x b c -> a = x)
  /\ (mix_entropy a b c = mix_entropy a x c -> b = x)
  /\ (mix_entropy a b c = mix_entropy a b x -> c = x).
Proof.
  intros Ha Hb Hc Hx. rewrite !mix_eq. cbv zeta.
  pose proof (rotl_fits 13 b ltac:(lia) Hb) as Fb. pose proof (rotl_fits 13 x ltac:(lia) Hx) as Fx.
  pose proof (rotl_fits 25 c ltac:(lia) Hc) as Fc. pose proof (rotl_fits 25 x ltac:(lia) Hx) as Fx'.
  assert (forall h h', fits 32 h -> fits 32 h' ->
    u32 (h * 0xC2B2AE35) .^ (u32 (h * 0xC2B2AE35) .>> 16) = u32 (h' * 0xC2B2AE35) .^ (u32 (h' * 0xC2B2AE35) .>> 16)
    -> h = h') as Hout.
  { intros h h' Hh Hh' E. apply (xorshift_inj 16) in E; [|lia|apply fits_u32..]. by apply (mul_odd_inj _ 2127672349) in E. }
  assert (forall h h', fits 32 h -> fits 32 h' -> u32 (h * 0x85EBCA6B) = u32 (h' * 0x85EBCA6B) -> h = h') as Hin
    by (intros h h' Hh Hh' E; by apply (mul_odd_inj _ 2781581891) in E).
  split; [|split]; intros E; apply Hout in E; auto using fits_lxor, fits_u32 with lia.
  - rewrite !(Z.lxor_comm _ (u32 (c .<< 25) .| _)) in E. apply lxor_inj_l, Hin in E; auto using fits_lxor with lia.
    rewrite !(Z.lxor_comm _ (u32 (b .<< 13) .| _)) in E. by apply lxor_inj_l in E.
  - rewrite !(Z.lxor_comm _ (u32 (c .<< 25) .| _)) in E. apply lxor_inj_l, Hin in E; auto using fits_lxor with lia.
    apply lxor_inj_l, rotl_inj in E; (done || lia).
  - apply lxor_inj_l, rotl_inj in E; (done || lia).
Qed.
Lemma mix_entropy_injective_witness :
  (mix_entropy 1 2 3 = mix_entropy 4 2 3 -> 1 = 4)
  /\ (mix_entropy 1 2 3 = mix_entropy 1 4 3 -> 2 = 4)
  /\ (mix_entropy 1 2 3 = mix_entropy 1 2 4 -> 3 = 4).
Proof. apply (mix_entropy_injective 1 2 3 4); apply (bool_decide_unpack _); vm_compute; exact I. Defined.

(** ** Buffers *)

Section Fill.
Context (raw timer : nat -> Z).

(** [n] numbers one after the other. *)
Fixpoint random_words (n : nat) (r : Rng) : list Z * Rng :=
  match n with
  | O => ([], r)
  | S n =>
      let '(v, r) := random_u32 raw timer r in
      let '(vs, r) := random_words n r in (v :: vs, r)
  end.

#[local] Opaque random_u32.

Lemma fill_loop_words fuel dest len offset r : (offset <= len <= length dest)%nat -> (len - offset <= fuel)%nat ->
  fill_loop raw timer fuel dest len offset r =
  let '(vs, r') := random_words ((len - offset + 3) / 4) r in
  Some (take offset dest ++ take (len - offset) (concat (le_bytes 4 <$> vs)) ++ drop len dest, r').
Proof.
  revert dest offset r. induction fuel as [|fuel IH]; intros dest offset r Hl Hf; cbn [fill_loop].
  - destruct (Nat.ltb_spec offset len); [lia|]. replace (len - offset)%nat with 0%nat by lia.
    change ((0 + 3) / 4)%nat with 0%nat. cbn [random_words]. rewrite take_0, app_nil_l.
    replace offset with len by lia. by rewrite take_drop.
  - destruct (Nat.ltb_spec offset len) as [Ho|Ho].
    + destruct (random_u32 raw timer r) as [v r1] eqn:Ev. rewrite wr32_eq.
      set (n := (if (len - offset <? 4)%nat then (len - offset)%nat else 4%nat)).
      assert (n = Nat.min (len - offset) 4) as Hn by (subst n; destruct (Nat.ltb_spec (len - offset) 4); lia).
      clearbody n. assert (length (take n (le_bytes 4 v)) = n) as Hln by (rewrite length_take, length_le_bytes; lia).
      rewrite IH; [|rewrite !length_app, Hln, length_take, length_drop; lia|lia].
      replace ((len - offset + 3) / 4)%nat with (S ((len - (offset + n) + 3) / 4)).
      2:{ rewrite Hn. destruct (Nat.le_ge_cases (len - offset) 4).
          - rewrite Nat.min_l by lia. replace (len - (offset + (len - offset)))%nat with 0%nat by lia.
            change ((0 + 3) / 4)%nat with 0%nat. div_lia.
          - rewrite Nat.min_r by lia. div_lia. }
      cbn [random_words]. rewrite Ev. destruct (random_words _ r1) as [vs r2]. f_equal. f_equal.
      rewrite fmap_cons. cbn [concat].
      rewrite (app_assoc (take offset dest)), take_app_length', drop_app_ge, drop_drop, length_app, Hln, length_take
        by (rewrite ?length_app, ?Hln, ?length_take; lia).
      rewrite <- app_assoc. f_equal. rewrite app_assoc. f_equal; [|f_equal; lia].
      destruct (Nat.le_ge_cases (len - offset) 4).
      * replace (len - (offset + n))%nat with 0%nat by lia. rewrite take_0, app_nil_r.
        rewrite take_app_le by (rewrite length_le_bytes; lia). f_equal. lia.
      * rewrite take_app_ge by (rewrite length_le_bytes; lia). rewrite length_le_bytes.
        f_equal; [apply take_ge; rewrite length_le_bytes; lia|f_equal; lia].
    + replace (len - offset)%nat with 0%nat by lia. change ((0 + 3) / 4)%nat with 0%nat. cbn [random_words].
      rewrite take_0, app_nil_l. replace offset with len by lia. by rewrite take_drop.
Qed.
End Fill.

(** [fill_random] ends and writes [len] bytes: the numbers of ceil(len / 4) calls, low byte first,
    the last one cut; the rest of the buffer is as it was. *)
Theorem fill_random_words raw timer dest len r : (len <= length dest)%nat ->
  fill_random raw timer dest len r =
  let '(vs, r') := random_words raw timer ((len + 3) / 4) (if INITIALIZED r then r else init raw r) in
  Some (take len (concat (le_bytes 4 <$> vs)) ++ drop len dest, r').
Proof.
  intros Hl. unfold fill_random. rewrite fill_loop_words by lia. rewrite Nat.sub_0_r, take_0.
  destruct (INITIALIZED r); reflexivity.
Qed.
Lemma fill_random_words_witness :
  let raw := fun n => u32 (Z.of_nat n * 0x9E3779B9) in
  let timer := fun _ : nat => 0 in
  fill_random raw timer (replicate 10 0) 6 rng_start =
  let '(vs, r') := random_words raw timer ((6 + 3) / 4) (if INITIALIZED rng_start then rng_start else init raw rng_start) in
  Some (take 6 (concat (le_bytes 4 <$> vs)) ++ drop 6 (replicate 10 0), r').
Proof. intros raw timer. apply (fill_random_words raw timer (replicate 10 0) 6 rng_start). apply (bool_decide_unpack _). vm_compute. exact I. Defined.

(** ** The bit counters *)

Lemma sample_samples raw r : fits 32 (SAMPLE_COUNT r) ->
  SAMPLE_COUNT (raw_random_u32_with_health raw r).2 = u32 (SAMPLE_COUNT r + 1).
Proof.
  intros _. unfold raw_random_u32_with_health, hw_rng_raw. cbn [snd]. rewrite update_eq.
  set (r1 := mkRng _ _ _ _ _ _ _ _ _ _). destruct (sampled_fields (raw (raw_reads r)) r1) as (Es & _).
  destruct (_ && _); [|exact Es]. destruct (reassess_fields (sampled (raw (raw_reads r)) r1)) as (Es' & _).
  rewrite Es'. exact Es.
Qed.

Lemma collect_samples_count raw n r : fits 32 (SAMPLE_COUNT r) ->
  SAMPLE_COUNT (collect_samples raw n r) = u32 (SAMPLE_COUNT r + Z.of_nat n).
Proof.
  Transparent collect_samples. intros H. unfold collect_samples. induction n as [|n IH].
  - cbn. rewrite Z.add_0_r. symmetry. by apply u32_small.
  - rewrite Nat.iter_succ, sample_samples, IH by (rewrite IH; apply fits_u32). words_lia. Opaque collect_samples.
Qed.

Lemma estimate_zero r : 0 <= SAMPLE_COUNT r -> BIT_COUNTS r = replicate 32 0 -> estimate_entropy r = 0.
Proof.
  Transparent estimate_entropy. intros Hs Hb. unfold estimate_entropy. rewrite Hb. destruct (_ <? _); [done|].
  assert (bit_entropy (SAMPLE_COUNT r) 0 = 0) as Hz.
  { unfold bit_entropy. assert (0 <= SAMPLE_COUNT r / 2) by (apply Z.div_pos; lia).
    destruct (Z.ltb_spec (SAMPLE_COUNT r / 2) 0); [lia|]. cbv zeta. rewrite Z.sub_0_r, Z.leb_refl. done. }
  cbn [replicate foldl]. rewrite Hz. reflexivity. Opaque estimate_entropy.
Qed.

(** A sample never clears the bit counters: it assesses the health after counts that are multiples
    of 512, when the number of samples is one more. A recheck that ends on a multiple of 2048 clears
    them but not the number of samples, and the estimate falls to 0. *)
Theorem bit_counters_reset raw v r : fits 32 (SAMPLE_COUNT r) ->
  BIT_COUNTS (update_health_state v r) = count_bits v (BIT_COUNTS r)
  /\ (SAMPLE_COUNT r mod 2048 = 1984 ->
      let r' := recheck_health raw r in
      BIT_COUNTS r' = replicate 32 0 /\ SAMPLE_COUNT r' = u32 (SAMPLE_COUNT r + 64) /\ estimate_entropy r' = 0).
Proof.
  intros Hs. split.
  - rewrite update_eq. destruct (sampled_fields v r) as (Es & _ & _ & _ & _ & Eb & _).
    destruct (Z.eqb_spec (SAMPLE_COUNT r mod 512) 0) as [Hm|]; [|by rewrite andb_false_r].
    destruct (0 <? SAMPLE_COUNT r); [|done]. cbn [andb].
    destruct (reassess_fields (sampled v r)) as (_ & _ & _ & _ & _ & _ & Eb' & _). rewrite Eb', Es, Eb.
    destruct (Z.eqb_spec (u32 (SAMPLE_COUNT r + 1) mod 2048) 0); [words_lia|done].
  - intros Hm. unfold recheck_health. cbv zeta. set (r1 := collect_samples raw MIN_SAMPLES_FOR_HEALTH _).
    assert (SAMPLE_COUNT r1 = u32 (SAMPLE_COUNT r + 64)) as H1
      by exact (collect_samples_count raw MIN_SAMPLES_FOR_HEALTH (store_failures 0 r) Hs).
    destruct (reassess_fields r1) as (Es & _ & _ & _ & _ & _ & Eb & _). rewrite H1 in Es, Eb.
    destruct (Z.eqb_spec (u32 (SAMPLE_COUNT r + 64) mod 2048) 0) as [_|Hn]; [|words_lia].
    split; [exact Eb|]. split; [exact Es|]. apply estimate_zero; [|exact Eb]. rewrite Es. words_lia.
Qed.
Lemma bit_counters_reset_witness :
  let r := store_samples 1984 rng_start in
  BIT_COUNTS (update_health_state 7 r) = count_bits 7 (BIT_COUNTS r)
  /\ (SAMPLE_COUNT r mod 2048 = 1984 ->
      let r' := recheck_health (fun n => Z.of_nat n) r in
      BIT_COUNTS r' = replicate 32 0 /\ SAMPLE_COUNT r' = u32 (SAMPLE_COUNT r + 64) /\ estimate_entropy r' = 0).
Proof.
  intros r. apply (bit_counters_reset (fun n => Z.of_nat n) 7 r). apply (bool_decide_unpack _). vm_compute. exact I.
Defined.
