(* ===== verification/Power.v ===== *)
(** * Power management: lunarcore/lunar/power.h and power.c

    The power manager: modes, wake-up sources and pins, light and deep sleep, statistics and the
    words kept across sleep. The calls of the platform (frequency, sleep, wake-up sources) are
    the operations of [pm_op], recorded in order; their answers are arguments. *)
From stdpp Require Import gmap.
From S2P Require Import Prelude.

(** ** Data *)

Definition MIN_DEEP_SLEEP_US : Z := 1000.
Definition MAX_DEEP_SLEEP_US : Z := 86400000000.
Definition LOW_BATTERY_THRESHOLD_MV : Z := 3400.
Definition CRITICAL_BATTERY_THRESHOLD_MV : Z := 3200.

Inductive PowerMode := POWER_MODE_PERFORMANCE | POWER_MODE_BALANCED | POWER_MODE_LOW_POWER | POWER_MODE_ULTRA_LOW.

(** WakeSources: nine bits. *)
Definition WAKE_SOURCES_TIMER : Z := 1.
Definition WAKE_SOURCES_GPIO : Z := 2.
Definition WAKE_SOURCES_UART : Z := 4.
Definition wake_sources_or (self other : Z) : Z := self .| other.
Definition wake_sources_has (self source : Z) : bool := negb (self .& source =? 0).

Inductive WakeCause :=
  | wake_cause_power_on | wake_cause_timer | wake_cause_gpio (pin : Z) | wake_cause_uart | wake_cause_touch
  | wake_cause_ulp | wake_cause_ble | wake_cause_wifi | wake_cause_ext0 | wake_cause_ext1 | wake_cause_unknown.

Record GpioWakeConfig := mkPin { pin : Z; level_high : bool }.

#[export] Instance gpio_wake_config_eq_dec : EqDecision GpioWakeConfig.
Proof. solve_decision. Defined.

Inductive PowerError :=
  | POWER_ERROR_OK | POWER_ERROR_INVALID_FREQUENCY | POWER_ERROR_CONFIG_FAILED | POWER_ERROR_INVALID_DURATION
  | POWER_ERROR_SLEEP_FAILED | POWER_ERROR_TOO_MANY_WAKE_PINS.

Record PowerManager := mkPM {
  mode : PowerMode;
  light_sleep_wake : Z;
  deep_sleep_wake : Z;
  gpio_wake_pins : list (option GpioWakeConfig);
  cpu_freq_mhz : Z;
  last_wake_cause : WakeCause;
  total_sleep_us : Z;
  sleep_count : Z
}.

(** ESP_EXT1_WAKEUP_ANY_HIGH, ESP_EXT1_WAKEUP_ALL_LOW. *)
Inductive ext1_mode := ANY_HIGH | ALL_LOW.

(** Calls of the platform. *)
Inductive pm_op :=
  | esp_pm_configure (max_freq_mhz : Z)
  | esp_wifi_set_ps (on : bool)
  | esp_sleep_enable_timer_wakeup (us : Z)
  | esp_sleep_enable_uart_wakeup
  | esp_sleep_enable_ext1_wakeup (mask : Z) (m : ext1_mode)
  | esp_light_sleep_start
  | esp_deep_sleep_start.

(** esp_sleep_wakeup_cause_t; EXT1 comes with esp_sleep_get_ext1_wakeup_status(). *)
Inductive esp_cause :=
  | WAKEUP_UNDEFINED | WAKEUP_TIMER | WAKEUP_EXT0 | WAKEUP_EXT1 (status : Z) | WAKEUP_TOUCHPAD | WAKEUP_ULP
  | WAKEUP_GPIO | WAKEUP_UART | WAKEUP_WIFI | WAKEUP_BT | WAKEUP_OTHER.

(** ** Operations *)

Definition power_manager_new : PowerManager :=
  mkPM POWER_MODE_BALANCED
    (wake_sources_or (wake_sources_or WAKE_SOURCES_TIMER WAKE_SOURCES_GPIO) WAKE_SOURCES_UART)
    (wake_sources_or WAKE_SOURCES_TIMER WAKE_SOURCES_GPIO) (replicate 8 None) 240 wake_cause_power_on 0 0.

(** __builtin_ctzll: the lowest bit that is set, among the 64; C gives it no value at 0. *)
Definition ctz (mask : Z) : nat :=
  default 64%nat (head (filter (fun i => Z.testbit mask (Z.of_nat i) = true) (seq 0 64))).

Definition power_manager_read_wake_cause (cause : esp_cause) : WakeCause :=
  match cause with
  | WAKEUP_UNDEFINED => wake_cause_power_on
  | WAKEUP_TIMER => wake_cause_timer
  | WAKEUP_EXT0 => wake_cause_ext0
  | WAKEUP_EXT1 gpio_mask => wake_cause_gpio (u8 (Z.of_nat (ctz gpio_mask)))
  | WAKEUP_TOUCHPAD => wake_cause_touch
  | WAKEUP_ULP => wake_cause_ulp
  | WAKEUP_GPIO => wake_cause_gpio 0
  | WAKEUP_UART => wake_cause_uart
  | WAKEUP_WIFI => wake_cause_wifi
  | WAKEUP_BT => wake_cause_ble
  | WAKEUP_OTHER => wake_cause_unknown
  end.

Definition valid_frequency (mhz : Z) : bool :=
  (mhz =? 240) || (mhz =? 160) || (mhz =? 80) || (mhz =? 40) || (mhz =? 20) || (mhz =? 10).

(** [ok]: esp_pm_configure succeeds. *)
Definition power_manager_set_cpu_frequency (self : PowerManager) (mhz : Z) (ok : bool)
    : PowerError * PowerManager * list pm_op :=
  if negb (valid_frequency mhz) then (POWER_ERROR_INVALID_FREQUENCY, self, [])
  else if negb ok then (POWER_ERROR_CONFIG_FAILED, self, [esp_pm_configure mhz])
  else
    (POWER_ERROR_OK,
     mkPM (mode self) (light_sleep_wake self) (deep_sleep_wake self) (gpio_wake_pins self) mhz
       (last_wake_cause self) (total_sleep_us self) (sleep_count self), [esp_pm_configure mhz]).

(** Frequency and WiFi power save of a mode; the Bluetooth column is not used. *)
Definition mode_settings (m : PowerMode) : Z * bool :=
  match m with
  | POWER_MODE_PERFORMANCE => (240, false)
  | POWER_MODE_BALANCED => (160, true)
  | POWER_MODE_LOW_POWER => (80, true)
  | POWER_MODE_ULTRA_LOW => (40, true)
  end.

Definition power_manager_apply_mode (self : PowerManager) (ok : bool) : PowerError * PowerManager * list pm_op :=
  let '(cpu_freq, wifi_ps) := mode_settings (mode self) in
  match power_manager_set_cpu_frequency self cpu_freq ok with
  | (POWER_ERROR_OK, self, ops) => (POWER_ERROR_OK, self, ops ++ [esp_wifi_set_ps wifi_ps])
  | (err, self, ops) => (err, self, ops)
  end.

Definition power_manager_init (self : PowerManager) (cause : esp_cause) (ok : bool)
    : PowerError * PowerManager * list pm_op :=
  power_manager_apply_mode
    (mkPM (mode self) (light_sleep_wake self) (deep_sleep_wake self) (gpio_wake_pins self) (cpu_freq_mhz self)
       (power_manager_read_wake_cause cause) (total_sleep_us self) (sleep_count self)) ok.

Definition power_manager_set_mode (self : PowerManager) (m : PowerMode) (ok : bool)
    : PowerError * PowerManager * list pm_op :=
  power_manager_apply_mode
    (mkPM m (light_sleep_wake self) (deep_sleep_wake self) (gpio_wake_pins self) (cpu_freq_mhz self)
       (last_wake_cause self) (total_sleep_us self) (sleep_count self)) ok.

(** The loop over the slots: the first one that is empty or holds the pin. *)
Fixpoint place_pin (config : GpioWakeConfig) (slots : list (option GpioWakeConfig))
    : option (list (option GpioWakeConfig)) :=
  match slots with
  | [] => None
  | None :: rest => Some (Some config :: rest)
  | Some c :: rest =>
      if pin c =? pin config then Some (Some config :: rest)
      else match place_pin config rest with Some rest => Some (Some c :: rest) | None => None end
  end.

Definition with_pins (self : PowerManager) (pins : list (option GpioWakeConfig)) : PowerManager :=
  mkPM (mode self) (light_sleep_wake self) (deep_sleep_wake self) pins (cpu_freq_mhz self)
    (last_wake_cause self) (total_sleep_us self) (sleep_count self).

Definition power_manager_configure_gpio_wake (self : PowerManager) (config : GpioWakeConfig)
    : PowerError * PowerManager :=
  match place_pin config (gpio_wake_pins self) with
  | Some pins => (POWER_ERROR_OK, with_pins self pins)
  | None => (POWER_ERROR_TOO_MANY_WAKE_PINS, self)
  end.

(** One slot of the loop that builds the mask. *)
Definition mask_step (acc : Z * ext1_mode) (slot : option GpioWakeConfig) : Z * ext1_mode :=
  let '(mask, m) := acc in
  match slot with
  | Some cfg =>
      if pin cfg <? 64 then (mask .| (1 .<< pin cfg), if negb (level_high cfg) then ALL_LOW else m)
      else (mask, m)
  | None => (mask, m)
  end.

Definition power_manager_configure_gpio_wake_internal (self : PowerManager) : PowerError * list pm_op :=
  let '(mask, m) := foldl mask_step (0, ANY_HIGH) (gpio_wake_pins self) in
  (POWER_ERROR_OK, if negb (mask =? 0) then [esp_sleep_enable_ext1_wakeup mask m] else []).

(** [ok]: esp_light_sleep_start succeeds; [cause]: what the platform answers after it. The third
    component is what *out_cause gets. *)
Definition power_manager_light_sleep (self : PowerManager) (duration_ms : Z) (ok : bool) (cause : esp_cause)
    : PowerError * PowerManager * option WakeCause * list pm_op :=
  if duration_ms =? 0 then (POWER_ERROR_INVALID_DURATION, self, None, [])
  else
    let duration_us := u64 (duration_ms * 1000) in
    let ops := if wake_sources_has (light_sleep_wake self) WAKE_SOURCES_TIMER
               then [esp_sleep_enable_timer_wakeup duration_us] else [] in
    let ops := ops ++ (if wake_sources_has (light_sleep_wake self) WAKE_SOURCES_UART
                       then [esp_sleep_enable_uart_wakeup] else []) in
    let '(err, gpio) := if wake_sources_has (light_sleep_wake self) WAKE_SOURCES_GPIO
                        then power_manager_configure_gpio_wake_internal self else (POWER_ERROR_OK, []) in
    let ops := ops ++ gpio in
    match err with
    | POWER_ERROR_OK =>
        let ops := ops ++ [esp_light_sleep_start] in
        if negb ok then (POWER_ERROR_SLEEP_FAILED, self, None, ops)
        else
          let cause := power_manager_read_wake_cause cause in
          (POWER_ERROR_OK,
           mkPM (mode self) (light_sleep_wake self) (deep_sleep_wake self) (gpio_wake_pins self) (cpu_freq_mhz self)
             cause (u64 (total_sleep_us self + duration_us)) (u32 (sleep_count self + 1)), Some cause, ops)
    | err => (err, self, None, ops)
    end.

(** Never returns: the calls up to the sleep. *)
Definition power_manager_deep_sleep (self : PowerManager) (duration_us : Z) : list pm_op :=
  let timer := if duration_us <? MIN_DEEP_SLEEP_US then MIN_DEEP_SLEEP_US
               else if MAX_DEEP_SLEEP_US <? duration_us then MAX_DEEP_SLEEP_US else duration_us in
  [esp_sleep_enable_timer_wakeup timer]
  ++ (if wake_sources_has (deep_sleep_wake self) WAKE_SOURCES_GPIO
      then (power_manager_configure_gpio_wake_internal self).2 else [])
  ++ [esp_deep_sleep_start].

Definition power_manager_is_battery_low (voltage_mv : Z) : bool := voltage_mv <? LOW_BATTERY_THRESHOLD_MV.
Definition power_manager_is_battery_critical (voltage_mv : Z) : bool := voltage_mv <? CRITICAL_BATTERY_THRESHOLD_MV.

(** [rtc]: the words of the RTC memory. *)
Definition power_manager_set_rtc_data (rtc : list Z) (slot : nat) (value : Z) : list Z :=
  if (8 <=? slot)%nat then rtc else <[slot := value]> rtc.
Definition power_manager_get_rtc_data (rtc : list Z) (slot : nat) : Z :=
  if (8 <=? slot)%nat then 0 else rtc.[slot].

(** ** Wake-up pins *)

(** The pins as a map from the pin to its active level. *)
Definition to_map (cs : list GpioWakeConfig) : gmap Z bool :=
  list_to_map ((fun c => (pin c, level_high c)) <$> cs).
Definition pin_map (self : PowerManager) : gmap Z bool := to_map (omap id (gpio_wake_pins self)).

(** The slots fill from the front, one per pin. *)
Definition slots_of (cs : list GpioWakeConfig) : list (option GpioWakeConfig) :=
  (Some <$> cs) ++ replicate (8 - length cs) None.
Definition pins_wf (self : PowerManager) : Prop :=
  exists cs, gpio_wake_pins self = slots_of cs /\ NoDup (pin <$> cs) /\ (length cs <= 8)%nat.

Lemma omap_slots cs n : omap id ((Some <$> cs) ++ replicate n (@None GpioWakeConfig)) = cs.
Proof.
  induction cs as [|c cs IH]; [by induction n|]. cbn. f_equal. exact IH.
Qed.

Lemma place_known config cs rest : NoDup (pin <$> cs) -> pin config ∈ pin <$> cs ->
  exists cs', place_pin config ((Some <$> cs) ++ rest) = Some ((Some <$> cs') ++ rest)
    /\ pin <$> cs' = pin <$> cs /\ to_map cs' = <[pin config := level_high config]> (to_map cs).
Proof.
  unfold to_map. induction cs as [|c cs IH]; [by intros _ H%elem_of_nil|]. cbn [fmap list_fmap].
  intros [Hc Hn]%NoDup_cons Hin. cbn [app place_pin]. destruct (Z.eqb_spec (pin c) (pin config)) as [E|E].
  - exists (config :: cs). split; [done|]. cbn. rewrite E. split; [done|]. by rewrite insert_insert_eq.
  - apply elem_of_cons in Hin as [Hin|Hin]; [by rewrite Hin in E|].
    destruct (IH Hn Hin) as (cs' & -> & Hp & Hm). exists (c :: cs'). split; [done|]. cbn. rewrite Hp. split; [done|].
    rewrite Hm. by apply insert_insert_ne.
Qed.

Lemma place_new config cs rest : pin config ∉ pin <$> cs ->
  place_pin config ((Some <$> cs) ++ rest) =
  match place_pin config rest with Some rest => Some ((Some <$> cs) ++ rest) | None => None end.
Proof.
  induction cs as [|c cs IH]; intros Hn; [cbn; by destruct (place_pin config rest)|].
  cbn [fmap list_fmap] in Hn. apply not_elem_of_cons in Hn as [Hc Hn]. cbn [fmap list_fmap app place_pin].
  destruct (Z.eqb_spec (pin c) (pin config)); [congruence|]. rewrite IH by done. by destruct (place_pin config rest).
Qed.

Lemma to_map_snoc config cs : pin config ∉ pin <$> cs ->
  to_map (cs ++ [config]) = <[pin config := level_high config]> (to_map cs).
Proof.
  intros Hn. unfold to_map. rewrite fmap_app. apply list_to_map_snoc. rewrite <- list_fmap_compose. exact Hn.
Qed.

(** The slots implement a map of at most eight pins: a pin that is known or new with a free slot is
    stored with its level, the others keep theirs; a ninth pin is refused and nothing changes. *)
Theorem wake_pins_refine_map self config : pins_wf self ->
  let '(err, self') := power_manager_configure_gpio_wake self config in
  pins_wf self'
  /\ ((err = POWER_ERROR_OK /\ pin_map self' = <[pin config := level_high config]> (pin_map self))
      \/ (err = POWER_ERROR_TOO_MANY_WAKE_PINS /\ self' = self /\ size (pin_map self) = 8%nat
          /\ pin_map self !! pin config = None)).
Proof.
  intros (cs & Hs & Hd & Hl). unfold power_manager_configure_gpio_wake, pin_map. rewrite Hs. unfold slots_of.
  destruct (decide (pin config ∈ pin <$> cs)) as [Hin|Hin].
  - destruct (place_known config cs (replicate (8 - length cs) None) Hd Hin) as (cs' & -> & Hp & Hm).
    assert (length cs' = length cs) as El by (by rewrite <- (length_fmap pin cs'), Hp, length_fmap).
    split; [exists cs'; unfold slots_of; rewrite El, Hp; done|]. left. split; [done|].
    cbn [with_pins gpio_wake_pins]. by rewrite !omap_slots.
  - rewrite place_new by done. destruct (8 - length cs)%nat as [|n] eqn:En; cbn [replicate place_pin].
    + split; [by exists cs|]. right. split; [done|]. split; [done|].
      pose proof (omap_slots cs 0) as Eo. cbn [replicate] in Eo. rewrite Eo. split.
      * unfold to_map. rewrite <- length_map_to_list, map_to_list_to_map by (by rewrite <- list_fmap_compose).
        rewrite length_fmap. lia.
      * apply not_elem_of_list_to_map. by rewrite <- list_fmap_compose.
    + assert ((Some <$> cs) ++ Some config :: replicate n None = (Some <$> (cs ++ [config])) ++ replicate n None) as ->
        by (rewrite fmap_app, <- (app_assoc (Some <$> cs)); reflexivity).
      split.
      * exists (cs ++ [config]). unfold slots_of. rewrite length_app. cbn [length]. split_and!; [|
          rewrite fmap_app; apply NoDup_app; split_and!; [done| |apply NoDup_singleton] | lia].
        { cbn [with_pins gpio_wake_pins]. do 2 f_equal. lia. }
        { intros x Hx Hx'. apply list_elem_of_singleton in Hx'. by subst x. }
      * left. split; [done|]. cbn [with_pins gpio_wake_pins]. rewrite omap_slots, (to_map_snoc config cs Hin).
        change (None :: replicate n None) with (replicate (S n) (@None GpioWakeConfig)). by rewrite omap_slots.
Qed.
Lemma wake_pins_refine_map_witness :
  let '(err, self') := power_manager_configure_gpio_wake power_manager_new (mkPin 14 true) in
  pins_wf self'
  /\ ((err = POWER_ERROR_OK /\ pin_map self' = <[14 := true]> (pin_map power_manager_new))
      \/ (err = POWER_ERROR_TOO_MANY_WAKE_PINS /\ self' = power_manager_new /\ size (pin_map power_manager_new) = 8%nat
          /\ pin_map power_manager_new !! 14 = None)).
Proof.
  apply (wake_pins_refine_map power_manager_new (mkPin 14 true)).
  exists []. split; [reflexivity|]. split; [apply NoDup_nil_2|]. apply (bool_decide_unpack _). vm_compute. exact I.
Defined.

(** ** Waking up *)

(** A slot that wakes by the pin [p], and one whose pin is active low. *)
Definition slot_has (p : Z) (s : option GpioWakeConfig) : bool :=
  match s with Some c => (pin c <? 64) && (pin c =? p) | None => false end.
Definition slot_low (s : option GpioWakeConfig) : bool :=
  match s with Some c => (pin c <? 64) && negb (level_high c) | None => false end.
Definition pin_ok (s : option GpioWakeConfig) : Prop := match s with Some c => 0 <= pin c | None => True end.

Lemma testbit_one_shift k p : 0 <= k -> 0 <= p -> Z.testbit (1 .<< k) p = (k =? p).
Proof. intros Hk Hp. rewrite Z.shiftl_1_l, Z.pow2_bits_eqb by done. done. Qed.

Lemma mask_step_spec mask m s p : pin_ok s -> 0 <= p ->
  Z.testbit (mask_step (mask, m) s).1 p = Z.testbit mask p || slot_has p s
  /\ (mask_step (mask, m) s).2 = if slot_low s then ALL_LOW else m.
Proof.
  intros Hs Hp. destruct s as [c|]; cbn; [|by rewrite orb_false_r].
  destruct (pin c <? 64); cbn; [|by rewrite orb_false_r]. rewrite Z.lor_spec, testbit_one_shift by done. done.
Qed.

Lemma mask_loop slots mask m p : Forall pin_ok slots -> 0 <= p ->
  let r := foldl mask_step (mask, m) slots in
  Z.testbit r.1 p = Z.testbit mask p || existsb (slot_has p) slots
  /\ r.2 = if existsb slot_low slots then ALL_LOW else m.
Proof.
  intros Hf Hp. revert mask m. induction Hf as [|s slots Hs _ IH]; intros mask m; [by rewrite orb_false_r|].
  cbn [foldl existsb]. destruct (mask_step_spec mask m s p Hs Hp) as [E1 E2].
  destruct (mask_step (mask, m) s) as [mask1 m1]. cbn [fst snd] in E1, E2. destruct (IH mask1 m1) as [-> ->].
  rewrite E1, E2, orb_assoc. split; [done|]. by destruct (slot_low s), (existsb slot_low slots).
Qed.

Lemma pow2_ctz p : (p < 64)%nat -> ctz (2 ^ Z.of_nat p) = p.
Proof.
  intros Hp. assert (forallb (fun p => ctz (2 ^ Z.of_nat p) =? p)%nat (seq 0 64) = true) as H by (vm_compute; reflexivity).
  rewrite forallb_forall in H. apply Nat.eqb_eq, H, in_seq. lia.
Qed.

(** Deep sleep arms exactly the configured pins below 64; one pin that is active low makes all of
    them wake only together, on low. A wake by one of those pins is reported as that pin. *)
Theorem wake_pins_armed self : Forall pin_ok (gpio_wake_pins self) ->
  (forall mask m, (power_manager_configure_gpio_wake_internal self).2 = [esp_sleep_enable_ext1_wakeup mask m] ->
     (forall p, 0 <= p -> Z.testbit mask p = existsb (slot_has p) (gpio_wake_pins self))
     /\ m = if existsb slot_low (gpio_wake_pins self) then ALL_LOW else ANY_HIGH)
  /\ ((power_manager_configure_gpio_wake_internal self).2 = [] ->
      forall p, 0 <= p -> existsb (slot_has p) (gpio_wake_pins self) = false)
  /\ forall p, (p < 64)%nat -> power_manager_read_wake_cause (WAKEUP_EXT1 (2 ^ Z.of_nat p)) = wake_cause_gpio (Z.of_nat p).
Proof.
  intros Hf. unfold power_manager_configure_gpio_wake_internal.
  pose proof (fun p => mask_loop (gpio_wake_pins self) 0 ANY_HIGH p Hf) as Hm. cbv zeta in Hm.
  destruct (foldl mask_step (0, ANY_HIGH) (gpio_wake_pins self)) as [mask m]. cbn [fst snd] in *.
  split; [|split].
  - intros mask' m'. destruct (mask =? 0); cbn [negb]; [done|]. intros [= <- <-].
    split; [intros p Hp; destruct (Hm p Hp) as [-> _]; by rewrite Z.bits_0|by destruct (Hm 0)].
  - destruct (Z.eqb_spec mask 0) as [->|]; cbn [negb]; [|done]. intros _ p Hp. destruct (Hm p Hp) as [H _].
    by rewrite Z.bits_0 in H.
  - intros p Hp. cbn [power_manager_read_wake_cause]. rewrite pow2_ctz by done. f_equal. apply u8_small.
    unfold fits. lia.
Qed.
Lemma wake_pins_armed_witness :
  let self := with_pins power_manager_new (slots_of [mkPin 14 true; mkPin 3 false; mkPin 70 true]) in
  (forall mask m, (power_manager_configure_gpio_wake_internal self).2 = [esp_sleep_enable_ext1_wakeup mask m] ->
     (forall p, 0 <= p -> Z.testbit mask p = existsb (slot_has p) (gpio_wake_pins self))
     /\ m = if existsb slot_low (gpio_wake_pins self) then ALL_LOW else ANY_HIGH)
  /\ ((power_manager_configure_gpio_wake_internal self).2 = [] ->
      forall p, 0 <= p -> existsb (slot_has p) (gpio_wake_pins self) = false)
  /\ forall p, (p < 64)%nat -> power_manager_read_wake_cause (WAKEUP_EXT1 (2 ^ Z.of_nat p)) = wake_cause_gpio (Z.of_nat p).
Proof. intros self. apply (wake_pins_armed self). repeat constructor; cbn; lia. Defined.

(** ** Sleep *)

(** Light sleeps one after the other, all of them woken by [cause]. *)
Definition light_sleeps (self : PowerManager) (durations : list Z) (cause : esp_cause) : PowerManager :=
  foldl (fun self d => (power_manager_light_sleep self d true cause).1.1.2) self durations.

Definition total (durations : list Z) : Z := foldr Z.add 0 durations.

Lemma light_sleep_ok self d cause : d <> 0 ->
  let self' := (power_manager_light_sleep self d true cause).1.1.2 in
  sleep_count self' = u32 (sleep_count self + 1) /\ total_sleep_us self' = u64 (total_sleep_us self + u64 (d * 1000)).
Proof.
  intros Hd. unfold power_manager_light_sleep. destruct (Z.eqb_spec d 0); [done|].
  destruct (wake_sources_has (light_sleep_wake self) WAKE_SOURCES_GPIO); [|done].
  unfold power_manager_configure_gpio_wake_internal. by destruct (foldl mask_step _ _).
Qed.

(** The statistics over successful sleeps: their number modulo 2^32, their time in microseconds
    modulo 2^64. A sleep of no time or one the platform refuses leaves them as they are. *)
Theorem sleep_statistics self durations cause d c :
  Forall (fun d => d <> 0) durations -> fits 32 (sleep_count self) -> fits 64 (total_sleep_us self) ->
  let self' := light_sleeps self durations cause in
  sleep_count self' = u32 (sleep_count self + Z.of_nat (length durations))
  /\ total_sleep_us self' = u64 (total_sleep_us self + 1000 * total durations)
  /\ (power_manager_light_sleep self 0 true c).1.1 = (POWER_ERROR_INVALID_DURATION, self)
  /\ (power_manager_light_sleep self d false c).1.1.2 = self.
Proof.
  intros Hd Hc Ht. cbv zeta. split; [|split; [|split; [done|]]].
  - revert self Hc Ht. induction Hd as [|x l Hx _ IH]; intros self Hc Ht; cbn [light_sleeps foldl length].
    + rewrite Z.add_0_r. symmetry. by apply u32_small.
    + destruct (light_sleep_ok self x cause Hx) as [E1 E2]. unfold light_sleeps in IH.
      rewrite IH by (rewrite ?E1, ?E2; auto using fits_u32, fits_u64). rewrite E1. words_lia.
  - revert self Hc Ht. induction Hd as [|x l Hx _ IH]; intros self Hc Ht; cbn [light_sleeps foldl total foldr].
    + rewrite Z.mul_0_r, Z.add_0_r. symmetry. by apply u64_small.
    + destruct (light_sleep_ok self x cause Hx) as [E1 E2]. unfold light_sleeps in IH.
      rewrite IH by (rewrite ?E1, ?E2; auto using fits_u32, fits_u64). rewrite E2. unfold u64, total.
      rewrite Z.add_mod_idemp_l by done. rewrite <- Z.add_assoc, (Z.add_comm (_ mod _)), Z.add_assoc.
      rewrite Z.add_mod_idemp_r by done. f_equal. lia.
  - unfold power_manager_light_sleep. destruct (d =? 0); [done|].
    destruct (wake_sources_has (light_sleep_wake self) WAKE_SOURCES_GPIO); [|done].
    unfold power_manager_configure_gpio_wake_internal. by destruct (foldl mask_step _ _).
Qed.
Lemma sleep_statistics_witness :
  let self' := light_sleeps power_manager_new [100; 0xFFFFFFFF] WAKEUP_TIMER in
  sleep_count self' = u32 (sleep_count power_manager_new + 2)
  /\ total_sleep_us self' = u64 (total_sleep_us power_manager_new + 1000 * total [100; 0xFFFFFFFF])
  /\ (power_manager_light_sleep power_manager_new 0 true WAKEUP_TIMER).1.1 = (POWER_ERROR_INVALID_DURATION, power_manager_new)
  /\ (power_manager_light_sleep power_manager_new 5 false WAKEUP_TIMER).1.1.2 = power_manager_new.
Proof.
  apply (sleep_statistics power_manager_new [100; 0xFFFFFFFF] WAKEUP_TIMER 5 WAKEUP_TIMER);
    apply (bool_decide_unpack _); vm_compute; exact I.
Defined.

(** Deep sleep arms the timer first, inside 1 ms to 24 h and at the asked time when that is in
    the range, and the sleep is the last call. *)
Theorem deep_sleep_order self duration_us :
  exists us ops, power_manager_deep_sleep self duration_us = esp_sleep_enable_timer_wakeup us :: ops ++ [esp_deep_sleep_start]
  /\ 1000 <= us <= 86400000000 /\ (1000 <= duration_us <= 86400000000 -> us = duration_us)
  /\ (ops = [] \/ ops = (power_manager_configure_gpio_wake_internal self).2).
Proof.
  unfold power_manager_deep_sleep, MIN_DEEP_SLEEP_US, MAX_DEEP_SLEEP_US. eexists _, _. split; [reflexivity|].
  destruct (Z.ltb_spec duration_us 1000), (Z.ltb_spec 86400000000 duration_us);
    (split; [lia|]; split; [lia|]); destruct (wake_sources_has _ _); auto.
Qed.

(** Setting a mode: the frequency of the mode on success, a mode with the old frequency and no WiFi
    call on a failure of the platform; an invalid frequency changes nothing. *)
Theorem mode_applied self m mhz ok :
  power_manager_set_mode self m true
    = (POWER_ERROR_OK,
       mkPM m (light_sleep_wake self) (deep_sleep_wake self) (gpio_wake_pins self) (mode_settings m).1
         (last_wake_cause self) (total_sleep_us self) (sleep_count self),
       [esp_pm_configure (mode_settings m).1; esp_wifi_set_ps (mode_settings m).2])
  /\ power_manager_set_mode self m false
    = (POWER_ERROR_CONFIG_FAILED,
       mkPM m (light_sleep_wake self) (deep_sleep_wake self) (gpio_wake_pins self) (cpu_freq_mhz self)
         (last_wake_cause self) (total_sleep_us self) (sleep_count self),
       [esp_pm_configure (mode_settings m).1])
  /\ (power_manager_set_cpu_frequency self mhz ok = (POWER_ERROR_INVALID_FREQUENCY, self, [])
      <-> mhz ∉ [240; 160; 80; 40; 20; 10]).
Proof.
  split; [by destruct m|]. split; [by destruct m|]. unfold power_manager_set_cpu_frequency.
  assert (valid_frequency mhz = true <-> mhz ∈ [240; 160; 80; 40; 20; 10]) as Hv.
  { unfold valid_frequency. rewrite !orb_true_iff, !Z.eqb_eq. rewrite !elem_of_cons, elem_of_nil. tauto. }
  destruct (valid_frequency mhz); cbn [negb].
  - split; [by destruct ok|]. intros Hn. by destruct Hn, Hv as [Hv _]; apply Hv.
  - split; [|done]. intros _ Hin. by apply Hv in Hin.
Qed.

(** The eight words kept across sleep: a write reads back and changes no other; a slot from 8 on
    writes nothing and reads 0. *)
Theorem rtc_data_roundtrip rtc slot slot' value : length rtc = 8%nat ->
  power_manager_get_rtc_data (power_manager_set_rtc_data rtc slot value) slot' =
  if (slot' =? slot)%nat && (slot <? 8)%nat then value else power_manager_get_rtc_data rtc slot'.
Proof.
  intros Hl. unfold power_manager_get_rtc_data, power_manager_set_rtc_data, arr.
  destruct (Nat.leb_spec 8 slot), (Nat.ltb_spec slot 8); try lia; [by rewrite andb_false_r|].
  destruct (Nat.eqb_spec slot' slot) as [->|Hn]; cbn [andb].
  - destruct (Nat.leb_spec 8 slot); [lia|]. rewrite list_lookup_insert_eq by lia. done.
  - by rewrite list_lookup_insert_ne by done.
Qed.
Lemma rtc_data_roundtrip_witness :
  power_manager_get_rtc_data (power_manager_set_rtc_data (replicate 8 0) 3 42) 3 =
  if (3 =? 3)%nat && (3 <? 8)%nat then 42 else power_manager_get_rtc_data (replicate 8 0) 3.
Proof. apply (rtc_data_roundtrip (replicate 8 0) 3 3 42). reflexivity. Defined.
