(* ===== verification/Battery.v ===== *)
(** * Battery and indicator: lunarcore/lunar/battery.c and led_controller.c

    The state of the battery from a reading of the converter, and the blinking light; their data
    and constants are in main.h. The multiplication by the float 4.9f is that of single precision,
    rounded to the nearest and to even. *)
From S2P Require Import Prelude.

(** ** Data *)

Definition ADC_VREF_MV : Z := 3300.
Definition ADC_MAX_VALUE : Z := 4095.
Definition BATTERY_LOW_MV : Z := 3400.
Definition BATTERY_CRITICAL_MV : Z := 3200.
Definition LED_BLINK_IDLE : Z := 2000.
Definition LED_BLINK_ACTIVE : Z := 500.
Definition LED_BLINK_ERROR : Z := 100.

Record BatteryState := mkBattery {
  voltage_mv : Z; percentage : Z; is_charging : bool; is_low : bool; is_critical : bool
}.

Record LedController := mkLed {
  is_on : bool; last_toggle : Z; interval_ms : Z; blink_count : Z; remaining : Z
}.

(** ** The battery *)

Definition battery_state_new : BatteryState := mkBattery 0 0 false false false.

Definition curve : list (Z * Z) :=
  [(4200, 100); (4100, 90); (4000, 80); (3900, 70); (3800, 60); (3700, 50); (3600, 40); (3500, 30); (3400, 20);
   (3300, 10); (3000, 0)].

(** The loop over neighbouring points. *)
Fixpoint interpolate (mv : Z) (points : list (Z * Z)) : Z :=
  match points with
  | (v1, p1) :: (((v2, p2) :: _) as rest) =>
      if (v2 <=? mv) && (mv <=? v1) then
        let v_range := u32 (v1 - v2) in
        let p_range := u8 (p1 - p2) in
        let v_offset := u32 (mv - v2) in
        u8 (p2 + u32 (v_offset * p_range) / v_range)
      else interpolate mv rest
  | _ => 50
  end.

Definition battery_state_voltage_to_percentage (mv : Z) : Z :=
  if 4200 <=? mv then 100
  else if mv <=? 3000 then 0
  else interpolate mv curve.

(** BATTERY_DIVIDER_RATIO: 4.9f is 10276045 / 2^21. *)
Definition RATIO_MANTISSA : Z := 10276045.
Definition RATIO_SHIFT : Z := 21.

(** [(uint32_t)(v * 4.9f)] for a [v] of at most 24 bits: 24 bits of the product are kept. *)
Definition times_ratio (v : Z) : Z :=
  let n := v * RATIO_MANTISSA in
  let e := Z.max 0 (Z.log2 n - 23) in
  let q := n / 2 ^ e in
  let r := n mod 2 ^ e in
  let q := if (2 ^ e <? 2 * r) || ((2 ^ e =? 2 * r) && Z.odd q) then q + 1 else q in
  u32 (q * 2 ^ e / 2 ^ RATIO_SHIFT).

Definition battery_state_update (battery : BatteryState) (adc_value : Z) : BatteryState :=
  let vadc_mv := u32 (adc_value * ADC_VREF_MV) / ADC_MAX_VALUE in
  let voltage := times_ratio vadc_mv in
  mkBattery voltage (battery_state_voltage_to_percentage voltage) (4200 <? voltage)
    (voltage <? BATTERY_LOW_MV) (voltage <? BATTERY_CRITICAL_MV).

(** ** The light *)

Definition led_controller_new : LedController := mkLed false 0 LED_BLINK_IDLE 0 0.
Definition led_controller_set_idle (led : LedController) : LedController :=
  mkLed (is_on led) (last_toggle led) LED_BLINK_IDLE 0 (remaining led).
Definition led_controller_set_active (led : LedController) : LedController :=
  mkLed (is_on led) (last_toggle led) LED_BLINK_ACTIVE 0 (remaining led).
Definition led_controller_set_error (led : LedController) : LedController :=
  mkLed (is_on led) (last_toggle led) LED_BLINK_ERROR 0 (remaining led).
Definition led_controller_flash (led : LedController) (count : Z) : LedController :=
  mkLed (is_on led) (last_toggle led) 100 count (u8 (count * 2)).

(** [true]: the light changed. *)
Definition led_controller_update (led : LedController) (current_time : Z) : bool * LedController :=
  let elapsed := u32 (current_time - last_toggle led) in
  if interval_ms led <=? elapsed then
    if 0 <? blink_count led then
      if 0 <? remaining led then
        (true, mkLed (negb (is_on led)) current_time (interval_ms led) (blink_count led) (u8 (remaining led - 1)))
      else (false, led_controller_set_idle (mkLed (is_on led) current_time (interval_ms led) (blink_count led) (remaining led)))
    else (true, mkLed (negb (is_on led)) current_time (interval_ms led) (blink_count led) (remaining led))
  else (false, led).

Definition lunar_core_update_battery (battery : BatteryState) (led : LedController) (adc_value : Z)
    : BatteryState * LedController :=
  let battery := battery_state_update battery adc_value in
  (battery, if is_critical battery then led_controller_set_error led else led).

(** ** The charge curve *)

Definition percent_of (mv : Z) : Z :=
  if 4200 <=? mv then 100 else if mv <=? 3000 then 0
  else if 3300 <=? mv then (mv - 3200) / 10 else (mv - 3000) / 30.

Lemma interpolate_cons mv v1 p1 v2 p2 rest : mv <= v1 -> v1 - v2 < 1000 -> 0 < v1 - v2 -> 0 <= p1 - p2 < 101 -> 0 <= p2 <= 100 ->
  interpolate mv ((v1, p1) :: (v2, p2) :: rest) =
  if v2 <=? mv then u8 (p2 + (mv - v2) * (p1 - p2) / (v1 - v2)) else interpolate mv ((v2, p2) :: rest).
Proof.
  intros H1 H2 H3 H4 H5. cbn [interpolate]. destruct (Z.leb_spec v2 mv); cbn [andb]; [|done].
  destruct (Z.leb_spec mv v1); [|lia]. rewrite (u32_small (mv - v2)), (u8_small (p1 - p2)), (u32_small (v1 - v2)) by (unfold fits; lia).
  rewrite u32_small by (unfold fits; nia). done.
Qed.

Lemma percentage_eq mv : 0 <= mv -> battery_state_voltage_to_percentage mv = percent_of mv.
Proof.
  intros Hmv. unfold battery_state_voltage_to_percentage, percent_of, curve.
  destruct (Z.leb_spec 4200 mv), (Z.leb_spec mv 3000); try done.
  repeat (rewrite interpolate_cons by lia;
    match goal with |- (if ?a <=? mv then _ else _) = _ => destruct (Z.leb_spec a mv) end;
    [destruct (Z.leb_spec 3300 mv); unfold u8; Z.to_euclidean_division_equations; lia|]).
  lia.
Qed.

(** The percentage is the curve in two straight parts: a point per 10 mV from 3.3 V to 4.2 V, a point
    per 30 mV below; it never falls when the voltage rises and never leaves 0..100. The value after
    the loop is never returned. *)
Theorem percentage_curve mv mv' : 0 <= mv <= mv' ->
  battery_state_voltage_to_percentage mv = percent_of mv
  /\ 0 <= battery_state_voltage_to_percentage mv
  /\ battery_state_voltage_to_percentage mv <= battery_state_voltage_to_percentage mv'
  /\ battery_state_voltage_to_percentage mv' <= 100.
Proof.
  intros H. rewrite !percentage_eq by lia. split; [done|]. unfold percent_of.
  destruct (Z.leb_spec 4200 mv), (Z.leb_spec 4200 mv'), (Z.leb_spec mv 3000), (Z.leb_spec mv' 3000),
    (Z.leb_spec 3300 mv), (Z.leb_spec 3300 mv'); Z.to_euclidean_division_equations; lia.
Qed.
Lemma percentage_curve_witness :
  battery_state_voltage_to_percentage 3455 = percent_of 3455
  /\ 0 <= battery_state_voltage_to_percentage 3455
  /\ battery_state_voltage_to_percentage 3455 <= battery_state_voltage_to_percentage 3800
  /\ battery_state_voltage_to_percentage 3800 <= 100.
Proof. apply (percentage_curve 3455 3800). lia. Defined.

(** ** The reading *)

Lemma times_ratio_exact v : 0 <= v <= 3300 -> times_ratio v = v * 49 / 10.
Proof.
  intros Hv. assert (forallb (fun n => times_ratio (Z.of_nat n) =? Z.of_nat n * 49 / 10) (seq 0 3301) = true) as H
    by (vm_compute; reflexivity).
  rewrite forallb_forall in H. specialize (H (Z.to_nat v) ltac:(apply in_seq; lia)).
  apply Z.eqb_eq in H. by rewrite Z2Nat.id in H by lia.
Qed.

(** A reading of the 12-bit converter: the voltage is 4.9 times the voltage at the pin, rounded down,
    as exact arithmetic gives it; the flags follow from it, at most one step apart: a critical
    battery is low, a charging one is not low and is full. *)
Theorem battery_reading battery adc : 0 <= adc <= ADC_MAX_VALUE ->
  let b := battery_state_update battery adc in
  voltage_mv b = (adc * 3300 / 4095) * 49 / 10
  /\ 0 <= percentage b <= 100
  /\ (is_critical b = true -> is_low b = true /\ percentage b < 20)
  /\ (is_charging b = true -> is_low b = false /\ percentage b = 100).
Proof.
  intros Ha. unfold ADC_MAX_VALUE in Ha. cbv zeta. unfold battery_state_update, ADC_VREF_MV, ADC_MAX_VALUE.
  rewrite u32_small by (unfold fits; lia).
  assert (0 <= adc * 3300 / 4095 <= 3300) as Hv by (Z.to_euclidean_division_equations; lia).
  rewrite times_ratio_exact by done. cbn [voltage_mv percentage is_critical is_low is_charging].
  assert (0 <= adc * 3300 / 4095 * 49 / 10) as Hn by (apply Z.div_pos; lia).
  generalize dependent (adc * 3300 / 4095 * 49 / 10). intros mv Hn. rewrite percentage_eq by done.
  unfold percent_of, BATTERY_LOW_MV, BATTERY_CRITICAL_MV.
  split; [done|]. destruct (Z.leb_spec 4200 mv), (Z.leb_spec mv 3000), (Z.leb_spec 3300 mv), (Z.ltb_spec mv 3200),
    (Z.ltb_spec mv 3400), (Z.ltb_spec 4200 mv); split_and!; try done; try lia; try (intros; split; done || lia);
    Z.to_euclidean_division_equations; lia.
Qed.
Lemma battery_reading_witness :
  let b := battery_state_update battery_state_new 900 in
  voltage_mv b = (900 * 3300 / 4095) * 49 / 10
  /\ 0 <= percentage b <= 100
  /\ (is_critical b = true -> is_low b = true /\ percentage b < 20)
  /\ (is_charging b = true -> is_low b = false /\ percentage b = 100).
Proof. apply (battery_reading battery_state_new 900). unfold ADC_MAX_VALUE. lia. Defined.

(** ** Blinking *)

(** The updates at the times [ts]; the changes of the light. *)
Fixpoint led_run (led : LedController) (ts : list Z) : list bool * LedController :=
  match ts with
  | [] => ([], led)
  | t :: ts =>
      let '(b, led) := led_controller_update led t in
      let '(bs, led) := led_run led ts in (b :: bs, led)
  end.

(** The times are [step] or more apart, across the wrap of the millisecond counter too. *)
Fixpoint apart (step last : Z) (ts : list Z) : Prop :=
  match ts with
  | [] => True
  | t :: ts => step <= u32 (t - last) /\ apart step t ts
  end.

Lemma apart_snoc step last ts t : apart step last (ts ++ [t]) <->
  apart step last ts /\ step <= u32 (t - List.last ts last).
Proof.
  revert last. induction ts as [|x ts IH]; intros last; [cbn; tauto|]. rewrite last_cons_default.
  cbn [app apart]. rewrite IH. tauto.
Qed.

Lemma led_run_app led ts ts' : led_run led (ts ++ ts') =
  let '(bs, led) := led_run led ts in let '(bs', led) := led_run led ts' in (bs ++ bs', led).
Proof.
  revert led. induction ts as [|t ts IH]; intros led; cbn [app led_run]; [by destruct (led_run led ts')|].
  destruct (led_controller_update led t) as [b led1]. rewrite IH. destruct (led_run led1 ts) as [bs led2].
  by destruct (led_run led2 ts').
Qed.

Lemma led_toggles led ts : 0 < blink_count led -> remaining led = Z.of_nat (length ts) -> remaining led < 256 ->
  apart (interval_ms led) (last_toggle led) ts ->
  led_run led ts = (replicate (length ts) true,
    mkLed (if Nat.even (length ts) then is_on led else negb (is_on led)) (List.last ts (last_toggle led)) (interval_ms led)
      (blink_count led) 0).
Proof.
  revert led. induction ts as [|t ts IH]; intros led Hb Hr Hm Ha.
  - cbn in *. destruct led. cbn in *. by subst.
  - cbn [apart] in Ha. destruct Ha as [Ht Ha]. cbn [led_run]. unfold led_controller_update.
    destruct (Z.leb_spec (interval_ms led) (u32 (t - last_toggle led))); [|lia].
    destruct (Z.ltb_spec 0 (blink_count led)); [|lia]. cbn [length] in Hr.
    destruct (Z.ltb_spec 0 (remaining led)); [|lia].
    rewrite IH; cbn [blink_count remaining interval_ms last_toggle is_on]; try done.
    + cbn [length replicate]. f_equal. f_equal.
      * rewrite Nat.even_succ, <- Nat.negb_even. destruct (Nat.even (length ts)); cbn; [done|by rewrite negb_involutive].
      * by rewrite last_cons_default.
    + rewrite u8_small by (unfold fits; lia). lia.
    + rewrite u8_small by (unfold fits; lia). lia.
Qed.

(** A flash of [count] blinks, up to 127: that many changes of the light on and off, 100 ms or more
    apart; the light ends as it began, and the next update changes nothing and goes back to the idle
    rhythm. From 128 on the 8-bit counter of changes wraps. *)
Theorem led_flash_sequence led count ts t : 0 < count < 256 -> Z.of_nat (length ts) = u8 (count * 2) ->
  apart 100 (last_toggle led) (ts ++ [t]) ->
  led_run (led_controller_flash led count) (ts ++ [t])
  = (replicate (length ts) true ++ [false], mkLed (is_on led) t LED_BLINK_IDLE 0 0)
  /\ (count <= 127 -> Z.of_nat (length ts) = 2 * count).
Proof.
  intros Hc Hl Ha. split; [|intros; rewrite u8_small in Hl by (unfold fits; lia); lia].
  apply apart_snoc in Ha as [Ha Ht]. rewrite led_run_app, led_toggles; cbn [led_controller_flash blink_count remaining
    interval_ms last_toggle is_on]; try done; [|lia|rewrite <- Hl; rewrite Hl; apply fits_u8].
  assert (Nat.even (length ts) = true) as ->.
  { apply Nat.even_spec. exists (Z.to_nat (u8 (count * 2) / 2)). unfold u8 in *.
    Z.to_euclidean_division_equations. lia. }
  cbn [led_run led_controller_update last_toggle interval_ms blink_count remaining].
  unfold led_controller_update. cbn [last_toggle interval_ms blink_count remaining].
  destruct (Z.leb_spec 100 (u32 (t - List.last ts (last_toggle led)))); [|lia].
  destruct (Z.ltb_spec 0 count); [done|lia].
Qed.
Lemma led_flash_sequence_witness :
  led_run (led_controller_flash led_controller_new 2) ([150; 250; 380; 500] ++ [600])
  = (replicate 4 true ++ [false], mkLed (is_on led_controller_new) 600 LED_BLINK_IDLE 0 0)
  /\ (2 <= 127 -> Z.of_nat 4 = 2 * 2).
Proof.
  apply (led_flash_sequence led_controller_new 2 [150; 250; 380; 500] 600); [lia|reflexivity|].
  cbn [app apart]. repeat split; vm_compute; discriminate.
Defined.

(** A critical battery makes the light blink fast; otherwise its rhythm is left as it is. *)
Theorem critical_battery_blinks battery led adc :
  let '(b, led') := lunar_core_update_battery battery led adc in
  b = battery_state_update battery adc
  /\ interval_ms led' = (if voltage_mv b <? 3200 then 100 else interval_ms led)
  /\ is_on led' = is_on led /\ last_toggle led' = last_toggle led.
Proof.
  unfold lunar_core_update_battery. split; [done|].
  change (is_critical (battery_state_update battery adc)) with (voltage_mv (battery_state_update battery adc) <? 3200).
  by destruct (_ <? 3200).
Qed.
