(* ===== verification/Text.v ===== *)
(** * Numbers as text: lunarcore/lunar/main.c and uart_helpers.c

    The decimal and hexadecimal output of the serial console and the two readers of numbers in AT
    commands: main.c and uart_helpers.c define them under the same names, and not the same.
    [int32_t] sums wrap. *)
From S2P Require Import Prelude.

(** ** Writing *)

(** The loop that takes the digits off, lowest first; ten turns are enough for 32 bits. *)
Fixpoint digits (fuel : nat) (val : Z) : list Z :=
  match fuel with
  | O => []
  | S fuel => if 0 <? val then u8 (48 + val mod 10) :: digits fuel (val / 10) else []
  end.

Definition write_u32_to_buf (val : Z) : list Z :=
  if val =? 0 then [48] else reverse (digits 10 val).

(** "Battery: ", "mV (", "%)". *)
Definition format_battery (voltage_mv percentage : Z) : list Z :=
  [66; 97; 116; 116; 101; 114; 121; 58; 32] ++ write_u32_to_buf voltage_mv ++ [109; 86; 32; 40]
  ++ write_u32_to_buf percentage ++ [37; 41].

Definition write_i16 (val : Z) : list Z :=
  if val <? 0 then [45] ++ write_u32_to_buf (u32 (- val)) else write_u32_to_buf val.

(** "0123456789ABCDEF" *)
Definition HEX : list Z := [48; 49; 50; 51; 52; 53; 54; 55; 56; 57; 65; 66; 67; 68; 69; 70].

Definition write_hex8 (val : Z) : list Z := [HEX.[Z.to_nat (val .>> 4)]; HEX.[Z.to_nat (val .& 0xF)]].
Definition write_hex32 (val : Z) : list Z :=
  (fun k => HEX.[Z.to_nat ((val .>> (4 * Z.of_nat (7 - k))) .& 0xF)]) <$> seq 0 8.

(** ** Reading, main.c *)

Definition is_digit (b : Z) : bool := (48 <=? b) && (b <=? 57).

Fixpoint parse_u32_loop (bytes : list Z) (result : Z) (found_digit : bool) : option Z :=
  match bytes with
  | [] => if found_digit then Some result else None
  | b :: bytes =>
      if is_digit b then parse_u32_loop bytes (u32 (result * 10 + (b - 48))) true
      else if found_digit then Some result
      else parse_u32_loop bytes result found_digit
  end.

Definition parse_u32_from_cmd (bytes : list Z) : option Z := parse_u32_loop bytes 0 false.

Definition parse_i8_end (result : Z) (negative found_digit : bool) : option Z :=
  if found_digit then
    let val := if negative then i32 (- result) else result in
    if (-128 <=? val) && (val <=? 127) then Some val else None
  else None.

Fixpoint parse_i8_loop (bytes : list Z) (result : Z) (negative found_digit started : bool) : option Z :=
  match bytes with
  | [] => parse_i8_end result negative found_digit
  | b :: bytes =>
      if (b =? 45) && negb started then parse_i8_loop bytes result true found_digit true
      else if is_digit b then parse_i8_loop bytes (i32 (result * 10 + (b - 48))) negative true true
      else if found_digit then parse_i8_end result negative found_digit
      else parse_i8_loop bytes result negative found_digit started
  end.

Definition parse_i8_from_cmd (bytes : list Z) : option Z := parse_i8_loop bytes 0 false false false.

(** ** Reading, uart_helpers.c *)

Definition is_end (b : Z) : bool := (b =? 13) || (b =? 10) || (b =? 0).

Fixpoint helper_u32_loop (cmd : list Z) (result : Z) : option Z :=
  match cmd with
  | [] => Some result
  | b :: cmd =>
      if is_digit b then helper_u32_loop cmd (u32 (u32 (result * 10) + (b - 48)))
      else if is_end b then Some result
      else None
  end.

Definition helper_parse_u32_from_cmd (cmd : list Z) : option Z := helper_u32_loop cmd 0.

Definition helper_i8_end (value : Z) (negative : bool) : option Z :=
  let value := if negative then i32 (- value) else value in
  if (value <? -128) || (127 <? value) then None else Some (i8 value).

Fixpoint helper_i8_loop (cmd : list Z) (value : Z) (negative : bool) : option Z :=
  match cmd with
  | [] => helper_i8_end value negative
  | b :: cmd =>
      if is_digit b then helper_i8_loop cmd (i32 (value * 10 + (b - 48))) negative
      else if is_end b then helper_i8_end value negative
      else None
  end.

Definition helper_parse_i8_from_cmd (cmd : list Z) : option Z :=
  match cmd with
  | b :: rest => if b =? 45 then helper_i8_loop rest 0 true else helper_i8_loop cmd 0 false
  | [] => helper_i8_loop cmd 0 false
  end.

(** ** Decimal numbers *)

(** The value of a string of digits, from [acc] on. *)
Definition decimal (acc : Z) (l : list Z) : Z := foldl (fun v b => v * 10 + (b - 48)) acc l.

Definition all_digits (l : list Z) : Prop := Forall (fun b => is_digit b = true) l.

Lemma decimal_app acc a b : decimal acc (a ++ b) = decimal (decimal acc a) b.
Proof. apply foldl_app. Qed.

Lemma digits_ok fuel v : 0 <= v < 10 ^ Z.of_nat fuel ->
  all_digits (digits fuel v) /\ decimal 0 (reverse (digits fuel v)) = v.
Proof.
  revert v. induction fuel as [|fuel IH]; intros v Hv; [cbn in *; split; [constructor|cbn; lia]|].
  rewrite Nat2Z.inj_succ, Z.pow_succ_r in Hv by lia. cbn [digits]. destruct (Z.ltb_spec 0 v); [|split; [constructor|cbn; lia]].
  pose proof (Z.mod_pos_bound v 10 ltac:(lia)). destruct (IH (v / 10)) as [H1 H2].
  { split; [apply Z.div_pos; lia|apply Z.div_lt_upper_bound; lia]. }
  rewrite u8_small by (unfold fits; lia). split.
  - constructor; [|exact H1]. unfold is_digit. apply andb_true_iff. split; apply Z.leb_le; lia.
  - rewrite reverse_cons, decimal_app, H2. cbn. rewrite (Z.div_mod v 10) at 3 by lia. lia.
Qed.

Lemma length_digits fuel v : (length (digits fuel v) <= fuel)%nat.
Proof. revert v. induction fuel as [|fuel IH]; intros v; cbn; [lia|]. destruct (0 <? v); cbn; [specialize (IH (v / 10)); lia|lia]. Qed.

Lemma write_u32_ok v : fits 32 v ->
  all_digits (write_u32_to_buf v) /\ decimal 0 (write_u32_to_buf v) = v
  /\ (1 <= length (write_u32_to_buf v) <= 10)%nat.
Proof.
  intros Hv. unfold write_u32_to_buf. destruct (Z.eqb_spec v 0) as [->|Hn].
  - split; [by repeat constructor|]. split; [done|cbn; lia].
  - destruct (digits_ok 10 v) as [H1 H2]; [unfold fits in Hv; cbn; lia|].
    split; [by apply Forall_reverse|]. split; [done|]. rewrite length_reverse. pose proof (length_digits 10 v).
    split; [|done]. destruct (digits 10 v) eqn:E; [|cbn; lia]. cbn in H2. lia.
Qed.

Lemma u32_step v b : is_digit b = true -> u32 (u32 v * 10 + (b - 48)) = u32 (v * 10 + (b - 48)).
Proof. intros _. unfold u32. rewrite Z.add_mod, Z.mul_mod_idemp_l, <- Z.add_mod by done. done. Qed.

Lemma parse_u32_digits l rest acc found : all_digits l -> (length l <> 0%nat \/ found = true) ->
  (match rest with [] => True | b :: _ => is_digit b = false end) ->
  parse_u32_loop (l ++ rest) (u32 acc) found = Some (u32 (decimal acc l)).
Proof.
  intros Hl. revert acc found. induction Hl as [|b l Hb _ IH]; intros acc found Hf Hr.
  - destruct Hf as [Hf| ->]; [done|]. cbn [app]. destruct rest as [|b rest]; cbn [parse_u32_loop]; [done|]. by rewrite Hr.
  - cbn [app parse_u32_loop]. rewrite Hb, u32_step by done. apply IH; [by right|done].
Qed.

Lemma helper_u32_digits l rest acc : all_digits l ->
  helper_u32_loop (l ++ rest) (u32 acc) = helper_u32_loop rest (u32 (decimal acc l)).
Proof.
  intros Hl. revert acc. induction Hl as [|b l Hb _ IH]; intros acc; [done|].
  cbn [app helper_u32_loop]. rewrite Hb.
  assert (u32 (u32 (u32 acc * 10) + (b - 48)) = u32 (acc * 10 + (b - 48))) as ->; [|apply IH].
  unfold u32. rewrite Z.add_mod_idemp_l, (Z.add_mod (acc mod _ * 10)), Z.mul_mod_idemp_l, <- Z.add_mod by done. done.
Qed.

(** A number written in decimal takes one to ten bytes and is read back by both readers; a longer
    number is read modulo 2^32, without an error. *)
Theorem decimal_roundtrip v l : fits 32 v -> all_digits l -> (0 < length l)%nat ->
  (1 <= length (write_u32_to_buf v) <= 10)%nat
  /\ parse_u32_from_cmd (write_u32_to_buf v) = Some v
  /\ helper_parse_u32_from_cmd (write_u32_to_buf v) = Some v
  /\ parse_u32_from_cmd l = Some (decimal 0 l mod 2 ^ 32)
  /\ helper_parse_u32_from_cmd l = Some (decimal 0 l mod 2 ^ 32).
Proof.
  intros Hv Hl Hn. destruct (write_u32_ok v Hv) as (H1 & H2 & H3). split; [exact H3|].
  assert (forall l, all_digits l -> (0 < length l)%nat ->
    parse_u32_from_cmd l = Some (u32 (decimal 0 l)) /\ helper_parse_u32_from_cmd l = Some (u32 (decimal 0 l))) as Hr.
  { clear. intros l Hl Hn. unfold parse_u32_from_cmd, helper_parse_u32_from_cmd. split.
    - rewrite <- (app_nil_r l) at 1. apply (parse_u32_digits l [] 0 false); [done|left; lia|done].
    - rewrite <- (app_nil_r l) at 1. exact (helper_u32_digits l [] 0 Hl). }
  destruct (Hr _ H1 ltac:(lia)) as [-> ->]. destruct (Hr l Hl Hn) as [-> ->]. rewrite H2, u32_small by done. by split_and!.
Qed.
Lemma decimal_roundtrip_witness :
  (1 <= length (write_u32_to_buf 915000000) <= 10)%nat
  /\ parse_u32_from_cmd (write_u32_to_buf 915000000) = Some 915000000
  /\ helper_parse_u32_from_cmd (write_u32_to_buf 915000000) = Some 915000000
  /\ parse_u32_from_cmd [52; 50; 57; 52; 57; 54; 55; 50; 57; 55] = Some (decimal 0 [52; 50; 57; 52; 57; 54; 55; 50; 57; 55] mod 2 ^ 32)
  /\ helper_parse_u32_from_cmd [52; 50; 57; 52; 57; 54; 55; 50; 57; 55]
     = Some (decimal 0 [52; 50; 57; 52; 57; 54; 55; 50; 57; 55] mod 2 ^ 32).
Proof. apply decimal_roundtrip; [unfold fits; lia|by repeat constructor|cbn; lia]. Defined.

(** The readers differ: main.c skips what stands before the digits and refuses an empty number,
    uart_helpers.c refuses the first and reads 0 for the second. *)
Theorem readers_differ :
  parse_u32_from_cmd [32; 49; 50] = Some 12 /\ helper_parse_u32_from_cmd [32; 49; 50] = None
  /\ parse_u32_from_cmd [] = None /\ helper_parse_u32_from_cmd [] = Some 0
  /\ parse_u32_from_cmd [49; 50; 120] = Some 12 /\ helper_parse_u32_from_cmd [49; 50; 120] = None.
Proof. by split_and!. Qed.

(** ** Signed numbers *)

Lemma decimal_mono l acc : all_digits l -> 0 <= acc -> acc <= decimal acc l.
Proof.
  intros Hl. revert acc. induction Hl as [|b l Hb _ IH]; intros acc Ha; [cbn; lia|]. cbn [decimal foldl].
  unfold is_digit in Hb. apply andb_true_iff in Hb as [Hb _]. apply Z.leb_le in Hb.
  change (acc <= decimal (acc * 10 + (b - 48)) l). specialize (IH (acc * 10 + (b - 48))). lia.
Qed.

Lemma parse_i8_digits l acc neg found started : all_digits l -> (length l <> 0%nat \/ found = true) -> (started = true \/ found = true \/ length l <> 0%nat) ->
  0 <= acc -> decimal acc l < 0x80000000 ->
  parse_i8_loop l acc neg found started = parse_i8_end (decimal acc l) neg true.
Proof.
  intros Hl. revert acc found started. induction Hl as [|b l Hb Hl' IH]; intros acc found started Hf Hs Ha Hd.
  - destruct Hf as [Hf| ->]; [done|]. reflexivity.
  - cbn [parse_i8_loop]. assert ((b =? 45) = false) as ->.
    { unfold is_digit in Hb. apply andb_true_iff in Hb as [Hb _]. apply Z.leb_le in Hb. apply Z.eqb_neq. lia. }
    cbn [andb]. rewrite Hb. cbn [decimal foldl] in Hd. change (decimal (acc * 10 + (b - 48)) l < 0x80000000) in Hd.
    assert (0 <= acc * 10 + (b - 48)) as Hp.
    { unfold is_digit in Hb. apply andb_true_iff in Hb as [Hb _]. apply Z.leb_le in Hb. lia. }
    pose proof (decimal_mono l _ Hl' Hp). rewrite i32_small by lia. apply IH; auto.
Qed.

Lemma helper_i8_digits l acc neg : all_digits l -> 0 <= acc -> decimal acc l < 0x80000000 ->
  helper_i8_loop l acc neg = helper_i8_end (decimal acc l) neg.
Proof.
  intros Hl. revert acc. induction Hl as [|b l Hb Hl' IH]; intros acc Ha Hd; [done|].
  cbn [helper_i8_loop]. rewrite Hb. cbn [decimal foldl] in Hd. change (decimal (acc * 10 + (b - 48)) l < 0x80000000) in Hd.
  assert (0 <= acc * 10 + (b - 48)) as Hp.
  { unfold is_digit in Hb. apply andb_true_iff in Hb as [Hb _]. apply Z.leb_le in Hb. lia. }
  pose proof (decimal_mono l _ Hl' Hp). rewrite i32_small by lia. by apply IH.
Qed.

(** A signed number as the console prints it is read back by both readers when it fits eight bits
    and refused otherwise, also the least 16-bit number. *)
Theorem signed_roundtrip v : -0x8000 <= v < 0x8000 ->
  let r := if (-128 <=? v) && (v <=? 127) then Some v else None in
  parse_i8_from_cmd (write_i16 v) = r /\ helper_parse_i8_from_cmd (write_i16 v) = r.
Proof.
  intros Hv. cbv zeta. unfold write_i16, parse_i8_from_cmd.
  assert (exists m, fits 32 m /\ m = Z.abs v) as (m & Hm & Em) by (exists (Z.abs v); unfold fits; split; lia).
  destruct (write_u32_ok m Hm) as (H1 & H2 & H3). destruct (Z.ltb_spec v 0) as [Hn|Hn].
  - rewrite u32_small by (unfold fits; lia). replace (- v) with m by lia.
    cbn [app parse_i8_loop helper_parse_i8_from_cmd Z.eqb Pos.eqb andb negb].
    rewrite parse_i8_digits, helper_i8_digits, H2 by (try done; try lia; auto; left; lia).
    unfold parse_i8_end, helper_i8_end. rewrite i32_small by lia. replace (- m) with v by lia.
    destruct (Z.leb_spec (-128) v), (Z.leb_spec v 127), (Z.ltb_spec v (-128)), (Z.ltb_spec 127 v); try lia; cbn; split; try done.
    f_equal. words_lia.
  - replace v with m by lia. rewrite parse_i8_digits, H2 by (try done; try lia; auto; left; lia).
    assert (helper_parse_i8_from_cmd (write_u32_to_buf m) = helper_i8_end m false) as ->.
    { destruct (write_u32_to_buf m) as [|b l] eqn:E; [cbn in H3; lia|]. unfold helper_parse_i8_from_cmd.
      assert ((b =? 45) = false) as ->.
      { apply Forall_cons in H1 as [Hb _]. unfold is_digit in Hb. apply andb_true_iff in Hb as [Hb _]. apply Z.leb_le in Hb. apply Z.eqb_neq. lia. }
      rewrite helper_i8_digits, H2 by (done || lia). done. }
    unfold parse_i8_end, helper_i8_end.
    destruct (Z.leb_spec (-128) m), (Z.leb_spec m 127), (Z.ltb_spec m (-128)), (Z.ltb_spec 127 m); try lia; cbn; split; try done.
    f_equal. words_lia.
Qed.
Lemma signed_roundtrip_witness :
  let r := if (-128 <=? -87) && (-87 <=? 127) then Some (-87) else None in
  parse_i8_from_cmd (write_i16 (-87)) = r /\ helper_parse_i8_from_cmd (write_i16 (-87)) = r.
Proof. apply (signed_roundtrip (-87)). lia. Defined.

(** ** The battery line and hexadecimal *)

(** The battery's line fits the 32 bytes of its callers with its terminator. *)
Theorem battery_line_fits voltage_mv percentage : fits 32 voltage_mv -> fits 8 percentage ->
  (length (format_battery voltage_mv percentage) + 1 <= 32)%nat.
Proof.
  intros Hv Hp. destruct (write_u32_ok voltage_mv Hv) as (_ & _ & H1).
  assert (length (write_u32_to_buf percentage) <= 3)%nat as H2.
  { assert (forallb (fun p => (length (write_u32_to_buf (Z.of_nat p)) <=? 3)%nat) (seq 0 256) = true) as H by (vm_compute; reflexivity).
    rewrite forallb_forall in H. unfold fits in Hp. specialize (H (Z.to_nat percentage) ltac:(apply in_seq; lia)).
    apply Nat.leb_le in H. by rewrite Z2Nat.id in H by lia. }
  unfold format_battery. rewrite !length_app. cbn [length]. lia.
Qed.
Lemma battery_line_fits_witness : (length (format_battery 3700 50) + 1 <= 32)%nat.
Proof. apply battery_line_fits; unfold fits; lia. Defined.

Definition hex_value (b : Z) : Z := if b <? 65 then b - 48 else b - 55.
Definition hexadecimal (l : list Z) : Z := foldl (fun v b => v * 16 + hex_value b) 0 l.

Lemma hex_digit n : 0 <= n < 16 -> hex_value HEX.[Z.to_nat n] = n.
Proof.
  intros Hn. assert (forallb (fun k => hex_value HEX.[k] =? Z.of_nat k) (seq 0 16) = true) as H by (vm_compute; reflexivity).
  rewrite forallb_forall in H. specialize (H (Z.to_nat n) ltac:(apply in_seq; lia)). apply Z.eqb_eq in H.
  by rewrite Z2Nat.id in H by lia.
Qed.

(** Hexadecimal output holds the number, in two or eight digits. *)
Theorem hexadecimal_roundtrip v w : fits 8 v -> fits 32 w ->
  hexadecimal (write_hex8 v) = v /\ hexadecimal (write_hex32 w) = w.
Proof.
  intros Hv Hw. assert (forall x k, 0 <= x -> 0 <= k -> hex_value HEX.[Z.to_nat ((x .>> k) .& 0xF)] = (x / 2 ^ k) mod 16) as Hd.
  { intros x k Hx Hk. change 0xF with (Z.ones 4). rewrite Z.land_ones, Z.shiftr_div_pow2 by lia. apply hex_digit.
    apply Z.mod_pos_bound. lia. }
  unfold fits in *. split.
  - unfold hexadecimal, write_hex8. cbn [foldl]. change (HEX.[Z.to_nat (v .& 15)]) with (HEX.[Z.to_nat ((v .>> 0) .& 15)]).
    rewrite Hd by lia. rewrite Z.shiftr_div_pow2 by lia. rewrite hex_digit by (Z.to_euclidean_division_equations; lia).
    Z.to_euclidean_division_equations. lia.
  - unfold hexadecimal, write_hex32. cbn [seq fmap list_fmap foldl Nat.sub Z.of_nat]. rewrite !Hd by lia.
    Z.to_euclidean_division_equations. lia.
Qed.
Lemma hexadecimal_roundtrip_witness :
  hexadecimal (write_hex8 0xC3) = 0xC3 /\ hexadecimal (write_hex32 0xDEADBEEF) = 0xDEADBEEF.
Proof. apply hexadecimal_roundtrip; unfold fits; lia. Defined.
