(* ===== verification/Core.v ===== *)
(** * The firmware's core: lunarcore/lunar/main.c

    What main.c does with the modules: a byte from the host goes to the detector of
    protocol_router.c until it knows the protocol, then to that protocol's parser; each frame is
    carried out on the radio and answered on the serial port; a packet from the radio goes to the
    host in its protocol. The driver of the radio is outside: its answers are the record
    [Answers] and the calls the list of outputs. main.c is not a program that compiles: it calls the
    modules under short names ([protocol_build_tx_done] for [build_tx_done]) and declares [Frame],
    [KissFrame], [Command] and [Protocol] anew beside theirs, with other layouts and numbers. The
    names are read here as those of the modules, so a [Command_Transmit] is the [COMMAND_TRANSMIT]
    of protocol.c. It leaves some variables without a value; those are the arguments [blank] (the
    answer to a ping and a reset) and [cfg] (the parameters of RNode). *)
From S2P Require Import Prelude Crc16 Protocol Router Kiss RNode PbMessage MeshSerial MeshHandler.

(** ** Data *)

Inductive RadioError :=
  | RadioError_None | RadioError_TxTimeout | RadioError_BusyTimeout | RadioError_RxTimeout
  | RadioError_CrcError | RadioError_Other.

(** What the radio does with the calls of one handler. *)
Record Answers := mkAnswers {
  a_configure : Protocol.RadioConfig -> bool;
  a_transmit : list Z -> RadioError;
  a_start_rx : bool;
  a_standby : bool
}.

Inductive output :=
  | Uart (bytes : list Z)
  | Configure (c : Protocol.RadioConfig)
  | Transmit (data : list Z)
  | StartRx
  | BleQueue (data : list Z)
  | BleNotify (n : Z).

Record Stats := mkCoreStats {
  tx_packets : Z; rx_packets : Z; tx_errors : Z; rx_errors : Z; protocol_switches : Z
}.

(** "1.0.0", "Config failed", "Unknown command". *)
Definition FIRMWARE_VERSION : list Z := [49; 46; 48; 46; 48].
Definition config_failed : list Z := [67; 111; 110; 102; 105; 103; 32; 102; 97; 105; 108; 101; 100].
Definition unknown_command : list Z := [85; 110; 107; 110; 111; 119; 110; 32; 99; 111; 109; 109; 97; 110; 100].

Section Core.
Context `{MeshModules}.
(** The hash rnode.c uses, the airtime it computes, the encoder of FromRadio packets. *)
Context (hash : list Z -> list Z) (airtime : RNodeConfig -> nat -> Z)
  (encode_fromradio : MeshHandler.MeshPacket -> option (list Z)).

Record LunarCore := mkCore {
  router : ProtocolRouter;
  meshcore_parser : FrameParser;
  meshtastic : MeshtasticHandler;
  rnode : RNodeHandler;
  core_stats : Stats;
  rx_active : bool;
  serial_protocol : Router.Protocol;
  meshtastic_rx_count : Z
}.

Definition lunar_core_new (items : list (list Z)) (node_id : Z) : LunarCore :=
  mkCore protocol_router_new frame_parser_new (meshtastic_handler_new items node_id) rnode_handler_new
    (mkCoreStats 0 0 0 0 0) false PROTOCOL_UNKNOWN 0.

Definition with_router (c : LunarCore) (r : ProtocolRouter) : LunarCore :=
  mkCore r (meshcore_parser c) (meshtastic c) (rnode c) (core_stats c) (rx_active c) (serial_protocol c)
    (meshtastic_rx_count c).
Definition with_frame_parser (c : LunarCore) (p : FrameParser) : LunarCore :=
  mkCore (router c) p (meshtastic c) (rnode c) (core_stats c) (rx_active c) (serial_protocol c)
    (meshtastic_rx_count c).
Definition with_meshtastic (c : LunarCore) (h : MeshtasticHandler) : LunarCore :=
  mkCore (router c) (meshcore_parser c) h (rnode c) (core_stats c) (rx_active c) (serial_protocol c)
    (meshtastic_rx_count c).
Definition with_rnode (c : LunarCore) (h : RNodeHandler) : LunarCore :=
  mkCore (router c) (meshcore_parser c) (meshtastic c) h (core_stats c) (rx_active c) (serial_protocol c)
    (meshtastic_rx_count c).
Definition with_core_stats (c : LunarCore) (s : Stats) : LunarCore :=
  mkCore (router c) (meshcore_parser c) (meshtastic c) (rnode c) s (rx_active c) (serial_protocol c)
    (meshtastic_rx_count c).
Definition with_rx (c : LunarCore) (b : bool) : LunarCore :=
  mkCore (router c) (meshcore_parser c) (meshtastic c) (rnode c) (core_stats c) b (serial_protocol c)
    (meshtastic_rx_count c).
Definition with_protocol (c : LunarCore) (p : Router.Protocol) : LunarCore :=
  mkCore (router c) (meshcore_parser c) (meshtastic c) (rnode c) (core_stats c) (rx_active c) p
    (meshtastic_rx_count c).
Definition with_ble_count (c : LunarCore) (n : Z) : LunarCore :=
  mkCore (router c) (meshcore_parser c) (meshtastic c) (rnode c) (core_stats c) (rx_active c) (serial_protocol c) n.

(** [stats.x++] *)
Definition count_tx (c : LunarCore) : LunarCore :=
  let s := core_stats c in
  with_core_stats c (mkCoreStats (u32 (tx_packets s + 1)) (rx_packets s) (tx_errors s) (rx_errors s) (protocol_switches s)).
Definition count_tx_error (c : LunarCore) : LunarCore :=
  let s := core_stats c in
  with_core_stats c (mkCoreStats (tx_packets s) (rx_packets s) (u32 (tx_errors s + 1)) (rx_errors s) (protocol_switches s)).
Definition count_rx (c : LunarCore) : LunarCore :=
  let s := core_stats c in
  with_core_stats c (mkCoreStats (tx_packets s) (u32 (rx_packets s + 1)) (tx_errors s) (rx_errors s) (protocol_switches s)).
Definition count_rx_error (c : LunarCore) : LunarCore :=
  let s := core_stats c in
  with_core_stats c (mkCoreStats (tx_packets s) (rx_packets s) (tx_errors s) (u32 (rx_errors s + 1)) (protocol_switches s)).
Definition count_switch (c : LunarCore) : LunarCore :=
  let s := core_stats c in
  with_core_stats c (mkCoreStats (tx_packets s) (rx_packets s) (tx_errors s) (rx_errors s) (u32 (protocol_switches s + 1))).

(** ** Radio parameters *)

(** [cfg]: frequency, spreading factor, bandwidth, coding rate, power. *)
Definition radio_config_for (cfg : Z * Z * Z * Z * Z) (p : Router.Protocol) : option Protocol.RadioConfig :=
  match p with
  | PROTOCOL_MESHCORE => Some (mkRadioConfig 915000000 9 0 1 14 0x12 8 true false false)
  | PROTOCOL_MESHTASTIC => Some (mkRadioConfig 906875000 11 0 1 17 0x2B 16 true false true)
  | PROTOCOL_RNODE =>
      let '(freq, sf, bw, cr, power) := cfg in
      Some (mkRadioConfig freq sf
              (if bw =? 125000 then 0 else if bw =? 250000 then 1 else if bw =? 500000 then 2 else 0)
              (if 4 <? cr then cr - 4 else 0) power 0x12 8 true false (11 <=? sf))
  | _ => None
  end.

(** A refusal of the radio is only logged. *)
Definition configure_radio_for_protocol (cfg : Z * Z * Z * Z * Z) (c : LunarCore) (p : Router.Protocol)
    : LunarCore * list output :=
  match radio_config_for cfg p with
  | Some config => (with_router c (protocol_router_set_lora_protocol (router c) p), [Configure config])
  | None => (c, [])
  end.

(** ** Frames of the host *)

Definition send_frame (frame : Frame) : list output := [Uart (frame_encode frame)].
Definition send_option (frame : option Frame) : list output :=
  match frame with Some frame => send_frame frame | None => [] end.

(** [radio_start_rx] when reception is off. *)
Definition restart_rx (a : Answers) (c : LunarCore) (allowed : bool) : LunarCore * list output :=
  if allowed && negb (rx_active c) then (if a_start_rx a then with_rx c true else c, [StartRx]) else (c, []).

Definition transmit_error_code (err : RadioError) : Z :=
  match err with RadioError_TxTimeout => 1 | RadioError_BusyTimeout => 2 | _ => 255 end.

(** The switch over the commands. *)
Definition meshcore_command (blank : Frame) (a : Answers) (c : LunarCore) (frame : Frame) : LunarCore * list output :=
  let sequence := frame_sequence frame in
  let data := frame_data frame in
  match frame_command frame with
  | COMMAND_PING => (c, send_frame blank)
  | COMMAND_CONFIGURE =>
      match parse_config data with
      | Some config =>
          (c, Configure config ::
              if a_configure a config then send_frame (build_config_ack sequence)
              else send_option (build_error sequence config_failed))
      | None => (c, [])
      end
  | COMMAND_TRANSMIT =>
      let c := with_rx c false in
      match a_transmit a data with
      | RadioError_None =>
          (with_rx (count_tx c) true, Transmit data :: send_frame (build_tx_done sequence) ++ [StartRx])
      | err =>
          (count_tx_error c, Transmit data :: send_option (build_tx_error sequence (transmit_error_code err)))
      end
  | COMMAND_VERSION => (c, send_option (build_version_response sequence FIRMWARE_VERSION))
  | COMMAND_GET_STATS =>
      let s := core_stats c in
      (c, send_option (build_stats_response sequence (tx_packets s) (rx_packets s) (tx_errors s) (rx_errors s)))
  | COMMAND_RESET => (with_rx c false, send_frame blank)
  | _ => (c, send_option (build_error sequence unknown_command))
  end.

Definition handle_meshcore_frame (blank : Frame) (a : Answers) (c : LunarCore) (frame : Frame) : LunarCore * list output :=
  let '(c, out) := meshcore_command blank a c frame in
  let '(c, more) := restart_rx a c (a_standby a) in
  (c, out ++ more).

Definition send_meshtastic_response (c : LunarCore) (response : list Z) : LunarCore * list output :=
  let serial := match meshtastic_handler_build_serial_frame response with Some f => [Uart f] | None => [] end in
  let n := u32 (meshtastic_rx_count c + 1) in
  (with_ble_count c n, serial ++ [BleQueue response; BleNotify n]).

(** The loop ends with the queue: one turn per response that waits. *)
Fixpoint flush_meshtastic_responses (fuel : nat) (c : LunarCore) : LunarCore * list output :=
  match meshtastic_handler_poll_pending_response (meshtastic c) with
  | (h, Some (TO_RADIO_RESPONSE_FROM_RADIO response)) =>
      match fuel with
      | O => (c, [])
      | S fuel =>
          let '(c, out) := send_meshtastic_response (with_meshtastic c h) response in
          let '(c, more) := flush_meshtastic_responses fuel c in
          (c, out ++ more)
      end
  | (h, _) => (with_meshtastic c h, [])
  end.

(** A transmission of the Meshtastic and RNode handlers. *)
Definition transmit_and_listen (a : Answers) (c : LunarCore) (data : list Z) : LunarCore * list output :=
  let c := with_rx c false in
  match a_transmit a data with
  | RadioError_None => (with_rx (count_tx c) true, [Transmit data; StartRx])
  | _ => (count_tx_error c, [Transmit data])
  end.

Definition handle_meshtastic_frame (a : Answers) (c : LunarCore) (frame : list Z) : LunarCore * list output :=
  let '(h, res) := meshtastic_handler_process_toradio (meshtastic c) frame in
  let c := with_meshtastic c h in
  let '(c, out) :=
    match res with
    | Some (TO_RADIO_RESPONSE_LORA_PACKET data) => transmit_and_listen a c data
    | Some (TO_RADIO_RESPONSE_FROM_RADIO data) =>
        let '(c, out) := send_meshtastic_response c data in
        let '(c, more) := flush_meshtastic_responses (meshtastic_handler_pending_response_count (meshtastic c)) c in
        (c, out ++ more)
    | None => (c, [])
    end in
  let '(c, more) := restart_rx a c true in
  (c, out ++ more).

Definition rnode_handler_is_online (h : RNodeHandler) : bool :=
  match RNode.state h with RNODE_STATE_OFFLINE => false | _ => true end.

Definition rnode_handler_get_tx_data (h : RNodeHandler) (frame : KissFrame) : RNodeHandler * option (list Z) :=
  if kf_command frame =? KISS_CMD_DATA_FRAME then
    let s := stats h in
    let n := length (kf_data frame) in
    (RNode.with_stats h (RNode.mkStats (rx_count s) (rx_bytes s) (u32 (tx_count s + 1)) (u64 (tx_bytes s + Z.of_nat n))
       (last_rssi s) (last_snr s) (u64 (airtime_used s + airtime (config h) n)) (channel_busy s)),
     Some (kf_data frame))
  else (h, None).

Definition handle_rnode_frame (a : Answers) (c : LunarCore) (frame : KissFrame) : LunarCore * list output :=
  let '(h, response) := rnode_handler_process_frame hash (rnode c) frame in
  let c := with_rnode c h in
  let out := match response with Some r => [Uart (kiss_frame_encode r)] | None => [] end in
  let '(c, sent) :=
    if kf_command frame =? KISS_CMD_DATA_FRAME then
      let '(h, tx_data) := rnode_handler_get_tx_data (rnode c) frame in
      let c := with_rnode c h in
      match tx_data with
      | Some data => transmit_and_listen a c data
      | None => (c, [])
      end
    else (c, []) in
  let '(c, more) := restart_rx a c (rnode_handler_is_online (rnode c)) in
  (c, out ++ sent ++ more).

(** ** A byte of the host *)

Definition usb_detector (c : LunarCore) : ProtocolDetector :=
  ts_detector (protocol_router_transport (router c) TRANSPORT_TYPE_USB_SERIAL).
Definition set_usb_detector (c : LunarCore) (d : ProtocolDetector) : LunarCore :=
  let ts := protocol_router_transport (router c) TRANSPORT_TYPE_USB_SERIAL in
  with_router c (set_transport (router c) TRANSPORT_TYPE_USB_SERIAL (mkTransportState (ts_transport ts) d (ts_active ts))).
Definition confirm_frame (c : LunarCore) : LunarCore :=
  set_usb_detector c (protocol_detector_confirm_frame (usb_detector c)).

(** Detection. *)
Definition detect_byte (cfg : Z * Z * Z * Z * Z) (c : LunarCore) (byte : Z) : LunarCore * list output :=
  match serial_protocol c with
  | PROTOCOL_UNKNOWN =>
      let '(d, detected) := protocol_detector_feed (usb_detector c) byte in
      let c := set_usb_detector c d in
      match detected with
      | None | Some PROTOCOL_UNKNOWN => (c, [])
      | Some p => configure_radio_for_protocol cfg (count_switch (with_protocol c p)) p
      end
  | _ => (c, [])
  end.

(** What one byte meets: the values main.c leaves open and the answers of the radio. *)
Record Input := mkInput { i_cfg : Z * Z * Z * Z * Z; i_blank : Frame; i_answers : Answers }.

Definition lunar_core_process_serial_byte (i : Input) (c : LunarCore) (byte : Z) : LunarCore * list output :=
  let '(c, out) := detect_byte (i_cfg i) c byte in
  let '(c, more) :=
    match serial_protocol c with
    | PROTOCOL_MESHCORE =>
        let '(p, frame) := frame_parser_feed (meshcore_parser c) byte in
        let c := with_frame_parser c p in
        match frame with
        | Some frame => let '(c, more) := handle_meshcore_frame (i_blank i) (i_answers i) c frame in (confirm_frame c, more)
        | None => (c, [])
        end
    | PROTOCOL_MESHTASTIC =>
        let '(h, frame) := meshtastic_handler_feed_serial (meshtastic c) byte in
        let c := with_meshtastic c h in
        match frame with
        | Some frame => let '(c, more) := handle_meshtastic_frame (i_answers i) c frame in (confirm_frame c, more)
        | None => (c, [])
        end
    | PROTOCOL_RNODE =>
        let '(h, frame) := rnode_handler_feed_serial (rnode c) byte in
        let c := with_rnode c h in
        match frame with
        | Some frame => let '(c, more) := handle_rnode_frame (i_answers i) c frame in (confirm_frame c, more)
        | None => (c, [])
        end
    | _ => (c, [])
    end in
  (c, out ++ more).

(** The loop of run_lunarcore over the bytes that have come; one [Input] serves them. *)
Fixpoint process_serial (i : Input) (c : LunarCore) (bytes : list Z) : LunarCore * list output :=
  match bytes with
  | [] => (c, [])
  | byte :: bytes =>
      let '(c, out) := lunar_core_process_serial_byte i c byte in
      let '(c, more) := process_serial i c bytes in
      (c, out ++ more)
  end.

(** ** A packet of the radio *)

Definition route_rx_packet (out_frame : KissFrame) (c : LunarCore) (data : list Z) (rssi snr : Z)
    : LunarCore * list output :=
  match serial_protocol c with
  | PROTOCOL_MESHCORE => (c, send_option (build_receive rssi snr data))
  | PROTOCOL_MESHTASTIC =>
      let '(h, pkt) := meshtastic_handler_process_lora_packet (meshtastic c) data rssi snr in
      (with_meshtastic c h,
       match pkt ≫= encode_fromradio with
       | Some from_radio =>
           match meshtastic_handler_build_serial_frame from_radio with Some f => [Uart f] | None => [] end
       | None => []
       end)
  | PROTOCOL_RNODE =>
      let '(h, frame) := rnode_handler_process_lora_packet (rnode c) data rssi snr out_frame in
      (with_rnode c h, [Uart (kiss_frame_encode frame)])
  | _ => (c, [])
  end.

(** [radio_check_rx]: the error, the packet, the signal. *)
Definition check_rx (out_frame : KissFrame) (c : LunarCore) (received : RadioError * list Z * Z * Z)
    : LunarCore * list output :=
  let '(err, data, rssi, snr) := received in
  if negb (rx_active c) then (c, [])
  else
    match err with
    | RadioError_None =>
        if (0 <? length data)%nat then route_rx_packet out_frame (count_rx c) data rssi snr else (c, [])
    | RadioError_RxTimeout => (c, [StartRx])
    | RadioError_CrcError => (count_rx_error c, [StartRx])
    | _ => (count_rx_error c, [])
    end.

End Core.

(** ** MeshCore: frames instead of bytes *)

Section Host.
Context `{MeshModules}.
Context (hash : list Z -> list Z) (airtime : RNodeConfig -> nat -> Z).
Context (i : Input).

Abbreviation process := (process_serial hash airtime i).
Abbreviation handle := (handle_meshcore_frame (i_blank i) (i_answers i)).

(** The frames one after the other, each confirmed to the detector. *)
Fixpoint handle_frames (c : LunarCore) (fs : list Frame) : LunarCore * list output :=
  match fs with
  | [] => (c, [])
  | f :: fs =>
      let '(c, out) := handle c f in
      let '(c, more) := handle_frames (confirm_frame c) fs in
      (c, out ++ more)
  end.

Lemma handle_parser c p f : handle (with_frame_parser c p) f
  = (with_frame_parser (handle c f).1 p, (handle c f).2).
Proof.
  unfold handle_meshcore_frame, meshcore_command, restart_rx. destruct f as [cmd s d]. cbn [frame_command frame_data frame_sequence].
  destruct cmd; try destruct (parse_config d); try destruct (a_transmit (i_answers i) d); cbn [negb andb];
    rewrite ?andb_false_r; cbn; try (destruct (a_standby (i_answers i)), (rx_active c); cbn; destruct (a_start_rx (i_answers i)));
    try reflexivity.
Qed.

Lemma confirm_parser c p : confirm_frame (with_frame_parser c p) = with_frame_parser (confirm_frame c) p.
Proof. reflexivity. Qed.

Lemma handle_frames_parser c p fs : handle_frames (with_frame_parser c p) fs
  = (with_frame_parser (handle_frames c fs).1 p, (handle_frames c fs).2).
Proof.
  revert c. induction fs as [|f fs IH]; intros c; [done|]. cbn [handle_frames]. rewrite handle_parser.
  destruct (handle c f) as [c1 o1]. cbn [fst snd]. rewrite confirm_parser, IH.
  by destruct (handle_frames (confirm_frame c1) fs).
Qed.

Lemma handle_protocol c f : serial_protocol (handle c f).1 = serial_protocol c /\ meshcore_parser (handle c f).1 = meshcore_parser c.
Proof.
  unfold handle_meshcore_frame, meshcore_command, restart_rx. destruct f as [cmd s d]. cbn [frame_command frame_data frame_sequence].
  destruct cmd; try destruct (parse_config d); try destruct (a_transmit (i_answers i) d); cbn [negb andb];
    rewrite ?andb_false_r; cbn; try (destruct (a_standby (i_answers i)), (rx_active c); cbn; destruct (a_start_rx (i_answers i)));
    split; reflexivity.
Qed.

Lemma handle_frames_protocol c fs : serial_protocol (handle_frames c fs).1 = serial_protocol c
  /\ meshcore_parser (handle_frames c fs).1 = meshcore_parser c.
Proof.
  revert c. induction fs as [|f fs IH]; intros c; [done|]. cbn [handle_frames].
  destruct (handle_protocol c f) as [Hp Hm]. destruct (handle c f) as [c1 o1]. cbn [fst] in Hp, Hm.
  destruct (IH (confirm_frame c1)) as [Hp' Hm']. destruct (handle_frames (confirm_frame c1) fs) as [c2 o2].
  cbn [fst] in *. rewrite Hp', Hm'. by split.
Qed.

Lemma process_byte_meshcore c b : serial_protocol c = PROTOCOL_MESHCORE ->
  lunar_core_process_serial_byte hash airtime i c b =
  let '(p, f) := frame_parser_feed (meshcore_parser c) b in
  let '(c', out) := handle_frames c (option_list f) in (with_frame_parser c' p, out).
Proof.
  intros Hc. unfold lunar_core_process_serial_byte, detect_byte. rewrite Hc. cbv beta iota zeta. rewrite Hc.
  destruct (frame_parser_feed (meshcore_parser c) b) as [p [f|]]; [|done].
  change (option_list (Some f)) with [f]. cbn [handle_frames]. rewrite handle_parser. destruct (handle c f) as [c1 o1]. cbn [fst snd app].
  by rewrite app_nil_r, confirm_parser.
Qed.

(** Once the protocol is MeshCore, the bytes of the host amount to the frames the parser of
    protocol.c cuts out of them, handled one after the other. *)
Lemma process_meshcore c bytes : serial_protocol c = PROTOCOL_MESHCORE ->
  process c bytes =
  let '(p, fs) := feed_all (meshcore_parser c) bytes in
  let '(c', out) := handle_frames c fs in (with_frame_parser c' p, out).
Proof.
  revert c. induction bytes as [|b bytes IH]; intros c Hc; [by destruct c|]. cbn [process_serial feed_all].
  rewrite process_byte_meshcore by done. destruct (frame_parser_feed (meshcore_parser c) b) as [p f].
  destruct (handle_frames_protocol c (option_list f)) as [Hp _].
  destruct (handle_frames c (option_list f)) as [c1 o1] eqn:E1. cbn [fst] in Hp.
  rewrite IH by (cbn; congruence). cbn [meshcore_parser with_frame_parser].
  destruct (feed_all p bytes) as [p2 fs]. rewrite handle_frames_parser.
  assert (handle_frames c (option_list f ++ fs) =
    let '(c2, o2) := handle_frames c1 fs in (c2, o1 ++ o2)) as ->.
  { destruct f as [f|].
    - change (option_list (Some f)) with [f] in *. cbn [app handle_frames] in *.
      destruct (handle c f) as [c3 o3]. apply pair_equal_spec in E1 as [<- <-]. rewrite app_nil_r.
      by destruct (handle_frames (confirm_frame c3) fs).
    - change (option_list None) with (@nil Frame) in *. cbn [app handle_frames] in *.
      apply pair_equal_spec in E1 as [<- <-]. by destruct (handle_frames c fs). }
  by destruct (handle_frames c1 fs).
Qed.

(** ** The answers *)

Definition uart_bytes (out : list output) : list Z :=
  concat ((fun o => match o with Uart b => b | _ => [] end) <$> out).

Lemma uart_bytes_app a b : uart_bytes (a ++ b) = uart_bytes a ++ uart_bytes b.
Proof. unfold uart_bytes. by rewrite fmap_app, concat_app. Qed.

(** The commands that main.c answers with a frame of its own: not the ping and the reset, whose
    answer has no value, and not a configuration too short to be read. *)
Definition answered (f : Frame) : bool :=
  match frame_command f with COMMAND_CONFIGURE => (14 <=? length (frame_data f))%nat | _ => true end.
Definition plain (f : Frame) : Prop := frame_command f <> COMMAND_PING /\ frame_command f <> COMMAND_RESET.

Lemma restart_uart a c allowed : uart_bytes (restart_rx a c allowed).2 = [].
Proof. unfold restart_rx. by destruct (_ && _), (a_start_rx a). Qed.

Lemma parse_config_long d : (14 <=? length d)%nat = match parse_config d with Some _ => true | None => false end.
Proof. unfold parse_config. by destruct (Nat.leb_spec 14 (length d)), (Nat.ltb_spec (length d) 14); try lia. Qed.

(** [r] answers [f] with one frame, or with none. *)
Definition answers (f : Frame) (out : list output) (r : option Frame) : Prop :=
  uart_bytes out = concat (frame_encode <$> option_list r)
  /\ frame_sequence <$> option_list r = frame_sequence <$> (if answered f then [f] else [])
  /\ Forall Protocol.frame_ok (option_list r).

Lemma answer_one f cmd d out : byte_ok (frame_sequence f) -> answered f = true ->
  (length d <= 255)%nat -> bytes_ok d ->
  uart_bytes out = frame_encode (mkFrame cmd (frame_sequence f) d) ->
  exists r, answers f out r.
Proof.
  intros Hs Ha Hl Hd Hu. exists (Some (mkFrame cmd (frame_sequence f) d)). unfold answers. rewrite Ha, Hu.
  change (option_list (Some (mkFrame cmd (frame_sequence f) d))) with [mkFrame cmd (frame_sequence f) d].
  cbn [fmap list_fmap concat frame_sequence]. rewrite app_nil_r. split; [done|]. split; [done|].
  apply Forall_singleton. by split_and!.
Qed.

Lemma uart_send f : uart_bytes (send_frame f) = frame_encode f.
Proof. apply app_nil_r. Qed.

Lemma command_answer c f : Protocol.frame_ok f -> plain f ->
  exists r, answers f (meshcore_command (i_blank i) (i_answers i) c f).2 r.
Proof.
  intros (Hl & Hs & Hd) [Hp Hr]. unfold meshcore_command. destruct f as [cmd s d]. cbn [frame_command frame_sequence frame_data] in *.
  assert (forall cmd d' out, answered (mkFrame cmd s d) = true -> (length d' <= 255)%nat -> bytes_ok d' ->
    forall cmd', uart_bytes out = uart_bytes (send_frame (mkFrame cmd' s d')) -> exists r, answers (mkFrame cmd s d) out r) as Hone.
  { intros cmd0 d' out Ha Hl' Hd' cmd' Hu. apply (answer_one _ cmd' d'); try done. by rewrite Hu, uart_send. }
  assert (bytes_ok unknown_command /\ bytes_ok config_failed /\ bytes_ok FIRMWARE_VERSION) as (B1 & B2 & B3)
    by (split_and!; apply (bool_decide_unpack _); vm_compute; exact I).
  destruct cmd; try (by destruct Hp); try (by destruct Hr);
    try (match goal with |- exists r, answers (mkFrame ?k _ _) _ r =>
      by apply (Hone k unknown_command _ eq_refl ltac:(cbn; lia) B1 COMMAND_ERROR) end).
  - pose proof (parse_config_long d) as Hc. destruct (parse_config d) as [config|].
    + destruct (a_configure (i_answers i) config).
      * by apply (Hone COMMAND_CONFIGURE [] _ Hc ltac:(cbn; lia) (Forall_nil_2 _) COMMAND_CONFIG_ACK).
      * by apply (Hone COMMAND_CONFIGURE config_failed _ Hc ltac:(cbn; lia) B2 COMMAND_ERROR).
    + exists None. unfold answers, answered. cbn [frame_command frame_data]. rewrite Hc. by split_and!.
  - destruct (a_transmit (i_answers i) d).
    1: by apply (Hone COMMAND_TRANSMIT [] _ eq_refl ltac:(cbn; lia) (Forall_nil_2 _) COMMAND_TX_DONE).
    all: eapply (Hone COMMAND_TRANSMIT [_] _ eq_refl ltac:(cbn; lia)); [|reflexivity];
      apply Forall_singleton; apply (bool_decide_unpack _); vm_compute; exact I.
  - eapply (Hone COMMAND_GET_STATS _ _ eq_refl); [| |reflexivity]; [cbn; lia|solve_bytes].
  - by apply (Hone COMMAND_VERSION FIRMWARE_VERSION _ eq_refl ltac:(cbn; lia) B3 COMMAND_VERSION_RESPONSE).
Qed.

Lemma handle_answer c f : Protocol.frame_ok f -> plain f -> exists r, answers f (handle c f).2 r.
Proof.
  intros Hf Hp. destruct (command_answer c f Hf Hp) as (r & Hu & Hs & Ho). exists r.
  unfold handle_meshcore_frame. destruct (meshcore_command (i_blank i) (i_answers i) c f) as [c1 o1].
  pose proof (restart_uart (i_answers i) c1 (a_standby (i_answers i))) as Hr.
  destruct (restart_rx _ _ _) as [c2 o2]. cbn [snd] in *. unfold answers. by rewrite uart_bytes_app, Hr, app_nil_r.
Qed.

Lemma frames_answers c fs : Forall Protocol.frame_ok fs -> Forall plain fs ->
  exists rs, uart_bytes (handle_frames c fs).2 = stream ((fun r => ([], r)) <$> rs)
  /\ frame_sequence <$> rs = frame_sequence <$> filter (fun f => answered f = true) fs
  /\ Forall Protocol.frame_ok rs.
Proof.
  intros Hf. revert c. induction Hf as [|f fs Hf _ IH]; intros c Hp; [by exists []|].
  apply Forall_cons in Hp as [Hp Hps]. cbn [handle_frames].
  destruct (handle_answer c f Hf Hp) as (r & Hu & Hs & Ho). destruct (handle c f) as [c1 o1].
  destruct (IH (confirm_frame c1) Hps) as (rs & Hu' & Hs' & Ho').
  destruct (handle_frames (confirm_frame c1) fs) as [c2 o2]. cbn [snd] in *.
  exists (option_list r ++ rs). split; [|split].
  - rewrite uart_bytes_app, Hu, Hu'. unfold stream. rewrite fmap_app, fmap_app, concat_app. f_equal. by destruct r.
  - rewrite fmap_app, Hs, Hs', filter_cons. destruct (answered f); by destruct (decide _).
  - by apply Forall_app.
Qed.

(** The dialogue of a MeshCore host. Frames with line noise between them (no ping and no reset)
    are answered on the serial port so that the host, with the same parser, reads one frame
    per request that can be read, in order and with the request's sequence number, whatever the
    radio does. *)
Theorem host_dialogue c segs : serial_protocol c = PROTOCOL_MESHCORE ->
  p_state (meshcore_parser c) = PARSER_STATE_WAIT_SYNC1 -> Forall seg_ok segs -> Forall plain segs.*2 ->
  exists p rs, feed_all frame_parser_new (uart_bytes (process c (stream segs)).2) = (p, rs)
  /\ p_state p = PARSER_STATE_WAIT_SYNC1
  /\ frame_sequence <$> rs = frame_sequence <$> filter (fun f => answered f = true) segs.*2
  /\ serial_protocol (process c (stream segs)).1 = PROTOCOL_MESHCORE
  /\ p_state (meshcore_parser (process c (stream segs)).1) = PARSER_STATE_WAIT_SYNC1.
Proof.
  intros Hc Hp Hs Hpl. rewrite process_meshcore by done.
  destruct (feed_stream (meshcore_parser c) segs Hp Hs) as (p1 & Hp1 & ->).
  assert (Forall Protocol.frame_ok segs.*2) as Hok.
  { rewrite Forall_fmap. eapply Forall_impl; [exact Hs|]. by intros x [_ H1]. }
  destruct (frames_answers c segs.*2 Hok Hpl) as (rs & Hu & Hsq & Hrs).
  destruct (handle_frames_protocol c segs.*2) as [Hpr _].
  destruct (handle_frames c segs.*2) as [c' out]. cbn [fst snd] in *. rewrite Hu.
  assert (Forall seg_ok ((fun r => ([], r)) <$> rs)) as Hsegs.
  { rewrite Forall_fmap. eapply Forall_impl; [exact Hrs|]. intros r Hr. by split. }
  destruct (feed_stream frame_parser_new _ eq_refl Hsegs) as (p2 & Hp2 & ->).
  exists p2, rs. split; [|split; [exact Hp2|split; [exact Hsq|split; [cbn; congruence|exact Hp1]]]].
  f_equal. rewrite <- list_fmap_compose. apply list_fmap_id.
Qed.

(** ** The first bytes *)

Lemma process_app c a b : process c (a ++ b) =
  let '(c1, o1) := process c a in let '(c2, o2) := process c1 b in (c2, o1 ++ o2).
Proof.
  revert c. induction a as [|x a IH]; intros c; cbn [app process_serial]; [by destruct (process c b)|].
  destruct (lunar_core_process_serial_byte hash airtime i c x) as [c1 o1]. rewrite IH.
  destruct (process c1 a) as [c2 o2]. destruct (process c2 b) as [c3 o3]. by rewrite app_assoc.
Qed.

(** A host that opens with a MeshCore frame loses it: its first two bytes make the protocol known
    and set the radio, but the first one never reached the parser. What follows is served. *)
Theorem first_frame_lost items node_id f bytes : Protocol.frame_ok f ->
  Forall (fun b => b <> 0xAA) (drop 2 (frame_encode f)) ->
  exists c, process (lunar_core_new items node_id) (frame_encode f ++ bytes)
    = (let '(c', out) := process c bytes in
       (c', Configure (mkRadioConfig 915000000 9 0 1 14 0x12 8 true false false) :: out))
  /\ serial_protocol c = PROTOCOL_MESHCORE /\ p_state (meshcore_parser c) = PARSER_STATE_WAIT_SYNC1
  /\ core_stats c = mkCoreStats 0 0 0 0 1.
Proof.
  intros _ Hn. set (c0 := lunar_core_new items node_id).
  assert (frame_encode f = SYNC ++ drop 2 (frame_encode f)) as -> by reflexivity.
  generalize dependent (drop 2 (frame_encode f)). intros rest Hn.
  destruct (process c0 SYNC) as [c1 o1] eqn:E1.
  assert (serial_protocol c1 = PROTOCOL_MESHCORE /\ meshcore_parser c1 = frame_parser_new
    /\ core_stats c1 = mkCoreStats 0 0 0 0 1
    /\ o1 = [Configure (mkRadioConfig 915000000 9 0 1 14 0x12 8 true false false)]) as (H1 & H2 & H3 & ->)
    by (vm_compute in E1; injection E1 as <- <-; by split_and!).
  exists c1. split; [|rewrite H2; by split_and!].
  rewrite <- app_assoc, process_app, E1, process_app, (process_meshcore c1 rest H1), feed_noise
    by (done || by rewrite H2).
  cbn [handle_frames]. assert (with_frame_parser c1 (meshcore_parser c1) = c1) as -> by by destruct c1.
  by destruct (process c1 bytes).
Qed.

(** A KISS host loses nothing: the first FEND makes the protocol known and is read by the parser too. *)
Theorem kiss_first_byte_kept items node_id :
  let '(c, out) := process (lunar_core_new items node_id) [FEND] in
  serial_protocol c = PROTOCOL_RNODE /\ parser (rnode c) = mkKissParser WAIT_COMMAND 0 []
  /\ core_stats c = mkCoreStats 0 0 0 0 1 /\ out = snd (configure_radio_for_protocol (i_cfg i) c PROTOCOL_RNODE).
Proof.
  cbn [process_serial]. unfold lunar_core_process_serial_byte, detect_byte, configure_radio_for_protocol, radio_config_for.
  destruct (i_cfg i) as [[[[? ?] ?] ?] ?]. vm_compute. repeat split.
Qed.

(** A host that opens with "AT" is never served: every byte from there on is dropped. *)
Theorem at_host_ignored items node_id bytes :
  let c := (process (lunar_core_new items node_id) [65; 84]).1 in
  serial_protocol c = PROTOCOL_ATCOMMAND /\ process c bytes = (c, []).
Proof.
  cbv zeta. destruct (process (lunar_core_new items node_id) [65; 84]) as [c o] eqn:E. cbn [fst].
  assert (serial_protocol c = PROTOCOL_ATCOMMAND) as Hc by (apply (f_equal fst) in E; cbn [fst] in E; rewrite <- E; vm_compute; reflexivity).
  split; [done|]. clear E. induction bytes as [|b bytes IH]; [done|]. cbn [process_serial].
  unfold lunar_core_process_serial_byte, detect_byte. rewrite Hc. cbv beta iota zeta. rewrite Hc. by rewrite IH.
Qed.
End Host.

(** ** All protocols *)

Section Any.
Context `{MeshModules}.
Context (hash : list Z -> list Z) (airtime : RNodeConfig -> nat -> Z).

(** The parts of the core that a handler leaves as they are. *)
Definition same_route (c c' : LunarCore) : Prop := serial_protocol c' = serial_protocol c /\ router c' = router c.

Lemma same_route_refl c : same_route c c.
Proof. done. Qed.
Lemma same_route_trans c1 c2 c3 : same_route c1 c2 -> same_route c2 c3 -> same_route c1 c3.
Proof. intros [H1 H2] [H3 H4]. split; congruence. Qed.

Lemma restart_route a c allowed : same_route c (restart_rx a c allowed).1
  /\ (allowed = true -> a_start_rx a = true -> rx_active (restart_rx a c allowed).1 = true).
Proof.
  unfold restart_rx. destruct (rx_active c) eqn:E, allowed, (a_start_rx a); by split.
Qed.

Lemma transmit_route a c data : same_route c (transmit_and_listen a c data).1.
Proof. unfold transmit_and_listen. by destruct (a_transmit a data). Qed.

Lemma flush_route fuel c : same_route c (flush_meshtastic_responses fuel c).1.
Proof.
  revert c. induction fuel as [|fuel IH]; intros c; cbn [flush_meshtastic_responses];
    destruct (meshtastic_handler_poll_pending_response (meshtastic c)) as [h [[|response]|]]; try done.
  unfold send_meshtastic_response. set (c1 := with_ble_count (with_meshtastic c h) _).
  specialize (IH c1). destruct (flush_meshtastic_responses fuel c1) as [c2 o2]. exact IH.
Qed.

Lemma meshcore_route blank a c f : same_route c (handle_meshcore_frame blank a c f).1
  /\ (a_standby a = true -> a_start_rx a = true -> rx_active (handle_meshcore_frame blank a c f).1 = true).
Proof.
  unfold handle_meshcore_frame. assert (same_route c (meshcore_command blank a c f).1) as H1.
  { unfold meshcore_command. destruct (frame_command f); try done; [by destruct (parse_config _)|by destruct (a_transmit a _)]. }
  destruct (meshcore_command blank a c f) as [c1 o1]. destruct (restart_route a c1 (a_standby a)) as [H2 H3].
  destruct (restart_rx a c1 (a_standby a)) as [c2 o2]. split; [exact (same_route_trans _ _ _ H1 H2)|exact H3].
Qed.

Lemma meshtastic_route a c f : same_route c (handle_meshtastic_frame a c f).1
  /\ (a_start_rx a = true -> rx_active (handle_meshtastic_frame a c f).1 = true).
Proof.
  unfold handle_meshtastic_frame. destruct (meshtastic_handler_process_toradio (meshtastic c) f) as [h res].
  set (step := match res with Some (TO_RADIO_RESPONSE_LORA_PACKET data) => _ | _ => _ end).
  assert (same_route c step.1) as H1.
  { subst step. destruct res as [[data|data]|]; [|unfold send_meshtastic_response|done].
    - exact (transmit_route a (with_meshtastic c h) data).
    - set (c1 := with_ble_count (with_meshtastic c h) _).
      pose proof (flush_route (meshtastic_handler_pending_response_count (meshtastic c1)) c1) as H1.
      by destruct (flush_meshtastic_responses _ c1). }
  destruct step as [c1 o1]. destruct (restart_route a c1 true) as [H2 H3].
  destruct (restart_rx a c1 true) as [c2 o2]. split; [exact (same_route_trans _ _ _ H1 H2)|by apply H3].
Qed.

Lemma rnode_route a c f : same_route c (handle_rnode_frame hash airtime a c f).1
  /\ (a_start_rx a = true -> rnode_handler_is_online (rnode (handle_rnode_frame hash airtime a c f).1) = true ->
      rx_active (handle_rnode_frame hash airtime a c f).1 = true).
Proof.
  unfold handle_rnode_frame. destruct (rnode_handler_process_frame hash (rnode c) f) as [h r].
  set (step := if kf_command f =? KISS_CMD_DATA_FRAME then _ else _).
  assert (same_route c step.1) as H1.
  { subst step. destruct (_ =? _); [|done]. destruct (rnode_handler_get_tx_data airtime _ f) as [h2 [d|]]; [|done].
    exact (transmit_route a (with_rnode (with_rnode c h) h2) d). }
  destruct step as [c1 o1]. destruct (restart_route a c1 (rnode_handler_is_online (rnode c1))) as [H2 H3].
  assert (rnode (restart_rx a c1 (rnode_handler_is_online (rnode c1))).1 = rnode c1) as Er
    by (unfold restart_rx; by destruct (_ && _), (a_start_rx a)).
  destruct (restart_rx a c1 _) as [c2 o2]. split; [exact (same_route_trans _ _ _ H1 H2)|].
  cbn [fst] in *. intros Ha Ho. apply H3; [by rewrite <- Er|done].
Qed.

Lemma byte_protocol i c b : serial_protocol c <> PROTOCOL_UNKNOWN ->
  serial_protocol (lunar_core_process_serial_byte hash airtime i c b).1 = serial_protocol c
  /\ r_lora_protocol (router (lunar_core_process_serial_byte hash airtime i c b).1) = r_lora_protocol (router c).
Proof.
  intros Hc. unfold lunar_core_process_serial_byte, detect_byte.
  destruct (serial_protocol c) eqn:E; [done| | | |]; cbv beta iota zeta; rewrite E.
  - destruct (frame_parser_feed (meshcore_parser c) b) as [p [f|]]; [|done].
    destruct (meshcore_route (i_blank i) (i_answers i) (with_frame_parser c p) f) as [[H1 H2] _].
    destruct (handle_meshcore_frame _ _ _ _) as [c1 o1]. cbn in *. by rewrite H1, H2.
  - destruct (meshtastic_handler_feed_serial (meshtastic c) b) as [h [f|]]; [|done].
    destruct (meshtastic_route (i_answers i) (with_meshtastic c h) f) as [[H1 H2] _].
    destruct (handle_meshtastic_frame _ _ _) as [c1 o1]. cbn in *. by rewrite H1, H2.
  - destruct (rnode_handler_feed_serial (rnode c) b) as [h [f|]]; [|done].
    destruct (rnode_route (i_answers i) (with_rnode c h) f) as [[H1 H2] _].
    destruct (handle_rnode_frame _ _ _ _ _) as [c1 o1]. cbn in *. by rewrite H1, H2.
  - done.
Qed.

(** The protocol of the serial port, once known, is never given up, whatever the host sends: only a
    restart of the board changes it, and the radio stays with its protocol. *)
Theorem serial_protocol_sticky i c bytes : serial_protocol c <> PROTOCOL_UNKNOWN ->
  let c' := (process_serial hash airtime i c bytes).1 in
  serial_protocol c' = serial_protocol c /\ r_lora_protocol (router c') = r_lora_protocol (router c).
Proof.
  cbv zeta. revert c. induction bytes as [|b bytes IH]; intros c Hc; [done|]. cbn [process_serial].
  destruct (byte_protocol i c b Hc) as [H1 H2]. destruct (lunar_core_process_serial_byte hash airtime i c b) as [c1 o1].
  cbn [fst] in *. destruct (IH c1 ltac:(congruence)) as [H3 H4]. destruct (process_serial hash airtime i c1 bytes) as [c2 o2].
  cbn [fst] in *. split; congruence.
Qed.

(** After every frame of the host the radio listens again, when it can: also after a transmission
    that failed. The RNode handler needs to be on line, the MeshCore handler an idle radio. *)
Theorem radio_listens_again blank a c : a_start_rx a = true ->
  (a_standby a = true -> forall f, rx_active (handle_meshcore_frame blank a c f).1 = true)
  /\ (forall f, rx_active (handle_meshtastic_frame a c f).1 = true)
  /\ (forall f, rnode_handler_is_online (rnode (handle_rnode_frame hash airtime a c f).1) = true ->
      rx_active (handle_rnode_frame hash airtime a c f).1 = true).
Proof.
  intros Ha. split; [intros Hs f; by apply meshcore_route|]. split; [intros f; by apply meshtastic_route|].
  intros f Ho. by apply rnode_route.
Qed.

End Any.

(** ** The queue of responses *)

Section Flush.
Context `{MeshModules}.

Lemma uart_response c response : uart_bytes (send_meshtastic_response c response).2
  = default [] (meshtastic_handler_build_serial_frame response).
Proof.
  unfold send_meshtastic_response. cbn [snd]. rewrite uart_bytes_app.
  destruct (meshtastic_handler_build_serial_frame response); cbn; by rewrite ?app_nil_r.
Qed.

(** The loop sends every waiting response, in order, as serial frames, and leaves none. *)
Theorem responses_flushed c (q := h_pending_responses (meshtastic c)) : deque_wf q ->
  let '(c', out) := flush_meshtastic_responses (meshtastic_handler_pending_response_count (meshtastic c)) c in
  uart_bytes out = concat ((fun r => default [] (meshtastic_handler_build_serial_frame r)) <$> deque_contents q)
  /\ meshtastic_handler_has_pending_responses (meshtastic c') = false
  /\ serial_protocol c' = serial_protocol c.
Proof.
  unfold meshtastic_handler_pending_response_count, deque_len. intros Hq.
  assert (count (h_pending_responses (meshtastic c)) = length (deque_contents q)) as Hn by (by rewrite length_contents).
  rewrite Hn. clear Hn. subst q. remember (deque_contents (h_pending_responses (meshtastic c))) as l eqn:El.
  revert c Hq El. induction l as [|x l IH]; intros c Hq El; symmetry in El; cbn [length flush_meshtastic_responses].
  - assert (count (h_pending_responses (meshtastic c)) = 0%nat) as Hc by (by rewrite <- length_contents, El).
    unfold meshtastic_handler_poll_pending_response, deque_pop_front. rewrite Hc. cbn [Nat.eqb fmap option_fmap option_map].
    split; [done|]. split; [|done]. unfold meshtastic_handler_has_pending_responses, deque_is_empty. cbn. by rewrite Hc.
  - destruct (pop_contents _ x l Hq El) as (Hw & Hc & Ho). unfold meshtastic_handler_poll_pending_response.
    destruct (deque_pop_front (h_pending_responses (meshtastic c))) as [d o]. cbn [fst snd] in *. subst o.
    cbn [fmap option_fmap option_map].
    set (c1 := with_meshtastic c _). pose proof (uart_response c1 x) as Hu.
    destruct (send_meshtastic_response c1 x) as [c2 o2] eqn:E2. unfold send_meshtastic_response in E2.
    apply pair_equal_spec in E2 as [<- E2]. cbn [snd] in Hu.
    specialize (IH (with_ble_count c1 (u32 (meshtastic_rx_count c1 + 1))) Hw (eq_sym Hc)).
    destruct (flush_meshtastic_responses (length l) _) as [c3 o3]. destruct IH as (I1 & I2 & I3).
    rewrite uart_bytes_app, Hu, I1. by split_and!.
Qed.

End Flush.

(** ** A packet of the radio for a MeshCore host *)

Section Receive.
Context `{MeshModules} (encode_fromradio : MeshHandler.MeshPacket -> option (list Z)).

(** A packet of 1 to 251 bytes reaches the host as one frame, from which it reads the packet and the
    signed signal values; a longer one is counted as received and dropped without a word. *)
Theorem radio_packet_to_host out_frame c data rssi snr :
  serial_protocol c = PROTOCOL_MESHCORE -> rx_active c = true -> (0 < length data)%nat -> bytes_ok data ->
  -0x8000 <= rssi < 0x8000 -> -0x80 <= snr < 0x80 ->
  let '(c', out) := check_rx encode_fromradio out_frame c (RadioError_None, data, rssi, snr) in
  rx_packets (core_stats c') = u32 (rx_packets (core_stats c) + 1)
  /\ (if (length data <=? 251)%nat
      then exists p f, feed_all frame_parser_new (uart_bytes out) = (p, [f])
           /\ frame_command f = COMMAND_RECEIVE /\ receive_fields (frame_data f) = (rssi, snr, data)
      else out = []).
Proof.
  intros Hp Ha Hl Hb Hr Hs. unfold check_rx. rewrite Ha. cbn [negb]. destruct (Nat.ltb_spec 0 (length data)); [|lia].
  unfold route_rx_packet. change (serial_protocol (count_rx c)) with (serial_protocol c). rewrite Hp. split; [done|].
  pose proof (build_receive_roundtrip rssi snr data Hr Hs Hb) as Hf.
  destruct (build_receive rssi snr data) as [f|] eqn:Ef.
  - destruct Hf as (Hlen & Hok & Hfields). rewrite (proj2 (Nat.leb_le _ _) Hlen). cbn [send_option].
    destruct (feed_encode frame_parser_new f eq_refl Hok) as (p & _ & Hfeed). exists p, f.
    rewrite uart_send, Hfeed. split; [done|]. split; [|done]. unfold build_receive in Ef. by destruct (_ <? _); simplify_eq.
  - by rewrite (proj2 (Nat.leb_gt _ _) Hf).
Qed.
End Receive.

(** ** Instances *)

Import MeshHandler.Sample.

(** A core that serves a MeshCore host, and a radio that does what it is asked. *)
Definition sample_core : LunarCore :=
  with_rx (with_protocol (lunar_core_new (replicate 16 []) 7) PROTOCOL_MESHCORE) true.
Definition sample_input : Input :=
  mkInput (0, 0, 0, 0, 0) (build_pong 0) (mkAnswers (fun _ => true) (fun _ => RadioError_None) true true).
Definition sample_request : Frame := mkFrame COMMAND_TRANSMIT 3 [1; 2; 3].

Lemma host_dialogue_witness :
  exists p rs, feed_all frame_parser_new (uart_bytes (process_serial (fun m => m) (fun _ _ => 0) sample_input sample_core
                 (stream [([1; 2], sample_request); ([], mkFrame COMMAND_VERSION 4 [])])).2) = (p, rs)
  /\ p_state p = PARSER_STATE_WAIT_SYNC1
  /\ frame_sequence <$> rs = frame_sequence <$> filter (fun f => answered f = true) [sample_request; mkFrame COMMAND_VERSION 4 []]
  /\ serial_protocol (process_serial (fun m => m) (fun _ _ => 0) sample_input sample_core
       (stream [([1; 2], sample_request); ([], mkFrame COMMAND_VERSION 4 [])])).1 = PROTOCOL_MESHCORE
  /\ p_state (meshcore_parser (process_serial (fun m => m) (fun _ _ => 0) sample_input sample_core
       (stream [([1; 2], sample_request); ([], mkFrame COMMAND_VERSION 4 [])])).1) = PARSER_STATE_WAIT_SYNC1.
Proof.
  apply (host_dialogue (fun m => m) (fun _ _ => 0) sample_input sample_core
    [([1; 2], sample_request); ([], mkFrame COMMAND_VERSION 4 [])]); [reflexivity|reflexivity| |].
  - apply (bool_decide_unpack _). vm_compute. exact I.
  - repeat constructor; discriminate.
Defined.

Lemma first_frame_lost_witness :
  exists c, process_serial (fun m => m) (fun _ _ => 0) sample_input (lunar_core_new (replicate 16 []) 7)
      (frame_encode sample_request ++ frame_encode sample_request)
    = (let '(c', out) := process_serial (fun m => m) (fun _ _ => 0) sample_input c (frame_encode sample_request) in
       (c', Configure (mkRadioConfig 915000000 9 0 1 14 0x12 8 true false false) :: out))
  /\ serial_protocol c = PROTOCOL_MESHCORE /\ p_state (meshcore_parser c) = PARSER_STATE_WAIT_SYNC1
  /\ core_stats c = mkCoreStats 0 0 0 0 1.
Proof.
  apply (first_frame_lost (fun m => m) (fun _ _ => 0) sample_input (replicate 16 []) 7 sample_request);
    apply (bool_decide_unpack _); vm_compute; exact I.
Defined.

Lemma serial_protocol_sticky_witness :
  let c' := (process_serial (fun m => m) (fun _ _ => 0) sample_input sample_core [0x94; 0xC3; 0; 1; 7]).1 in
  serial_protocol c' = serial_protocol sample_core /\ r_lora_protocol (router c') = r_lora_protocol (router sample_core).
Proof. apply (serial_protocol_sticky (fun m => m) (fun _ _ => 0) sample_input sample_core). discriminate. Defined.

Lemma radio_listens_again_witness :
  (a_standby (i_answers sample_input) = true -> forall f,
     rx_active (handle_meshcore_frame (build_pong 0) (i_answers sample_input) sample_core f).1 = true)
  /\ (forall f, rx_active (handle_meshtastic_frame (i_answers sample_input) sample_core f).1 = true)
  /\ (forall f, rnode_handler_is_online (rnode (handle_rnode_frame (fun m => m) (fun _ _ => 0) (i_answers sample_input) sample_core f).1) = true ->
      rx_active (handle_rnode_frame (fun m => m) (fun _ _ => 0) (i_answers sample_input) sample_core f).1 = true).
Proof. apply (radio_listens_again (fun m => m) (fun _ _ => 0) (build_pong 0) (i_answers sample_input) sample_core). reflexivity. Defined.

Lemma responses_flushed_witness :
  let c := sample_core in
  let '(c', out) := flush_meshtastic_responses (meshtastic_handler_pending_response_count (meshtastic c)) c in
  uart_bytes out = concat ((fun r => default [] (meshtastic_handler_build_serial_frame r))
                           <$> deque_contents (h_pending_responses (meshtastic c)))
  /\ meshtastic_handler_has_pending_responses (meshtastic c') = false
  /\ serial_protocol c' = serial_protocol c.
Proof. apply (responses_flushed sample_core). apply deque_clear_wf. reflexivity. Defined.

Lemma radio_packet_to_host_witness :
  let '(c', out) := check_rx (fun _ => None) (kiss_frame_new 0) sample_core (RadioError_None, [1; 2; 3], -87, -5) in
  rx_packets (core_stats c') = u32 (rx_packets (core_stats sample_core) + 1)
  /\ (if (length [1; 2; 3] <=? 251)%nat
      then exists p f, feed_all frame_parser_new (uart_bytes out) = (p, [f])
           /\ frame_command f = COMMAND_RECEIVE /\ receive_fields (frame_data f) = (-87, -5, [1; 2; 3])
      else out = []).
Proof.
  apply (radio_packet_to_host (fun _ => None) (kiss_frame_new 0) sample_core [1; 2; 3] (-87) (-5)); try lia; try reflexivity.
  - cbn. lia.
  - apply (bool_decide_unpack _). vm_compute. exact I.
Defined.
